(** * Storage core of the relational engine: row codec, slotted-page heap
    file, sequential-file index and executor, embedded from the Python
    sources under [backend/core] and verified against the specification. *)

From Stdlib Require Import ZArith Lia Strings.Byte Ascii String.
From stdpp Require Import base numbers list gmap strings sorting.

Local Open Scope Z_scope.

(** ** Python exceptions and the outcome of a call *)

(** The exception classes the sources raise or let escape. *)
Inductive exn : Type :=
| StructError                  (* struct.error: short buffer or value out of range *)
| ValueError (msg : string)
| KeyError (msg : string)
| IndexError
| TypeError
| UnicodeError                 (* UnicodeEncodeError / UnicodeDecodeError *)
| OSError
| RuntimeError (msg : string).

(** A call returns a value, raises, or (for the unbounded [while] loops of
    the index, which are run with a step budget) does not finish. *)
Inductive res (A : Type) : Type :=
| Ok (a : A)
| Raise (e : exn)
| OutOfFuel.
Arguments Ok {A} a.
Arguments Raise {A} e.
Arguments OutOfFuel {A}.

Definition res_bind {A B : Type} (m : res A) (k : A -> res B) : res B :=
  match m with
  | Ok a => k a
  | Raise e => Raise e
  | OutOfFuel => OutOfFuel
  end.

Declare Scope res_scope.
Delimit Scope res_scope with res.
Notation "x <- m ;; k" := (res_bind m (fun x => k))
  (at level 100, m at next level, right associativity) : res_scope.

(** Stateful code: the backing file is threaded through, and it survives an
    exception (nothing is rolled back). *)
Definition M (S A : Type) : Type := S -> res A * S.

Definition ret {S A : Type} (a : A) : M S A := fun s => (Ok a, s).
Definition throw {S A : Type} (e : exn) : M S A := fun s => (Raise e, s).
Definition timeout {S A : Type} : M S A := fun s => (OutOfFuel, s).
Definition bind {S A B : Type} (m : M S A) (k : A -> M S B) : M S B :=
  fun s => match m s with
           | (Ok a, s') => k a s'
           | (Raise e, s') => (Raise e, s')
           | (OutOfFuel, s') => (OutOfFuel, s')
           end.
(** A read: looks at the file and leaves it as it is. *)
Definition peek {S A : Type} (f : S -> res A) : M S A := fun s => (f s, s).
(** A write that cannot fail. *)
Definition poke {S : Type} (f : S -> S) : M S unit := fun s => (Ok tt, f s).

Declare Scope M_scope.
Delimit Scope M_scope with M.
Notation "x <~ m ;; k" := (bind m (fun x => k))
  (at level 100, m at next level, right associativity) : M_scope.
Notation "m ;;; k" := (bind m (fun _ => k))
  (at level 100, right associativity) : M_scope.

(** ** Bytes and the [struct] module *)

Abbreviation bytes := (list byte).

Definition b2z (b : byte) : Z := Z.of_N (Byte.to_N b).
Definition z2b (z : Z) : byte :=
  match Byte.of_N (Z.to_N z) with
  | Some b => b
  | None => x00
  end.

(** [n] bytes of [z], least significant first. *)
Fixpoint le_bytes (n : nat) (z : Z) : bytes :=
  match n with
  | O => []
  | S n' => z2b (z mod 256) :: le_bytes n' (z / 256)
  end.

Fixpoint le_val (bs : bytes) : Z :=
  match bs with
  | [] => 0
  | b :: r => b2z b + 256 * le_val r
  end.

(** Python slice [buf[lo:hi]] for [0 <= lo]: clipped to the buffer, never an error. *)
Definition slice (buf : bytes) (lo hi : nat) : bytes :=
  take (hi - lo)%nat (drop lo buf).

(** [struct.pack("<H", n)] *)
Definition pack_H (n : Z) : res bytes :=
  if (0 <=? n) && (n <=? 65535) then Ok (le_bytes 2 n) else Raise StructError.

(** [struct.pack("<i", n)]: two's complement on 32 bits. *)
Definition pack_i (n : Z) : res bytes :=
  if (-2147483648 <=? n) && (n <=? 2147483647)
  then Ok (le_bytes 4 (n mod 4294967296)) else Raise StructError.

Definition signed32 (v : Z) : Z :=
  if v <? 2147483648 then v else v - 4294967296.

(** [struct.unpack_from(fmt, buf, off)] needs [size] bytes at [off]. *)
Definition unpack_from (size : nat) (buf : bytes) (off : nat) : res bytes :=
  if (off + size <=? length buf)%nat then Ok (slice buf off (off + size))
  else Raise StructError.

Definition unpack_from_H (buf : bytes) (off : nat) : res Z :=
  (bs <- unpack_from 2 buf off ;; Ok (le_val bs))%res.

Definition unpack_from_i (buf : bytes) (off : nat) : res Z :=
  (bs <- unpack_from 4 buf off ;; Ok (signed32 (le_val bs)))%res.

(** ** Row identifiers ([model.base.RID]) *)

Record RID : Type := mkRID { page : Z; slot : Z }.

(** ** Python [str] and UTF-8 *)

(** A [str] is its sequence of code points. *)
Abbreviation pystr := (list Z).

(** The text of an ASCII literal. *)
Definition pystr_of_string (s : string) : pystr :=
  map (fun c => Z.of_N (N_of_ascii c)) (list_ascii_of_string s).

(** [s == t] on two texts. *)
Fixpoint pystr_eqb (s t : pystr) : bool :=
  match s, t with
  | [], [] => true
  | c :: s', d :: t' => (c =? d) && pystr_eqb s' t'
  | _, _ => false
  end.

(** [s.startswith(t)] *)
Fixpoint startswith (s t : pystr) : bool :=
  match t, s with
  | [], _ => true
  | d :: t', c :: s' => (c =? d) && startswith s' t'
  | _ :: _, [] => false
  end.

(** [s.index(ch)]: the position of the first [ch], [None] for [ValueError]. *)
Fixpoint index_of (ch : Z) (s : pystr) : option nat :=
  match s with
  | [] => None
  | c :: r => if c =? ch then Some 0%nat else S <$> index_of ch r
  end.

(** The bytes a code point is written with in a message: UTF-8, a lone
    surrogate (which [encode] refuses) in the same three-byte form. *)
Definition utf8_bytes_cp (c : Z) : list Z :=
  if c <? 128 then [c]
  else if c <? 2048 then [192 + c / 64; 128 + c mod 64]
  else if c <? 65536 then [224 + c / 4096; 128 + (c / 64) mod 64; 128 + c mod 64]
  else [240 + c / 262144; 128 + (c / 4096) mod 64; 128 + (c / 64) mod 64; 128 + c mod 64].

(** A text formatted into the message of an exception; the messages, like
    the literals of this file, are held as UTF-8. *)
Definition string_of_pystr (s : pystr) : string :=
  string_of_list_ascii
    (map (fun b => ascii_of_N (Z.to_N b)) (concat (map utf8_bytes_cp s))).

Definition is_surrogate (c : Z) : bool := (55296 <=? c) && (c <=? 57343).

(** [chr(c).encode("utf-8")]; a lone surrogate cannot be encoded. *)
Definition utf8_encode_cp (c : Z) : res (list Z) :=
  if c <? 0 then Raise UnicodeError
  else if c <? 128 then Ok [c]
  else if c <? 2048 then Ok [192 + c / 64; 128 + c mod 64]
  else if c <? 65536 then
    if is_surrogate c then Raise UnicodeError
    else Ok [224 + c / 4096; 128 + (c / 64) mod 64; 128 + c mod 64]
  else if c <? 1114112 then
    Ok [240 + c / 262144; 128 + (c / 4096) mod 64; 128 + (c / 64) mod 64; 128 + c mod 64]
  else Raise UnicodeError.

(** [s.encode("utf-8")] *)
Fixpoint utf8_encode (s : pystr) : res bytes :=
  match s with
  | [] => Ok []
  | c :: r =>
      (bs <- utf8_encode_cp c ;;
       rest <- utf8_encode r ;;
       Ok (map z2b bs ++ rest))%res
  end.

Definition is_cont (b : Z) : bool := (128 <=? b) && (b <=? 191).

(** Strict decoding of the byte values [bs]: shortest form only, no
    surrogates, nothing above U+10FFFF, no truncated sequence. *)
Fixpoint utf8_decode_z (bs : list Z) : res pystr :=
  match bs with
  | [] => Ok []
  | b0 :: r0 =>
      if b0 <? 128 then (s <- utf8_decode_z r0 ;; Ok (b0 :: s))%res
      else if (194 <=? b0) && (b0 <=? 223) then
        match r0 with
        | b1 :: r1 =>
            if is_cont b1
            then (s <- utf8_decode_z r1 ;; Ok ((b0 - 192) * 64 + (b1 - 128) :: s))%res
            else Raise UnicodeError
        | _ => Raise UnicodeError
        end
      else if (224 <=? b0) && (b0 <=? 239) then
        match r0 with
        | b1 :: b2 :: r2 =>
            let c := (b0 - 224) * 4096 + (b1 - 128) * 64 + (b2 - 128) in
            if is_cont b1 && is_cont b2 && (2048 <=? c) && negb (is_surrogate c)
            then (s <- utf8_decode_z r2 ;; Ok (c :: s))%res
            else Raise UnicodeError
        | _ => Raise UnicodeError
        end
      else if (240 <=? b0) && (b0 <=? 244) then
        match r0 with
        | b1 :: b2 :: b3 :: r3 =>
            let c := (b0 - 240) * 262144 + (b1 - 128) * 4096
                     + (b2 - 128) * 64 + (b3 - 128) in
            if is_cont b1 && is_cont b2 && is_cont b3
               && (65536 <=? c) && (c <? 1114112)
            then (s <- utf8_decode_z r3 ;; Ok (c :: s))%res
            else Raise UnicodeError
        | _ => Raise UnicodeError
        end
      else Raise UnicodeError
  end.

(** [b.decode("utf-8")] *)
Definition utf8_decode (b : bytes) : res pystr := utf8_decode_z (map b2z b).

(** ** Row codec ([storage/heap/rowfmt.py]) *)

Module RowFmt.

(** The values a row holds: [None], an [int], a [float] (as its IEEE-754
    binary64 bit pattern, which is all the codec looks at), a [str], and the
    [{"page": p, "slot": s}] mapping that [HeapFile.read] attaches. *)
Inductive value : Type :=
| VNone
| VInt (z : Z)
| VFloat (bits : Z)
| VStr (s : pystr)
| VRid (p s : Z).

Abbreviation row := (gmap string value).
(** [List[Tuple[str, str]]]: column name and type text. A name is only ever
    compared and used as a key; a type text is looked into ([index],
    [int]), so it is kept as its code points. *)
Abbreviation schema := (list (string * pystr)).

(** [int(val)], [float(val)], [str(val)] on a value of that very type.
    Coercing a value of another dynamic type (as in [int("12")] or [str(5)])
    is outside this model and is answered with [TypeError]; what is stated
    about the content of rows is stated for values of the type of their
    column. *)
Definition py_int (v : value) : res Z :=
  match v with VInt z => Ok z | _ => Raise TypeError end.
Definition py_float (v : value) : res Z :=
  match v with VFloat b => Ok b | _ => Raise TypeError end.
Definition py_str (v : value) : res pystr :=
  match v with VStr s => Ok s | _ => Raise TypeError end.

(** [struct.pack("<d", x)] on the bit pattern of [x]. *)
Definition pack_d (bits : Z) : res bytes :=
  if (0 <=? bits) && (bits <? 18446744073709551616)
  then Ok (le_bytes 8 bits) else Raise TypeError.

Definition unpack_from_d (buf : bytes) (off : nat) : res Z :=
  (bs <- unpack_from 8 buf off ;; Ok (le_val bs))%res.

(** *** [int(text)] for the [N] of [VARCHAR(N)] *)

(** [int] on a [str] works in two steps (CPython 3.11, Unicode 14.0.0).
    First every character from U+007F on is replaced: a Unicode white space
    by a blank, a Unicode decimal digit by its ASCII digit; any other one
    makes the text invalid. Then the ASCII text is parsed in base 10: white
    space, an optional sign, digits with single underscores between them,
    white space; more than [sys.get_int_max_str_digits()] digits are
    refused. Every failure is a [ValueError], here [None]. *)

(** [Py_UNICODE_ISSPACE] above U+007F. *)
Definition is_unicode_space (c : Z) : bool :=
  (c =? 133) || (c =? 160) || (c =? 5760) || ((8192 <=? c) && (c <=? 8202))
  || (c =? 8232) || (c =? 8233) || (c =? 8239) || (c =? 8287) || (c =? 12288).

(** The digit zero of every run of ten decimal digits (category Nd). *)
Definition decimal_zeros : list Z :=
  [48; 1632; 1776; 1984; 2406; 2534; 2662; 2790; 2918; 3046; 3174; 3302;
   3430; 3558; 3664; 3792; 3872; 4160; 4240; 6112; 6160; 6470; 6608; 6784;
   6800; 6992; 7088; 7232; 7248; 42528; 43216; 43264; 43472; 43504; 43600;
   44016; 65296; 66720; 68912; 69734; 69872; 69942; 70096; 70384; 70736;
   70864; 71248; 71360; 71472; 71904; 72016; 72784; 73040; 73120; 92768;
   92864; 93008; 120782; 120792; 120802; 120812; 120822; 123200; 123632;
   125264; 130032].

(** [Py_UNICODE_TODECIMAL] *)
Definition to_decimal (c : Z) : option Z :=
  match List.find (fun z => (z <=? c) && (c <=? z + 9)) decimal_zeros with
  | Some z => Some (c - z)
  | None => None
  end.

Definition ascii_of_char (c : Z) : option Z :=
  if c <? 127 then Some c
  else if is_unicode_space c then Some 32
  else match to_decimal c with
       | Some d => Some (48 + d)
       | None => None
       end.

Fixpoint to_ascii (s : pystr) : option (list Z) :=
  match s with
  | [] => Some []
  | c :: r =>
      match ascii_of_char c, to_ascii r with
      | Some a, Some r' => Some (a :: r')
      | _, _ => None
      end
  end.

(** [Py_ISSPACE] *)
Definition is_space (c : Z) : bool := ((9 <=? c) && (c <=? 13)) || (c =? 32).

Definition digit_of (c : Z) : option Z :=
  if (48 <=? c) && (c <=? 57) then Some (c - 48) else None.

(** Decimal digits, single underscores allowed between two digits: the
    value and the number of digits. *)
Fixpoint digits_val (acc n : Z) (after_digit : bool) (s : list Z) : option (Z * Z) :=
  match s with
  | [] => if after_digit then Some (acc, n) else None
  | c :: r =>
      match digit_of c with
      | Some d => digits_val (10 * acc + d) (n + 1) true r
      | None =>
          if c =? 95 then
            if after_digit then digits_val acc n false r else None
          else None
      end
  end.

Fixpoint lstrip (s : list Z) : list Z :=
  match s with
  | c :: r => if is_space c then lstrip r else s
  | [] => []
  end.

Definition strip (s : list Z) : list Z := rev (lstrip (rev (lstrip s))).

(** The default of [sys.get_int_max_str_digits()]. *)
Definition int_max_str_digits : Z := 4300.

Definition int_of_text (s : pystr) : option Z :=
  match to_ascii s with
  | None => None
  | Some a =>
      let '(neg, body) :=
        match strip a with
        | 43 :: r => (false, r)
        | 45 :: r => (true, r)
        | r => (false, r)
        end in
      match digits_val 0 0 false body with
      | Some (v, n) =>
          if int_max_str_digits <? n then None
          else Some (if neg : bool then - v else v)
      | None => None
      end
  end.

Definition _nullmap_size (n : Z) : Z := (n + 7) / 8.

(** [bm[i // 8] |= (1 << (i % 8))] *)
Definition _set_null (bm : bytes) (i : nat) : res bytes :=
  match bm !! (i / 8)%nat with
  | Some b => Ok (<[(i / 8)%nat := z2b (Z.lor (b2z b) (Z.shiftl 1 (Z.of_nat (i mod 8))))]> bm)
  | None => Raise IndexError
  end.

(** [(bm[i // 8] >> (i % 8)) & 1 == 1] *)
Definition _is_null (bm : bytes) (i : nat) : res bool :=
  match bm !! (i / 8)%nat with
  | Some b => Ok (Z.land (Z.shiftr (b2z b) (Z.of_nat (i mod 8))) 1 =? 1)
  | None => Raise IndexError
  end.

(** The [N] of [VARCHAR(N)], clamped to [0, 65535]; 65535 when it cannot be read. *)
Definition _varchar_max (typ : pystr) : Z :=
  match index_of 40 typ, index_of 41 typ with     (* "(" and ")" *)
  | Some i, Some j =>
      match int_of_text (take (j - S i) (drop (S i) typ)) with   (* typ[i+1:j] *)
      | Some n => Z.max 0 (Z.min 65535 n)
      | None => 65535
      end
  | _, _ => 65535
  end.

(** [typ == lit] and [typ.startswith(lit)] for a literal of the source. *)
Definition typ_is (typ : pystr) (lit : string) : bool :=
  pystr_eqb typ (pystr_of_string lit).
Definition typ_starts (typ : pystr) (lit : string) : bool :=
  startswith typ (pystr_of_string lit).

(** [ValueError(f"Tipo no soportado: {typ}")] *)
Definition unsupported (typ : pystr) : exn :=
  ValueError ("Tipo no soportado: " ++ string_of_pystr typ).

(** The payload of one non-null column. *)
Definition pack_field (typ : pystr) (val : value) : res bytes :=
  (if typ_is typ "INT" then
     z <- py_int val ;; pack_i z
   else if typ_is typ "FLOAT" then
     x <- py_float val ;; pack_d x
   else if typ_starts typ "VARCHAR" then
     s <- py_str val ;;
     b <- utf8_encode s ;;
     let mx := _varchar_max typ in
     let b := if (mx <? Z.of_nat (length b)) then take (Z.to_nat mx) b else b in
     h <- pack_H (Z.of_nat (length b)) ;;
     Ok (h ++ b)
   else if typ_is typ "DATE" then
     s <- py_str val ;;
     b <- utf8_encode s ;;
     if 255 <? Z.of_nat (length b) then Raise (ValueError "DATE demasiado largo")
     else h <- pack_H (Z.of_nat (length b)) ;; Ok (h ++ b)
   else Raise (unsupported typ))%res.

(** The loop of [pack_row] over [enumerate(schema)]. *)
Fixpoint pack_cols (r : row) (cols : schema) (i : nat)
    (nullmap : bytes) (parts : list bytes) : res (bytes * list bytes) :=
  match cols with
  | [] => Ok (nullmap, parts)
  | (name, typ) :: rest =>
      match default VNone (r !! name) with
      | VNone => (bm <- _set_null nullmap i ;; pack_cols r rest (S i) bm parts)%res
      | val => (b <- pack_field typ val ;;
                pack_cols r rest (S i) nullmap (parts ++ [b]))%res
      end
  end.

Definition pack_row (r : row) (sch : schema) : res bytes :=
  let n := Z.of_nat (length sch) in
  (header <- pack_H n ;;
   let nullmap := replicate (Z.to_nat (_nullmap_size n)) x00 in
   p <- pack_cols r sch 0 nullmap [] ;;
   let '(nullmap, parts) := p in
   Ok (header ++ nullmap ++ concat parts))%res.

(** One non-null column read at [off]: the value and the next offset. *)
Definition unpack_field (typ : pystr) (buf : bytes) (off : nat) : res (value * nat) :=
  (if typ_is typ "INT" then
     v <- unpack_from_i buf off ;; Ok (VInt v, (off + 4)%nat)
   else if typ_is typ "FLOAT" then
     v <- unpack_from_d buf off ;; Ok (VFloat v, (off + 8)%nat)
   else if typ_starts typ "VARCHAR" || typ_is typ "DATE" then
     ln <- unpack_from_H buf off ;;
     let off := (off + 2)%nat in
     s <- utf8_decode (slice buf off (off + Z.to_nat ln)) ;;
     Ok (VStr s, (off + Z.to_nat ln)%nat)
   else Raise (unsupported typ))%res.

(** The loop of [unpack_row] over [enumerate(schema)]. *)
Fixpoint unpack_cols (buf bm : bytes) (cols : schema) (i : nat) (off : nat)
    (out : row) : res row :=
  match cols with
  | [] => Ok out
  | (name, typ) :: rest =>
      (nul <- _is_null bm i ;;
       if nul : bool then unpack_cols buf bm rest (S i) off (<[name := VNone]> out)
       else
         p <- unpack_field typ buf off ;;
         let '(v, off') := p in
         unpack_cols buf bm rest (S i) off' (<[name := v]> out))%res
  end.

Definition unpack_row (buf : bytes) (sch : schema) : res row :=
  (n <- unpack_from_H buf 0 ;;
   if negb (n =? Z.of_nat (length sch)) then Raise (ValueError "Schema mismatch")
   else
     let off := 2%nat in
     let bm_size := Z.to_nat (_nullmap_size n) in
     let bm := slice buf off (off + bm_size) in
     unpack_cols buf bm sch 0 (off + bm_size)%nat ∅)%res.

End RowFmt.

(** ** Binary files *)

(** [f.seek(off)]: a negative offset is refused. *)
Definition file_seek (off : Z) : res unit :=
  if off <? 0 then Raise OSError else Ok tt.

(** [f.seek(off); f.read(n)]: a read past the end comes back short. *)
Definition file_read (off : Z) (n : Z) (f : bytes) : res bytes :=
  (_ <- file_seek off ;;
   Ok (slice f (Z.to_nat off) (Z.to_nat off + Z.to_nat n)))%res.

(** [f.seek(off); f.write(b)] in mode ["r+b"]: bytes are overwritten in
    place; a write past the end first fills the gap with zeros. *)
Definition file_write (off : Z) (b : bytes) (f : bytes) : res bytes :=
  (_ <- file_seek off ;;
   let o := Z.to_nat off in
   let f' := f ++ replicate (o - length f)%nat x00 in
   Ok (take o f' ++ b ++ drop (o + length b)%nat f'))%res.

(** ** Heap file of slotted pages ([storage/heap/heapfile.py]) *)

Module Heap.

Definition PAGE_SIZE : Z := 4096.
Definition HDR_SIZE : Z := 4.     (* "<HH": nslots, data_end *)
Definition SLOT_SIZE : Z := 4.    (* "<HH": off, len *)

(** The state is the content of the backing file. *)
Abbreviation heap := bytes.

(** [struct.pack("<HH", a, b)] *)
Definition pack_HH (a b : Z) : res bytes :=
  (x <- pack_H a ;; y <- pack_H b ;; Ok (x ++ y))%res.

(** [struct.unpack("<HH", buf)]: exactly four bytes. *)
Definition unpack_HH (buf : bytes) : res (Z * Z) :=
  match buf with
  | [b0; b1; b2; b3] => Ok (le_val [b0; b1], le_val [b2; b3])
  | _ => Raise StructError
  end.

(** Lifting of a failing file update: an exception leaves the file as it was. *)
Definition update (g : heap -> res heap) : M heap unit :=
  fun f => match g f with
           | Ok f' => (Ok tt, f')
           | Raise e => (Raise e, f)
           | OutOfFuel => (OutOfFuel, f)
           end.

Definition _num_pages : M heap Z :=
  peek (fun f => Ok (Z.of_nat (length f) / PAGE_SIZE)).

Definition _base (p : Z) : Z := p * PAGE_SIZE.

Definition _read_hdr (p : Z) : M heap (Z * Z) :=
  peek (fun f => (b <- file_read (_base p) HDR_SIZE f ;; unpack_HH b)%res).

(** The file is positioned first, then the header is packed and written. *)
Definition _write_hdr (p nslots data_end : Z) : M heap unit :=
  update (fun f =>
    (_ <- file_seek (_base p) ;;
     b <- pack_HH nslots data_end ;;
     file_write (_base p) b f)%res).

Definition _read_slot (p s : Z) : M heap (Z * Z) :=
  peek (fun f =>
    (b <- file_read (_base p + HDR_SIZE + s * SLOT_SIZE) SLOT_SIZE f ;; unpack_HH b)%res).

Definition _write_slot (p s off ln : Z) : M heap unit :=
  update (fun f =>
    (_ <- file_seek (_base p + HDR_SIZE + s * SLOT_SIZE) ;;
     b <- pack_HH off ln ;;
     file_write (_base p + HDR_SIZE + s * SLOT_SIZE) b f)%res).

(** [for _ in range(n): f.write(b"\x00" * PAGE_SIZE)] in append mode. *)
Definition append_pages (n : Z) : M heap unit :=
  poke (fun f => f ++ replicate (Z.to_nat n * Z.to_nat PAGE_SIZE)%nat x00).

Definition _ensure_page (p : Z) : M heap unit :=
  (np <~ _num_pages ;;
   if p <? np then ret tt
   else
     np' <~ _num_pages ;;
     append_pages (p - np' + 1) ;;;
     _write_hdr p 0 PAGE_SIZE)%M.

(** [for s in range(nslots)], counting [s] up from [s0] for [n] slots. *)
Fixpoint find_free_from (p : Z) (s0 : Z) (n : nat) : M heap (option Z) :=
  match n with
  | O => ret None
  | S n' =>
      (sl <~ _read_slot p s0 ;;
       if snd sl =? 0 then ret (Some s0)
       else find_free_from p (s0 + 1) n')%M
  end.

Definition _find_free_slot (p nslots : Z) : M heap (option Z) :=
  find_free_from p 0 (Z.to_nat nslots).

Definition _free_bytes (nslots data_end : Z) (reuse_slot : bool) : Z :=
  let dir_end := HDR_SIZE + (nslots + (if reuse_slot then 0 else 1)) * SLOT_SIZE in
  Z.max 0 (data_end - dir_end).

(** One round of the [for _ in range(2)] loop of [insert] on page [p]:
    [Some rid] when the blob was placed, [None] when the page is too full. *)
Definition try_place (p : Z) (blob : bytes) : M heap (option RID) :=
  let len := Z.of_nat (length blob) in
  (h <~ _read_hdr p ;;
   let '(nslots, data_end) := h in
   s_free <~ _find_free_slot p nslots ;;
   let reuse := match s_free with Some _ => true | None => false end in
   if len <=? _free_bytes nslots data_end reuse then
     let s := match s_free with Some s => s | None => nslots end in
     nslots' <~ (if reuse then ret nslots
                 else (_write_hdr p (nslots + 1) data_end ;;; ret (nslots + 1))) ;;
     let data_end := data_end - len in
     update (file_write (_base p + data_end) blob) ;;;
     _write_slot p s data_end len ;;;
     _write_hdr p nslots' data_end ;;;
     ret (Some (mkRID p s))
   else ret None)%M.

(** [insert] once the row is packed. *)
Definition insert_blob (blob : bytes) : M heap RID :=
  (if PAGE_SIZE <? Z.of_nat (length blob) + HDR_SIZE + SLOT_SIZE
   then throw (ValueError "Fila demasiado grande para una página")
   else
     np <~ _num_pages ;;
     (if np =? 0 then _ensure_page 0 else ret tt) ;;;
     np <~ _num_pages ;;
     let p := np - 1 in
     r1 <~ try_place p blob ;;
     match r1 with
     | Some rid => ret rid
     | None =>
         p <~ _num_pages ;;
         _ensure_page p ;;;
         r2 <~ try_place p blob ;;
         match r2 with
         | Some rid => ret rid
         | None =>
             p <~ _num_pages ;;
             _ensure_page p ;;;
             throw (RuntimeError "No se pudo insertar")
         end
     end)%M.

Definition insert (sch : RowFmt.schema) (r : RowFmt.row) : M heap RID :=
  (blob <~ peek (fun _ => RowFmt.pack_row r sch) ;;
   insert_blob blob)%M.

Definition read (sch : RowFmt.schema) (rid : RID) : M heap RowFmt.row :=
  (h <~ _read_hdr (page rid) ;;
   let nslots := fst h in
   if (slot rid <? 0) || (nslots <=? slot rid)
   then throw (KeyError "slot fuera de rango")
   else
     sl <~ _read_slot (page rid) (slot rid) ;;
     let '(off, ln) := sl in
     if ln =? 0 then throw (KeyError "slot borrado")
     else
       buf <~ peek (file_read (_base (page rid) + off) ln) ;;
       r <~ peek (fun _ => RowFmt.unpack_row buf sch) ;;
       ret (<["_rid"%string := RowFmt.VRid (page rid) (slot rid)]> r))%M.

Definition delete (rid : RID) : M heap bool :=
  (h <~ _read_hdr (page rid) ;;
   let nslots := fst h in
   if (slot rid <? 0) || (nslots <=? slot rid) then ret false
   else
     sl <~ _read_slot (page rid) (slot rid) ;;
     let '(off, ln) := sl in
     if ln =? 0 then ret false
     else (_write_slot (page rid) (slot rid) off 0 ;;; ret true))%M.

(** The live slots of page [p], from slot [s0], [n] slots. *)
Fixpoint live_slots_from (p s0 : Z) (n : nat) : M heap (list RID) :=
  match n with
  | O => ret []
  | S n' =>
      (sl <~ _read_slot p s0 ;;
       rest <~ live_slots_from p (s0 + 1) n' ;;
       ret (if snd sl =? 0 then rest else mkRID p s0 :: rest))%M
  end.

Fixpoint iter_pages (p0 : Z) (n : nat) : M heap (list RID) :=
  match n with
  | O => ret []
  | S n' =>
      (h <~ _read_hdr p0 ;;
       here <~ live_slots_from p0 0 (Z.to_nat (fst h)) ;;
       rest <~ iter_pages (p0 + 1) n' ;;
       ret (here ++ rest))%M
  end.

(** [iter_rids], run to the end. *)
Definition iter_rids : M heap (list RID) :=
  (np <~ _num_pages ;; iter_pages 0 (Z.to_nat np))%M.

Fixpoint read_all (sch : RowFmt.schema) (rids : list RID) : M heap (list RowFmt.row) :=
  match rids with
  | [] => ret []
  | rid :: rest =>
      (r <~ read sch rid ;; rs <~ read_all sch rest ;; ret (r :: rs))%M
  end.

(** [iter_rows], run to the end. *)
Definition iter_rows (sch : RowFmt.schema) : M heap (list RowFmt.row) :=
  (rids <~ iter_rids ;; read_all sch rids)%M.

End Heap.

(** ** Sequential-file index ([storage/seqfile/lowlevel.py]) *)

Module SeqFile.

Definition DELETED : Z := -1.

Definition dptr (i : Z) : res Z :=
  if i <? 1 then Raise (ValueError "dptr(i) requiere i>=1") else Ok i.

Definition aptr (i : Z) : res Z :=
  if i <? 1 then Raise (ValueError "aptr(i) requiere i>=1") else Ok (- (i + 1)).

Definition is_end (p : Z) : bool := p =? 0.

(** [(is_aux, idx)], 1-based. *)
Definition loc (p : Z) : res (bool * Z) :=
  if (p =? 0) || (p =? DELETED)
  then Raise (ValueError "puntero fin o tombstone no tiene ubicación")
  else Ok (if 0 <? p then (false, p) else (true, - p - 1)).

Definition ENTRY_SIZE : Z := 12.  (* "<iHHi" *)
Definition HDR_SIZE : Z := 12.    (* "<iii" *)

Record SFEntry : Type := mkEntry { key : Z; rid : RID; next_ptr : Z }.

Definition set_next (e : SFEntry) (n : Z) : SFEntry :=
  {| key := key e; rid := rid e; next_ptr := n |}.

Definition deleted (e : SFEntry) : bool := next_ptr e =? DELETED.

Definition fits_i32 (z : Z) : bool := (-2147483648 <=? z) && (z <=? 2147483647).
Definition fits_u16 (z : Z) : bool := (0 <=? z) && (z <=? 65535).

(** What [struct.pack(ENTRY_FMT, ...)] accepts. *)
Definition packable (e : SFEntry) : bool :=
  fits_i32 (key e) && fits_u16 (page (rid e)) && fits_u16 (slot (rid e))
  && fits_i32 (next_ptr e).

(** The index file: the three header integers, then whole 12-byte entries
    (region D, region A, and whatever an earlier, larger layout left behind). *)
Record sfile : Type := mkFile { hdr : Z * Z * Z; ents : list SFEntry }.

(** A file as [__init__] creates it. *)
Definition empty : sfile := {| hdr := (0, 0, 0); ents := [] |}.

Definition zero_entry : SFEntry := {| key := 0; rid := mkRID 0 0; next_ptr := 0 |}.

(** The twelve header bytes read with the entry format, and back. *)
Definition hdr_as_entry (h : Z * Z * Z) : SFEntry :=
  let '(m, a, hd) := h in
  {| key := m; rid := mkRID (a mod 65536) ((a / 65536) mod 65536); next_ptr := hd |}.
Definition entry_as_hdr (e : SFEntry) : Z * Z * Z :=
  (key e, signed32 (page (rid e) + 65536 * slot (rid e)), next_ptr e).

Definition _hdr_get : M sfile (Z * Z * Z) := peek (fun f => Ok (hdr f)).

Definition _hdr_set (m a h : Z) : M sfile unit :=
  fun f =>
    if fits_i32 m && fits_i32 a && fits_i32 h
    then (Ok tt, {| hdr := (m, a, h); ents := ents f |})
    else (Raise StructError, f).

Definition _off_d (i : Z) : Z := HDR_SIZE + (i - 1) * ENTRY_SIZE.

(** Every caller passes [base]. *)
Definition _off_a (i : Z) (base : Z) : Z :=
  HDR_SIZE + base * ENTRY_SIZE + (i - 1) * ENTRY_SIZE.

Definition entry_off (is_aux : bool) (idx base : Z) : Z :=
  if is_aux then _off_a idx base else _off_d idx.

(** Twelve bytes read at byte offset [off]. Offsets are [HDR_SIZE] plus a
    multiple of [ENTRY_SIZE], so the only one below [HDR_SIZE] that is not
    negative is 0, where the header itself is read as an entry. *)
Definition read_at (off : Z) (f : sfile) : res SFEntry :=
  if off <? 0 then Raise OSError
  else if off <? HDR_SIZE then Ok (hdr_as_entry (hdr f))
  else
    match ents f !! Z.to_nat ((off - HDR_SIZE) / ENTRY_SIZE) with
    | Some e => Ok e
    | None => Raise StructError
    end.

(** Twelve bytes written at byte offset [off]; past the end the gap reads as zeros. *)
Definition write_at (off : Z) (e : SFEntry) (f : sfile) : res sfile :=
  if off <? 0 then Raise OSError
  else if negb (packable e) then Raise StructError
  else if off <? HDR_SIZE then Ok {| hdr := entry_as_hdr e; ents := ents f |}
  else
    let i := Z.to_nat ((off - HDR_SIZE) / ENTRY_SIZE) in
    let l := ents f in
    Ok {| hdr := hdr f;
          ents := if (i <? length l)%nat then <[i := e]> l
                  else l ++ replicate (i - length l)%nat zero_entry ++ [e] |}.

Definition _read (is_aux : bool) (idx : Z) (base : Z) : M sfile SFEntry :=
  peek (read_at (entry_off is_aux idx base)).

Definition _write (is_aux : bool) (idx : Z) (e : SFEntry) (base : Z) : M sfile unit :=
  fun f => match write_at (entry_off is_aux idx base) e f with
           | Ok f' => (Ok tt, f')
           | Raise x => (Raise x, f)
           | OutOfFuel => (OutOfFuel, f)
           end.

(** The [while l <= r] loop of [_lb]; [n] bounds the rounds left. *)
Fixpoint lb_loop (n : nat) (k m l r ans : Z) : M sfile Z :=
  if l <=? r then
    match n with
    | O => timeout
    | S n' =>
        let mid := (l + r) / 2 in
        (e <~ _read false mid m ;;
         if k <=? key e then lb_loop n' k m l (mid - 1) mid
         else lb_loop n' k m (mid + 1) r ans)%M
    end
  else ret ans.

(** Each round at least halves [r - l + 1], so [m] rounds always suffice. *)
Definition _lb (k : Z) : M sfile Z :=
  (h <~ _hdr_get ;;
   let '(m, _, _) := h in
   lb_loop (Z.to_nat m) k m 1 m (m + 1))%M.

(** The [while j >= 1] loop that steps back over tombstones in D: the [j] it
    stops at and, when it stopped on a live entry, that entry. *)
Fixpoint back_loop (n : nat) (j m : Z) : M sfile (Z * option SFEntry) :=
  if 1 <=? j then
    match n with
    | O => timeout
    | S n' =>
        (dj <~ _read false j m ;;
         if negb (deleted dj) then ret (j, Some dj)
         else back_loop n' (j - 1) m)%M
    end
  else ret (j, None).

Definition live_pred (lb m : Z) : M sfile (Z * option SFEntry) :=
  let j := Z.min (lb - 1) m in
  back_loop (Z.to_nat j) j m.

(** The [while not is_end(cur) and seen < cap] loop of [reorganize];
    [n] is [cap - seen]. *)
Fixpoint collect (n : nat) (cur base : Z) (out : list SFEntry) : M sfile (list SFEntry) :=
  if is_end cur then ret out
  else
    match n with
    | O => ret out
    | S n' =>
        (l <~ peek (fun _ => loc cur) ;;
         e <~ _read (fst l) (snd l) base ;;
         collect n' (next_ptr e) base (if deleted e then out else out ++ [e]))%M
    end.

(** [for i, e in enumerate(out, start=i)]: rewrite D in place. *)
Fixpoint dump (i newm : Z) (out : list SFEntry) : M sfile unit :=
  match out with
  | [] => ret tt
  | e :: rest =>
      (nxt <~ peek (fun _ => if i <? newm then dptr (i + 1) else Ok 0) ;;
       _write false i (set_next e nxt) 0 ;;;
       dump (i + 1) newm rest)%M
  end.

Definition reorganize : M sfile unit :=
  (h0 <~ _hdr_get ;;
   let '(m, a, h) := h0 in
   if h =? 0 then _hdr_set 0 0 0
   else
     let base := m in
     let cap := m + a + 8 in
     out <~ collect (Z.to_nat cap) h base [] ;;
     let newm := Z.of_nat (length out) in
     dump 1 newm out ;;;
     hd <~ peek (fun _ => if 1 <=? newm then dptr 1 else Ok 0) ;;
     _hdr_set newm 0 hd)%M.

(** [int(math.log2(x))] for an integer [x >= 1] is the integer logarithm:
    below [2^31] the float result never rounds up to the next integer. *)
Definition _maybe_reorg : M sfile unit :=
  (h0 <~ _hdr_get ;;
   let '(m, a, _) := h0 in
   let k := Z.log2 (Z.max 1 (m + 1)) in
   if k <? a then reorganize else ret tt)%M.

(** Step 5 of [insert]: advance to the first live node with [key >= k]. *)
Fixpoint insert_walk (fuel : nat) (k m prev_ptr cur_ptr : Z) : M sfile (Z * Z) :=
  if is_end cur_ptr then ret (prev_ptr, cur_ptr)
  else
    match fuel with
    | O => timeout
    | S fuel' =>
        (l <~ peek (fun _ => loc cur_ptr) ;;
         node <~ _read (fst l) (snd l) m ;;
         if deleted node then insert_walk fuel' k m prev_ptr (next_ptr node)
         else if key node <? k then insert_walk fuel' k m cur_ptr (next_ptr node)
         else ret (prev_ptr, cur_ptr))%M
    end.

(** The early return of step 4 of [insert]: the new entry becomes the head. *)
Definition splice_front (m a h idx newp : Z) (e : SFEntry) : M sfile unit :=
  (let e := set_next e h in
   _write true idx e m ;;;
   _hdr_set m a newp ;;;
   _maybe_reorg)%M.

(** Step 6 of [insert]: link prev -> new -> cur, then the header. *)
Definition splice (m a h idx newp : Z) (e : SFEntry) (prev_ptr cur_ptr : Z)
    : M sfile unit :=
  (let e := set_next e cur_ptr in
   _write true idx e m ;;;
   h' <~ (if prev_ptr =? 0 then ret newp
          else
            l <~ peek (fun _ => loc prev_ptr) ;;
            prev <~ _read (fst l) (snd l) m ;;
            _write (fst l) (snd l) (set_next prev newp) m ;;;
            ret h) ;;
   _hdr_set m a h' ;;;
   _maybe_reorg)%M.

Definition insert (fuel : nat) (e : SFEntry) : M sfile unit :=
  (h0 <~ _hdr_get ;;
   let '(m, a, h) := h0 in
   (* 1) store in A *)
   let idx := a + 1 in
   let e := set_next e 0 in
   _write true idx e m ;;;
   let a := a + 1 in
   newp <~ peek (fun _ => aptr idx) ;;
   (* 2) empty list: new head *)
   if h =? 0 then (_hdr_set m a newp ;;; _maybe_reorg)
   else
     (* 3) predecessor in D, skipping tombstones *)
     lb <~ _lb (key e) ;;
     jr <~ live_pred lb m ;;
     let j := fst jr in
     (* 4) where to start *)
     start <~ (if 1 <=? j then
                 prev_ptr <~ peek (fun _ => dptr j) ;;
                 dj <~ _read false j m ;;
                 ret (Some (prev_ptr, next_ptr dj))
               else
                 l <~ peek (fun _ => loc h) ;;
                 head_entry <~ _read (fst l) (snd l) m ;;
                 if key e <=? key head_entry then ret None
                 else ret (Some (0, h))) ;;
     match start with
     | None => splice_front m a h idx newp e
     | Some (prev_ptr, cur_ptr) =>
         (* 5) walk to the right place *)
         pc <~ insert_walk fuel (key e) m prev_ptr cur_ptr ;;
         (* 6) link prev -> new -> cur *)
         splice m a h idx newp e (fst pc) (snd pc)
     end)%M.

(** The collecting walk of [search]. *)
Fixpoint search_walk (fuel : nat) (k m cur : Z) (out : list RID) : M sfile (list RID) :=
  if is_end cur then ret out
  else
    match fuel with
    | O => timeout
    | S fuel' =>
        (l <~ peek (fun _ => loc cur) ;;
         node <~ _read (fst l) (snd l) m ;;
         if deleted node then search_walk fuel' k m (next_ptr node) out
         else if k <? key node then ret out
         else search_walk fuel' k m (next_ptr node)
                (if key node =? k then out ++ [rid node] else out))%M
    end.

Definition search (fuel : nat) (k : Z) : M sfile (list RID) :=
  (h0 <~ _hdr_get ;;
   let '(m, _, h) := h0 in
   if h =? 0 then ret []
   else
     lb <~ _lb k ;;
     hit <~ (if (1 <=? lb) && (lb <=? m) then
               e <~ _read false lb m ;;
               ret (if negb (deleted e) && (key e =? k) then Some [rid e] else None)
             else ret None) ;;
     match hit with
     | Some out => ret out
     | None =>
         jr <~ live_pred lb m ;;
         let start := match snd jr with Some dj => next_ptr dj | None => h end in
         search_walk fuel k m start []
     end)%M.

(** The collecting walk of [range_search]. *)
Fixpoint range_walk (fuel : nat) (lo hi m cur : Z) (out : list SFEntry)
    : M sfile (list SFEntry) :=
  if is_end cur then ret out
  else
    match fuel with
    | O => timeout
    | S fuel' =>
        (l <~ peek (fun _ => loc cur) ;;
         node <~ _read (fst l) (snd l) m ;;
         if deleted node then range_walk fuel' lo hi m (next_ptr node) out
         else if hi <? key node then ret out
         else range_walk fuel' lo hi m (next_ptr node)
                (if lo <=? key node then out ++ [node] else out))%M
    end.

Definition range_search (fuel : nat) (lo hi : Z) : M sfile (list SFEntry) :=
  let '(lo, hi) := if hi <? lo then (hi, lo) else (lo, hi) in
  (h0 <~ _hdr_get ;;
   let '(m, _, h) := h0 in
   if h =? 0 then ret []
   else
     lb <~ _lb lo ;;
     jr <~ live_pred lb m ;;
     let start := match snd jr with Some dj => next_ptr dj | None => h end in
     range_walk fuel lo hi m start [])%M.

Definition rid_matches (r : option RID) (node : SFEntry) : bool :=
  match r with
  | None => true
  | Some r => (page (rid node) =? page r) && (slot (rid node) =? slot r)
  end.

(** The body of the [if] of [delete_key] for a matching node found at
    [l]: take it out of the list and mark it; the head that results. *)
Definition unlink (m h prev_ptr : Z) (l : bool * Z) (node : SFEntry) : M sfile Z :=
  (let nxt := next_ptr node in
   h' <~ (if prev_ptr =? 0 then ret nxt
          else
            pl <~ peek (fun _ => loc prev_ptr) ;;
            prev <~ _read (fst pl) (snd pl) m ;;
            _write (fst pl) (snd pl) (set_next prev nxt) m ;;;
            ret h) ;;
   _write (fst l) (snd l) (set_next node DELETED) m ;;;
   ret h')%M.

(** The unlinking walk of [delete_key]; [h] is the head being rebuilt. *)
Fixpoint delete_walk (fuel : nat) (k : Z) (r : option RID) (m h prev_ptr cur_ptr removed : Z)
    : M sfile (Z * Z) :=
  if is_end cur_ptr then ret (h, removed)
  else
    match fuel with
    | O => timeout
    | S fuel' =>
        (l <~ peek (fun _ => loc cur_ptr) ;;
         node <~ _read (fst l) (snd l) m ;;
         if k <? key node then ret (h, removed)
         else if (key node =? k) && rid_matches r node then
           h' <~ unlink m h prev_ptr l node ;;
           match r with
           | Some _ => ret (h', removed + 1)
           | None => delete_walk fuel' k r m h' prev_ptr (next_ptr node) (removed + 1)
           end
         else delete_walk fuel' k r m h cur_ptr (next_ptr node) removed)%M
    end.

Definition delete_key (fuel : nat) (k : Z) (r : option RID) : M sfile Z :=
  (h0 <~ _hdr_get ;;
   let '(m, a, h) := h0 in
   if h =? 0 then ret 0
   else
     lb <~ _lb k ;;
     jr <~ live_pred lb m ;;
     let j := fst jr in
     prev_ptr <~ (if 1 <=? j then peek (fun _ => dptr j) else ret 0) ;;
     cur_ptr <~ (if 1 <=? j then (dj <~ _read false j m ;; ret (next_ptr dj)) else ret h) ;;
     hr <~ delete_walk fuel k r m h prev_ptr cur_ptr 0 ;;
     let '(h', removed) := hr in
     _hdr_set m a h' ;;;
     ret removed)%M.

End SeqFile.

(** ** Index adaptor and executor ([storage/seqfile/index.py], [engine/executor.py]) *)

Module Executor.

(** A [SequentialFileIndex]: its key column and its file. *)
Record index : Type := mkIndex { key_col : string; sf : SeqFile.sfile }.

(** The files behind an executor: the heap and the registered indexes, in order. *)
Record db : Type := mkDb { heap : Heap.heap; indexes : list index }.

(** [SequentialFileIndex.insert(key, rid)] *)
Definition index_insert (fuel : nat) (k : RowFmt.value) (r : RID) (ix : index)
    : res unit * index :=
  match RowFmt.py_int k with
  | Ok kz =>
      let '(o, f') := SeqFile.insert fuel (SeqFile.mkEntry kz r 0) (sf ix) in
      (o, {| key_col := key_col ix; sf := f' |})
  | Raise x => (Raise x, ix)
  | OutOfFuel => (OutOfFuel, ix)
  end.

(** [except KeyError: raise ValueError(...)] around one index update. *)
Definition on_key_error (col : string) (o : res unit) : res unit :=
  match o with
  | Raise (KeyError _) => Raise (ValueError ("Falta columna indexada: " ++ col))
  | _ => o
  end.

(** The [for idx in self.indexes] loop of [insert]. *)
Fixpoint insert_indexes (fuel : nat) (r : RowFmt.row) (rd : RID) (ixs : list index)
    : res unit * list index :=
  match ixs with
  | [] => (Ok tt, [])
  | ix :: rest =>
      let '(o, ix') :=
        match r !! key_col ix with
        | None => (Raise (KeyError (key_col ix)), ix)     (* row[idx.key_col] *)
        | Some k => index_insert fuel k rd ix
        end in
      match on_key_error (key_col ix) o with
      | Ok _ => let '(o', rest') := insert_indexes fuel r rd rest in (o', ix' :: rest')
      | bad => (bad, ix' :: rest)
      end
  end.

Definition insert (fuel : nat) (sch : RowFmt.schema) (r : RowFmt.row) : M db RID :=
  fun d =>
    match Heap.insert sch r (heap d) with
    | (Ok rd, h') =>
        let '(o, ixs') := insert_indexes fuel r rd (indexes d) in
        (match o with Ok _ => Ok rd | Raise x => Raise x | OutOfFuel => OutOfFuel end,
         {| heap := h'; indexes := ixs' |})
    | (Raise x, h') => (Raise x, {| heap := h'; indexes := indexes d |})
    | (OutOfFuel, h') => (OutOfFuel, {| heap := h'; indexes := indexes d |})
    end.

End Executor.

(** ** Equality scans and the executor's [select_eq] and [delete]
    ([storage/heap/heapfile.py], [storage/seqfile/index.py], [engine/executor.py]) *)

(** Python's [==] on the values of a row. *)
Module PyEq.
Import RowFmt.

(** The exponent and fraction fields of a binary64 and its sign bit. *)
Definition f_exp (bits : Z) : Z := (bits / 4503599627370496) mod 2048.
Definition f_frac (bits : Z) : Z := bits mod 4503599627370496.
Definition f_neg (bits : Z) : bool := 9223372036854775808 <=? bits.

Definition is_nan (bits : Z) : bool := (f_exp bits =? 2047) && negb (f_frac bits =? 0).
Definition is_zero (bits : Z) : bool := (f_exp bits =? 0) && (f_frac bits =? 0).

(** The integer a float is equal to, when it is equal to one: the value of
    a normal number is [(2^52 + frac) * 2^(exp - 1075)], negated when the
    sign bit is set; a subnormal other than zero lies strictly between two
    integers; infinities and NaN equal no integer. *)
Definition float_as_int (bits : Z) : option Z :=
  let e := f_exp bits in
  let f := f_frac bits in
  let sgn := fun z : Z => if f_neg bits then - z else z in
  if e =? 2047 then None
  else if e =? 0 then (if f =? 0 then Some 0 else None)
  else
    let m := 4503599627370496 + f in
    if 1075 <=? e then Some (sgn (m * 2 ^ (e - 1075)))
    else if m mod 2 ^ (1075 - e) =? 0 then Some (sgn (m / 2 ^ (1075 - e)))
    else None.

(** [a == b]: numbers by value (an [int] and a [float] exactly, NaN equal
    to nothing, the two zeros equal), texts by their code points, the RID
    mapping by its two entries; values of different kinds are unequal. *)
Definition py_eq (a b : value) : bool :=
  match a, b with
  | VNone, VNone => true
  | VInt x, VInt y => x =? y
  | VInt x, VFloat y => match float_as_int y with Some z => z =? x | None => false end
  | VFloat y, VInt x => match float_as_int y with Some z => z =? x | None => false end
  | VFloat x, VFloat y =>
      negb (is_nan x) && negb (is_nan y) && ((x =? y) || (is_zero x && is_zero y))
  | VStr s, VStr t => bool_decide (s = t)
  | VRid p s, VRid p' s' => (p =? p') && (s =? s')
  | _, _ => false
  end.

End PyEq.

Module HeapScan.
Import RowFmt Heap PyEq.

(** [row.get(col) == key] *)
Definition col_is (col : string) (key : value) (r : row) : bool :=
  py_eq (default VNone (r !! col)) key.

(** [scan_eq], run to the end. *)
Definition scan_eq (sch : schema) (col : string) (key : value) : M heap (list row) :=
  (rows <~ iter_rows sch ;; ret (List.filter (col_is col key) rows))%M.

End HeapScan.

Module ExecutorOps.
Import RowFmt HeapScan Executor.

(** [SequentialFileIndex.search(key)] *)
Definition index_search (fuel : nat) (k : value) (ix : index) : res (list RID) * index :=
  match py_int k with
  | Ok kz =>
      let '(o, f') := SeqFile.search fuel kz (sf ix) in
      (o, {| key_col := key_col ix; sf := f' |})
  | Raise x => (Raise x, ix)
  | OutOfFuel => (OutOfFuel, ix)
  end.

(** [SequentialFileIndex.delete(key, rid)] *)
Definition index_delete (fuel : nat) (k : value) (r : RID) (ix : index) : res Z * index :=
  match py_int k with
  | Ok kz =>
      let '(o, f') := SeqFile.delete_key fuel kz (Some r) (sf ix) in
      (o, {| key_col := key_col ix; sf := f' |})
  | Raise x => (Raise x, ix)
  | OutOfFuel => (OutOfFuel, ix)
  end.

(** A call on the heap of the database, and one on its index at position [i]. *)
Definition on_heap {A : Type} (m : M Heap.heap A) : M db A :=
  fun d => let '(o, h') := m (heap d) in (o, {| heap := h'; indexes := indexes d |}).

Definition on_index {A : Type} (i : nat) (g : index -> res A * index) : M db A :=
  fun d =>
    match indexes d !! i with
    | Some ix =>
        let '(o, ix') := g ix in
        (o, {| heap := heap d; indexes := <[i := ix']> (indexes d) |})
    | None => (Raise IndexError, d)
    end.

(** [next((i for i in self.indexes if i.key_col == col), None)]: the
    position of the first index on [col], counted from [i]. *)
Fixpoint find_idx (col : string) (ixs : list index) (i : nat) : option nat :=
  match ixs with
  | [] => None
  | ix :: rest => if String.eqb (key_col ix) col then Some i else find_idx col rest (S i)
  end.

(** The rows with [col == key]: through the index on [col] when there is
    one, by a full scan otherwise. *)
Definition rows_eq (fuel : nat) (sch : schema) (col : string) (key : value)
    (idx : option nat) : M db (list row) :=
  match idx with
  | Some i =>
      (rids <~ on_index i (index_search fuel key) ;;
       on_heap (Heap.read_all sch rids))%M
  | None => on_heap (scan_eq sch col key)
  end.

Definition select_eq (fuel : nat) (sch : schema) (col : string) (key : value)
    : M db (list row) :=
  fun d => rows_eq fuel sch col key (find_idx col (indexes d) 0) d.

(** [RID(row["_rid"]["page"], row["_rid"]["slot"])] *)
Definition rid_of_row (r : row) : res RID :=
  match r !! "_rid"%string with
  | Some (VRid p s) => Ok (mkRID p s)
  | Some _ => Raise TypeError
  | None => Raise (KeyError "_rid")
  end.

(** The [for row in rows] loop of [delete]. *)
Fixpoint delete_loop (fuel : nat) (key : value) (idx : option nat) (rows : list row)
    (cnt : Z) : M db Z :=
  match rows with
  | [] => ret cnt
  | r :: rest =>
      (rid <~ peek (fun _ => rid_of_row r) ;;
       b <~ on_heap (Heap.delete rid) ;;
       if b : bool then
         match idx with
         | Some i => on_index i (index_delete fuel key rid) ;;; ret tt
         | None => ret tt
         end ;;;
         delete_loop fuel key idx rest (cnt + 1)
       else delete_loop fuel key idx rest cnt)%M
  end.

Definition delete (fuel : nat) (sch : schema) (col : string) (key : value) : M db Z :=
  fun d =>
    let idx := find_idx col (indexes d) 0 in
    (rows <~ rows_eq fuel sch col key idx ;;
     delete_loop fuel key idx rows 0)%M d.

End ExecutorOps.

(** * Notions used by the statements *)

(** ** Row codec *)

Module RowFmtSpec.
Import RowFmt PyEq.

(** A value has the type of its column: an [int] for [INT], a [float] for
    [FLOAT], a [str] for [VARCHAR...] and [DATE]; [None] for any. *)
Definition typed_field (typ : pystr) (val : value) : bool :=
  match val with
  | VNone => true
  | VInt _ => typ_is typ "INT"
  | VFloat _ => typ_is typ "FLOAT"
  | VStr _ => typ_starts typ "VARCHAR" || typ_is typ "DATE"
  | VRid _ _ => false
  end.

Definition typed (r : row) (sch : schema) : bool :=
  forallb (fun c => typed_field (snd c) (default VNone (r !! fst c))) sch.

(** A [float] that is a NaN: under [==] it is equal to nothing, not even
    to itself. *)
Definition is_nan_value (val : value) : bool :=
  match val with VFloat b => is_nan b | _ => false end.

(** A value fits its column when it is not a text that [pack_row] would cut:
    for a [VARCHAR(N)] column, at most [N] bytes of UTF-8. *)
Definition fits_field (typ : pystr) (val : value) : bool :=
  if typ_is typ "INT" then true
  else if typ_is typ "FLOAT" then true
  else if typ_starts typ "VARCHAR" then
    match val with
    | VStr s =>
        match utf8_encode s with
        | Ok b => Z.of_nat (length b) <=? _varchar_max typ
        | _ => true
        end
    | _ => true
    end
  else true.

Definition varchar_fits (r : row) (sch : schema) : bool :=
  forallb (fun c => fits_field (snd c) (default VNone (r !! fst c))) sch.

(** What a column gives back for the value that went into it: a
    [VARCHAR(N)] text as the decoding of the first [N] bytes of its UTF-8,
    anything else as it is. *)
Definition returned (typ : pystr) (val : value) : res value :=
  if typ_is typ "INT" then Ok val
  else if typ_is typ "FLOAT" then Ok val
  else if typ_starts typ "VARCHAR" then
    match val with
    | VStr s =>
        (b <- utf8_encode s ;;
         s' <- utf8_decode (take (Z.to_nat (_varchar_max typ)) b) ;;
         Ok (VStr s'))%res
    | _ => Ok val
    end
  else Ok val.

Fixpoint returned_cols (r : row) (cols : schema) (out : row) : res row :=
  match cols with
  | [] => Ok out
  | (name, typ) :: rest =>
      (v <- returned typ (default VNone (r !! name)) ;;
       returned_cols r rest (<[name := v]> out))%res
  end.

(** The row with the columns of the schema only, an absent one as [None]:
    what the loop of [unpack_row] is expected to build on top of [out]. *)
Fixpoint normalized (r : row) (cols : schema) (out : row) : row :=
  match cols with
  | [] => out
  | (name, _) :: rest => normalized r rest (<[name := default VNone (r !! name)]> out)
  end.

(** Column [k] of [cols] is null in [r]. *)
Definition nullc (r : row) (cols : schema) (k : nat) : bool :=
  match cols !! k with
  | Some (name, _) =>
      match default VNone (r !! name) with VNone => true | _ => false end
  | None => false
  end.

(** The demo schema and its first row (the salary 1200.5 as its binary64). *)
Definition demo_schema : schema :=
  [("id"%string, pystr_of_string "INT");
   ("nombre"%string, pystr_of_string "VARCHAR(50)");
   ("salario"%string, pystr_of_string "FLOAT");
   ("ingreso"%string, pystr_of_string "DATE")].

Definition demo_row : row :=
  <["id"%string := VInt 10]>
    (<["nombre"%string := VStr (pystr_of_string "Ana")]>
       (<["salario"%string := VFloat 4652994670282932224]>
          (<["ingreso"%string := VStr (pystr_of_string "2024-01-01")]> ∅))).

Definition demo_blob : bytes :=
  Eval vm_compute in
    match pack_row demo_row demo_schema with Ok b => b | _ => [] end.

(** A three-letter text for a [VARCHAR(2)] column, and for a [VARCHAR(10)] one. *)
Definition abc_row : row := {["s"%string := VStr (pystr_of_string "abc")]}.
Definition short_schema : schema := [("s"%string, pystr_of_string "VARCHAR(2)")].
Definition wide_schema : schema := [("s"%string, pystr_of_string "VARCHAR(10)")].

Definition short_blob : bytes :=
  Eval vm_compute in
    match pack_row abc_row short_schema with Ok b => b | _ => [] end.

Definition abc_blob : bytes :=
  Eval vm_compute in
    match pack_row abc_row wide_schema with Ok b => b | _ => [] end.

End RowFmtSpec.

(** ** Heap file *)

Module HeapSpec.
Import Heap.

(** Length of a file, and reads and in-place writes at integer offsets. *)
Definition flen (f : bytes) : Z := Z.of_nat (length f).

Definition rdz (f : bytes) (off n : Z) : bytes :=
  slice f (Z.to_nat off) (Z.to_nat off + Z.to_nat n).

Definition wrz (off : Z) (b f : bytes) : bytes :=
  take (Z.to_nat off) f ++ b ++ drop (Z.to_nat off + length b) f.

(** Header of page [p] and slot [s] of page [p], as stored. *)
Definition hdr_at (f : heap) (p : Z) : res (Z * Z) := fst (_read_hdr p f).
Definition slot_at (f : heap) (p s : Z) : res (Z * Z) := fst (_read_slot p s f).

Definition num_pages (f : heap) : Z := flen f / PAGE_SIZE.

(** The page invariant of the data model:
    [HDR_SIZE + nslots * SLOT_SIZE <= data_end <= PAGE_SIZE]. *)
Definition page_ok (f : heap) (p : Z) : bool :=
  match hdr_at f p with
  | Ok (nslots, data_end) =>
      (HDR_SIZE + nslots * SLOT_SIZE <=? data_end) && (data_end <=? PAGE_SIZE)
  | _ => false
  end.

(** A well-formed heap file: whole pages, each with a sound header. *)
Definition heap_wf (f : heap) : bool :=
  (flen f mod PAGE_SIZE =? 0)
  && forallb (fun i => page_ok f (Z.of_nat i)) (seq 0 (Z.to_nat (num_pages f))).

(** The page layout of the data model, read off the bytes of the file: the
    unsigned 16-bit number at an offset, the two fields of the header of
    page [p] and the length field of its slot [s]. *)
Definition u16_at (f : heap) (a : Z) : Z := le_val (rdz f a 2).
Definition nslots_of (f : heap) (p : Z) : Z := u16_at f (p * PAGE_SIZE).
Definition data_end_of (f : heap) (p : Z) : Z := u16_at f (p * PAGE_SIZE + 2).
Definition slot_len_of (f : heap) (p s : Z) : Z :=
  u16_at f (p * PAGE_SIZE + HDR_SIZE + s * SLOT_SIZE + 2).

(** Page [p] has a free slot: some slot of its directory has [len == 0]. *)
Definition has_free_slot (f : heap) (p : Z) : bool :=
  existsb (fun s => slot_len_of f p (Z.of_nat s) =? 0)
          (seq 0 (Z.to_nat (nslots_of f p))).

(** The free bytes of page [p] for one more row, as the specification
    defines them: [data_end] minus the end of the slot directory, which
    grows by one slot unless a free slot is there to be reused. *)
Definition free_bytes (f : heap) (p : Z) : Z :=
  data_end_of f p
  - (HDR_SIZE + (nslots_of f p + (if has_free_slot f p then 0 else 1)) * SLOT_SIZE).

(** The free bytes [insert] computes for page [p], having looked for a free slot. *)
Definition free_bytes_of (f : heap) (p : Z) : res Z :=
  match _read_hdr p f with
  | (Ok (nslots, data_end), _) =>
      match _find_free_slot p nslots f with
      | (Ok s_free, _) =>
          Ok (_free_bytes nslots data_end
                match s_free with Some _ => true | None => false end)
      | (Raise e, _) => Raise e
      | (OutOfFuel, _) => OutOfFuel
      end
  | (Raise e, _) => Raise e
  | (OutOfFuel, _) => OutOfFuel
  end.

(** The payload bytes slot [s] of page [p] points at. *)
Definition payload_at (f : heap) (rd : RID) : res bytes :=
  match slot_at f (page rd) (slot rd) with
  | Ok (off, ln) => Ok (rdz f (_base (page rd) + off) ln)
  | Raise e => Raise e
  | OutOfFuel => OutOfFuel
  end.

(** What a successful placement of [blob] in slot [s] of page [p] leaves:
    the file keeps its length, the page header reads [(ns', de')], the slot
    points at the blob, the page invariant holds, and no other page changed. *)
Definition placed (f f' : heap) (p s ns' de' : Z) (blob : bytes) : Prop :=
  flen f' = flen f /\
  hdr_at f' p = Ok (ns', de') /\
  slot_at f' p s = Ok (de', flen blob) /\
  rdz f' (p * 4096 + de') (flen blob) = blob /\
  4 + ns' * 4 <= de' <= 4096 /\
  0 <= s < ns' /\
  (forall a n, 0 <= a -> 0 <= n ->
               a + n <= p * 4096 \/ (p + 1) * 4096 <= a ->
               rdz f' a n = rdz f a n).

(** Row [rd] is live and its slot points at [blob]. *)
Definition stored (f : heap) (rd : RID) (blob : bytes) : Prop :=
  0 <= page rd < num_pages f /\
  exists ns de off,
    hdr_at f (page rd) = Ok (ns, de) /\
    0 <= slot rd < ns /\
    0 <= off /\
    slot_at f (page rd) (slot rd) = Ok (off, flen blob) /\
    rdz f (page rd * 4096 + off) (flen blob) = blob.

(** The heap after the demo row went into an empty file: one page, one row. *)
Definition one_row_heap : heap :=
  Eval vm_compute in snd (insert RowFmtSpec.demo_schema RowFmtSpec.demo_row []).

(** A one-column schema and the row whose text is [n] letters ["a"]. *)
Definition text_schema : RowFmt.schema := [("s"%string, pystr_of_string "VARCHAR")].
Definition text_row (n : nat) : RowFmt.row :=
  {["s"%string := RowFmt.VStr (replicate n 97)]}.

(** The row that fills the page of [one_row_heap] to the last byte, and the
    row that is one byte longer. *)
Definition exact_row : RowFmt.row := text_row 4047.
Definition exact_blob : bytes :=
  Eval vm_compute in
    match RowFmt.pack_row exact_row text_schema with Ok b => b | _ => [] end.
Definition over_row : RowFmt.row := text_row 4048.
Definition over_blob : bytes :=
  Eval vm_compute in
    match RowFmt.pack_row over_row text_schema with Ok b => b | _ => [] end.

(** [one_row_heap] after its row was deleted: one page whose only slot is
    free; and the row that fills that page to the last byte when the slot
    is reused. *)
Definition emptied_heap : heap :=
  Eval vm_compute in snd (delete (mkRID 0 0) one_row_heap).
Definition reuse_row : RowFmt.row := text_row 4051.
Definition reuse_blob : bytes :=
  Eval vm_compute in
    match RowFmt.pack_row reuse_row text_schema with Ok b => b | _ => [] end.

End HeapSpec.

(** ** Executor *)

Module ExecutorSpec.
Import RowFmt.










End ExecutorSpec.

(** ** Sequential index *)

Module SeqFileSpec.
Import SeqFile.

Definition main_count (f : sfile) : Z := fst (fst (hdr f)).
Definition aux_count (f : sfile) : Z := snd (fst (hdr f)).
Definition head_ptr (f : sfile) : Z := snd (hdr f).

(** A pointer into the counted part of D ([1..m]) or of A ([-2..-(a+1)]). *)
Definition valid_ptr (m a p : Z) : Prop :=
  1 <= p <= m \/ - (a + 1) <= p <= -2.

(** Where the entry a pointer names sits among the entries of the file. *)
Definition ptr_pos (m p : Z) : nat :=
  Z.to_nat (if 0 <? p then p - 1 else m - p - 2).

Definition key_at (m : Z) (es : list SFEntry) (p : Z) : Z :=
  match es !! ptr_pos m p with Some e => key e | None => 0 end.

(** [seg m a es p l q]: following [next_ptr] from [p] visits exactly the
    pointers [l], every one of them valid and live, and arrives at [q]. *)
Inductive seg (m a : Z) (es : list SFEntry) : Z -> list Z -> Z -> Prop :=
| seg_nil (q : Z) : seg m a es q [] q
| seg_cons (p : Z) (e : SFEntry) (l : list Z) (q : Z) :
    valid_ptr m a p ->
    es !! ptr_pos m p = Some e ->
    next_ptr e <> DELETED ->
    seg m a es (next_ptr e) l q ->
    seg m a es p (p :: l) q.

(** The entry at [p] is counted and is not a tombstone. *)
Definition live (m a : Z) (es : list SFEntry) (p : Z) : Prop :=
  valid_ptr m a p /\
  exists e, es !! ptr_pos m p = Some e /\ next_ptr e <> DELETED.

(** What [struct.pack] needs of the key and RID of a stored entry. *)
Definition storable (e : SFEntry) : Prop :=
  fits_i32 (key e) = true /\ fits_u16 (page (rid e)) = true
  /\ fits_u16 (slot (rid e)) = true.

(** [l] is the logical list from [h]: it visits every live entry, once, in
    non-decreasing key order. *)
Definition chain_ok (m a h : Z) (es : list SFEntry) (l : list Z) : Prop :=
  seg m a es h l 0 /\
  NoDup l /\
  (forall p, live m a es p -> p ∈ l) /\
  StronglySorted Z.le (map (key_at m es) l).

(** The invariant of the index: the counted regions lie inside the file and
    hold storable entries, D is sorted by key position by position
    (tombstones included), and there is a logical list. *)
Definition inv (m a h : Z) (es : list SFEntry) : Prop :=
  0 <= m /\ 0 <= a /\ m + a <= Z.of_nat (length es) /\
  (forall i j e1 e2, (i <= j)%nat -> Z.of_nat j < m ->
                     es !! i = Some e1 -> es !! j = Some e2 -> key e1 <= key e2) /\
  (forall i e, Z.of_nat i < m + a -> es !! i = Some e -> storable e) /\
  exists l, chain_ok m a h es l.

Definition WF (f : sfile) : Prop :=
  inv (main_count f) (aux_count f) (head_ptr f) (ents f).

(** The states the three operations reach from the empty index, each step
    a run of an operation that returns. *)
Inductive reachable : sfile -> Prop :=
| reach_empty : reachable empty
| reach_insert (f f' : sfile) (fuel : nat) (e : SFEntry) :
    reachable f -> insert fuel e f = (Ok tt, f') -> reachable f'
| reach_delete (f f' : sfile) (fuel : nat) (k : Z) (r : option RID) (n : Z) :
    reachable f -> delete_key fuel k r f = (Ok n, f') -> reachable f'
| reach_reorganize (f f' : sfile) :
    reachable f -> reorganize f = (Ok tt, f') -> reachable f'.

(** The logical list as every traversal of the source reads it: follow
    [next_ptr] from [cur], skip an entry whose [next_ptr] is [DELETED], stop
    at the end marker. Pointer and entry of every entry kept. *)
Fixpoint logical_from (fuel : nat) (f : sfile) (cur : Z) : res (list (Z * SFEntry)) :=
  if is_end cur then Ok []
  else
    match fuel with
    | O => OutOfFuel
    | S fuel' =>
        (l <- loc cur ;;
         e <- read_at (entry_off (fst l) (snd l) (main_count f)) f ;;
         rest <- logical_from fuel' f (next_ptr e) ;;
         Ok (if deleted e then rest else (cur, e) :: rest))%res
    end.

Definition logical_list (f : sfile) : res (list (Z * SFEntry)) :=
  logical_from (S (length (ents f))) f (head_ptr f).

(** [e] is the live entry that pointer [p] names. *)
Definition live_entry (f : sfile) (p : Z) (e : SFEntry) : Prop :=
  valid_ptr (main_count f) (aux_count f) p /\
  ents f !! ptr_pos (main_count f) p = Some e /\
  next_ptr e <> DELETED.

(** The entries after a write at position [i]. *)
Definition put (i : nat) (e : SFEntry) (es : list SFEntry) : list SFEntry :=
  if (i <? length es)%nat then <[i := e]> es
  else es ++ replicate (i - length es)%nat zero_entry ++ [e].

(** First pointer of a stretch of the list, or where it leads when empty. *)
Definition head_or (l : list Z) (q : Z) : Z :=
  match l with x :: _ => x | [] => q end.

(** Last pointer of a stretch of the list, or where it came from when empty. *)
Definition last_or (q : Z) (l : list Z) : Z := List.last l q.

(** The entry a pointer names (the zero entry where there is none). *)
Definition entry_at (m : Z) (es : list SFEntry) (p : Z) : SFEntry :=
  default zero_entry (es !! ptr_pos m p).

(** The entries [reorganize] lays down in D from index [i] on: each points
    to the next index, the one at index [newm] to the end. *)
Fixpoint relink (newm i : Z) (out : list SFEntry) : list SFEntry :=
  match out with
  | [] => []
  | e :: rest => set_next e (if i <? newm then i + 1 else 0) :: relink newm (i + 1) rest
  end.

(** The file [reorganize] leaves when the logical list holds [out]. *)
Definition compacted (f : sfile) (out : list SFEntry) : sfile :=
  let n := Z.of_nat (length out) in
  {| hdr := (n, 0, if 1 <=? n then 1 else 0);
     ents := relink n 1 out ++ drop (length out) (ents f) |}.

(** The pointers [i, i + 1, ...] to [n] consecutive entries of D. *)
Fixpoint dptrs (i : Z) (n : nat) : list Z :=
  match n with
  | O => []
  | S n' => i :: dptrs (i + 1) n'
  end.

(** The invariant of the logical list: the traversal returns, and what it
    returns is every live entry, once, in non-decreasing key order. *)
Definition logical_ok (f : sfile) : Prop :=
  exists l,
    logical_list f = Ok l /\
    NoDup (map fst l) /\
    (forall p e, (p, e) ∈ l <-> live_entry f p e) /\
    StronglySorted Z.le (map (fun pe => key (snd pe)) l).

(** The index of the walk-through: keys 10, 15, 12 and 15 again are
    inserted, then key 12 is deleted. *)
Definition demo_e10 : SFEntry := mkEntry 10 (mkRID 0 0) 0.
Definition demo_e15 : SFEntry := mkEntry 15 (mkRID 0 1) 0.
Definition demo_e12 : SFEntry := mkEntry 12 (mkRID 0 2) 0.
Definition demo_e15' : SFEntry := mkEntry 15 (mkRID 0 3) 0.

Definition demo1 : sfile := Eval vm_compute in snd (insert 8 demo_e10 empty).
Definition demo2 : sfile := Eval vm_compute in snd (insert 8 demo_e15 demo1).
Definition demo3 : sfile := Eval vm_compute in snd (insert 8 demo_e12 demo2).
Definition demo4 : sfile := Eval vm_compute in snd (insert 8 demo_e15' demo3).
Definition demo5 : sfile := Eval vm_compute in snd (delete_key 8 12 None demo4).
Definition demo6 : sfile := Eval vm_compute in snd (reorganize demo5).

(** Two entries with key 5, one after the other, into an empty index. *)
Definition dup_old : SFEntry := mkEntry 5 (mkRID 0 0) 0.
Definition dup_new : SFEntry := mkEntry 5 (mkRID 0 1) 0.
Definition dup1 : sfile := Eval vm_compute in snd (insert 8 dup_old empty).
Definition dup2 : sfile := Eval vm_compute in snd (insert 8 dup_new dup1).
(** And that index compacted. *)
Definition dup3 : sfile := Eval vm_compute in snd (reorganize dup2).

End SeqFileSpec.

(** ** Heap file: live rows and sound pages *)

Module HeapRows.
Import Heap HeapSpec.

(** [rd] names a slot of the directory of a page of the file whose length
    is not 0: what [read] accepts and [iter_rids] yields. *)
Definition is_live (f : heap) (rd : RID) : bool :=
  (0 <=? page rd) && (page rd <? num_pages f) &&
  match hdr_at f (page rd) with
  | Ok (ns, _) =>
      (0 <=? slot rd) && (slot rd <? ns) &&
      match slot_at f (page rd) (slot rd) with
      | Ok (_, ln) => negb (ln =? 0)
      | _ => false
      end
  | _ => false
  end.

(** The slot invariant of the data model: a live slot lies in the data
    area, [data_end <= off] and [off + len <= PAGE_SIZE]. *)
Definition slot_ok (f : heap) (p de s : Z) : bool :=
  match slot_at f p s with
  | Ok (off, ln) => (ln =? 0) || ((de <=? off) && (off + ln <=? PAGE_SIZE))
  | _ => false
  end.

Definition page_sound (f : heap) (p : Z) : bool :=
  match hdr_at f p with
  | Ok (ns, de) =>
      (HDR_SIZE + ns * SLOT_SIZE <=? de) && (de <=? PAGE_SIZE)
      && forallb (fun s => slot_ok f p de (Z.of_nat s)) (seq 0 (Z.to_nat ns))
  | _ => false
  end.

(** Whole pages, each with a sound header and sound slots. *)
Definition heap_sound (f : heap) : bool :=
  (flen f mod PAGE_SIZE =? 0)
  && forallb (fun i => page_sound f (Z.of_nat i)) (seq 0 (Z.to_nat (num_pages f))).

Definition rid_eqb (a b : RID) : bool :=
  (page a =? page b) && (slot a =? slot b).

(** Page order, then slot order. *)
Definition rid_lt (a b : RID) : Prop :=
  page a < page b \/ (page a = page b /\ slot a < slot b).

(** A history of the file: it starts empty, rows are inserted (under any
    schema) and RIDs are deleted; beside the file, the RIDs that were
    returned by an insert and not deleted since. *)
Inductive heap_run : heap -> list RID -> Prop :=
| run_empty : heap_run [] []
| run_insert (f f' : heap) (S : list RID) (sch : RowFmt.schema) (r : RowFmt.row)
    (rd : RID) :
    heap_run f S -> insert sch r f = (Ok rd, f') ->
    heap_run f' (rd :: filter (fun x => negb (rid_eqb x rd)) S)
| run_delete (f f' : heap) (S : list RID) (rd : RID) (b : bool) :
    heap_run f S -> delete rd f = (Ok b, f') ->
    heap_run f' (filter (fun x => negb (rid_eqb x rd)) S).

(** The same history with the rows: beside the file, for every RID that an
    insert returned and no later delete was given, the schema and the row
    of that insert. *)
Inductive heap_hist : heap -> list (RID * (RowFmt.schema * RowFmt.row)) -> Prop :=
| hist_empty : heap_hist [] []
| hist_insert (f f' : heap) (S : list (RID * (RowFmt.schema * RowFmt.row)))
    (sch : RowFmt.schema) (r : RowFmt.row) (rd : RID) :
    heap_hist f S -> insert sch r f = (Ok rd, f') ->
    heap_hist f' ((rd, (sch, r)) :: filter (fun x => negb (rid_eqb (fst x) rd)) S)
| hist_delete (f f' : heap) (S : list (RID * (RowFmt.schema * RowFmt.row)))
    (rd : RID) (b : bool) :
    heap_hist f S -> delete rd f = (Ok b, f') ->
    heap_hist f' (filter (fun x => negb (rid_eqb (fst x) rd)) S).

End HeapRows.

(** ** Sequential index: the list of keys and RIDs *)

Module IndexView.
Import SeqFile SeqFileSpec.

(** Key and RID of an entry. *)
Definition kr (e : SFEntry) : Z * RID := (key e, rid e).

(** The keys and RIDs of the live entries, in the order of the logical list. *)
Definition view (f : sfile) : res (list (Z * RID)) :=
  (l <- logical_list f ;; Ok (map (fun pe => kr (snd pe)) l))%res.

(** The live entries themselves, in that order. *)
Definition live_entries (f : sfile) : res (list SFEntry) :=
  (l <- logical_list f ;; Ok (map snd l))%res.

(** [(k, r)] put in front of the first pair whose key is not below [k]. *)
Fixpoint put_sorted (k : Z) (r : RID) (l : list (Z * RID)) : list (Z * RID) :=
  match l with
  | [] => [(k, r)]
  | (k', r') :: t =>
      if k' <? k then (k', r') :: put_sorted k r t else (k, r) :: (k', r') :: t
  end.

(** The pairs with key [k] (and, when a RID is given, that RID) taken out
    of a list, the first one only when a RID is given; the scan stops at
    the first key above [k]. *)
Definition rid_is (r : option RID) (r' : RID) : bool :=
  match r with
  | None => true
  | Some r0 => (page r' =? page r0) && (slot r' =? slot r0)
  end.

Fixpoint drop_key (k : Z) (r : option RID) (l : list (Z * RID)) : list (Z * RID) :=
  match l with
  | [] => []
  | (k', r') :: t =>
      if k <? k' then (k', r') :: t
      else if (k' =? k) && rid_is r r' then
             match r with Some _ => t | None => drop_key k r t end
      else (k', r') :: drop_key k r t
  end.

(** The entry of D at 1-based index [i]. *)
Definition d_at (f : sfile) (i : Z) : option SFEntry :=
  if 1 <=? i then ents f !! Z.to_nat (i - 1) else None.

(** The key of [e] lies in [[lo, hi]]. *)
Definition in_range (lo hi : Z) (e : SFEntry) : bool :=
  (lo <=? key e) && (key e <=? hi).

End IndexView.

(** ** Row codec: sizes and types *)

Module RowFmtMore.
Import RowFmt.

(** The most bytes the payload of a column of type [typ] takes. *)
Definition max_field_size (typ : pystr) : Z :=
  if typ_is typ "INT" then 4
  else if typ_is typ "FLOAT" then 8
  else if typ_starts typ "VARCHAR" then 2 + _varchar_max typ
  else if typ_is typ "DATE" then 2 + 255
  else 0.

(** The most bytes an encoded row of the schema takes: the column count,
    the null bitmap and every column at its widest. *)
Definition max_row_size (sch : schema) : Z :=
  2 + _nullmap_size (Z.of_nat (length sch))
  + fold_right (fun c acc => max_field_size (snd c) + acc) 0 sch.

(** A value a column of type [typ] can come back with from [unpack_row]. *)
Definition value_has_type (typ : pystr) (v : value) : bool :=
  match v with
  | VNone => true
  | VInt z => typ_is typ "INT" && (-2147483648 <=? z) && (z <=? 2147483647)
  | VFloat b => typ_is typ "FLOAT" && (0 <=? b) && (b <? 18446744073709551616)
  | VStr _ => typ_starts typ "VARCHAR" || typ_is typ "DATE"
  | VRid _ _ => false
  end.

End RowFmtMore.

(** ** Executor: an insert that reaches every index *)

Module ExecutorMore.
Import RowFmt SeqFile SeqFileSpec IndexView Executor.

(** An index that can take the key of row [r]: its file is well formed and
    has room in its 32-bit counters, the walk has fuel for every counted
    entry, and the row holds a 32-bit integer in the key column. *)
Definition index_ready (fuel : nat) (r : row) (ix : index) : Prop :=
  WF (sf ix) /\
  main_count (sf ix) + aux_count (sf ix) + 2 <= 2147483647 /\
  (Z.to_nat (main_count (sf ix) + aux_count (sf ix)) <= fuel)%nat /\
  exists kz, r !! key_col ix = Some (VInt kz) /\ fits_i32 kz = true.

(** Index [ix'] is index [ix] with the key of row [r] and the RID [rd] put
    into its logical list. *)
Definition index_took (r : row) (rd : RID) (ix ix' : index) : Prop :=
  key_col ix' = key_col ix /\
  exists kz v,
    r !! key_col ix = Some (VInt kz) /\
    view (sf ix) = Ok v /\
    view (sf ix') = Ok (put_sorted kz rd v).

(** The demo database after the demo row of key 10 went into its index. *)
Definition demo_db_one : db :=
  {| heap := HeapSpec.one_row_heap;
     indexes := [{| key_col := "id"; sf := demo1 |}] |}.

End ExecutorMore.

(** ** Scans and deletes by value *)

Module ExecScan.
Import RowFmt RowFmtSpec.

(** What a history records: the live RIDs, each with the schema and the
    row of its insert. *)
Abbreviation hist := (list (RID * (schema * row))).

(** The row [read] returns for an entry of a history: the columns of its
    schema, an absent one as [None], and the RID under ["_rid"]. *)
Definition stored_row (x : RID * (schema * row)) : row :=
  <["_rid"%string := VRid (page (fst x)) (slot (fst x))]>
    (normalized (snd (snd x)) (fst (snd x)) ∅).

(** [rd] is one of the RIDs [l]. *)
Definition in_rids (l : list RID) (rd : RID) : bool :=
  existsb (HeapRows.rid_eqb rd) l.

(** The demo database without an index. *)
Definition demo_db_plain : Executor.db :=
  {| Executor.heap := HeapSpec.one_row_heap; Executor.indexes := [] |}.

End ExecScan.

(** * Facts about the embedding *)

(** ** Bytes and little-endian integers *)

Lemma b2z_range (b : byte) : 0 <= b2z b < 256.
Proof.
  unfold b2z. pose proof (Byte.to_N_bounded b) as H. lia.
Qed.

Lemma z2b_b2z (b : byte) : z2b (b2z b) = b.
Proof.
  unfold z2b, b2z. rewrite N2Z.id, Byte.of_to_N. reflexivity.
Qed.

Lemma b2z_z2b (z : Z) : 0 <= z < 256 -> b2z (z2b z) = z.
Proof.
  intros Hz. unfold z2b, b2z.
  destruct (Byte.of_N (Z.to_N z)) as [b|] eqn:E.
  - apply Byte.to_of_N in E. rewrite E. lia.
  - apply Byte.of_N_None_iff in E. lia.
Qed.

Lemma map_b2z_z2b (l : list Z) :
  Forall (fun z => 0 <= z < 256) l -> map b2z (map z2b l) = l.
Proof.
  induction 1 as [|z l Hz _ IH]; simpl; [reflexivity|].
  rewrite b2z_z2b, IH; auto.
Qed.

Lemma length_le_bytes (n : nat) (z : Z) : length (le_bytes n z) = n.
Proof. revert z. induction n as [|n IH]; intros z; simpl; [|rewrite IH]; reflexivity. Qed.

Lemma le_val_le_bytes (n : nat) (z : Z) :
  0 <= z < 256 ^ Z.of_nat n -> le_val (le_bytes n z) = z.
Proof.
  revert z. induction n as [|n IH]; intros z Hz.
  - simpl in *. lia.
  - cbn [le_bytes le_val].
    rewrite Nat2Z.inj_succ, Z.pow_succ_r in Hz by lia.
    rewrite b2z_z2b by (apply Z.mod_pos_bound; lia).
    rewrite IH.
    + pose proof (Z.div_mod z 256). lia.
    + split; [apply Z.div_pos; lia | apply Z.div_lt_upper_bound; lia].
Qed.

Lemma le_val_range (bs : bytes) : 0 <= le_val bs < 256 ^ Z.of_nat (length bs).
Proof.
  induction bs as [|b r IH].
  - simpl. lia.
  - cbn [le_val length]. rewrite Nat2Z.inj_succ, Z.pow_succ_r by lia.
    pose proof (b2z_range b). lia.
Qed.

Lemma signed32_wrap (z : Z) :
  -2147483648 <= z <= 2147483647 -> signed32 (z mod 4294967296) = z.
Proof.
  intros Hz. unfold signed32.
  destruct (Z.ltb_spec (z mod 4294967296) 2147483648) as [H|H].
  - destruct (Z.lt_ge_cases z 0) as [Hn|Hp].
    + rewrite <- (Z.mod_add z 1) in H by lia.
      rewrite Z.mod_small in H by lia. lia.
    + apply Z.mod_small. lia.
  - destruct (Z.lt_ge_cases z 0) as [Hn|Hp].
    + rewrite <- (Z.mod_add z 1) by lia.
      rewrite Z.mod_small by lia. lia.
    + rewrite Z.mod_small in H by lia. lia.
Qed.

(** ** Slices *)

Lemma slice_middle (pre x post : bytes) :
  slice (pre ++ x ++ post) (length pre) (length pre + length x) = x.
Proof.
  unfold slice. rewrite drop_app_length.
  replace (length pre + length x - length pre)%nat with (length x) by lia.
  apply take_app_length.
Qed.

Lemma slice_middle' (pre x post : bytes) (n : nat) :
  n = length x -> slice (pre ++ x ++ post) (length pre) (length pre + n) = x.
Proof. intros ->. apply slice_middle. Qed.

Lemma unpack_from_middle (pre x post : bytes) (n : nat) :
  n = length x -> unpack_from n (pre ++ x ++ post) (length pre) = Ok x.
Proof.
  intros ->. unfold unpack_from.
  rewrite !length_app.
  destruct (Nat.leb_spec (length pre + length x) (length pre + (length x + length post))); [|lia].
  rewrite slice_middle. reflexivity.
Qed.

Lemma slice_at (pre x post : bytes) (a b : nat) :
  a = length pre -> b = (a + length x)%nat -> slice (pre ++ x ++ post) a b = x.
Proof. intros -> ->. apply slice_middle. Qed.

Lemma unpack_from_head (x post : bytes) (n : nat) :
  n = length x -> unpack_from n (x ++ post) 0 = Ok x.
Proof. intros H. apply (unpack_from_middle [] x post n H). Qed.

Lemma pack_H_inv (n : Z) (b : bytes) :
  pack_H n = Ok b -> 0 <= n <= 65535 /\ b = le_bytes 2 n.
Proof.
  unfold pack_H. intros H.
  destruct (Z.leb_spec 0 n), (Z.leb_spec n 65535); simpl in H; inversion H; auto.
Qed.

Lemma pack_i_inv (n : Z) (b : bytes) :
  pack_i n = Ok b ->
  -2147483648 <= n <= 2147483647 /\ b = le_bytes 4 (n mod 4294967296).
Proof.
  unfold pack_i. intros H.
  destruct (Z.leb_spec (-2147483648) n), (Z.leb_spec n 2147483647);
    simpl in H; inversion H; auto.
Qed.

Lemma res_bind_ok {A B : Type} (m : res A) (k : A -> res B) (b : B) :
  res_bind m k = Ok b -> exists a, m = Ok a /\ k a = Ok b.
Proof. destruct m; simpl; intros H; [eauto | discriminate | discriminate]. Qed.

(** ** Sequencing *)

Lemma bind_eq {S A B : Type} (m : M S A) (k : A -> M S B) (f f' : S) (a : A) :
  m f = (Ok a, f') -> bind m k f = k a f'.
Proof. intros H. unfold bind. rewrite H. reflexivity. Qed.

Lemma bind_raise {S A B : Type} (m : M S A) (k : A -> M S B) (f f' : S) (e : exn) :
  m f = (Raise e, f') -> bind m k f = (Raise e, f').
Proof. intros H. unfold bind. rewrite H. reflexivity. Qed.

Lemma bind_ok_inv {S A B : Type} (m : M S A) (k : A -> M S B) (f f' : S) (b : B) :
  bind m k f = (Ok b, f') ->
  exists a f1, m f = (Ok a, f1) /\ k a f1 = (Ok b, f').
Proof.
  unfold bind. destruct (m f) as [[a|e|] f1]; intros H;
    [eauto | discriminate | discriminate].
Qed.

Lemma bind_peek {S A B : Type} (g : S -> res A) (k : A -> M S B) (f : S) (a : A) :
  g f = Ok a -> bind (peek g) k f = k a f.
Proof. intros H. unfold bind, peek. rewrite H. reflexivity. Qed.

(** ** UTF-8: decoding undoes encoding *)

Lemma utf8_encode_cp_bytes (c : Z) (bs : list Z) :
  utf8_encode_cp c = Ok bs -> Forall (fun z => 0 <= z < 256) bs.
Proof.
  unfold utf8_encode_cp, is_surrogate. intros H.
  repeat match type of H with
         | context [?a <? ?b] => destruct (Z.ltb_spec a b)
         | context [?a <=? ?b] => destruct (Z.leb_spec a b)
         end; simpl in H; inversion H; subst; clear H;
    repeat (apply Forall_cons; split); try apply Forall_nil;
    Z.div_mod_to_equations; lia.
Qed.

(** Settle every integer comparison of the goal by linear arithmetic. *)
Ltac settle_cmp :=
  repeat match goal with
         | |- context [?a <? ?b] =>
             first [ rewrite (proj2 (Z.ltb_lt a b)) by lia
                   | rewrite (proj2 (Z.ltb_ge a b)) by lia ]
         | |- context [?a <=? ?b] =>
             first [ rewrite (proj2 (Z.leb_le a b)) by lia
                   | rewrite (proj2 (Z.leb_gt a b)) by lia ]
         end.

Lemma utf8_decode_cp_app (c : Z) (bs rest : list Z) :
  utf8_encode_cp c = Ok bs ->
  utf8_decode_z (bs ++ rest) = (s <- utf8_decode_z rest ;; Ok (c :: s))%res.
Proof.
  unfold utf8_encode_cp, is_surrogate. intros H.
  pose proof (Z.mod_pos_bound c 64). pose proof (Z.div_mod c 64).
  pose proof (Z.mod_pos_bound (c / 64) 64). pose proof (Z.div_mod (c / 64) 64).
  pose proof (Z.mod_pos_bound (c / 64 / 64) 64).
  pose proof (Z.div_mod (c / 64 / 64) 64).
  assert (c / 4096 = c / 64 / 64) as E
      by (rewrite Z.div_div by lia; reflexivity).
  assert (c / 262144 = c / 64 / 64 / 64) as E'
      by (rewrite !Z.div_div by lia; reflexivity).
  rewrite E, E' in H.
  set (q := c / 64) in *. set (q2 := q / 64) in *. set (q3 := q2 / 64) in *.
  repeat match type of H with
         | context [?a <? ?b] => destruct (Z.ltb_spec a b)
         | context [?a <=? ?b] => destruct (Z.leb_spec a b)
         end; simpl in H; inversion H; subst bs; clear H;
    cbn [app utf8_decode_z]; unfold is_cont, is_surrogate;
    settle_cmp; cbn [andb negb];
    (destruct (utf8_decode_z rest); simpl; [f_equal; f_equal; lia | reflexivity ..]).
Qed.

Lemma utf8_decode_encode (s : pystr) (b : bytes) :
  utf8_encode s = Ok b -> utf8_decode b = Ok s.
Proof.
  revert b. induction s as [|c s IH]; intros b H.
  - inversion H. reflexivity.
  - cbn [utf8_encode] in H.
    apply res_bind_ok in H as (bs & Hc & H).
    apply res_bind_ok in H as (rest & Hr & H). inversion H; subst; clear H.
    unfold utf8_decode. rewrite map_app.
    rewrite map_b2z_z2b by (eapply utf8_encode_cp_bytes; eauto).
    rewrite (utf8_decode_cp_app _ _ _ Hc).
    specialize (IH _ Hr). unfold utf8_decode in IH. rewrite IH. reflexivity.
Qed.
Lemma utf8_decode_z_error (bs : list Z) (e : exn) :
  utf8_decode_z bs = Raise e -> e = UnicodeError.
Proof.
  remember (length bs) as n eqn:Hn. revert bs Hn.
  induction n as [n IH] using lt_wf_ind. intros bs Hn H.
  destruct bs as [|b0 r0]; [discriminate|].
  cbn [utf8_decode_z] in H.
  assert (Hrec : forall r : list Z, (length r < n)%nat ->
            forall c, (s <- utf8_decode_z r ;; Ok (c :: s))%res = Raise e -> e = UnicodeError).
  { intros r Hr c Hc. destruct (utf8_decode_z r) eqn:E; simpl in Hc; try discriminate.
    inversion Hc; subst. eapply (IH (length r)); eauto. }
  cbn [length] in Hn.
  destruct (b0 <? 128); [eapply Hrec; [|exact H]; lia|].
  destruct ((194 <=? b0) && (b0 <=? 223)).
  { destruct r0 as [|b1 r1]; [congruence|].
    destruct (is_cont b1); [|congruence].
    eapply Hrec; [|exact H]. cbn [length] in Hn. lia. }
  destruct ((224 <=? b0) && (b0 <=? 239)).
  { destruct r0 as [|b1 [|b2 r2]]; try congruence.
    match type of H with (if ?c then _ else _) = _ => destruct c end; [|congruence].
    eapply Hrec; [|exact H]. cbn [length] in Hn. lia. }
  destruct ((240 <=? b0) && (b0 <=? 244)); [|congruence].
  destruct r0 as [|b1 [|b2 [|b3 r3]]]; try congruence.
  match type of H with (if ?c then _ else _) = _ => destruct c end; [|congruence].
  eapply Hrec; [|exact H]. cbn [length] in Hn. lia.
Qed.

Lemma utf8_decode_z_app (b1 b2 : list Z) (s1 : pystr) :
  utf8_decode_z b1 = Ok s1 ->
  utf8_decode_z (b1 ++ b2) = (s2 <- utf8_decode_z b2 ;; Ok (s1 ++ s2))%res.
Proof.
  remember (length b1) as n eqn:Hn. revert b1 s1 Hn.
  induction n as [n IH] using lt_wf_ind. intros b1 s1 Hn H.
  destruct b1 as [|b0 r0].
  { inversion H; subst. cbn [app]. destruct (utf8_decode_z b2); reflexivity. }
  cbn [length] in Hn.
  assert (Hrec : forall (r : list Z) c, (length r < n)%nat ->
            (s <- utf8_decode_z r ;; Ok (c :: s))%res = Ok s1 ->
            (s <- utf8_decode_z (r ++ b2) ;; Ok (c :: s))%res
            = (s2 <- utf8_decode_z b2 ;; Ok (s1 ++ s2))%res).
  { intros r c Hr Hc. apply res_bind_ok in Hc as (s & Hs & Hc).
    inversion Hc; subst s1; clear Hc.
    rewrite (IH (length r) Hr r s eq_refl Hs).
    destruct (utf8_decode_z b2); reflexivity. }
  cbn [utf8_decode_z] in H. cbn [app utf8_decode_z].
  destruct (b0 <? 128); [apply Hrec; [lia | exact H]|].
  destruct ((194 <=? b0) && (b0 <=? 223)).
  { destruct r0 as [|b1 r1]; [discriminate|]. cbn [app].
    destruct (is_cont b1); [|discriminate].
    apply Hrec; [cbn [length] in Hn; lia | exact H]. }
  destruct ((224 <=? b0) && (b0 <=? 239)).
  { destruct r0 as [|b1 [|b2' r2]]; try discriminate. cbn [app].
    match type of H with (if ?c then _ else _) = _ => destruct c end; [|discriminate].
    apply Hrec; [cbn [length] in Hn; lia | exact H]. }
  destruct ((240 <=? b0) && (b0 <=? 244)); [|discriminate].
  destruct r0 as [|b1 [|b2' [|b3 r3]]]; try discriminate. cbn [app].
  match type of H with (if ?c then _ else _) = _ => destruct c end; [|discriminate].
  apply Hrec; [cbn [length] in Hn; lia | exact H].
Qed.

Lemma utf8_decode_z_empty (bs : list Z) : utf8_decode_z bs = Ok [] -> bs = [].
Proof.
  destruct bs as [|b0 r0]; [reflexivity|]. cbn [utf8_decode_z]. intros H. exfalso.
  assert (Hne : forall (r : list Z) c,
            (s <- utf8_decode_z r ;; Ok (c :: s))%res <> Ok []).
  { intros r c Hc. apply res_bind_ok in Hc as (s & _ & Hc). discriminate. }
  destruct (b0 <? 128); [exact (Hne _ _ H)|].
  destruct ((194 <=? b0) && (b0 <=? 223)).
  { destruct r0 as [|b1 r1]; [discriminate|].
    destruct (is_cont b1); [exact (Hne _ _ H) | discriminate]. }
  destruct ((224 <=? b0) && (b0 <=? 239)).
  { destruct r0 as [|b1 [|b2' r2]]; try discriminate.
    match type of H with (if ?c then _ else _) = _ => destruct c end;
      [exact (Hne _ _ H) | discriminate]. }
  destruct ((240 <=? b0) && (b0 <=? 244)); [|discriminate].
  destruct r0 as [|b1 [|b2' [|b3 r3]]]; try discriminate.
  match type of H with (if ?c then _ else _) = _ => destruct c end;
    [exact (Hne _ _ H) | discriminate].
Qed.

(** A text is not the decoding of a strict prefix of its encoding. *)
Lemma utf8_decode_cut (s s' : pystr) (enc : bytes) (n : nat) :
  utf8_encode s = Ok enc -> (n < length enc)%nat ->
  utf8_decode (take n enc) = Ok s' -> s' <> s.
Proof.
  intros Henc Hn Hcut ->.
  apply utf8_decode_encode in Henc. unfold utf8_decode in *.
  rewrite <- (take_drop n enc) in Henc at 1. rewrite map_app in Henc.
  rewrite (utf8_decode_z_app _ _ _ Hcut) in Henc.
  apply res_bind_ok in Henc as (s2 & Hs2 & Henc).
  assert (s2 = []).
  { inversion Henc as [E]. rewrite <- (app_nil_r s) in E at 2.
    apply app_inv_head in E. exact E. }
  subst s2. apply utf8_decode_z_empty in Hs2.
  apply (f_equal (@length Z)) in Hs2. rewrite length_map, length_drop in Hs2.
  cbn in Hs2. lia.
Qed.

Lemma utf8_encode_error (s : pystr) (e : exn) :
  utf8_encode s = Raise e -> e = UnicodeError.
Proof.
  induction s as [|c s IH]; [discriminate|]. cbn [utf8_encode].
  destruct (utf8_encode_cp c) eqn:Ec; simpl.
  - destruct (utf8_encode s); simpl; [discriminate | | discriminate].
    intros H. inversion H; subst. apply IH. reflexivity.
  - intros H. inversion H; subst. unfold utf8_encode_cp in Ec.
    repeat match type of Ec with
           | (if ?c then _ else _) = _ => destruct c
           end; congruence.
  - discriminate.
Qed.

Lemma utf8_decode_z_cases (bs : list Z) :
  (exists s, utf8_decode_z bs = Ok s) \/ utf8_decode_z bs = Raise UnicodeError.
Proof.
  remember (length bs) as n eqn:Hn. revert bs Hn.
  induction n as [n IH] using lt_wf_ind. intros bs Hn.
  destruct bs as [|b0 r0]; [left; eexists; reflexivity|].
  cbn [length] in Hn.
  assert (Hrec : forall (r : list Z) c, (length r < n)%nat ->
            (exists s', (s <- utf8_decode_z r ;; Ok (c :: s))%res = Ok s')
            \/ (s <- utf8_decode_z r ;; Ok (c :: s))%res = Raise UnicodeError).
  { intros r c Hr. destruct (IH (length r) Hr r eq_refl) as [[s ->]| ->].
    - left. eexists. reflexivity.
    - right. reflexivity. }
  cbn [utf8_decode_z].
  destruct (b0 <? 128); [apply Hrec; lia|].
  destruct ((194 <=? b0) && (b0 <=? 223)).
  { destruct r0 as [|b1 r1]; [right; reflexivity|].
    destruct (is_cont b1); [|right; reflexivity].
    apply Hrec. cbn [length] in Hn. lia. }
  destruct ((224 <=? b0) && (b0 <=? 239)).
  { destruct r0 as [|b1 [|b2 r2]]; try (right; reflexivity).
    match goal with |- context [if ?c then _ else _] => destruct c end;
      [|right; reflexivity].
    apply Hrec. cbn [length] in Hn. lia. }
  destruct ((240 <=? b0) && (b0 <=? 244)); [|right; reflexivity].
  destruct r0 as [|b1 [|b2 [|b3 r3]]]; try (right; reflexivity).
  match goal with |- context [if ?c then _ else _] => destruct c end;
    [|right; reflexivity].
  apply Hrec. cbn [length] in Hn. lia.
Qed.

Lemma utf8_encode_cases (s : pystr) :
  (exists b, utf8_encode s = Ok b) \/ utf8_encode s = Raise UnicodeError.
Proof.
  induction s as [|c s IH]; [left; eexists; reflexivity|]. cbn [utf8_encode].
  assert (Hc : (exists bs, utf8_encode_cp c = Ok bs)
               \/ utf8_encode_cp c = Raise UnicodeError).
  { unfold utf8_encode_cp.
    repeat match goal with |- context [if ?c then _ else _] => destruct c end;
      first [left; eexists; reflexivity | right; reflexivity]. }
  destruct Hc as [[bs ->]| ->]; [|right; reflexivity]. cbn [res_bind].
  destruct IH as [[b ->]| ->]; [left; eexists; reflexivity | right; reflexivity].
Qed.

(** ** Row codec: the null bitmap *)

Module RowFmtFacts.
Import RowFmt RowFmtSpec PyEq.

Lemma bit_test (x k : Z) :
  0 <= k -> (Z.land (Z.shiftr x k) 1 =? 1) = Z.testbit x k.
Proof.
  intros Hk. change 1 with (Z.ones 1) at 1.
  rewrite Z.land_ones by lia. change (2 ^ 1) with 2.
  rewrite <- Z.bit0_mod, Z.shiftr_spec by lia. rewrite Z.add_0_l.
  destruct (Z.testbit x k); reflexivity.
Qed.

Lemma lor_bit_range (x j : Z) :
  0 <= x < 256 -> 0 <= j < 8 -> 0 <= Z.lor x (Z.shiftl 1 j) < 256.
Proof.
  intros Hx Hj. rewrite Z.shiftl_1_l.
  assert (0 < 2 ^ j) by (apply Z.pow_pos_nonneg; lia).
  assert (2 ^ j < 2 ^ 8) by (apply Z.pow_lt_mono_r; lia).
  split.
  - apply Z.lor_nonneg. lia.
  - destruct (Z.eq_dec x 0) as [->|Hx0].
    + rewrite Z.lor_0_l. lia.
    + change 256 with (2 ^ 8). apply Z.log2_lt_pow2.
      * assert (0 <= Z.lor x (2 ^ j)) by (apply Z.lor_nonneg; lia).
        assert (Z.lor x (2 ^ j) <> 0) by (rewrite Z.lor_eq_0_iff; lia). lia.
      * rewrite Z.log2_lor by lia.
        apply Z.max_lub_lt; apply Z.log2_lt_pow2; lia.
Qed.

Lemma is_null_set_null (bm bm' : bytes) (i : nat) :
  _set_null bm i = Ok bm' ->
  length bm' = length bm /\
  forall k, _is_null bm' k = if (k =? i)%nat then Ok true else _is_null bm k.
Proof.
  unfold _set_null. destruct (bm !! (i / 8)%nat) as [b|] eqn:Eb; [|discriminate].
  intros H.
  assert (bm' = <[(i / 8)%nat :=
                  z2b (Z.lor (b2z b) (Z.shiftl 1 (Z.of_nat (i mod 8))))]> bm)
    as -> by congruence.
  clear H. split; [apply length_insert|].
  intros k. unfold _is_null.
  assert (Hlt : (i / 8 < length bm)%nat) by (eapply lookup_lt_Some; eauto).
  assert (Hi8 : (i mod 8 < 8)%nat) by (apply Nat.mod_upper_bound; lia).
  assert (Hk8 : (k mod 8 < 8)%nat) by (apply Nat.mod_upper_bound; lia).
  pose proof (b2z_range b) as Hb.
  destruct (Nat.eq_dec (k / 8)%nat (i / 8)%nat) as [E|NE].
  - rewrite E, list_lookup_insert_eq, Eb by assumption.
    rewrite b2z_z2b by (apply lor_bit_range; lia).
    rewrite !bit_test by lia.
    rewrite Z.lor_spec, Z.shiftl_1_l, Z.pow2_bits_eqb by lia.
    destruct (Nat.eqb_spec k i) as [->|Hki].
    + rewrite Z.eqb_refl, orb_true_r. reflexivity.
    + assert (i mod 8 <> k mod 8)%nat.
      { intros Em. apply Hki.
        pose proof (Nat.div_mod_eq k 8). pose proof (Nat.div_mod_eq i 8). lia. }
      rewrite (proj2 (Z.eqb_neq _ _)) by lia. rewrite orb_false_r. reflexivity.
  - rewrite list_lookup_insert_ne by lia.
    destruct (Nat.eqb_spec k i) as [->|Hki]; [congruence | reflexivity].
Qed.

Lemma is_null_zeros (n k : nat) :
  (k / 8 < n)%nat -> _is_null (replicate n x00) k = Ok false.
Proof.
  intros H. unfold _is_null. rewrite lookup_replicate_2 by assumption.
  change (b2z x00) with 0. rewrite Z.shiftr_0_l. reflexivity.
Qed.

(** ** Row codec: one field *)

Lemma pack_d_inv (x : Z) (b : bytes) :
  pack_d x = Ok b -> 0 <= x < 18446744073709551616 /\ b = le_bytes 8 x.
Proof.
  unfold pack_d. intros H.
  destruct (Z.leb_spec 0 x), (Z.ltb_spec x 18446744073709551616);
    cbn [andb] in H; try discriminate.
  split; [lia | congruence].
Qed.

Lemma pack_field_unpack (typ : pystr) (val : value) (b pre post : bytes) :
  pack_field typ val = Ok b ->
  fits_field typ val = true ->
  unpack_field typ (pre ++ b ++ post) (length pre)
  = Ok (val, (length pre + length b)%nat).
Proof.
  unfold pack_field, fits_field, unpack_field.
  destruct (typ_is typ "INT").
  { (* INT *)
    intros H _. apply res_bind_ok in H as (z & Hz & H).
    destruct val; try discriminate. inversion Hz; subst z0; clear Hz.
    apply pack_i_inv in H as [Hr ->].
    unfold unpack_from_i.
    rewrite unpack_from_middle by (rewrite length_le_bytes; reflexivity).
    cbn [res_bind].
    rewrite le_val_le_bytes by (apply Z.mod_pos_bound; lia).
    rewrite signed32_wrap by lia. rewrite length_le_bytes. reflexivity. }
  destruct (typ_is typ "FLOAT").
  { (* FLOAT *)
    intros H _. apply res_bind_ok in H as (x & Hx & H).
    destruct val; try discriminate. inversion Hx; subst bits; clear Hx.
    apply pack_d_inv in H as [Hr ->].
    unfold unpack_from_d.
    rewrite unpack_from_middle by (rewrite length_le_bytes; reflexivity).
    cbn [res_bind].
    rewrite le_val_le_bytes by (change (256 ^ Z.of_nat 8) with 18446744073709551616; lia).
    rewrite length_le_bytes. reflexivity. }
  destruct (typ_starts typ "VARCHAR").
  { (* VARCHAR *)
    intros H Hfit. apply res_bind_ok in H as (s & Hs & H).
    destruct val; try discriminate. inversion Hs; subst s0; clear Hs.
    apply res_bind_ok in H as (enc & Henc & H).
    rewrite Henc in Hfit. apply Z.leb_le in Hfit.
    rewrite (proj2 (Z.ltb_ge _ _)) in H by lia.
    apply res_bind_ok in H as (h & Hh & H). inversion H; subst b; clear H.
    apply pack_H_inv in Hh as [Hr ->].
    simpl orb. unfold unpack_from_H.
    rewrite <- app_assoc.
    rewrite unpack_from_middle by (rewrite length_le_bytes; reflexivity).
    cbn [res_bind].
    rewrite le_val_le_bytes by (change (256 ^ Z.of_nat 2) with 65536; lia).
    rewrite Nat2Z.id.
    replace (length pre + 2)%nat with (length (pre ++ le_bytes 2 (Z.of_nat (length enc))))
      by (rewrite length_app, length_le_bytes; reflexivity).
    rewrite (app_assoc pre), slice_middle.
    rewrite (utf8_decode_encode _ _ Henc). cbn [res_bind].
    rewrite !length_app, length_le_bytes. do 2 f_equal. lia. }
  destruct (typ_is typ "DATE"); [|discriminate].
  (* DATE *)
  intros H _. apply res_bind_ok in H as (s & Hs & H).
  destruct val; try discriminate. inversion Hs; subst s0; clear Hs.
  apply res_bind_ok in H as (enc & Henc & H).
  destruct (255 <? Z.of_nat (length enc)); [discriminate|].
  apply res_bind_ok in H as (h & Hh & H). inversion H; subst b; clear H.
  apply pack_H_inv in Hh as [Hr ->].
  simpl orb. unfold unpack_from_H.
  rewrite <- app_assoc.
  rewrite unpack_from_middle by (rewrite length_le_bytes; reflexivity).
  cbn [res_bind].
  rewrite le_val_le_bytes by (change (256 ^ Z.of_nat 2) with 65536; lia).
  rewrite Nat2Z.id.
  replace (length pre + 2)%nat with (length (pre ++ le_bytes 2 (Z.of_nat (length enc))))
    by (rewrite length_app, length_le_bytes; reflexivity).
  rewrite (app_assoc pre), slice_middle.
  rewrite (utf8_decode_encode _ _ Henc). cbn [res_bind].
  rewrite !length_app, length_le_bytes. do 2 f_equal. lia.
Qed.

(** ** Row codec: the column loops *)

Lemma pack_cols_nullmap (r : row) (cols : schema) :
  forall (i : nat) (nm : bytes) (parts : list bytes) nm' parts',
    pack_cols r cols i nm parts = Ok (nm', parts') ->
    length nm' = length nm /\
    forall k, _is_null nm' k
              = if (i <=? k)%nat && nullc r cols (k - i) then Ok true
                else _is_null nm k.
Proof.
  induction cols as [|[name typ] rest IH]; intros i nm parts nm' parts' H.
  - inversion H; subst. split; [reflexivity|].
    intros k. unfold nullc. rewrite lookup_nil, andb_false_r. reflexivity.
  - cbn [pack_cols] in H.
    assert (Hn : forall k, nullc r ((name, typ) :: rest) (S k) = nullc r rest k)
      by reflexivity.
    destruct (default VNone (r !! name)) eqn:Ev.
    1: { (* a null column sets its bit *)
      apply res_bind_ok in H as (bm & Hbm & H).
      apply is_null_set_null in Hbm as [Hlen Hbit].
      apply IH in H as [Hlen' Hbit']. split; [congruence|].
      intros k. rewrite Hbit', Hbit.
      destruct (Nat.leb_spec i k) as [Hik|Hik].
      * destruct (Nat.eqb_spec k i) as [->|Hne].
        -- rewrite Nat.sub_diag. unfold nullc at 2. cbn [lookup list_lookup].
           rewrite Ev. cbn [andb].
           destruct (S i <=? i)%nat eqn:E; [apply Nat.leb_le in E; lia|].
           reflexivity.
        -- replace (k - i)%nat with (S (k - S i)) by lia. rewrite Hn.
           destruct (Nat.leb_spec (S i) k); [reflexivity | lia].
      * destruct (Nat.leb_spec (S i) k); [lia|].
        destruct (Nat.eqb_spec k i); [lia | reflexivity]. }
    (* a present column leaves the bitmap as it is *)
    all: apply res_bind_ok in H as (b & _ & H).
    all: apply IH in H as [Hlen' Hbit']; (split; [congruence|]).
    all: intros k; rewrite Hbit'.
    all: destruct (Nat.leb_spec i k) as [Hik|Hik];
      [| destruct (Nat.leb_spec (S i) k); [lia | reflexivity] ].
    all: destruct (Nat.eq_dec k i) as [->|Hne];
      [| replace (k - i)%nat with (S (k - S i)) by lia; rewrite Hn;
         destruct (Nat.leb_spec (S i) k); [reflexivity | lia] ].
    all: rewrite Nat.sub_diag; unfold nullc at 2; cbn [lookup list_lookup];
      rewrite Ev; destruct (Nat.leb_spec (S i) i); [lia | reflexivity].
Qed.

Lemma pack_cols_unpack (r : row) (cols : schema) :
  forall (i : nat) (nm : bytes) (parts : list bytes) nm' parts',
    pack_cols r cols i nm parts = Ok (nm', parts') ->
    varchar_fits r cols = true ->
    exists added,
      parts' = parts ++ added /\
      forall (bm pre post : bytes) (out : row),
        (forall k, (k < length cols)%nat ->
                   _is_null bm (i + k) = Ok (nullc r cols k)) ->
        unpack_cols (pre ++ concat added ++ post) bm cols i (length pre) out
        = Ok (normalized r cols out).
Proof.
  induction cols as [|[name typ] rest IH]; intros i nm parts nm' parts' H Hfit.
  - inversion H; subst. exists []. split; [rewrite app_nil_r; reflexivity|].
    reflexivity.
  - cbn [pack_cols] in H.
    cbn [varchar_fits forallb fst snd] in Hfit.
    apply andb_true_iff in Hfit as [Hfit1 Hfit].
    fold (varchar_fits r rest) in Hfit.
    assert (Hn : forall k, nullc r ((name, typ) :: rest) (S k) = nullc r rest k)
      by reflexivity.
    assert (Hshift : forall bm : bytes,
      (forall k, (k < length ((name, typ) :: rest))%nat ->
                 _is_null bm (i + k) = Ok (nullc r ((name, typ) :: rest) k)) ->
      forall k, (k < length rest)%nat ->
                _is_null bm (S i + k) = Ok (nullc r rest k)).
    { intros bm Hbm k Hk. rewrite <- Hn, <- Hbm by (cbn [length]; lia).
      f_equal. lia. }
    destruct (default VNone (r !! name)) eqn:Ev.
    1: { apply res_bind_ok in H as (bm0 & _ & H).
      destruct (IH _ _ _ _ _ H Hfit) as (added & -> & Hun).
      exists added. split; [reflexivity|].
      intros bm pre post out Hbm. cbn [unpack_cols normalized].
      pose proof (Hbm 0%nat ltac:(cbn [length]; lia)) as H0.
      rewrite Nat.add_0_r in H0. rewrite H0.
      unfold nullc. cbn [lookup list_lookup]. rewrite Ev. cbn [res_bind].
      apply Hun, Hshift, Hbm. }
    all: apply res_bind_ok in H as (b & Hb & H).
    all: destruct (IH _ _ _ _ _ H Hfit) as (added & -> & Hun).
    all: exists (b :: added); (split; [rewrite <- app_assoc; reflexivity|]).
    all: intros bm pre post out Hbm; cbn [unpack_cols normalized].
    all: pose proof (Hbm 0%nat ltac:(cbn [length]; lia)) as H0.
    all: rewrite Nat.add_0_r in H0; rewrite H0.
    all: unfold nullc; cbn [lookup list_lookup]; rewrite Ev; cbn [res_bind].
    all: cbn [concat]; rewrite <- (app_assoc b).
    all: rewrite (pack_field_unpack _ _ _ _ _ Hb Hfit1); cbn [res_bind].
    all: rewrite (app_assoc pre b), <- length_app.
    all: apply Hun, Hshift, Hbm.
Qed.

Lemma normalized_lookup (r : row) (cols : schema) :
  forall (out : row) (name : string),
    normalized r cols out !! name
    = if decide (name ∈ cols.*1) then Some (default VNone (r !! name))
      else out !! name.
Proof.
  induction cols as [|[n t] rest IH]; intros out name.
  - cbn. destruct (decide (name ∈ [])) as [Hin|]; [inversion Hin | reflexivity].
  - cbn [normalized fmap list_fmap fst]. rewrite IH.
    destruct (decide (name ∈ rest.*1)) as [Hin|Hnin].
    + rewrite decide_True by (right; exact Hin). reflexivity.
    + destruct (decide (name = n)) as [->|Hne].
      * rewrite lookup_insert_eq. rewrite decide_True by left. reflexivity.
      * rewrite lookup_insert_ne by congruence.
        rewrite decide_False; [reflexivity|].
        intros Hc. apply elem_of_cons in Hc as [?|?]; contradiction.
Qed.

Lemma pack_row_length (r : row) (sch : schema) (blob : bytes) :
  pack_row r sch = Ok blob -> (2 <= length blob)%nat.
Proof.
  unfold pack_row. intros H.
  apply res_bind_ok in H as (header & Hh & H).
  apply res_bind_ok in H as ([nm parts] & _ & H).
  inversion H; subst blob; clear H.
  apply pack_H_inv in Hh as [_ ->].
  rewrite length_app, length_le_bytes. lia.
Qed.

(** ** Row codec: round trip *)

Lemma unpack_pack_normalized (r : row) (sch : schema) (blob : bytes) :
  pack_row r sch = Ok blob ->
  varchar_fits r sch = true ->
  unpack_row blob sch = Ok (normalized r sch ∅).
Proof.
  intros Hpack Hfit. unfold pack_row in Hpack.
  apply res_bind_ok in Hpack as (header & Hh & Hpack).
  apply res_bind_ok in Hpack as ([nm' parts'] & Hcols & Hpack).
  inversion Hpack; subst blob; clear Hpack.
  apply pack_H_inv in Hh as [Hn ->].
  set (n := Z.of_nat (length sch)) in *.
  set (bsz := Z.to_nat (_nullmap_size n)) in *.
  destruct (pack_cols_nullmap _ _ _ _ _ _ _ Hcols) as [Hlen Hbits].
  destruct (pack_cols_unpack _ _ _ _ _ _ _ Hcols Hfit) as (added & Hadd & Hun).
  cbn [app] in Hadd. subst parts'.
  rewrite length_replicate in Hlen.
  unfold unpack_row, unpack_from_H.
  rewrite unpack_from_head by (rewrite length_le_bytes; reflexivity).
  cbn [res_bind].
  rewrite le_val_le_bytes by (change (256 ^ Z.of_nat 2) with 65536; lia).
  fold n. rewrite Z.eqb_refl. cbn [negb]. fold bsz.
  rewrite (slice_at (le_bytes 2 n) nm' (concat added))
    by (rewrite ?length_le_bytes; lia).
  replace (2 + bsz)%nat with (length (le_bytes 2 n ++ nm'))
    by (rewrite length_app, length_le_bytes; lia).
  rewrite <- (app_nil_r (concat added)), (app_assoc (le_bytes 2 n)).
  apply Hun. intros k Hk. cbn [Nat.add]. rewrite Hbits.
  cbn [Nat.leb andb]. rewrite Nat.sub_0_r.
  destruct (nullc r sch k); [reflexivity|].
  apply is_null_zeros. fold bsz. subst bsz n. unfold _nullmap_size.
  apply Nat2Z.inj_lt. rewrite Z2Nat.id by (apply Z.div_pos; lia).
  rewrite Nat2Z.inj_div. change (Z.of_nat 8) with 8.
  apply Z.div_lt_upper_bound; [lia|].
  pose proof (Z.mul_div_le (Z.of_nat (length sch) + 7) 8 ltac:(lia)).
  pose proof (Z.mod_pos_bound (Z.of_nat (length sch) + 7) 8 ltac:(lia)).
  pose proof (Z.div_mod (Z.of_nat (length sch) + 7) 8 ltac:(lia)).
  lia.
Qed.

(** ** Row codec: what comes back in general *)

Lemma varchar_max_range (typ : pystr) : 0 <= _varchar_max typ <= 65535.
Proof.
  unfold _varchar_max.
  destruct (index_of 40 typ); [|lia].
  destruct (index_of 41 typ); [|lia].
  destruct (int_of_text _); lia.
Qed.

Lemma returned_fits (typ : pystr) (val : value) (b : bytes) :
  pack_field typ val = Ok b -> fits_field typ val = true ->
  returned typ val = Ok val.
Proof.
  unfold pack_field, fits_field, returned.
  destruct (typ_is typ "INT"); [reflexivity|].
  destruct (typ_is typ "FLOAT"); [reflexivity|].
  destruct (typ_starts typ "VARCHAR"); [|reflexivity].
  destruct val; try reflexivity.
  cbn [py_str res_bind]. intros H Hfit.
  apply res_bind_ok in H as (enc & Henc & _). rewrite Henc in *. cbn [res_bind].
  apply Z.leb_le in Hfit.
  rewrite take_ge by lia. rewrite (utf8_decode_encode _ _ Henc). reflexivity.
Qed.

Lemma pack_field_returned (typ : pystr) (val : value) (b pre post : bytes) :
  pack_field typ val = Ok b ->
  unpack_field typ (pre ++ b ++ post) (length pre)
  = (v <- returned typ val ;; Ok (v, (length pre + length b)%nat))%res.
Proof.
  intros H.
  destruct (fits_field typ val) eqn:Hfit.
  { rewrite (returned_fits _ _ _ H Hfit). cbn [res_bind].
    apply pack_field_unpack; assumption. }
  revert H Hfit. unfold pack_field, fits_field, unpack_field, returned.
  destruct (typ_is typ "INT"); [discriminate 2|].
  destruct (typ_is typ "FLOAT"); [discriminate 2|].
  destruct (typ_starts typ "VARCHAR"); [|discriminate 2].
  intros H Hfit. apply res_bind_ok in H as (s & Hs & H).
  destruct val; try discriminate. inversion Hs; subst s0; clear Hs.
  apply res_bind_ok in H as (enc & Henc & H).
  rewrite Henc in Hfit. apply Z.leb_gt in Hfit.
  rewrite Henc. cbn [res_bind].
  rewrite (proj2 (Z.ltb_lt _ _)) in H by lia.
  pose proof (varchar_max_range typ) as Hr.
  set (cut := take (Z.to_nat (_varchar_max typ)) enc) in *.
  apply res_bind_ok in H as (h & Hh & H). inversion H; subst b; clear H.
  apply pack_H_inv in Hh as [Hr' ->].
  simpl orb. unfold unpack_from_H.
  rewrite <- app_assoc.
  rewrite unpack_from_middle by (rewrite length_le_bytes; reflexivity).
  cbn [res_bind].
  rewrite le_val_le_bytes by (change (256 ^ Z.of_nat 2) with 65536; lia).
  rewrite Nat2Z.id.
  replace (length pre + 2)%nat with (length (pre ++ le_bytes 2 (Z.of_nat (length cut))))
    by (rewrite length_app, length_le_bytes; reflexivity).
  rewrite (app_assoc pre), slice_middle.
  destruct (utf8_decode cut); cbn [res_bind]; [|reflexivity..].
  rewrite !length_app, length_le_bytes. do 2 f_equal. lia.
Qed.

Lemma pack_cols_returned (r : row) (cols : schema) :
  forall (i : nat) (nm : bytes) (parts : list bytes) nm' parts',
    pack_cols r cols i nm parts = Ok (nm', parts') ->
    exists added,
      parts' = parts ++ added /\
      forall (bm pre post : bytes) (out : row),
        (forall k, (k < length cols)%nat ->
                   _is_null bm (i + k) = Ok (nullc r cols k)) ->
        unpack_cols (pre ++ concat added ++ post) bm cols i (length pre) out
        = returned_cols r cols out.
Proof.
  induction cols as [|[name typ] rest IH]; intros i nm parts nm' parts' H.
  - inversion H; subst. exists []. split; [rewrite app_nil_r; reflexivity|].
    reflexivity.
  - cbn [pack_cols] in H.
    assert (Hn : forall k, nullc r ((name, typ) :: rest) (S k) = nullc r rest k)
      by reflexivity.
    assert (Hshift : forall bm : bytes,
      (forall k, (k < length ((name, typ) :: rest))%nat ->
                 _is_null bm (i + k) = Ok (nullc r ((name, typ) :: rest) k)) ->
      forall k, (k < length rest)%nat ->
                _is_null bm (S i + k) = Ok (nullc r rest k)).
    { intros bm Hbm k Hk. rewrite <- Hn, <- Hbm by (cbn [length]; lia).
      f_equal. lia. }
    destruct (default VNone (r !! name)) eqn:Ev.
    1: { apply res_bind_ok in H as (bm0 & _ & H).
      destruct (IH _ _ _ _ _ H) as (added & -> & Hun).
      exists added. split; [reflexivity|].
      intros bm pre post out Hbm. cbn [unpack_cols returned_cols].
      pose proof (Hbm 0%nat ltac:(cbn [length]; lia)) as H0.
      rewrite Nat.add_0_r in H0. rewrite H0.
      unfold nullc. cbn [lookup list_lookup]. rewrite Ev. cbn [res_bind].
      assert (Hret : returned typ VNone = Ok VNone).
      { unfold returned. repeat match goal with |- context [if ?c then _ else _] => destruct c end; reflexivity. }
      rewrite Hret. cbn [res_bind].
      apply Hun, Hshift, Hbm. }
    all: apply res_bind_ok in H as (b & Hb & H).
    all: destruct (IH _ _ _ _ _ H) as (added & -> & Hun).
    all: exists (b :: added); (split; [rewrite <- app_assoc; reflexivity|]).
    all: intros bm pre post out Hbm; cbn [unpack_cols returned_cols].
    all: pose proof (Hbm 0%nat ltac:(cbn [length]; lia)) as H0.
    all: rewrite Nat.add_0_r in H0; rewrite H0.
    all: unfold nullc; cbn [lookup list_lookup]; rewrite Ev; cbn [res_bind].
    all: cbn [concat]; rewrite <- (app_assoc b).
    all: rewrite (pack_field_returned _ _ _ _ _ Hb).
    all: match goal with |- context [returned ?t ?v] => destruct (returned t v) end;
      cbn [res_bind]; [|reflexivity..].
    all: rewrite (app_assoc pre b), <- length_app.
    all: apply Hun, Hshift, Hbm.
Qed.

Lemma unpack_pack_returned (r : row) (sch : schema) (blob : bytes) :
  pack_row r sch = Ok blob ->
  unpack_row blob sch = returned_cols r sch ∅.
Proof.
  intros Hpack. unfold pack_row in Hpack.
  apply res_bind_ok in Hpack as (header & Hh & Hpack).
  apply res_bind_ok in Hpack as ([nm' parts'] & Hcols & Hpack).
  inversion Hpack; subst blob; clear Hpack.
  apply pack_H_inv in Hh as [Hn ->].
  set (n := Z.of_nat (length sch)) in *.
  set (bsz := Z.to_nat (_nullmap_size n)) in *.
  destruct (pack_cols_nullmap _ _ _ _ _ _ _ Hcols) as [Hlen Hbits].
  destruct (pack_cols_returned _ _ _ _ _ _ _ Hcols) as (added & Hadd & Hun).
  cbn [app] in Hadd. subst parts'.
  rewrite length_replicate in Hlen.
  unfold unpack_row, unpack_from_H.
  rewrite unpack_from_head by (rewrite length_le_bytes; reflexivity).
  cbn [res_bind].
  rewrite le_val_le_bytes by (change (256 ^ Z.of_nat 2) with 65536; lia).
  fold n. rewrite Z.eqb_refl. cbn [negb]. fold bsz.
  rewrite (slice_at (le_bytes 2 n) nm' (concat added))
    by (rewrite ?length_le_bytes; lia).
  replace (2 + bsz)%nat with (length (le_bytes 2 n ++ nm'))
    by (rewrite length_app, length_le_bytes; lia).
  rewrite <- (app_nil_r (concat added)), (app_assoc (le_bytes 2 n)).
  apply Hun. intros k Hk. cbn [Nat.add]. rewrite Hbits.
  cbn [Nat.leb andb]. rewrite Nat.sub_0_r.
  destruct (nullc r sch k); [reflexivity|].
  apply is_null_zeros. fold bsz. subst bsz n. unfold _nullmap_size.
  apply Nat2Z.inj_lt. rewrite Z2Nat.id by (apply Z.div_pos; lia).
  rewrite Nat2Z.inj_div. change (Z.of_nat 8) with 8.
  apply Z.div_lt_upper_bound; [lia|].
  pose proof (Z.mul_div_le (Z.of_nat (length sch) + 7) 8 ltac:(lia)).
  pose proof (Z.mod_pos_bound (Z.of_nat (length sch) + 7) 8 ltac:(lia)).
  pose proof (Z.div_mod (Z.of_nat (length sch) + 7) 8 ltac:(lia)).
  lia.
Qed.

Lemma returned_cases (typ : pystr) (val : value) :
  (exists v, returned typ val = Ok v) \/ returned typ val = Raise UnicodeError.
Proof.
  unfold returned.
  destruct (typ_is typ "INT"); [left; eexists; reflexivity|].
  destruct (typ_is typ "FLOAT"); [left; eexists; reflexivity|].
  destruct (typ_starts typ "VARCHAR"); [|left; eexists; reflexivity].
  destruct val; try (left; eexists; reflexivity).
  destruct (utf8_encode_cases s) as [[b ->]| ->]; [|right; reflexivity].
  cbn [res_bind]. unfold utf8_decode.
  destruct (utf8_decode_z_cases (map b2z (take (Z.to_nat (_varchar_max typ)) b)))
    as [[s' ->]| ->]; [left; eexists; reflexivity | right; reflexivity].
Qed.

Lemma returned_cols_cases (r : row) (cols : schema) :
  forall out,
    (exists out', returned_cols r cols out = Ok out')
    \/ returned_cols r cols out = Raise UnicodeError.
Proof.
  induction cols as [|[name typ] rest IH]; intros out.
  - left. eexists. reflexivity.
  - cbn [returned_cols].
    destruct (returned_cases typ (default VNone (r !! name))) as [[v ->]| ->];
      [|right; reflexivity].
    cbn [res_bind]. apply IH.
Qed.

Lemma returned_cols_other (r : row) (cols : schema) (name : string) :
  name ∉ cols.*1 ->
  forall out out', returned_cols r cols out = Ok out' -> out' !! name = out !! name.
Proof.
  induction cols as [|[n t] rest IH]; intros Hnin out out' H.
  - inversion H. reflexivity.
  - cbn [returned_cols] in H. apply res_bind_ok in H as (v & _ & H).
    cbn [fmap list_fmap fst] in Hnin. apply not_elem_of_cons in Hnin as [Hne Hnin].
    rewrite (IH Hnin _ _ H). apply lookup_insert_ne. congruence.
Qed.

Lemma returned_cols_lookup (r : row) (cols : schema) (name : string) (typ : pystr) :
  NoDup cols.*1 -> (name, typ) ∈ cols ->
  forall out out', returned_cols r cols out = Ok out' ->
    exists v, returned typ (default VNone (r !! name)) = Ok v /\ out' !! name = Some v.
Proof.
  induction cols as [|[n t] rest IH]; intros Hnd Hin out out' H.
  - inversion Hin.
  - cbn [returned_cols] in H. apply res_bind_ok in H as (v & Hv & H).
    cbn [fmap list_fmap fst] in Hnd. apply NoDup_cons in Hnd as [Hnin Hnd].
    apply elem_of_cons in Hin as [E|Hin].
    + inversion E; subst n t. exists v. split; [exact Hv|].
      rewrite (returned_cols_other _ _ _ Hnin _ _ H). apply lookup_insert_eq.
    + exact (IH Hnd Hin _ _ H).
Qed.

Lemma py_eq_same (v : value) : py_eq v v = negb (is_nan_value v).
Proof.
  destruct v; cbn [py_eq is_nan_value negb].
  - reflexivity.
  - apply Z.eqb_refl.
  - rewrite Z.eqb_refl. destruct (is_nan bits); reflexivity.
  - apply bool_decide_eq_true. reflexivity.
  - rewrite !Z.eqb_refl. reflexivity.
Qed.

Lemma cut_text_returned (typ : pystr) (val : value) :
  fits_field typ val = false ->
  exists s enc,
    val = VStr s /\ utf8_encode s = Ok enc /\
    _varchar_max typ < Z.of_nat (length enc) /\
    forall v, returned typ val = Ok v ->
      exists s', v = VStr s' /\
        utf8_decode (take (Z.to_nat (_varchar_max typ)) enc) = Ok s' /\ s' <> s.
Proof.
  unfold fits_field, returned.
  destruct (typ_is typ "INT"); [discriminate|].
  destruct (typ_is typ "FLOAT"); [discriminate|].
  destruct (typ_starts typ "VARCHAR"); [|discriminate].
  destruct val; try discriminate.
  destruct (utf8_encode s) as [enc| |] eqn:Henc; try discriminate.
  intros Hfit. apply Z.leb_gt in Hfit.
  exists s, enc. split; [reflexivity|]. split; [exact Henc|]. split; [exact Hfit|].
  intros v Hv. cbn [res_bind] in Hv. apply res_bind_ok in Hv as (s' & Hs' & Hv).
  inversion Hv; subst v; clear Hv. exists s'. split; [reflexivity|].
  split; [exact Hs'|].
  pose proof (varchar_max_range typ).
  apply (utf8_decode_cut s s' enc (Z.to_nat (_varchar_max typ)) Henc); [lia | exact Hs'].
Qed.

(** C4 (amended). For every schema and every row that [pack_row] accepts and
    whose non-null values have the type of their column:
    when no VARCHAR text is longer, in UTF-8 bytes, than the N of its column,
    [unpack_row (pack_row row schema) schema] returns the row with missing
    columns normalized to null: every column of the schema maps to the very
    value the row gives it (a float bit for bit), a column the row omits or
    sets to null maps to null, and no other column appears; under Python's
    [==] each returned value is equal to the given one unless that is a
    float NaN, which is equal to nothing.
    A VARCHAR text longer than the N of its column does not come back:
    [unpack_row] then either fails to decode (a cut fell inside a character)
    or, the column names being distinct, returns for that column the decoding
    of the first N bytes, a text other than the one given. *)
Theorem unpack_pack_roundtrip (r : row) (sch : schema) (blob : bytes) :
  pack_row r sch = Ok blob ->
  typed r sch = true ->
  (varchar_fits r sch = true ->
   exists out,
     unpack_row blob sch = Ok out /\
     (forall name,
        out !! name = if decide (name ∈ sch.*1)
                      then Some (default VNone (r !! name)) else None) /\
     (forall name, name ∈ sch.*1 ->
        py_eq (default VNone (out !! name)) (default VNone (r !! name))
        = negb (is_nan_value (default VNone (r !! name))))) /\
  (forall name typ,
     NoDup sch.*1 -> (name, typ) ∈ sch ->
     fits_field typ (default VNone (r !! name)) = false ->
     exists s enc,
       r !! name = Some (VStr s) /\ utf8_encode s = Ok enc /\
       _varchar_max typ < Z.of_nat (length enc) /\
       (unpack_row blob sch = Raise UnicodeError \/
        exists out s',
          unpack_row blob sch = Ok out /\
          utf8_decode (take (Z.to_nat (_varchar_max typ)) enc) = Ok s' /\
          out !! name = Some (VStr s') /\ s' <> s)).
Proof.
  intros Hpack _. split.
  - intros Hfit. exists (normalized r sch ∅).
    split; [apply unpack_pack_normalized; assumption|].
    assert (Hl : forall name,
              normalized r sch ∅ !! name
              = if decide (name ∈ sch.*1)
                then Some (default VNone (r !! name)) else None).
    { intros name. rewrite normalized_lookup, lookup_empty. reflexivity. }
    split; [exact Hl|].
    intros name Hin. rewrite Hl, decide_True by exact Hin. apply py_eq_same.
  - intros name typ Hnd Hin Hcut.
    destruct (cut_text_returned _ _ Hcut) as (s & enc & Hv & Henc & Hlen & Hret).
    exists s, enc.
    assert (Hr : r !! name = Some (VStr s)).
    { destruct (r !! name) as [v|]; simpl in Hv; [congruence | discriminate]. }
    split; [exact Hr|]. split; [exact Henc|]. split; [exact Hlen|].
    rewrite (unpack_pack_returned _ _ _ Hpack).
    destruct (returned_cols_cases r sch ∅) as [[out Hout]|Herr]; [right | left; exact Herr].
    destruct (returned_cols_lookup r sch name typ Hnd Hin _ _ Hout) as (v & Hv' & Hl).
    destruct (Hret v Hv') as (s' & -> & Hdec & Hne).
    exists out, s'. auto.
Qed.

Lemma unpack_pack_roundtrip_witness :
  (exists out,
     unpack_row demo_blob demo_schema = Ok out /\
     (forall name,
        out !! name = if decide (name ∈ demo_schema.*1)
                      then Some (default VNone (demo_row !! name)) else None) /\
     (forall name, name ∈ demo_schema.*1 ->
        py_eq (default VNone (out !! name)) (default VNone (demo_row !! name))
        = negb (is_nan_value (default VNone (demo_row !! name))))) /\
  (exists s enc,
     abc_row !! "s"%string = Some (VStr s) /\ utf8_encode s = Ok enc /\
     _varchar_max (pystr_of_string "VARCHAR(2)") < Z.of_nat (length enc) /\
     (unpack_row short_blob short_schema = Raise UnicodeError \/
      exists out s',
        unpack_row short_blob short_schema = Ok out /\
        utf8_decode (take (Z.to_nat (_varchar_max (pystr_of_string "VARCHAR(2)"))) enc)
        = Ok s' /\
        out !! "s"%string = Some (VStr s') /\ s' <> s)).
Proof.
  split.
  - apply (proj1 (unpack_pack_roundtrip demo_row demo_schema demo_blob
                    ltac:(vm_compute; reflexivity) ltac:(vm_compute; reflexivity))).
    vm_compute. reflexivity.
  - apply (proj2 (unpack_pack_roundtrip abc_row short_schema short_blob
                    ltac:(vm_compute; reflexivity) ltac:(vm_compute; reflexivity))
             "s"%string (pystr_of_string "VARCHAR(2)")).
    + apply NoDup_cons. split; [apply not_elem_of_nil | apply NoDup_nil_2].
    + apply list_elem_of_singleton. reflexivity.
    + vm_compute. reflexivity.
Defined.

(** C4 as stated fails: a text of three letters packed for a [VARCHAR(2)]
    column comes back as its first two letters. *)
Lemma roundtrip_cuts_long_varchar :
  exists blob out,
    pack_row abc_row short_schema = Ok blob /\
    unpack_row blob short_schema = Ok out /\
    out !! "s"%string = Some (VStr (pystr_of_string "ab")) /\
    out !! "s"%string <> Some (default VNone (abc_row !! "s"%string)).
Proof.
  eexists _, _. split; [vm_compute; reflexivity|].
  split; [vm_compute; reflexivity|].
  split; [vm_compute; reflexivity|].
  vm_compute. discriminate.
Qed.

(** C5 fails on the code: the encoding of ["abc"] without its last byte is a
    strict prefix that still holds [ncols], and [unpack_row] returns a row
    (with the text ["ab"]) instead of failing. *)
Lemma unpack_truncated_text_returns_row :
  pack_row abc_row wide_schema = Ok abc_blob /\
  length abc_blob = 8%nat /\
  exists out,
    unpack_row (take 7 abc_blob) wide_schema = Ok out /\
    out !! "s"%string = Some (VStr (pystr_of_string "ab")).
Proof.
  split; [vm_compute; reflexivity|].
  split; [reflexivity|].
  eexists. split; vm_compute; reflexivity.
Qed.

End RowFmtFacts.

(** ** Byte files: reading back what was written *)

Module HeapFacts.
Import Heap HeapSpec.

Lemma flen_nonneg (f : bytes) : 0 <= flen f.
Proof. unfold flen. lia. Qed.

Lemma flen_app (a b : bytes) : flen (a ++ b) = flen a + flen b.
Proof. unfold flen. rewrite length_app. lia. Qed.

Lemma flen_wrz (o : Z) (b f : bytes) :
  0 <= o -> o + flen b <= flen f -> flen (wrz o b f) = flen f.
Proof.
  unfold flen, wrz. intros Ho Hb.
  rewrite !length_app, length_take, length_drop. lia.
Qed.

Lemma lookup_wrz (o : Z) (b f : bytes) (j : nat) :
  0 <= o -> o + flen b <= flen f ->
  wrz o b f !! j
  = if (j <? Z.to_nat o)%nat then f !! j
    else if (j <? Z.to_nat o + length b)%nat then b !! (j - Z.to_nat o)%nat
    else f !! j.
Proof.
  unfold flen, wrz. intros Ho Hb.
  assert (Hlt : length (take (Z.to_nat o) f) = Z.to_nat o)
    by (rewrite length_take; lia).
  destruct (Nat.ltb_spec j (Z.to_nat o)).
  - rewrite lookup_app_l by lia. apply lookup_take_lt. lia.
  - rewrite lookup_app_r by lia. rewrite Hlt.
    destruct (Nat.ltb_spec j (Z.to_nat o + length b)).
    + rewrite lookup_app_l by lia. reflexivity.
    + rewrite lookup_app_r by lia. rewrite lookup_drop. f_equal. lia.
Qed.

Lemma lookup_rdz (f : bytes) (a n : Z) (i : nat) :
  0 <= a -> 0 <= n ->
  rdz f a n !! i = if (i <? Z.to_nat n)%nat then f !! (Z.to_nat a + i)%nat else None.
Proof.
  intros Ha Hn. unfold rdz, slice.
  replace (Z.to_nat a + Z.to_nat n - Z.to_nat a)%nat with (Z.to_nat n) by lia.
  destruct (Nat.ltb_spec i (Z.to_nat n)).
  - rewrite lookup_take_lt by lia. apply lookup_drop.
  - apply lookup_take_ge. lia.
Qed.

Lemma rdz_wrz_same (o : Z) (b f : bytes) :
  0 <= o -> o + flen b <= flen f -> rdz (wrz o b f) o (flen b) = b.
Proof.
  intros Ho Hb. apply list_eq. intros i.
  rewrite lookup_rdz by (unfold flen; lia). unfold flen. rewrite Nat2Z.id.
  destruct (Nat.ltb_spec i (length b)).
  - rewrite lookup_wrz by assumption.
    destruct (Nat.ltb_spec (Z.to_nat o + i) (Z.to_nat o)); [lia|].
    destruct (Nat.ltb_spec (Z.to_nat o + i) (Z.to_nat o + length b)); [|lia].
    f_equal. lia.
  - symmetry. apply lookup_ge_None. lia.
Qed.

Lemma rdz_wrz_disj (o : Z) (b f : bytes) (a n : Z) :
  0 <= o -> o + flen b <= flen f -> 0 <= a -> 0 <= n ->
  a + n <= o \/ o + flen b <= a ->
  rdz (wrz o b f) a n = rdz f a n.
Proof.
  intros Ho Hb Ha Hn Hd. apply list_eq. intros i.
  rewrite !lookup_rdz by assumption.
  destruct (Nat.ltb_spec i (Z.to_nat n)); [|reflexivity].
  rewrite lookup_wrz by assumption. unfold flen in *.
  destruct (Nat.ltb_spec (Z.to_nat a + i) (Z.to_nat o)); [reflexivity|].
  destruct (Nat.ltb_spec (Z.to_nat a + i) (Z.to_nat o + length b)); [lia|].
  reflexivity.
Qed.

Lemma flen_rdz (f : bytes) (a n : Z) :
  0 <= a -> 0 <= n -> a + n <= flen f -> flen (rdz f a n) = n.
Proof.
  unfold flen, rdz, slice. intros Ha Hn Hb.
  rewrite length_take, length_drop. lia.
Qed.

Lemma rdz_app_l (f g : bytes) (a n : Z) :
  0 <= a -> 0 <= n -> a + n <= flen f -> rdz (f ++ g) a n = rdz f a n.
Proof.
  intros Ha Hn Hb. apply list_eq. intros i.
  rewrite !lookup_rdz by assumption.
  destruct (Nat.ltb_spec i (Z.to_nat n)); [|reflexivity].
  apply lookup_app_l. unfold flen in Hb. lia.
Qed.

Lemma file_read_rdz (off n : Z) (f : bytes) :
  0 <= off -> file_read off n f = Ok (rdz f off n).
Proof.
  intros H. unfold file_read, file_seek.
  rewrite (proj2 (Z.ltb_ge _ _)) by lia. reflexivity.
Qed.

Lemma file_write_wrz (off : Z) (b f : bytes) :
  0 <= off -> off <= flen f -> file_write off b f = Ok (wrz off b f).
Proof.
  intros H Hl. unfold file_write, file_seek, wrz.
  rewrite (proj2 (Z.ltb_ge _ _)) by lia. cbn [res_bind].
  unfold flen in Hl.
  replace (Z.to_nat off - length f)%nat with 0%nat by lia.
  cbn [replicate]. rewrite app_nil_r. reflexivity.
Qed.

(** ** Two unsigned 16-bit fields *)

Lemma pack_HH_ok (a b : Z) :
  0 <= a <= 65535 -> 0 <= b <= 65535 ->
  pack_HH a b = Ok (le_bytes 2 a ++ le_bytes 2 b).
Proof.
  intros Ha Hb. unfold pack_HH, pack_H.
  rewrite !(proj2 (Z.leb_le _ _)) by lia. reflexivity.
Qed.

Lemma unpack_HH_le (a b : Z) :
  0 <= a <= 65535 -> 0 <= b <= 65535 ->
  unpack_HH (le_bytes 2 a ++ le_bytes 2 b) = Ok (a, b).
Proof.
  intros Ha Hb. cbn [le_bytes app unpack_HH].
  change [z2b (a mod 256); z2b (a / 256 mod 256)] with (le_bytes 2 a).
  change [z2b (b mod 256); z2b (b / 256 mod 256)] with (le_bytes 2 b).
  rewrite !le_val_le_bytes by (change (256 ^ Z.of_nat 2) with 65536; lia).
  reflexivity.
Qed.

Lemma flen_HH (a b : Z) : flen (le_bytes 2 a ++ le_bytes 2 b) = 4.
Proof. reflexivity. Qed.

Lemma unpack_HH_four (bs : bytes) :
  flen bs = 4 ->
  exists x y, unpack_HH bs = Ok (x, y) /\ 0 <= x <= 65535 /\ 0 <= y <= 65535.
Proof.
  unfold flen. intros H.
  destruct bs as [|b0 [|b1 [|b2 [|b3 [|b4 r]]]]]; cbn [length] in H; try lia.
  eexists _, _. split; [reflexivity|].
  pose proof (le_val_range [b0; b1]). pose proof (le_val_range [b2; b3]).
  cbn [length] in *. change (256 ^ Z.of_nat 2) with 65536 in *. lia.
Qed.

(** ** Page headers and slots *)

Lemma read_hdr_eq (p : Z) (f : heap) :
  0 <= p -> _read_hdr p f = (unpack_HH (rdz f (p * 4096) 4), f).
Proof.
  intros Hp. unfold _read_hdr, peek, _base, PAGE_SIZE, HDR_SIZE.
  rewrite file_read_rdz by lia. reflexivity.
Qed.

Lemma read_slot_eq (p s : Z) (f : heap) :
  0 <= p * 4096 + 4 + s * 4 ->
  _read_slot p s f = (unpack_HH (rdz f (p * 4096 + 4 + s * 4) 4), f).
Proof.
  intros Hp. unfold _read_slot, peek, _base, PAGE_SIZE, HDR_SIZE, SLOT_SIZE.
  rewrite file_read_rdz by lia. reflexivity.
Qed.

Lemma write_hdr_eq (p a b : Z) (f : heap) :
  0 <= p -> p * 4096 <= flen f ->
  0 <= a <= 65535 -> 0 <= b <= 65535 ->
  _write_hdr p a b f = (Ok tt, wrz (p * 4096) (le_bytes 2 a ++ le_bytes 2 b) f).
Proof.
  intros Hp Hl Ha Hb. unfold _write_hdr, update, file_seek, _base, PAGE_SIZE.
  rewrite (proj2 (Z.ltb_ge _ _)) by lia. cbn [res_bind].
  rewrite pack_HH_ok by assumption. cbn [res_bind].
  rewrite file_write_wrz by lia. reflexivity.
Qed.

Lemma write_slot_eq (p s a b : Z) (f : heap) :
  0 <= p * 4096 + 4 + s * 4 <= flen f ->
  0 <= a <= 65535 -> 0 <= b <= 65535 ->
  _write_slot p s a b f
  = (Ok tt, wrz (p * 4096 + 4 + s * 4) (le_bytes 2 a ++ le_bytes 2 b) f).
Proof.
  intros Hp Ha Hb.
  unfold _write_slot, update, file_seek, _base, PAGE_SIZE, HDR_SIZE, SLOT_SIZE.
  rewrite (proj2 (Z.ltb_ge _ _)) by lia. cbn [res_bind].
  rewrite pack_HH_ok by assumption. cbn [res_bind].
  rewrite file_write_wrz by lia. reflexivity.
Qed.

Lemma hdr_at_eq (f : heap) (p : Z) :
  0 <= p -> hdr_at f p = unpack_HH (rdz f (p * 4096) 4).
Proof. intros Hp. unfold hdr_at. rewrite read_hdr_eq by assumption. reflexivity. Qed.

Lemma slot_at_eq (f : heap) (p s : Z) :
  0 <= p * 4096 + 4 + s * 4 ->
  slot_at f p s = unpack_HH (rdz f (p * 4096 + 4 + s * 4) 4).
Proof. intros Hp. unfold slot_at. rewrite read_slot_eq by assumption. reflexivity. Qed.

(** A header that was read holds two unsigned 16-bit numbers. *)
Lemma hdr_at_range (f : heap) (p a b : Z) :
  0 <= p -> hdr_at f p = Ok (a, b) -> 0 <= a <= 65535 /\ 0 <= b <= 65535.
Proof.
  intros Hp. rewrite hdr_at_eq by assumption.
  destruct (rdz f (p * 4096) 4) as [|b0 [|b1 [|b2 [|b3 [|b4 r]]]]]; try discriminate.
  cbn [unpack_HH]. intros H.
  pose proof (le_val_range [b0; b1]). pose proof (le_val_range [b2; b3]).
  cbn [length] in *. change (256 ^ Z.of_nat 2) with 65536 in *.
  assert (a = le_val [b0; b1]) by congruence.
  assert (b = le_val [b2; b3]) by congruence. lia.
Qed.

(** Any four bytes inside the file decode. *)
Lemma unpack_HH_rdz (f : heap) (a : Z) :
  0 <= a -> a + 4 <= flen f ->
  exists x y, unpack_HH (rdz f a 4) = Ok (x, y)
              /\ 0 <= x <= 65535 /\ 0 <= y <= 65535.
Proof.
  intros Ha Hl. apply unpack_HH_four. apply flen_rdz; lia.
Qed.

(** The search for a free slot only reads, and answers with a slot of the
    directory. *)
Lemma find_free_from_spec (p : Z) (f : heap) (n : nat) :
  forall s0,
    0 <= p -> 0 <= s0 ->
    p * 4096 + 4 + (s0 + Z.of_nat n) * 4 <= flen f ->
    exists r, find_free_from p s0 n f = (Ok r, f)
              /\ (forall s, r = Some s ->
                     s0 <= s < s0 + Z.of_nat n /\
                     exists off, slot_at f p s = Ok (off, 0)).
Proof.
  induction n as [|n IH]; intros s0 Hp Hs Hl.
  - exists None. split; [reflexivity | discriminate].
  - cbn [find_free_from].
    destruct (unpack_HH_rdz f (p * 4096 + 4 + s0 * 4)) as (x & y & Hxy & _ & _);
      [lia | lia |].
    rewrite (bind_eq _ _ f f (x, y)) by (rewrite read_slot_eq by lia; rewrite Hxy; reflexivity).
    cbn [snd]. destruct (Z.eqb_spec y 0) as [->|Hy].
    + exists (Some s0). split; [reflexivity|].
      intros s [= <-]. split; [lia|]. exists x.
      rewrite slot_at_eq by lia. exact Hxy.
    + destruct (IH (s0 + 1)) as (r & Hr & Hrs); [lia | lia | lia |].
      exists r. split; [exact Hr|].
      intros s Hsome. destruct (Hrs s Hsome) as [Hrange Hoff]. split; [lia | exact Hoff].
Qed.

Lemma update_ok (g : heap -> res heap) (f f' : heap) :
  g f = Ok f' -> update g f = (Ok tt, f').
Proof. intros H. unfold update. rewrite H. reflexivity. Qed.

(** ** One placement attempt *)

Lemma try_place_spec (p ns de : Z) (blob : bytes) (f : heap) :
  0 <= p -> (p + 1) * 4096 <= flen f ->
  hdr_at f p = Ok (ns, de) ->
  4 + ns * 4 <= de <= 4096 ->
  1 <= flen blob ->
  exists sfree,
    _find_free_slot p ns f = (Ok sfree, f) /\
    (forall s, sfree = Some s -> 0 <= s < ns) /\
    let reuse := match sfree with Some _ => true | None => false end in
    let s := match sfree with Some s => s | None => ns end in
    let ns' := if reuse then ns else ns + 1 in
    if flen blob <=? _free_bytes ns de reuse
    then exists f',
        try_place p blob f = (Ok (Some (mkRID p s)), f') /\
        placed f f' p s ns' (de - flen blob) blob
    else try_place p blob f = (Ok None, f).
Proof.
  intros Hp Hlen Hhdr Hinv Hblob.
  destruct (hdr_at_range _ _ _ _ Hp Hhdr) as [Hns Hde].
  destruct (find_free_from_spec p f (Z.to_nat ns) 0) as (sfree & Hfind & Hfree);
    [lia | lia | lia |].
  exists sfree. split; [exact Hfind|].
  assert (Hfree' : forall s, sfree = Some s -> 0 <= s < ns).
  { intros s Hs. destruct (Hfree s Hs) as [? _]. lia. }
  split; [exact Hfree'|].
  cbv zeta.
  assert (Hrd : _read_hdr p f = (Ok (ns, de), f)).
  { unfold hdr_at in Hhdr. destruct (_read_hdr p f) as [o f0] eqn:E.
    rewrite read_hdr_eq in E by assumption. inversion E; subst. cbn [fst] in Hhdr.
    rewrite Hhdr. reflexivity. }
  unfold try_place. rewrite (bind_eq _ _ _ _ _ Hrd).
  rewrite (bind_eq _ _ _ _ _ Hfind). fold (flen blob).
  set (len := flen blob) in *.
  destruct (Z.leb_spec len
              (_free_bytes ns de match sfree with Some _ => true | None => false end))
    as [Hfit|Hnofit]; [|reflexivity].
  unfold _free_bytes, HDR_SIZE, SLOT_SIZE in Hfit.
  destruct sfree as [s|].
  - (* a free slot is taken again *)
    specialize (Hfree' s eq_refl).
    rewrite (bind_eq _ _ f f ns) by reflexivity.
    set (B := p * 4096 + (de - len)).
    set (f2 := wrz B blob f).
    assert (Hl2 : flen f2 = flen f) by (apply flen_wrz; unfold B; fold len; lia).
    rewrite (bind_eq _ _ f f2 tt).
    2:{ apply update_ok. unfold _base, PAGE_SIZE. fold B.
        apply file_write_wrz; unfold B; lia. }
    set (S := p * 4096 + 4 + s * 4).
    set (sb := le_bytes 2 (de - len) ++ le_bytes 2 len).
    set (f3 := wrz S sb f2).
    assert (Hl3 : flen f3 = flen f2)
      by (apply flen_wrz; unfold S, sb; rewrite ?flen_HH; lia).
    rewrite (bind_eq _ _ f2 f3 tt) by (apply write_slot_eq; lia).
    set (hb := le_bytes 2 ns ++ le_bytes 2 (de - len)).
    set (f4 := wrz (p * 4096) hb f3).
    assert (Hl4 : flen f4 = flen f3)
      by (apply flen_wrz; unfold hb; rewrite ?flen_HH; lia).
    rewrite (bind_eq _ _ f3 f4 tt) by (apply write_hdr_eq; lia).
    exists f4. split; [reflexivity|].
    unfold placed. repeat split; try lia.
    + rewrite hdr_at_eq by assumption. unfold f4.
      rewrite <- (flen_HH ns (de - len)). fold hb.
      rewrite rdz_wrz_same by (unfold hb; rewrite ?flen_HH; lia).
      apply unpack_HH_le; lia.
    + rewrite slot_at_eq by lia. fold S. unfold f4.
      rewrite rdz_wrz_disj by (unfold hb, S; rewrite ?flen_HH; lia).
      unfold f3. rewrite <- (flen_HH (de - len) len). fold sb.
      rewrite rdz_wrz_same by (unfold sb, S; rewrite ?flen_HH; lia).
      apply unpack_HH_le; lia.
    + fold B. unfold f4.
      rewrite rdz_wrz_disj by (unfold hb, B; rewrite ?flen_HH; lia).
      unfold f3.
      rewrite rdz_wrz_disj by (unfold sb, S, B; rewrite ?flen_HH; lia).
      unfold f2. apply rdz_wrz_same; unfold B; fold len; lia.
    + intros a n Ha Hn Hd. unfold f4.
      rewrite rdz_wrz_disj by (unfold hb; rewrite ?flen_HH; lia).
      unfold f3.
      rewrite rdz_wrz_disj by (unfold sb, S; rewrite ?flen_HH; lia).
      unfold f2. apply rdz_wrz_disj; unfold B; fold len; lia.
  - (* a new slot is appended to the directory *)
    set (hb1 := le_bytes 2 (ns + 1) ++ le_bytes 2 de).
    set (f1 := wrz (p * 4096) hb1 f).
    assert (Hl1 : flen f1 = flen f)
      by (apply flen_wrz; unfold hb1; rewrite ?flen_HH; lia).
    rewrite (bind_eq _ _ f f1 (ns + 1)).
    2:{ rewrite (bind_eq _ _ f f1 tt) by (apply write_hdr_eq; lia). reflexivity. }
    set (B := p * 4096 + (de - len)).
    set (f2 := wrz B blob f1).
    assert (Hl2 : flen f2 = flen f1) by (apply flen_wrz; unfold B; fold len; lia).
    rewrite (bind_eq _ _ f1 f2 tt).
    2:{ apply update_ok. unfold _base, PAGE_SIZE. fold B.
        apply file_write_wrz; unfold B; lia. }
    set (S := p * 4096 + 4 + ns * 4).
    set (sb := le_bytes 2 (de - len) ++ le_bytes 2 len).
    set (f3 := wrz S sb f2).
    assert (Hl3 : flen f3 = flen f2)
      by (apply flen_wrz; unfold S, sb; rewrite ?flen_HH; lia).
    rewrite (bind_eq _ _ f2 f3 tt) by (apply write_slot_eq; lia).
    set (hb := le_bytes 2 (ns + 1) ++ le_bytes 2 (de - len)).
    set (f4 := wrz (p * 4096) hb f3).
    assert (Hl4 : flen f4 = flen f3)
      by (apply flen_wrz; unfold hb; rewrite ?flen_HH; lia).
    rewrite (bind_eq _ _ f3 f4 tt) by (apply write_hdr_eq; lia).
    exists f4. split; [reflexivity|].
    unfold placed. repeat split; try lia.
    + rewrite hdr_at_eq by assumption. unfold f4.
      rewrite <- (flen_HH (ns + 1) (de - len)). fold hb.
      rewrite rdz_wrz_same by (unfold hb; rewrite ?flen_HH; lia).
      apply unpack_HH_le; lia.
    + rewrite slot_at_eq by lia. fold S. unfold f4.
      rewrite rdz_wrz_disj by (unfold hb, S; rewrite ?flen_HH; lia).
      unfold f3. rewrite <- (flen_HH (de - len) len). fold sb.
      rewrite rdz_wrz_same by (unfold sb, S; rewrite ?flen_HH; lia).
      apply unpack_HH_le; lia.
    + fold B. unfold f4.
      rewrite rdz_wrz_disj by (unfold hb, B; rewrite ?flen_HH; lia).
      unfold f3.
      rewrite rdz_wrz_disj by (unfold sb, S, B; rewrite ?flen_HH; lia).
      unfold f2. apply rdz_wrz_same; unfold B; fold len; lia.
    + intros a n Ha Hn Hd. unfold f4.
      rewrite rdz_wrz_disj by (unfold hb; rewrite ?flen_HH; lia).
      unfold f3.
      rewrite rdz_wrz_disj by (unfold sb, S; rewrite ?flen_HH; lia).
      unfold f2.
      rewrite rdz_wrz_disj by (unfold B; fold len; lia).
      unfold f1. apply rdz_wrz_disj; unfold hb1; rewrite ?flen_HH; lia.
Qed.

(** ** Well-formed heaps *)

Lemma page_ok_spec (f : heap) (q : Z) :
  page_ok f q = true <->
  exists ns de, hdr_at f q = Ok (ns, de) /\ 4 + ns * 4 <= de <= 4096.
Proof.
  unfold page_ok, HDR_SIZE, SLOT_SIZE, PAGE_SIZE. split.
  - destruct (hdr_at f q) as [[ns de]| |]; try discriminate.
    intros H. apply andb_true_iff in H as [H1 H2].
    apply Z.leb_le in H1, H2. eauto.
  - intros (ns & de & -> & H1 & H2).
    apply andb_true_iff. split; apply Z.leb_le; assumption.
Qed.

Lemma heap_wf_spec (f : heap) :
  heap_wf f = true <->
  flen f mod 4096 = 0 /\
  forall q, 0 <= q < num_pages f -> page_ok f q = true.
Proof.
  unfold heap_wf, PAGE_SIZE. rewrite andb_true_iff, Z.eqb_eq, forallb_forall.
  split; intros [Ha Hp]; (split; [exact Ha|]).
  - intros q Hq. specialize (Hp (Z.to_nat q)).
    rewrite Z2Nat.id in Hp by lia. apply Hp. apply in_seq. lia.
  - intros i Hi. apply in_seq in Hi. apply Hp. lia.
Qed.

Lemma aligned_len (f : heap) :
  flen f mod 4096 = 0 -> flen f = num_pages f * 4096.
Proof.
  intros H. unfold num_pages, PAGE_SIZE.
  pose proof (Z.div_mod (flen f) 4096 ltac:(lia)). lia.
Qed.

Lemma num_pages_eq (f : heap) (n : Z) :
  flen f = n * 4096 -> num_pages f = n.
Proof.
  intros H. unfold num_pages, PAGE_SIZE. rewrite H. apply Z.div_mul. lia.
Qed.

Lemma num_pages_run (f : heap) : _num_pages f = (Ok (num_pages f), f).
Proof. reflexivity. Qed.

(** A placement keeps the heap well formed. *)
Lemma placed_wf (f f' : heap) (p s ns' de' : Z) (blob : bytes) :
  heap_wf f = true -> 0 <= p < num_pages f ->
  placed f f' p s ns' de' blob ->
  heap_wf f' = true.
Proof.
  intros Hwf Hp (Hl & Hh & _ & _ & Hinv & _ & Hframe).
  apply heap_wf_spec in Hwf as [Hal Hpages].
  pose proof (aligned_len f Hal) as Hlen.
  apply heap_wf_spec. rewrite Hl. split; [exact Hal|].
  assert (Hnp : num_pages f' = num_pages f) by (unfold num_pages; rewrite Hl; reflexivity).
  rewrite Hnp. intros q Hq. apply page_ok_spec.
  destruct (Z.eq_dec q p) as [->|Hne].
  - eauto.
  - pose proof (Hpages q Hq) as Hok.
    apply page_ok_spec in Hok as (ns & de & Hhq & Hi).
    exists ns, de. split; [|exact Hi].
    rewrite hdr_at_eq in Hhq by lia. rewrite hdr_at_eq by lia.
    rewrite Hframe by lia. exact Hhq.
Qed.

Lemma placed_stored (f f' : heap) (p s ns' de' : Z) (blob : bytes) :
  0 <= p < num_pages f -> 1 <= flen blob ->
  placed f f' p s ns' de' blob ->
  stored f' (mkRID p s) blob.
Proof.
  intros Hp Hb (Hl & Hh & Hs & Hr & Hinv & Hsl & _).
  unfold stored. cbn [page slot]. split.
  - unfold num_pages in *. rewrite Hl. exact Hp.
  - exists ns', de', de'. repeat split; try assumption; lia.
Qed.

(** ** A fresh page *)

Lemma ensure_new_page (f : heap) :
  heap_wf f = true ->
  exists f1,
    _ensure_page (num_pages f) f = (Ok tt, f1) /\
    heap_wf f1 = true /\
    flen f1 = flen f + 4096 /\
    num_pages f1 = num_pages f + 1 /\
    hdr_at f1 (num_pages f) = Ok (0, 4096).
Proof.
  intros Hwf. apply heap_wf_spec in Hwf as [Hal Hpages].
  pose proof (aligned_len f Hal) as Hlen.
  set (np := num_pages f) in *.
  assert (Hnp : 0 <= np).
  { unfold np, num_pages, PAGE_SIZE. apply Z.div_pos; [apply flen_nonneg | lia]. }
  set (f0 := f ++ replicate 4096 x00).
  assert (Hl0 : flen f0 = flen f + 4096).
  { unfold f0. rewrite flen_app. unfold flen at 2. rewrite length_replicate. lia. }
  set (hb := le_bytes 2 0 ++ le_bytes 2 4096).
  set (f1 := wrz (np * 4096) hb f0).
  assert (Hl1 : flen f1 = flen f0)
    by (apply flen_wrz; unfold hb; rewrite ?flen_HH; lia).
  assert (Hh1 : hdr_at f1 np = Ok (0, 4096)).
  { rewrite hdr_at_eq by assumption. unfold f1.
    rewrite <- (flen_HH 0 4096). fold hb.
    rewrite rdz_wrz_same by (unfold hb; rewrite ?flen_HH; lia).
    apply unpack_HH_le; lia. }
  exists f1. split; [|split; [|split; [lia|split; [apply num_pages_eq; lia | exact Hh1]]]].
  - unfold _ensure_page. rewrite (bind_eq _ _ _ _ _ (num_pages_run f)). fold np.
    rewrite Z.ltb_irrefl.
    rewrite (bind_eq _ _ _ _ _ (num_pages_run f)). fold np.
    rewrite (bind_eq _ _ f f0 tt).
    2:{ unfold append_pages, poke. replace (np - np + 1) with 1 by lia.
        reflexivity. }
    unfold PAGE_SIZE. apply write_hdr_eq; lia.
  - apply heap_wf_spec. split.
    + rewrite Hl1, Hl0, Hlen. replace (np * 4096 + 4096) with ((np + 1) * 4096) by lia.
      apply Z.mod_mul. lia.
    + rewrite (num_pages_eq f1 (np + 1)) by lia.
      intros q Hq. apply page_ok_spec.
      destruct (Z.eq_dec q np) as [->|Hne].
      * exists 0, 4096. split; [exact Hh1 | lia].
      * pose proof (Hpages q ltac:(lia)) as Hok.
        apply page_ok_spec in Hok as (ns & de & Hhq & Hi).
        exists ns, de. split; [|exact Hi].
        rewrite hdr_at_eq in Hhq by lia. rewrite hdr_at_eq by lia. unfold f1.
        rewrite rdz_wrz_disj by (unfold hb; rewrite ?flen_HH; lia).
        unfold f0. rewrite rdz_app_l by lia. exact Hhq.
Qed.

Lemma read_hdr_run (f : heap) (p ns de : Z) :
  0 <= p -> hdr_at f p = Ok (ns, de) -> _read_hdr p f = (Ok (ns, de), f).
Proof.
  intros Hp Hh. rewrite read_hdr_eq by assumption.
  rewrite hdr_at_eq in Hh by assumption. rewrite Hh. reflexivity.
Qed.

(** On a page that holds nothing yet, any row of legal size is placed in slot 0. *)
Lemma place_fresh (p : Z) (blob : bytes) (f : heap) :
  0 <= p -> (p + 1) * 4096 <= flen f ->
  hdr_at f p = Ok (0, 4096) ->
  1 <= flen blob -> flen blob + 8 <= 4096 ->
  exists f',
    try_place p blob f = (Ok (Some (mkRID p 0)), f') /\
    placed f f' p 0 1 (4096 - flen blob) blob.
Proof.
  intros Hp Hl Hh Hb1 Hb2.
  destruct (try_place_spec p 0 4096 blob f Hp Hl Hh ltac:(lia) Hb1)
    as (sfree & _ & Hfree & Hres).
  destruct sfree as [s|]; [specialize (Hfree s eq_refl); lia|].
  cbv zeta in Hres. cbn [Z.add] in Hres.
  unfold _free_bytes, HDR_SIZE, SLOT_SIZE in Hres.
  rewrite (proj2 (Z.leb_le _ _)) in Hres by lia.
  exact Hres.
Qed.

(** ** [insert] *)

Lemma insert_blob_spec (blob : bytes) (f : heap) :
  heap_wf f = true -> 1 <= flen blob -> flen blob + 8 <= 4096 ->
  exists rid f',
    insert_blob blob f = (Ok rid, f') /\
    heap_wf f' = true /\
    stored f' rid blob /\
    (num_pages f = 0 -> rid = mkRID 0 0 /\ num_pages f' = 1) /\
    (1 <= num_pages f ->
     exists fb,
       free_bytes_of f (num_pages f - 1) = Ok fb /\
       (flen blob <= fb ->
        page rid = num_pages f - 1 /\ num_pages f' = num_pages f) /\
       (fb < flen blob ->
        rid = mkRID (num_pages f) 0 /\ num_pages f' = num_pages f + 1)).
Proof.
  intros Hwf Hb1 Hb2.
  pose proof Hwf as Hwf0. apply heap_wf_spec in Hwf0 as [Hal Hpages].
  pose proof (aligned_len f Hal) as Hlen.
  assert (Hnp : 0 <= num_pages f).
  { unfold num_pages, PAGE_SIZE. apply Z.div_pos; [apply flen_nonneg | lia]. }
  unfold insert_blob. fold (flen blob). unfold PAGE_SIZE at 1, HDR_SIZE, SLOT_SIZE.
  rewrite (proj2 (Z.ltb_ge _ _)) by lia.
  rewrite (bind_eq _ _ _ _ _ (num_pages_run f)).
  destruct (Z.eqb_spec (num_pages f) 0) as [Hz|Hnz].
  - (* the file is empty: page 0 is created *)
    destruct (ensure_new_page f Hwf) as (f1 & Hens & Hwf1 & Hl1 & Hnp1 & Hh1).
    rewrite Hz in Hens, Hnp1, Hh1.
    rewrite (bind_eq _ _ _ _ _ Hens).
    rewrite (bind_eq _ _ _ _ _ (num_pages_run f1)). rewrite Hnp1. cbn [Z.add Z.sub Z.opp Z.pos_sub].
    destruct (place_fresh 0 blob f1) as (f' & Hplace & Hpl); try assumption; try lia.
    rewrite (bind_eq _ _ _ _ _ Hplace).
    exists (mkRID 0 0), f'. split; [reflexivity|].
    assert (Hp01 : 0 <= 0 < num_pages f1) by lia.
    split; [eapply placed_wf; eauto|].
    split; [eapply placed_stored; eauto|].
    split; [|lia].
    intros _. split; [reflexivity|].
    destruct Hpl as (Hl' & _). unfold num_pages in *. rewrite Hl'. exact Hnp1.
  - rewrite (bind_eq _ _ f f tt) by reflexivity.
    rewrite (bind_eq _ _ _ _ _ (num_pages_run f)).
    set (np := num_pages f) in *.
    pose proof (Hpages (np - 1) ltac:(lia)) as Hok.
    apply page_ok_spec in Hok as (ns & de & Hh & Hinv).
    destruct (try_place_spec (np - 1) ns de blob f ltac:(lia) ltac:(lia) Hh Hinv Hb1)
      as (sfree & Hfind & Hfree & Hres).
    cbv zeta in Hres.
    assert (Hfb : free_bytes_of f (np - 1)
                  = Ok (_free_bytes ns de
                          match sfree with Some _ => true | None => false end)).
    { unfold free_bytes_of. rewrite (read_hdr_run f (np - 1) ns de ltac:(lia) Hh).
      rewrite Hfind. reflexivity. }
    destruct (Z.leb_spec (flen blob)
                (_free_bytes ns de match sfree with Some _ => true | None => false end))
      as [Hfit|Hnofit].
    + (* the last page takes the row *)
      destruct Hres as (f' & Hplace & Hpl).
      rewrite (bind_eq _ _ _ _ _ Hplace).
      eexists _, f'. split; [reflexivity|].
      assert (Hp : 0 <= np - 1 < num_pages f) by (fold np; lia).
      split; [eapply placed_wf; eauto|].
      split; [eapply placed_stored; eauto|].
      split; [intros; lia|].
      intros _. eexists. split; [exact Hfb|].
      split; [|lia]. intros _. cbn [page]. split; [reflexivity|].
      destruct Hpl as (Hl' & _). unfold np, num_pages in *. rewrite Hl'. reflexivity.
    + (* the last page is too full: a new page takes the row *)
      rewrite (bind_eq _ _ _ _ _ Hres).
      rewrite (bind_eq _ _ _ _ _ (num_pages_run f)). fold np.
      destruct (ensure_new_page f Hwf) as (f1 & Hens & Hwf1 & Hl1 & Hnp1 & Hh1).
      fold np in Hens, Hnp1, Hh1.
      rewrite (bind_eq _ _ _ _ _ Hens).
      destruct (place_fresh np blob f1) as (f' & Hplace & Hpl); try assumption; try lia.
      rewrite (bind_eq _ _ _ _ _ Hplace).
      exists (mkRID np 0), f'. split; [reflexivity|].
      assert (Hp : 0 <= np < num_pages f1) by lia.
      split; [eapply placed_wf; eauto|].
      split; [eapply placed_stored; eauto|].
      split; [intros; lia|].
      intros _. eexists. split; [exact Hfb|].
      split; [lia|]. intros _. split; [reflexivity|].
      destruct Hpl as (Hl' & _). unfold num_pages in *. rewrite Hl'. exact Hnp1.
Qed.

Lemma insert_run (sch : RowFmt.schema) (r : RowFmt.row) (blob : bytes) (f : heap) :
  RowFmt.pack_row r sch = Ok blob -> insert sch r f = insert_blob blob f.
Proof.
  intros H. unfold insert. apply bind_eq. unfold peek. rewrite H. reflexivity.
Qed.

(** C8. On a well-formed heap, for every row whose encoded blob satisfies
    [len(blob) + HDR_SIZE + SLOT_SIZE <= PAGE_SIZE], [insert] returns a RID
    (so the final failure branch is not taken); the heap stays well formed
    and the slot of that RID points at the blob. *)
Theorem insert_succeeds (sch : RowFmt.schema) (r : RowFmt.row) (blob : bytes)
    (f : heap) :
  heap_wf f = true ->
  RowFmt.pack_row r sch = Ok blob ->
  flen blob + HDR_SIZE + SLOT_SIZE <= PAGE_SIZE ->
  exists rid f',
    insert sch r f = (Ok rid, f') /\ heap_wf f' = true /\ stored f' rid blob.
Proof.
  intros Hwf Hpack Hsize. unfold HDR_SIZE, SLOT_SIZE, PAGE_SIZE in Hsize.
  pose proof (RowFmtFacts.pack_row_length _ _ _ Hpack) as Hlen.
  destruct (insert_blob_spec blob f Hwf) as (rid & f' & Hins & Hwf' & Hst & _);
    [unfold flen; lia | lia |].
  exists rid, f'. rewrite (insert_run _ _ _ _ Hpack). auto.
Qed.

Lemma insert_succeeds_witness :
  exists rid f',
    insert RowFmtSpec.demo_schema RowFmtSpec.demo_row one_row_heap = (Ok rid, f')
    /\ heap_wf f' = true /\ stored f' rid RowFmtSpec.demo_blob.
Proof.
  apply (insert_succeeds RowFmtSpec.demo_schema RowFmtSpec.demo_row
           RowFmtSpec.demo_blob one_row_heap).
  - vm_compute. reflexivity.
  - vm_compute. reflexivity.
  - vm_compute. discriminate.
Defined.

(** ** The free bytes of a page *)

Lemma rdz_split4 (f : heap) (a : Z) (b0 b1 b2 b3 : byte) :
  0 <= a -> rdz f a 4 = [b0; b1; b2; b3] ->
  rdz f a 2 = [b0; b1] /\ rdz f (a + 2) 2 = [b2; b3].
Proof.
  intros Ha H. unfold rdz, slice in *.
  replace (Z.to_nat a + Z.to_nat 4 - Z.to_nat a)%nat with 4%nat in H by lia.
  replace (Z.to_nat a + Z.to_nat 2 - Z.to_nat a)%nat with 2%nat by lia.
  replace (Z.to_nat (a + 2) + Z.to_nat 2 - Z.to_nat (a + 2))%nat with 2%nat by lia.
  replace (Z.to_nat (a + 2)) with (Z.to_nat a + 2)%nat by lia.
  rewrite <- drop_drop.
  destruct (drop (Z.to_nat a) f) as [|c0 [|c1 [|c2 [|c3 r]]]]; try discriminate.
  cbn [take drop] in *. inversion H; subst. split; reflexivity.
Qed.

(** The header and the slots the code reads are the fields of the data model. *)
Lemma unpack_HH_fields (f : heap) (a x y : Z) :
  0 <= a -> unpack_HH (rdz f a 4) = Ok (x, y) ->
  x = u16_at f a /\ y = u16_at f (a + 2).
Proof.
  intros Ha H.
  destruct (rdz f a 4) as [|b0 [|b1 [|b2 [|b3 [|b4 r]]]]] eqn:E; try discriminate.
  destruct (rdz_split4 f a _ _ _ _ Ha E) as [E1 E2].
  unfold u16_at. rewrite E1, E2. cbn [unpack_HH] in H. inversion H. split; reflexivity.
Qed.

Lemma existsb_seq_shift (g : nat -> bool) (n : nat) :
  forall a, existsb g (seq (S a) n) = existsb (fun k => g (S k)) (seq a n).
Proof.
  induction n as [|n IH]; intros a; [reflexivity|].
  cbn [seq existsb]. rewrite IH. reflexivity.
Qed.

Lemma existsb_pointwise {A : Type} (g h : A -> bool) (l : list A) :
  (forall x, g x = h x) -> existsb g l = existsb h l.
Proof.
  intros E. induction l as [|x l IH]; [reflexivity|].
  cbn [existsb]. rewrite E, IH. reflexivity.
Qed.

(** The search for a free slot finds one exactly when the directory has one. *)
Lemma find_free_has (p : Z) (f : heap) (n : nat) :
  forall s0,
    0 <= p -> 0 <= s0 ->
    p * 4096 + 4 + (s0 + Z.of_nat n) * 4 <= flen f ->
    exists r, find_free_from p s0 n f = (Ok r, f) /\
              (match r with Some _ => true | None => false end)
              = existsb (fun k => slot_len_of f p (s0 + Z.of_nat k) =? 0) (seq 0 n).
Proof.
  induction n as [|n IH]; intros s0 Hp Hs Hl.
  - exists None. split; reflexivity.
  - cbn [find_free_from].
    destruct (unpack_HH_rdz f (p * 4096 + 4 + s0 * 4)) as (x & y & Hxy & _ & _);
      [lia | lia |].
    rewrite (bind_eq _ _ f f (x, y)) by (rewrite read_slot_eq by lia; rewrite Hxy; reflexivity).
    destruct (unpack_HH_fields f (p * 4096 + 4 + s0 * 4) x y ltac:(lia) Hxy) as [_ Hy].
    cbn [seq existsb]. rewrite existsb_seq_shift.
    assert (Hhere : slot_len_of f p (s0 + Z.of_nat 0) = y).
    { unfold slot_len_of, PAGE_SIZE, HDR_SIZE, SLOT_SIZE. rewrite Hy. f_equal. lia. }
    rewrite Hhere. cbn [snd].
    destruct (Z.eqb_spec y 0) as [->|Hy0].
    + exists (Some s0). split; reflexivity.
    + destruct (IH (s0 + 1)) as (r & Hr & Hrs); [lia | lia | lia |].
      exists r. split; [exact Hr|]. rewrite Hrs. cbn [orb].
      apply existsb_pointwise. intros k. do 2 f_equal. lia.
Qed.

Lemma free_bytes_of_eq (f : heap) (p : Z) :
  heap_wf f = true -> 0 <= p < num_pages f ->
  free_bytes_of f p = Ok (Z.max 0 (free_bytes f p)).
Proof.
  intros Hwf Hp.
  pose proof Hwf as Hwf0. apply heap_wf_spec in Hwf0 as [Hal Hpages].
  pose proof (aligned_len f Hal) as Hlen.
  pose proof (Hpages p Hp) as Hok.
  apply page_ok_spec in Hok as (ns & de & Hh & Hinv).
  destruct (hdr_at_range f p ns de ltac:(lia) Hh) as [Hns Hde].
  pose proof (read_hdr_run f p ns de ltac:(lia) Hh) as Hrd.
  pose proof Hh as Hh'. rewrite hdr_at_eq in Hh' by lia.
  destruct (unpack_HH_fields f (p * 4096) ns de ltac:(lia) Hh') as [Ens Ede].
  destruct (find_free_has p f (Z.to_nat ns) 0) as (r & Hfind & Hr); [lia | lia | lia |].
  unfold free_bytes_of. rewrite Hrd. unfold _find_free_slot. rewrite Hfind.
  f_equal. unfold _free_bytes, free_bytes, has_free_slot, nslots_of, data_end_of, PAGE_SIZE.
  rewrite <- Ens, <- Ede.
  assert (Hex : existsb (fun s => slot_len_of f p (Z.of_nat s) =? 0) (seq 0 (Z.to_nat ns))
                = match r with Some _ => true | None => false end).
  { rewrite Hr. apply existsb_pointwise. intros k. reflexivity. }
  rewrite Hex. destruct r; reflexivity.
Qed.

(** C7. On a well-formed heap, for every row whose blob passes the size
    check, the free bytes of the last page being [data_end] minus the end of
    its slot directory, counted with one more slot unless the directory has
    a free slot to reuse: when the blob is exactly as long as the free
    bytes, the row goes into the last page and no page is added; when it is
    one byte longer, a new page is added and the row gets slot 0 of it, its
    page index being the previous page count. (A file without a page has no
    last page: page 0 is created and the row gets slot 0 of it.) *)
Theorem insert_exact_fit_boundary (sch : RowFmt.schema) (r : RowFmt.row)
    (blob : bytes) (f : heap) :
  heap_wf f = true ->
  RowFmt.pack_row r sch = Ok blob ->
  flen blob + HDR_SIZE + SLOT_SIZE <= PAGE_SIZE ->
  (1 <= num_pages f ->
   (flen blob = free_bytes f (num_pages f - 1) ->
    exists rid f',
      insert sch r f = (Ok rid, f') /\
      page rid = num_pages f - 1 /\
      num_pages f' = num_pages f /\
      stored f' rid blob) /\
   (flen blob = free_bytes f (num_pages f - 1) + 1 ->
    exists f',
      insert sch r f = (Ok (mkRID (num_pages f) 0), f') /\
      num_pages f' = num_pages f + 1 /\
      stored f' (mkRID (num_pages f) 0) blob)) /\
  (num_pages f = 0 ->
   exists f',
     insert sch r f = (Ok (mkRID 0 0), f') /\
     num_pages f' = 1 /\
     stored f' (mkRID 0 0) blob).
Proof.
  intros Hwf Hpack Hsize. unfold HDR_SIZE, SLOT_SIZE, PAGE_SIZE in Hsize.
  pose proof (RowFmtFacts.pack_row_length _ _ _ Hpack) as Hlen.
  destruct (insert_blob_spec blob f Hwf) as (rid & f' & Hins & Hwf' & Hst & Hzero & Hcase);
    [unfold flen; lia | lia |].
  rewrite (insert_run _ _ _ _ Hpack). split.
  - intros Hnp.
    destruct (Hcase Hnp) as (fb & Hfb & Hfit & Hnew).
    rewrite (free_bytes_of_eq f (num_pages f - 1) Hwf ltac:(lia)) in Hfb.
    assert (fb = Z.max 0 (free_bytes f (num_pages f - 1))) by congruence. subst fb.
    split; intros Heq.
    + destruct (Hfit ltac:(lia)) as [Hpg Hn]. exists rid, f'. auto.
    + assert (Hlt : Z.max 0 (free_bytes f (num_pages f - 1)) < flen blob)
        by (unfold flen in *; lia).
      destruct (Hnew Hlt) as [-> Hn]. exists f'. auto.
  - intros Hnp. destruct (Hzero Hnp) as [-> Hn]. exists f'. auto.
Qed.

Lemma insert_exact_fit_boundary_witness :
  (exists rid f',
     insert text_schema exact_row one_row_heap = (Ok rid, f') /\
     page rid = num_pages one_row_heap - 1 /\
     num_pages f' = num_pages one_row_heap /\
     stored f' rid exact_blob) /\
  (exists f',
     insert text_schema over_row one_row_heap
     = (Ok (mkRID (num_pages one_row_heap) 0), f') /\
     num_pages f' = num_pages one_row_heap + 1 /\
     stored f' (mkRID (num_pages one_row_heap) 0) over_blob) /\
  (exists rid f',
     insert text_schema reuse_row emptied_heap = (Ok rid, f') /\
     page rid = num_pages emptied_heap - 1 /\
     num_pages f' = num_pages emptied_heap /\
     stored f' rid reuse_blob) /\
  (exists f',
     insert text_schema exact_row [] = (Ok (mkRID 0 0), f') /\
     num_pages f' = 1 /\
     stored f' (mkRID 0 0) exact_blob).
Proof.
  split; [|split; [|split]].
  - apply (proj1 (proj1 (insert_exact_fit_boundary text_schema exact_row exact_blob
                           one_row_heap
                           ltac:(vm_compute; reflexivity) ltac:(vm_compute; reflexivity)
                           ltac:(vm_compute; discriminate))
                        ltac:(vm_compute; discriminate))).
    vm_compute. reflexivity.
  - apply (proj2 (proj1 (insert_exact_fit_boundary text_schema over_row over_blob
                           one_row_heap
                           ltac:(vm_compute; reflexivity) ltac:(vm_compute; reflexivity)
                           ltac:(vm_compute; discriminate))
                        ltac:(vm_compute; discriminate))).
    vm_compute. reflexivity.
  - apply (proj1 (proj1 (insert_exact_fit_boundary text_schema reuse_row reuse_blob
                           emptied_heap
                           ltac:(vm_compute; reflexivity) ltac:(vm_compute; reflexivity)
                           ltac:(vm_compute; discriminate))
                        ltac:(vm_compute; discriminate))).
    vm_compute. reflexivity.
  - apply (proj2 (insert_exact_fit_boundary text_schema exact_row exact_blob []
                    ltac:(vm_compute; reflexivity) ltac:(vm_compute; reflexivity)
                    ltac:(vm_compute; discriminate))).
    vm_compute. reflexivity.
Defined.

(** ** [delete] *)

(** Inside the file [delete] answers as the specification says: [false] for
    a slot outside the directory or already free, [true] for a live slot,
    whose length it sets to 0 while keeping its offset. *)
Lemma delete_in_file (rid : RID) (f : heap) :
  heap_wf f = true -> 0 <= page rid < num_pages f ->
  exists ns de,
    hdr_at f (page rid) = Ok (ns, de) /\
    (slot rid < 0 \/ ns <= slot rid -> delete rid f = (Ok false, f)) /\
    (0 <= slot rid < ns ->
     exists off ln,
       slot_at f (page rid) (slot rid) = Ok (off, ln) /\
       (ln = 0 -> delete rid f = (Ok false, f)) /\
       (ln <> 0 ->
        exists f',
          delete rid f = (Ok true, f') /\
          slot_at f' (page rid) (slot rid) = Ok (off, 0) /\
          heap_wf f' = true /\ flen f' = flen f)).
Proof.
  intros Hwf Hp. destruct rid as [p s]. cbn [page slot] in *.
  pose proof Hwf as Hwf0. apply heap_wf_spec in Hwf0 as [Hal Hpages].
  pose proof (aligned_len f Hal) as Hlen.
  pose proof (Hpages p Hp) as Hok.
  apply page_ok_spec in Hok as (ns & de & Hh & Hinv).
  destruct (hdr_at_range f p ns de ltac:(lia) Hh) as [Hns Hde].
  pose proof (read_hdr_run f p ns de ltac:(lia) Hh) as Hrd.
  exists ns, de. split; [exact Hh|]. split.
  - intros Hout. unfold delete. cbn [page slot].
    rewrite (bind_eq _ _ _ _ _ Hrd). cbn [fst].
    destruct (Z.ltb_spec s 0); [reflexivity|].
    rewrite (proj2 (Z.leb_le _ _)) by lia. reflexivity.
  - intros Hin.
    set (S := p * 4096 + 4 + s * 4).
    destruct (unpack_HH_rdz f S) as (off & ln & Hsl & Hoff & Hln);
      [unfold S; lia | unfold S; lia |].
    assert (Hslot : slot_at f p s = Ok (off, ln))
      by (rewrite slot_at_eq by lia; exact Hsl).
    assert (Hrs : _read_slot p s f = (Ok (off, ln), f)).
    { rewrite read_slot_eq by lia. fold S. rewrite Hsl. reflexivity. }
    exists off, ln. split; [exact Hslot|].
    assert (Hpre : delete (mkRID p s) f
                   = (if ln =? 0 then ret false
                      else (_write_slot p s off 0 ;;; ret true)%M) f).
    { unfold delete. cbn [page slot].
      rewrite (bind_eq _ _ _ _ _ Hrd). cbn [fst].
      rewrite (proj2 (Z.ltb_ge _ _)) by lia.
      rewrite (proj2 (Z.leb_gt _ _)) by lia. cbn [orb].
      rewrite (bind_eq _ _ _ _ _ Hrs). reflexivity. }
    split.
    + intros ->. rewrite Hpre. reflexivity.
    + intros Hne. rewrite Hpre. rewrite (proj2 (Z.eqb_neq _ _)) by assumption.
      set (sb := le_bytes 2 off ++ le_bytes 2 0).
      set (f' := wrz S sb f).
      assert (Hl' : flen f' = flen f)
        by (apply flen_wrz; unfold S, sb; rewrite ?flen_HH; lia).
      exists f'. split.
      { rewrite (bind_eq _ _ f f' tt) by (apply write_slot_eq; lia). reflexivity. }
      split.
      { rewrite slot_at_eq by lia. fold S. unfold f'.
        rewrite <- (flen_HH off 0). fold sb.
        rewrite rdz_wrz_same by (unfold sb, S; rewrite ?flen_HH; lia).
        apply unpack_HH_le; lia. }
      split; [|exact Hl'].
      apply heap_wf_spec. rewrite Hl'. split; [exact Hal|].
      assert (Hnp : num_pages f' = num_pages f)
        by (unfold num_pages; rewrite Hl'; reflexivity).
      rewrite Hnp. intros q Hq. apply page_ok_spec.
      pose proof (Hpages q Hq) as Hokq.
      apply page_ok_spec in Hokq as (nsq & deq & Hhq & Hiq).
      exists nsq, deq. split; [|exact Hiq].
      rewrite hdr_at_eq in Hhq by lia. rewrite hdr_at_eq by lia. unfold f'.
      rewrite rdz_wrz_disj by (unfold sb, S; rewrite ?flen_HH; lia).
      exact Hhq.
Qed.

(** Past the last page the header read comes back short and [struct.unpack]
    raises: [delete] does not answer [false]. *)
Lemma delete_beyond_file (rid : RID) (f : heap) :
  flen f <= page rid * 4096 -> delete rid f = (Raise StructError, f).
Proof.
  intros Hp. pose proof (flen_nonneg f).
  unfold delete. apply bind_raise.
  rewrite read_hdr_eq by lia.
  replace (rdz f (page rid * 4096) 4) with (@nil byte); [reflexivity|].
  symmetry. unfold rdz, slice. rewrite drop_ge by (unfold flen in *; lia).
  apply take_nil.
Qed.

(** C2 fails on the code: on the one-page heap, the RID of page 1 names no
    live row, and [delete] raises instead of returning [false]. *)
Lemma delete_beyond_last_page_raises :
  num_pages one_row_heap = 1 /\
  delete (mkRID 1 0) one_row_heap = (Raise StructError, one_row_heap).
Proof.
  split; [reflexivity|]. apply delete_beyond_file. vm_compute. discriminate.
Qed.

(** ** [read] and [iter_rids] *)

Lemma read_stored (sch : RowFmt.schema) (rid : RID) (blob : bytes) (f : heap) :
  stored f rid blob -> 1 <= flen blob ->
  read sch rid f
  = (match RowFmt.unpack_row blob sch with
     | Ok r => Ok (<["_rid"%string := RowFmt.VRid (page rid) (slot rid)]> r)
     | Raise e => Raise e
     | OutOfFuel => OutOfFuel
     end, f).
Proof.
  intros (Hp & ns & de & off & Hh & Hs & Hoff & Hsl & Hrd) Hb.
  unfold read.
  rewrite (bind_eq _ _ _ _ _ (read_hdr_run f (page rid) ns de ltac:(lia) Hh)). cbn [fst].
  rewrite (proj2 (Z.ltb_ge _ _)) by lia.
  rewrite (proj2 (Z.leb_gt _ _)) by lia. cbn [orb].
  assert (Hrs : _read_slot (page rid) (slot rid) f = (Ok (off, flen blob), f)).
  { rewrite read_slot_eq by lia. rewrite slot_at_eq in Hsl by lia.
    rewrite Hsl. reflexivity. }
  rewrite (bind_eq _ _ _ _ _ Hrs).
  rewrite (proj2 (Z.eqb_neq _ _)) by lia.
  rewrite (bind_eq _ _ f f blob).
  2:{ unfold peek, _base, PAGE_SIZE. rewrite file_read_rdz by lia.
      rewrite Hrd. reflexivity. }
  unfold bind, peek, ret. destruct (RowFmt.unpack_row blob sch); reflexivity.
Qed.




End HeapFacts.

(** ** Executor: a failed index update leaves the row in the heap *)

Module ExecutorFacts.
Import RowFmt RowFmtSpec Heap HeapSpec Executor ExecutorSpec.






End ExecutorFacts.

(** ** Sequential index: reading and writing entries *)

Module SeqFileFacts.
Import SeqFile SeqFileSpec.

(** What a write at position [i] does to the entries. *)
Lemma write_at_pos (i : nat) (e : SFEntry) (f : sfile) :
  write_at (HDR_SIZE + Z.of_nat i * ENTRY_SIZE) e f
  = if packable e
    then Ok {| hdr := hdr f;
               ents := if (i <? length (ents f))%nat then <[i := e]> (ents f)
                       else ents f ++ replicate (i - length (ents f))%nat zero_entry ++ [e] |}
    else Raise StructError.
Proof.
  unfold write_at, HDR_SIZE, ENTRY_SIZE.
  rewrite (proj2 (Z.ltb_ge _ _)) by lia.
  destruct (packable e); cbn [negb]; [|reflexivity].
  rewrite (proj2 (Z.ltb_ge _ _)) by lia.
  replace (12 + Z.of_nat i * 12 - 12) with (Z.of_nat i * 12) by lia.
  rewrite Z.div_mul by lia. rewrite Nat2Z.id. reflexivity.
Qed.

Lemma read_at_pos (i : nat) (f : sfile) :
  read_at (HDR_SIZE + Z.of_nat i * ENTRY_SIZE) f
  = match ents f !! i with Some e => Ok e | None => Raise StructError end.
Proof.
  unfold read_at, HDR_SIZE, ENTRY_SIZE.
  rewrite !(proj2 (Z.ltb_ge _ _)) by lia.
  replace (12 + Z.of_nat i * 12 - 12) with (Z.of_nat i * 12) by lia.
  rewrite Z.div_mul by lia. rewrite Nat2Z.id. reflexivity.
Qed.

Lemma entry_off_D (j m : Z) :
  1 <= j -> entry_off false j m = HDR_SIZE + Z.of_nat (Z.to_nat (j - 1)) * ENTRY_SIZE.
Proof. intros H. unfold entry_off, _off_d. rewrite Z2Nat.id by lia. reflexivity. Qed.

Lemma loc_ok (p : Z) :
  p <> 0 -> p <> DELETED ->
  loc p = Ok (if 0 <? p then (false, p) else (true, - p - 1)).
Proof.
  intros H0 H1. unfold loc, DELETED in *.
  rewrite (proj2 (Z.eqb_neq _ _) H0), (proj2 (Z.eqb_neq _ _) H1). reflexivity.
Qed.

Lemma entry_off_ptr (m p : Z) :
  0 <= m -> 1 <= p \/ p <= -2 ->
  entry_off (fst (if 0 <? p then (false, p) else (true, - p - 1)))
            (snd (if 0 <? p then (false, p) else (true, - p - 1))) m
  = HDR_SIZE + Z.of_nat (ptr_pos m p) * ENTRY_SIZE.
Proof.
  intros Hm Hp. unfold ptr_pos.
  destruct (Z.ltb_spec 0 p); cbn [fst snd entry_off]; unfold _off_d, _off_a, HDR_SIZE, ENTRY_SIZE;
    rewrite Z2Nat.id by lia; lia.
Qed.

Lemma valid_ptr_shape (m a p : Z) :
  0 <= a -> valid_ptr m a p -> (1 <= p \/ p <= -2) /\ p <> 0 /\ p <> DELETED.
Proof. unfold valid_ptr, DELETED. lia. Qed.

(** Reading the entry a pointer names. *)
Lemma read_D (j m : Z) (f : sfile) :
  1 <= j ->
  _read false j m f
  = (match ents f !! Z.to_nat (j - 1) with Some e => Ok e | None => Raise StructError end, f).
Proof.
  intros H. unfold _read, peek. rewrite entry_off_D by assumption.
  rewrite read_at_pos. reflexivity.
Qed.

Lemma read_ptr (m p : Z) (f : sfile) (k : bool * Z -> M sfile SFEntry) :
  0 <= m -> 1 <= p \/ p <= -2 ->
  (forall l, k l = _read (fst l) (snd l) m) ->
  bind (peek (fun _ => loc p)) k f
  = (match ents f !! ptr_pos m p with Some e => Ok e | None => Raise StructError end, f).
Proof.
  intros Hm Hp Hk. unfold bind, peek.
  rewrite loc_ok by (unfold DELETED; lia). rewrite Hk.
  unfold _read, peek. rewrite entry_off_ptr by assumption.
  rewrite read_at_pos. reflexivity.
Qed.

Lemma write_ptr_run (m p : Z) (e : SFEntry) (f : sfile) :
  0 <= m -> 1 <= p \/ p <= -2 ->
  _write (fst (if 0 <? p then (false, p) else (true, - p - 1)))
         (snd (if 0 <? p then (false, p) else (true, - p - 1))) e m f
  = if packable e
    then (Ok tt, {| hdr := hdr f; ents := put (ptr_pos m p) e (ents f) |})
    else (Raise StructError, f).
Proof.
  intros Hm Hp. unfold _write. rewrite entry_off_ptr by assumption.
  rewrite write_at_pos. destruct (packable e); reflexivity.
Qed.

Lemma write_A_run (m idx : Z) (e : SFEntry) (f : sfile) :
  0 <= m -> 1 <= idx ->
  _write true idx e m f
  = if packable e
    then (Ok tt, {| hdr := hdr f; ents := put (Z.to_nat (m + idx - 1)) e (ents f) |})
    else (Raise StructError, f).
Proof.
  intros Hm Hi. unfold _write, entry_off, _off_a.
  replace (HDR_SIZE + m * ENTRY_SIZE + (idx - 1) * ENTRY_SIZE)
    with (HDR_SIZE + Z.of_nat (Z.to_nat (m + idx - 1)) * ENTRY_SIZE)
    by (rewrite Z2Nat.id by lia; unfold HDR_SIZE, ENTRY_SIZE; lia).
  rewrite write_at_pos. destruct (packable e); reflexivity.
Qed.

Lemma lookup_put_eq (i : nat) (e : SFEntry) (es : list SFEntry) :
  put i e es !! i = Some e.
Proof.
  unfold put. destruct (Nat.ltb_spec i (length es)).
  - apply list_lookup_insert_eq. assumption.
  - rewrite lookup_app_r by lia.
    rewrite lookup_app_r by (rewrite length_replicate; lia).
    rewrite length_replicate.
    replace (i - length es - (i - length es))%nat with 0%nat by lia. reflexivity.
Qed.

Lemma lookup_put_ne (i j : nat) (e : SFEntry) (es : list SFEntry) :
  i <> j -> (j < length es)%nat -> put i e es !! j = es !! j.
Proof.
  intros Hne Hj. unfold put. destruct (Nat.ltb_spec i (length es)).
  - apply list_lookup_insert_ne. assumption.
  - apply lookup_app_l. assumption.
Qed.

Lemma length_put (i : nat) (e : SFEntry) (es : list SFEntry) :
  length (put i e es) = Nat.max (length es) (S i).
Proof.
  unfold put. destruct (Nat.ltb_spec i (length es)).
  - rewrite length_insert. lia.
  - rewrite !length_app, length_replicate. cbn [length]. lia.
Qed.

Lemma put_id (i : nat) (e : SFEntry) (es : list SFEntry) :
  es !! i = Some e -> put i e es = es.
Proof.
  intros H. unfold put.
  rewrite (proj2 (Nat.ltb_lt _ _)) by (eapply lookup_lt_Some; eauto).
  apply list_insert_id. assumption.
Qed.

(** ** Pointers and positions *)

Lemma ptr_pos_D (m p : Z) : 1 <= p -> ptr_pos m p = Z.to_nat (p - 1).
Proof. intros H. unfold ptr_pos. rewrite (proj2 (Z.ltb_lt _ _)) by lia. reflexivity. Qed.

Lemma ptr_pos_A (m p : Z) : p <= -2 -> ptr_pos m p = Z.to_nat (m - p - 2).
Proof. intros H. unfold ptr_pos. rewrite (proj2 (Z.ltb_ge _ _)) by lia. reflexivity. Qed.

Lemma ptr_pos_bound (m a p : Z) :
  0 <= m -> 0 <= a -> valid_ptr m a p -> Z.of_nat (ptr_pos m p) < m + a.
Proof.
  intros Hm Ha [H|H].
  - rewrite ptr_pos_D by lia. lia.
  - rewrite ptr_pos_A by lia. lia.
Qed.

Lemma ptr_pos_inj (m a p q : Z) :
  0 <= m -> 0 <= a -> valid_ptr m a p -> valid_ptr m a q ->
  ptr_pos m p = ptr_pos m q -> p = q.
Proof.
  intros Hm Ha [Hp|Hp] [Hq|Hq] E.
  - rewrite (ptr_pos_D m p), (ptr_pos_D m q) in E by lia. lia.
  - rewrite (ptr_pos_D m p), (ptr_pos_A m q) in E by lia. lia.
  - rewrite (ptr_pos_A m p), (ptr_pos_D m q) in E by lia. lia.
  - rewrite (ptr_pos_A m p), (ptr_pos_A m q) in E by lia. lia.
Qed.

Lemma valid_ptr_mono (m a a' p : Z) :
  a <= a' -> valid_ptr m a p -> valid_ptr m a' p.
Proof. unfold valid_ptr. lia. Qed.

(** Every counted position has its pointer. *)
Lemma pos_has_ptr (m a : Z) (i : nat) :
  0 <= m -> 0 <= a -> Z.of_nat i < m + a ->
  exists p, valid_ptr m a p /\ ptr_pos m p = i.
Proof.
  intros Hm Ha Hi. destruct (Z.lt_ge_cases (Z.of_nat i) m).
  - exists (Z.of_nat i + 1). split; [left; lia|]. rewrite ptr_pos_D by lia. lia.
  - exists (m - Z.of_nat i - 2). split; [right; lia|]. rewrite ptr_pos_A by lia. lia.
Qed.

End SeqFileFacts.

(** ** Sequential index: stretches of the logical list *)

Module SegFacts.
Import SeqFile SeqFileSpec SeqFileFacts.

Lemma seg_head (m a : Z) (es : list SFEntry) (p x q : Z) (l : list Z) :
  seg m a es p (x :: l) q -> p = x.
Proof. intros H. inversion H; reflexivity. Qed.

Lemma seg_start (m a : Z) (es : list SFEntry) (p q : Z) (l : list Z) :
  seg m a es p l q -> p = head_or l q.
Proof. intros H. destruct H; reflexivity. Qed.

Lemma seg_nil_inv (m a : Z) (es : list SFEntry) (p q : Z) :
  seg m a es p [] q -> p = q.
Proof. intros H. inversion H; reflexivity. Qed.

Lemma seg_app (m a : Z) (es : list SFEntry) (l1 l2 : list Z) :
  forall p q,
    seg m a es p (l1 ++ l2) q <->
    exists r, seg m a es p l1 r /\ seg m a es r l2 q.
Proof.
  induction l1 as [|x l1 IH]; intros p q; cbn [app].
  - split.
    + intros H. exists p. split; [constructor | exact H].
    + intros (r & H1 & H2). apply seg_nil_inv in H1. subst. exact H2.
  - split.
    + intros H. inversion H; subst.
      match goal with
      | H' : seg _ _ _ _ (l1 ++ l2) _ |- _ =>
          destruct (proj1 (IH _ _) H') as (r & Hl1 & Hl2)
      end.
      exists r. split; [econstructor; eauto | exact Hl2].
    + intros (r & H1 & H2). inversion H1; subst.
      econstructor; eauto. apply IH. eauto.
Qed.

Lemma seg_valid (m a : Z) (es : list SFEntry) (p q : Z) (l : list Z) :
  seg m a es p l q -> forall x, x ∈ l -> live m a es x.
Proof.
  induction 1 as [|p e l q Hv He Hn _ IH]; intros x Hx.
  - inversion Hx.
  - apply elem_of_cons in Hx as [->|Hx]; [|auto].
    split; [exact Hv | eauto].
Qed.

Lemma seg_frame (m a a' : Z) (es es' : list SFEntry) (p q : Z) (l : list Z) :
  seg m a es p l q ->
  a <= a' ->
  (forall x, x ∈ l -> es' !! ptr_pos m x = es !! ptr_pos m x) ->
  seg m a' es' p l q.
Proof.
  induction 1 as [|p e l q Hv He Hn _ IH]; intros Ha Hsame.
  - constructor.
  - econstructor.
    + eapply valid_ptr_mono; eauto.
    + rewrite Hsame by left. exact He.
    + exact Hn.
    + apply IH; [exact Ha|]. intros x Hx. apply Hsame. right. exact Hx.
Qed.

(** Redirecting the last entry of a stretch. *)
Lemma seg_set_last (m a : Z) (es : list SFEntry) (l : list Z) (x q q' : Z)
    (ex : SFEntry) :
  forall p,
    0 <= m -> 0 <= a ->
    seg m a es p (l ++ [x]) q ->
    x ∉ l ->
    es !! ptr_pos m x = Some ex ->
    q' <> DELETED ->
    seg m a (put (ptr_pos m x) (set_next ex q') es) p (l ++ [x]) q'.
Proof.
  intros p Hm Ha Hseg Hnin Hex Hq'.
  apply seg_app in Hseg as (r & H1 & H2).
  apply seg_app. exists r. split.
  - eapply seg_frame; [exact H1 | lia |].
    intros y Hy. destruct (seg_valid _ _ _ _ _ _ H1 y Hy) as [Hvy (ey & Hey & _)].
    apply lookup_put_ne; [|eapply lookup_lt_Some; eauto].
    intros E. inversion H2; subst.
    assert (x = y) by (apply (ptr_pos_inj m a x y); assumption).
    subst. contradiction.
  - inversion H2; subst.
    match goal with H : seg _ _ _ _ [] _ |- _ => apply seg_nil_inv in H end.
    econstructor; [eassumption | apply lookup_put_eq | exact Hq' | ].
    cbn [set_next next_ptr]. constructor.
Qed.

(** The keys along a stretch after the entries moved or changed nothing but
    their [next_ptr]. *)
Lemma key_at_frame (m : Z) (es es' : list SFEntry) (l : list Z) :
  (forall x, x ∈ l -> key_at m es' x = key_at m es x) ->
  map (key_at m es') l = map (key_at m es) l.
Proof.
  intros H. apply map_ext_in. intros x Hx. apply H. apply list_elem_of_In. exact Hx.
Qed.

Lemma key_at_put_ne (m : Z) (es : list SFEntry) (i : nat) (e : SFEntry) (x : Z) :
  ptr_pos m x <> i -> (ptr_pos m x < length es)%nat ->
  key_at m (put i e es) x = key_at m es x.
Proof.
  intros Hne Hlt. unfold key_at. rewrite lookup_put_ne by (auto; lia). reflexivity.
Qed.

Lemma key_at_put_next (m : Z) (es : list SFEntry) (y x n : Z) (ey : SFEntry) :
  es !! ptr_pos m y = Some ey ->
  (ptr_pos m x < length es)%nat ->
  key_at m (put (ptr_pos m y) (set_next ey n) es) x = key_at m es x.
Proof.
  intros Hey Hlt. unfold key_at.
  destruct (Nat.eq_dec (ptr_pos m x) (ptr_pos m y)) as [E|NE].
  - rewrite E, lookup_put_eq, Hey. reflexivity.
  - rewrite lookup_put_ne by (auto; lia). reflexivity.
Qed.

End SegFacts.

(** ** Sequential index: the search loops *)

Module LoopFacts.
Import SeqFile SeqFileSpec SeqFileFacts SegFacts.

Lemma hdr_get_run (f : sfile) : _hdr_get f = (Ok (hdr f), f).
Proof. reflexivity. Qed.

(** [_lb] only reads; the index it returns has a key [>= k] (or is [m + 1])
    and the one before it a key [< k] (or there is none). *)
Lemma lb_loop_spec (k m : Z) (n : nat) :
  forall l r ans f res f',
    lb_loop n k m l r ans f = (Ok res, f') ->
    1 <= l <= r + 1 -> r <= m -> ans = r + 1 ->
    (l = 1 \/ exists e, ents f !! Z.to_nat (l - 2) = Some e /\ key e < k) ->
    (ans = m + 1 \/ exists e, ents f !! Z.to_nat (ans - 1) = Some e /\ k <= key e) ->
    f' = f /\ 1 <= res <= m + 1 /\
    (res = 1 \/ exists e, ents f !! Z.to_nat (res - 2) = Some e /\ key e < k) /\
    (res = m + 1 \/ exists e, ents f !! Z.to_nat (res - 1) = Some e /\ k <= key e).
Proof.
  induction n as [|n IH]; intros l r ans f res f' H Hl Hr Hans Hlo Hhi.
  - cbn [lb_loop] in H. destruct (Z.leb_spec l r); [discriminate|].
    inversion H; subst. assert (l = r + 1) by lia. subst l.
    repeat split; try lia; assumption.
  - cbn [lb_loop] in H. destruct (Z.leb_spec l r) as [Hle|Hgt].
    + pose proof (Z.div_mod (l + r) 2 ltac:(lia)) as Hdm.
      pose proof (Z.mod_pos_bound (l + r) 2 ltac:(lia)) as Hmb.
      set (mid := (l + r) / 2) in *.
      assert (Hmid : l <= mid <= r) by lia.
      unfold bind in H. rewrite read_D in H by lia.
      destruct (ents f !! Z.to_nat (mid - 1)) as [e|] eqn:Ee; [|discriminate].
      destruct (Z.leb_spec k (key e)) as [Hk|Hk].
      * eapply IH in H; eauto; try lia.
        all: right; exists e; split; [exact Ee | exact Hk].
      * eapply IH in H; eauto; try lia.
        all: right; exists e; replace (mid + 1 - 2) with (mid - 1) by lia;
          split; [exact Ee | exact Hk].
    + inversion H; subst. assert (l = r + 1) by lia. subst l.
      repeat split; try lia; assumption.
Qed.

Lemma lb_spec (k : Z) (f f' : sfile) (res : Z) :
  _lb k f = (Ok res, f') ->
  0 <= main_count f ->
  f' = f /\ 1 <= res <= main_count f + 1 /\
  (res = 1 \/ exists e, ents f !! Z.to_nat (res - 2) = Some e /\ key e < k) /\
  (res = main_count f + 1
   \/ exists e, ents f !! Z.to_nat (res - 1) = Some e /\ k <= key e).
Proof.
  intros H Hm. unfold _lb in H. rewrite (bind_eq _ _ _ _ _ (hdr_get_run f)) in H.
  unfold main_count in *. destruct (hdr f) as [[m a] h]. cbn [fst] in *.
  eapply lb_loop_spec in H; eauto; try lia.
Qed.

(** Stepping back over tombstones only reads, and stops on a live entry of D
    or below index 1. *)
Lemma back_loop_spec (m : Z) (n : nat) :
  forall j f j' dj f',
    back_loop n j m f = (Ok (j', dj), f') ->
    f' = f /\ j' <= j /\
    ((1 <= j' /\ exists e, dj = Some e /\ ents f !! Z.to_nat (j' - 1) = Some e
                           /\ next_ptr e <> DELETED)
     \/ (j' < 1 /\ dj = None)).
Proof.
  induction n as [|n IH]; intros j f j' dj f' H.
  - cbn [back_loop] in H. destruct (Z.leb_spec 1 j); [discriminate|].
    inversion H; subst. split; [reflexivity|]. split; [lia|]. right. split; [lia | reflexivity].
  - cbn [back_loop] in H. destruct (Z.leb_spec 1 j) as [Hj|Hj].
    + unfold bind in H. rewrite read_D in H by lia.
      destruct (ents f !! Z.to_nat (j - 1)) as [e|] eqn:Ee; [|discriminate].
      unfold deleted in H. destruct (Z.eqb_spec (next_ptr e) DELETED) as [Hd|Hd];
        cbn [negb] in H.
      * apply IH in H as (-> & Hle & Hcase). split; [reflexivity|]. split; [lia | exact Hcase].
      * inversion H; subst. split; [reflexivity|]. split; [lia|].
        left. split; [lia|]. exists e. auto.
    + inversion H; subst. split; [reflexivity|]. split; [lia|]. right. split; [lia | reflexivity].
Qed.

Lemma last_nonempty (l : list Z) :
  forall y d d', List.last (y :: l) d = List.last (y :: l) d'.
Proof.
  induction l as [|z l IH]; intros y d d'; [reflexivity|].
  change (List.last (z :: l) d = List.last (z :: l) d'). apply IH.
Qed.

Lemma last_cons_default (x d : Z) (l : list Z) :
  last_or d (x :: l) = last_or x l.
Proof.
  unfold last_or. destruct l as [|y l]; [reflexivity|].
  change (List.last (y :: l) d = List.last (y :: l) x). apply last_nonempty.
Qed.

(** Step 5 of [insert] only reads: it walks past the entries with a smaller
    key and stops in front of the first one that has not. *)
Lemma insert_walk_spec (m a k : Z) (es : list SFEntry) (L : list Z) :
  forall cur, seg m a es cur L 0 ->
  forall fuel prev f res f',
    insert_walk fuel k m prev cur f = (Ok res, f') ->
    ents f = es -> 0 <= m -> 0 <= a ->
    f' = f /\
    exists La Lb,
      L = La ++ Lb /\
      (forall x, x ∈ La -> key_at m es x < k) /\
      fst res = last_or prev La /\
      snd res = head_or Lb 0 /\
      (forall x Lb', Lb = x :: Lb' -> k <= key_at m es x).
Proof.
  intros cur Hseg. remember 0 as q eqn:Hq0.
  induction Hseg as [q|p e l q Hv He Hn Hseg IH];
    intros fuel prev f res f' H Hes Hm Ha; subst q.
  - destruct fuel; cbn [insert_walk] in H; change (is_end 0) with true in H;
      cbv iota in H; inversion H; subst; (split; [reflexivity|]);
      exists [], []; repeat split; try reflexivity;
      try (intros x Hx; inversion Hx); intros; discriminate.
  - destruct (valid_ptr_shape m a p Ha Hv) as (Hshape & Hp0 & Hp1).
    destruct fuel as [|fuel]; cbn [insert_walk] in H; unfold is_end in H;
      rewrite (proj2 (Z.eqb_neq _ _) Hp0) in H; [discriminate|].
    rewrite (bind_eq _ _ f f (if 0 <? p then (false, p) else (true, - p - 1))) in H
      by (unfold peek; rewrite loc_ok by assumption; reflexivity).
    rewrite (bind_eq _ _ f f e) in H.
    2:{ unfold _read, peek. rewrite entry_off_ptr by assumption.
        rewrite read_at_pos, Hes, He. reflexivity. }
    unfold deleted in H. rewrite (proj2 (Z.eqb_neq _ _) Hn) in H.
    assert (Hkey : key_at m es p = key e) by (unfold key_at; rewrite He; reflexivity).
    destruct (Z.ltb_spec (key e) k) as [Hlt|Hge].
    + destruct (IH eq_refl _ _ _ _ _ H Hes Hm Ha)
        as (-> & La & Lb & -> & Hsmall & Hprev & Hcur & Hbig).
      split; [reflexivity|]. exists (p :: La), Lb.
      split; [reflexivity|]. split.
      { intros x Hx. apply elem_of_cons in Hx as [->|Hx]; [lia | auto]. }
      split; [rewrite last_cons_default; exact Hprev|].
      split; assumption.
    + inversion H; subst. split; [reflexivity|]. exists [], (p :: l).
      split; [reflexivity|]. split; [intros x Hx; inversion Hx|].
      split; [reflexivity|]. split; [reflexivity|].
      intros x Lb' E. inversion E; subst. lia.
Qed.

(** *** The loops return *)

(** Every round of the binary search at least halves the interval. *)
Lemma lb_loop_total (k m : Z) (f : sfile) (n : nat) :
  forall l r ans,
    1 <= l -> r <= m -> m <= Z.of_nat (length (ents f)) ->
    r - l + 1 <= Z.of_nat n ->
    exists res, lb_loop n k m l r ans f = (Ok res, f).
Proof.
  induction n as [|n IH]; intros l r ans Hl Hr Hm Hn.
  - cbn [lb_loop]. destruct (Z.leb_spec l r); [lia|]. eexists. reflexivity.
  - cbn [lb_loop]. destruct (Z.leb_spec l r) as [Hle|Hgt]; [|eexists; reflexivity].
    pose proof (Z.div_mod (l + r) 2 ltac:(lia)) as Hdm.
    pose proof (Z.mod_pos_bound (l + r) 2 ltac:(lia)) as Hmb.
    set (mid := (l + r) / 2) in *.
    assert (Hmid : l <= mid <= r) by lia.
    unfold bind. rewrite read_D by lia.
    destruct (lookup_lt_is_Some_2 (ents f) (Z.to_nat (mid - 1)) ltac:(lia)) as [e He].
    rewrite He. destruct (k <=? key e); apply IH; lia.
Qed.

Lemma lb_total (k : Z) (f : sfile) :
  0 <= main_count f -> main_count f <= Z.of_nat (length (ents f)) ->
  exists res, _lb k f = (Ok res, f).
Proof.
  intros H0 Hm. unfold _lb. rewrite (bind_eq _ _ _ _ _ (hdr_get_run f)).
  unfold main_count in *. destruct (hdr f) as [[m a] h]. cbn [fst] in *.
  apply lb_loop_total; lia.
Qed.

Lemma back_loop_total (m : Z) (f : sfile) (n : nat) :
  forall j,
    j <= Z.of_nat n -> j <= m -> m <= Z.of_nat (length (ents f)) ->
    exists res, back_loop n j m f = (Ok res, f).
Proof.
  induction n as [|n IH]; intros j Hn Hj Hm.
  - cbn [back_loop]. destruct (Z.leb_spec 1 j); [lia|]. eexists. reflexivity.
  - cbn [back_loop]. destruct (Z.leb_spec 1 j) as [H1|H1]; [|eexists; reflexivity].
    unfold bind. rewrite read_D by lia.
    destruct (lookup_lt_is_Some_2 (ents f) (Z.to_nat (j - 1)) ltac:(lia)) as [e He].
    rewrite He. destruct (negb (deleted e)); [eexists; reflexivity|].
    apply IH; lia.
Qed.

Lemma live_pred_total (lb m : Z) (f : sfile) :
  m <= Z.of_nat (length (ents f)) ->
  exists res, live_pred lb m f = (Ok res, f).
Proof. intros Hm. unfold live_pred. apply back_loop_total; lia. Qed.

(** One unit of fuel for every entry of the list is enough for step 5. *)
Lemma insert_walk_total (m a k : Z) (es : list SFEntry) (L : list Z) :
  forall cur, seg m a es cur L 0 ->
  forall fuel prev f,
    ents f = es -> 0 <= m -> 0 <= a -> (length L <= fuel)%nat ->
    exists res, insert_walk fuel k m prev cur f = (Ok res, f).
Proof.
  intros cur Hseg. remember 0 as q eqn:Hq0.
  induction Hseg as [q|p e l q Hv He Hn Hseg IH];
    intros fuel prev f Hes Hm Ha Hfuel; subst q.
  - destruct fuel; cbn [insert_walk]; change (is_end 0) with true;
      cbv iota; eexists; reflexivity.
  - destruct (valid_ptr_shape m a p Ha Hv) as (Hshape & Hp0 & Hp1).
    destruct fuel as [|fuel]; [cbn [length] in Hfuel; lia|].
    cbn [insert_walk]. unfold is_end. rewrite (proj2 (Z.eqb_neq _ _) Hp0).
    rewrite (bind_eq _ _ f f (if 0 <? p then (false, p) else (true, - p - 1)))
      by (unfold peek; rewrite loc_ok by assumption; reflexivity).
    rewrite (bind_eq _ _ f f e).
    2:{ unfold _read, peek. rewrite entry_off_ptr by assumption.
        rewrite read_at_pos, Hes, He. reflexivity. }
    unfold deleted. rewrite (proj2 (Z.eqb_neq _ _) Hn).
    destruct (key e <? k); [|eexists; reflexivity].
    apply IH; auto. cbn [length] in Hfuel. lia.
Qed.

End LoopFacts.

(** ** Sequential index: linking a new entry keeps the invariant *)

Module LinkFacts.
Import SeqFile SeqFileSpec SeqFileFacts SegFacts LoopFacts.

Lemma valid_succ (m a p : Z) :
  0 <= a -> valid_ptr m (a + 1) p <-> valid_ptr m a p \/ p = - (a + 2).
Proof. unfold valid_ptr. lia. Qed.

Lemma newp_pos (m a : Z) :
  0 <= m -> 0 <= a -> ptr_pos m (- (a + 2)) = Z.to_nat (m + a).
Proof. intros Hm Ha. rewrite ptr_pos_A by lia. f_equal. lia. Qed.

Lemma newp_fresh (m a : Z) : 0 <= a -> ~ valid_ptr m a (- (a + 2)).
Proof. unfold valid_ptr. lia. Qed.

(** Inserting a key between the smaller ones and the others keeps the order. *)
Lemma sorted_insert_mid (K1 K2 : list Z) (k : Z) :
  StronglySorted Z.le (K1 ++ K2) ->
  (forall y, y ∈ K1 -> y < k) ->
  (forall y K2', K2 = y :: K2' -> k <= y) ->
  StronglySorted Z.le (K1 ++ k :: K2).
Proof.
  intros HS H1 H2.
  apply StronglySorted_app in HS as (Hx & HS1 & HS2).
  apply StronglySorted_app. split; [|split; [exact HS1|]].
  - intros x1 x2 Hx1 Hx2. apply elem_of_cons in Hx2 as [->|Hx2].
    + specialize (H1 x1 Hx1). lia.
    + apply Hx; assumption.
  - constructor; [exact HS2|].
    destruct K2 as [|y K2']; [constructor|].
    specialize (H2 y K2' eq_refl).
    apply StronglySorted_inv in HS2 as [_ Hall].
    constructor; [exact H2|].
    eapply Forall_impl; [exact Hall|]. intros z Hz. cbn in Hz. lia.
Qed.

Lemma sorted_remove_mid (K1 K2 : list Z) (k : Z) :
  StronglySorted Z.le (K1 ++ k :: K2) -> StronglySorted Z.le (K1 ++ K2).
Proof.
  intros HS. apply StronglySorted_app in HS as (Hx & HS1 & HS2).
  apply StronglySorted_inv in HS2 as [HS2 _].
  apply StronglySorted_app. split; [|split; [exact HS1 | exact HS2]].
  intros x1 x2 Hx1 Hx2. apply Hx; [exact Hx1 | right; exact Hx2].
Qed.

Section Link.
Variables (m a h : Z) (es : list SFEntry) (l : list Z).
Hypothesis Hm : 0 <= m.
Hypothesis Ha : 0 <= a.
Hypothesis Hlen : m + a <= Z.of_nat (length es).
Hypothesis Hdsort :
  forall i j e1 e2, (i <= j)%nat -> Z.of_nat j < m ->
                    es !! i = Some e1 -> es !! j = Some e2 -> key e1 <= key e2.
Hypothesis Hstor :
  forall i e, Z.of_nat i < m + a -> es !! i = Some e -> storable e.
Hypothesis Hseg : seg m a es h l 0.
Hypothesis Hnd : NoDup l.
Hypothesis Hcov : forall p, live m a es p -> p ∈ l.
Hypothesis Hsort : StronglySorted Z.le (map (key_at m es) l).

Variables (e : SFEntry) (L1 L2 : list Z).
Hypothesis Hsplit : l = L1 ++ L2.
Hypothesis Hsmall : forall x, x ∈ L1 -> key_at m es x < key e.
Hypothesis Hbig : forall x L2', L2 = x :: L2' -> key e <= key_at m es x.
Hypothesis Hestor : storable e.

Let newp : Z := - (a + 2).
Let cur : Z := head_or L2 0.
Let es2 : list SFEntry := put (Z.to_nat (m + a)) (set_next e cur) es.

Lemma link_valid (x : Z) : x ∈ l -> valid_ptr m a x.
Proof. intros Hx. apply (seg_valid _ _ _ _ _ _ Hseg x Hx). Qed.

Lemma link_pos_lt (x : Z) : x ∈ l -> (ptr_pos m x < length es)%nat.
Proof.
  intros Hx. pose proof (ptr_pos_bound m a x Hm Ha (link_valid x Hx)). lia.
Qed.

Lemma link_es2_old (i : nat) : Z.of_nat i < m + a -> es2 !! i = es !! i.
Proof. intros Hi. unfold es2. apply lookup_put_ne; lia. Qed.

Lemma link_es2_new : es2 !! ptr_pos m newp = Some (set_next e cur).
Proof. unfold newp. rewrite newp_pos by assumption. apply lookup_put_eq. Qed.

Lemma link_cur_ok : cur <> DELETED.
Proof.
  unfold cur, DELETED. destruct L2 as [|x L2']; cbn [head_or]; [lia|].
  assert (Hx : x ∈ l) by (rewrite Hsplit; apply elem_of_app; right; left).
  pose proof (link_valid x Hx) as Hv. unfold valid_ptr in Hv. lia.
Qed.

Lemma link_newp_notin : newp ∉ l.
Proof. intros Hin. apply (newp_fresh m a Ha). apply link_valid. exact Hin. Qed.

Lemma link_segs :
  seg m a es h L1 cur /\ seg m a es cur L2 0.
Proof.
  rewrite Hsplit in Hseg. apply seg_app in Hseg as (r & H1 & H2).
  pose proof (seg_start _ _ _ _ _ _ H2) as Hr. fold cur in Hr. subst r. auto.
Qed.

Lemma link_len2 : m + (a + 1) <= Z.of_nat (length es2).
Proof. unfold es2. rewrite length_put. lia. Qed.

(** The new entry becomes the head. *)
Lemma link_front : L1 = [] -> inv m (a + 1) newp es2.
Proof.
  intros HL1.
  assert (Hl : l = L2) by (rewrite Hsplit, HL1; reflexivity).
  destruct link_segs as [H1 H2].
  unfold inv. split; [exact Hm|]. split; [lia|]. split; [apply link_len2|].
  split; [|split].
  - intros i j e1 e2 Hij Hj He1 He2.
    rewrite link_es2_old in He1, He2 by lia. eauto.
  - intros i e0 Hi He0.
    destruct (Z.eq_dec (Z.of_nat i) (m + a)) as [E|NE].
    + replace i with (Z.to_nat (m + a)) in He0 by lia.
      unfold es2 in He0. rewrite lookup_put_eq in He0. inversion He0; subst.
      exact Hestor.
    + rewrite link_es2_old in He0 by lia. eapply Hstor; [|exact He0]. lia.
  - exists (newp :: L2). split; [|split; [|split]].
    + econstructor.
      * apply valid_succ; [exact Ha | right; reflexivity].
      * apply link_es2_new.
      * cbn [set_next next_ptr]. apply link_cur_ok.
      * cbn [set_next next_ptr]. eapply seg_frame; [exact H2 | lia |].
        intros x Hx. apply link_es2_old.
        apply ptr_pos_bound; auto. apply link_valid. rewrite Hl. exact Hx.
    + apply NoDup_cons. split.
      * rewrite <- Hl. apply link_newp_notin.
      * rewrite <- Hl. exact Hnd.
    + intros p [Hv (e0 & He0 & Hn0)].
      apply valid_succ in Hv as [Hv|Hv]; [|subst p; left | exact Ha].
      right. rewrite <- Hl. apply Hcov. split; [exact Hv|].
      exists e0. split; [|exact Hn0].
      rewrite <- link_es2_old by (apply ptr_pos_bound; auto). exact He0.
    + cbn [map].
      replace (key_at m es2 newp) with (key e)
        by (unfold key_at; rewrite link_es2_new; reflexivity).
      replace (map (key_at m es2) L2) with (map (key_at m es) L2).
      2:{ symmetry. apply key_at_frame. intros x Hx. unfold key_at.
          rewrite link_es2_old; [reflexivity|].
          apply ptr_pos_bound; auto. apply link_valid. rewrite Hl. exact Hx. }
      apply (sorted_insert_mid [] (map (key_at m es) L2) (key e)).
      * cbn [app]. rewrite <- Hl. exact Hsort.
      * intros y Hy. inversion Hy.
      * intros y K2' E. destruct L2 as [|x l']; [discriminate|].
        cbn [map] in E. inversion E; subst. eapply Hbig. reflexivity.
Qed.

(** The new entry goes behind [x], the last entry with a smaller key. *)
Lemma link_after (L1' : list Z) (x : Z) (ex : SFEntry) :
  L1 = L1' ++ [x] ->
  es2 !! ptr_pos m x = Some ex ->
  inv m (a + 1) h (put (ptr_pos m x) (set_next ex newp) es2).
Proof.
  intros HL1 Hex. set (es3 := put (ptr_pos m x) (set_next ex newp) es2).
  destruct link_segs as [H1 H2].
  assert (Hxl : x ∈ l).
  { rewrite Hsplit, HL1. apply elem_of_app. left. apply elem_of_app. right. left. }
  pose proof (link_valid x Hxl) as Hvx.
  pose proof (ptr_pos_bound m a x Hm Ha Hvx) as Hpx.
  assert (Hex0 : es !! ptr_pos m x = Some ex)
    by (rewrite <- link_es2_old by exact Hpx; exact Hex).
  assert (Hlen2 := link_len2).
  assert (Hlt2 : forall i, Z.of_nat i < m + (a + 1) -> (i < length es2)%nat) by (intros; lia).
  (* what the entries of [es3] are *)
  assert (Hes3_x : es3 !! ptr_pos m x = Some (set_next ex newp))
    by (apply lookup_put_eq).
  assert (Hes3_other : forall i, i <> ptr_pos m x -> Z.of_nat i < m + (a + 1) ->
                                 es3 !! i = es2 !! i).
  { intros i Hi Hb. unfold es3. apply lookup_put_ne; [congruence | auto]. }
  assert (Hes3_old : forall y, y ∈ l -> y <> x -> es3 !! ptr_pos m y = es !! ptr_pos m y).
  { intros y Hy Hne. pose proof (link_valid y Hy) as Hvy.
    pose proof (ptr_pos_bound m a y Hm Ha Hvy).
    rewrite Hes3_other, link_es2_old; [reflexivity | lia | | lia].
    intros E. apply Hne. apply (ptr_pos_inj m a y x); assumption. }
  assert (Hes3_key : forall i e3, Z.of_nat i < m + a -> es3 !! i = Some e3 ->
             exists e0, es !! i = Some e0 /\ key e3 = key e0 /\ rid e3 = rid e0
                        /\ (next_ptr e3 <> DELETED -> i <> ptr_pos m x ->
                            next_ptr e0 <> DELETED)).
  { intros i e3 Hi He3. destruct (Nat.eq_dec i (ptr_pos m x)) as [->|NE].
    - rewrite Hes3_x in He3. inversion He3; subst. exists ex.
      split; [exact Hex0|]. cbn. repeat split; try reflexivity. congruence.
    - rewrite Hes3_other, link_es2_old in He3 by (auto; lia).
      exists e3. repeat split; auto. }
  assert (Hpn : ptr_pos m newp <> ptr_pos m x).
  { unfold newp. rewrite newp_pos by assumption. lia. }
  assert (Hes3_new : es3 !! ptr_pos m newp = Some (set_next e cur)).
  { rewrite Hes3_other; [apply link_es2_new | exact Hpn |].
    unfold newp. rewrite newp_pos by assumption. lia. }
  pose proof Hnd as Hnd'. rewrite Hsplit, HL1 in Hnd'.
  assert (Hx1 : x ∉ L1').
  { pose proof Hnd' as Hnd0. apply NoDup_app in Hnd0 as (Hnd1 & _ & _).
    apply NoDup_app in Hnd1 as (_ & Hd & _).
    intros Hin. apply (Hd x Hin). left. }
  assert (Hx2 : x ∉ L2).
  { pose proof Hnd' as Hnd0. apply NoDup_app in Hnd0 as (_ & Hd & _). apply Hd.
    apply elem_of_app. right. left. }
  unfold inv. split; [exact Hm|]. split; [lia|].
  split; [unfold es3; rewrite length_put; lia|].
  split; [|split].
  - intros i j e1 e2 Hij Hj He1 He2.
    destruct (Hes3_key i e1 ltac:(lia) He1) as (e1' & He1' & Hk1 & _).
    destruct (Hes3_key j e2 ltac:(lia) He2) as (e2' & He2' & Hk2 & _).
    rewrite Hk1, Hk2. eauto.
  - intros i e0 Hi He0.
    destruct (Z.eq_dec (Z.of_nat i) (m + a)) as [E|NE].
    + replace i with (ptr_pos m newp) in He0
        by (unfold newp; rewrite newp_pos by assumption; lia).
      rewrite Hes3_new in He0. inversion He0; subst. exact Hestor.
    + destruct (Hes3_key i e0 ltac:(lia) He0) as (e0' & He0' & Hk & Hr & _).
      pose proof (Hstor i e0' ltac:(lia) He0') as Hs.
      unfold storable in *. rewrite Hk, Hr. exact Hs.
  - exists ((L1' ++ [x]) ++ newp :: L2). split; [|split; [|split]].
    + apply seg_app. exists newp. split.
      * rewrite HL1 in H1.
        assert (H1' : seg m (a + 1) es2 h (L1' ++ [x]) cur).
        { eapply seg_frame; [exact H1 | lia |].
          intros y Hy. apply link_es2_old. apply ptr_pos_bound; auto.
          apply link_valid. rewrite Hsplit, HL1. apply elem_of_app. left. exact Hy. }
        apply (seg_set_last m (a + 1) es2 L1' x cur newp ex h);
          try assumption; try lia.
        unfold newp, DELETED. lia.
      * econstructor.
        -- apply valid_succ; [exact Ha | right; reflexivity].
        -- exact Hes3_new.
        -- cbn [set_next next_ptr]. apply link_cur_ok.
        -- cbn [set_next next_ptr]. eapply seg_frame; [exact H2 | lia |].
           intros y Hy. apply Hes3_old.
           ++ rewrite Hsplit. apply elem_of_app. right. exact Hy.
           ++ intros ->. contradiction.
    + apply NoDup_app in Hnd' as (Hnd1 & Hd & Hnd2).
      apply NoDup_app. split; [exact Hnd1|]. split.
      * intros y Hy Hin. apply elem_of_cons in Hin as [->|Hin].
        -- apply link_newp_notin. rewrite Hsplit, HL1. apply elem_of_app. left. exact Hy.
        -- apply (Hd y Hy Hin).
      * apply NoDup_cons. split; [|exact Hnd2].
        intros Hin. apply link_newp_notin. rewrite Hsplit. apply elem_of_app. right. exact Hin.
    + intros p [Hv (e0 & He0 & Hn0)].
      apply valid_succ in Hv as [Hv|Hv]; [| | exact Ha].
      * assert (Hpl : p ∈ l).
        { destruct (Z.eq_dec p x) as [->|Hne]; [exact Hxl|].
          apply Hcov. split; [exact Hv|].
          pose proof (ptr_pos_bound m a p Hm Ha Hv).
          destruct (Hes3_key (ptr_pos m p) e0 ltac:(lia) He0)
            as (e0' & He0' & _ & _ & Hlive).
          exists e0'. split; [exact He0'|]. apply Hlive; [exact Hn0|].
          intros E. apply Hne. apply (ptr_pos_inj m a p x); assumption. }
        rewrite Hsplit, HL1 in Hpl.
        apply elem_of_app in Hpl as [Hpl|Hpl]; apply elem_of_app;
          [left; exact Hpl | right; right; exact Hpl].
      * subst p. apply elem_of_app. right. left.
    + rewrite map_app. cbn [map].
      replace (key_at m es3 newp) with (key e)
        by (unfold key_at; rewrite Hes3_new; reflexivity).
      assert (Hkeys : forall y, y ∈ l -> key_at m es3 y = key_at m es y).
      { intros y Hy. pose proof (link_valid y Hy) as Hvy.
        pose proof (ptr_pos_bound m a y Hm Ha Hvy) as Hpy.
        unfold key_at. destruct (es3 !! ptr_pos m y) as [e3|] eqn:E3.
        - destruct (Hes3_key _ _ Hpy E3) as (e0' & -> & Hk & _). exact Hk.
        - exfalso. apply lookup_ge_None in E3. unfold es3 in E3.
          rewrite length_put in E3. lia. }
      rewrite (key_at_frame m es es3 (L1' ++ [x]))
        by (intros y Hy; apply Hkeys; rewrite Hsplit, HL1; apply elem_of_app; left; exact Hy).
      rewrite (key_at_frame m es es3 L2)
        by (intros y Hy; apply Hkeys; rewrite Hsplit; apply elem_of_app; right; exact Hy).
      apply sorted_insert_mid.
      * rewrite <- map_app, <- HL1, <- Hsplit. exact Hsort.
      * intros y Hy. apply list_elem_of_fmap in Hy as (z & -> & Hz).
        apply Hsmall. rewrite HL1. exact Hz.
      * intros y K2' E. destruct L2 as [|z L2']; [discriminate|].
        cbn [map] in E. inversion E; subst. eapply Hbig. reflexivity.
Qed.

End Link.

End LinkFacts.

(** ** Sequential index: [reorganize] *)

Module ReorgFacts.
Import SeqFile SeqFileSpec SeqFileFacts SegFacts LoopFacts LinkFacts.

Lemma seg_zero_nil (m a : Z) (es : list SFEntry) (l : list Z) :
  0 <= a -> seg m a es 0 l 0 -> l = [].
Proof.
  intros Ha H. inversion H; subst; [reflexivity|].
  match goal with Hv : valid_ptr _ _ 0 |- _ => unfold valid_ptr in Hv; lia end.
Qed.

Lemma seg_unique (m a : Z) (es : list SFEntry) (p : Z) (l : list Z) :
  0 <= a ->
  seg m a es p l 0 -> forall l', seg m a es p l' 0 -> l' = l.
Proof.
  intros Ha H. remember 0 as q eqn:Hq in H.
  induction H as [q|p e l q Hv He Hn Hseg IH]; intros l' H'; subst q.
  - eapply seg_zero_nil; eauto.
  - inversion H'; subst.
    + unfold valid_ptr in Hv. lia.
    + f_equal. apply IH; [reflexivity|].
      match goal with
      | H1 : es !! ptr_pos m p = Some ?e' |- _ =>
          assert (e' = e) by congruence; subst e'
      end.
      assumption.
Qed.

(** A list without repetition of positions below [n] has at most [n] of them. *)
Lemma chain_length (m a : Z) (es : list SFEntry) (p : Z) (l : list Z) :
  0 <= m -> 0 <= a ->
  seg m a es p l 0 -> NoDup l -> Z.of_nat (length l) <= m + a.
Proof.
  intros Hm Ha Hseg Hnd.
  assert (Hnd' : NoDup (ptr_pos m <$> l)).
  { apply NoDup_fmap_2_strong; [|exact Hnd].
    intros x y Hx Hy E.
    destruct (seg_valid _ _ _ _ _ _ Hseg x Hx) as [Hvx _].
    destruct (seg_valid _ _ _ _ _ _ Hseg y Hy) as [Hvy _].
    apply (ptr_pos_inj m a x y); assumption. }
  assert (Hincl : incl (ptr_pos m <$> l) (seq 0 (Z.to_nat (m + a)))).
  { intros i Hi. apply list_elem_of_In in Hi.
    apply list_elem_of_fmap in Hi as (x & -> & Hx).
    destruct (seg_valid _ _ _ _ _ _ Hseg x Hx) as [Hvx _].
    pose proof (ptr_pos_bound m a x Hm Ha Hvx).
    apply in_seq. lia. }
  pose proof (NoDup_incl_length (proj1 (NoDup_ListNoDup _) Hnd') Hincl) as Hle.
  rewrite length_fmap, length_seq in Hle. lia.
Qed.

(** The collecting loop of [reorganize] reads the entries of the list. *)
Lemma collect_spec (m a : Z) (es : list SFEntry) (L : list Z) :
  forall cur, seg m a es cur L 0 ->
  forall n out f,
    ents f = es -> 0 <= m -> 0 <= a -> (length L <= n)%nat ->
    collect n cur m out f = (Ok (out ++ map (entry_at m es) L), f).
Proof.
  intros cur Hseg. remember 0 as q eqn:Hq.
  induction Hseg as [q|p e l q Hv He Hn Hseg IH]; intros n out f Hes Hm Ha Hlen; subst q.
  - destruct n; cbn [collect map]; change (is_end 0) with true; cbv iota;
      rewrite app_nil_r; reflexivity.
  - destruct (valid_ptr_shape m a p Ha Hv) as (Hshape & Hp0 & Hp1).
    destruct n as [|n]; [cbn [length] in Hlen; lia|].
    cbn [collect]. unfold is_end. rewrite (proj2 (Z.eqb_neq _ _) Hp0).
    rewrite (bind_eq _ _ f f (if 0 <? p then (false, p) else (true, - p - 1)))
      by (unfold peek; rewrite loc_ok by assumption; reflexivity).
    rewrite (bind_eq _ _ f f e).
    2:{ unfold _read, peek. rewrite entry_off_ptr by assumption.
        rewrite read_at_pos, Hes, He. reflexivity. }
    unfold deleted. rewrite (proj2 (Z.eqb_neq _ _) Hn).
    rewrite (IH eq_refl n (out ++ [e]) f Hes Hm Ha) by (cbn [length] in Hlen; lia).
    cbn [map]. unfold entry_at at 2. rewrite He. cbn [default].
    rewrite <- app_assoc. reflexivity.
Qed.

Lemma hdr_set_run (m a h : Z) (f : sfile) :
  fits_i32 m = true -> fits_i32 a = true -> fits_i32 h = true ->
  _hdr_set m a h f = (Ok tt, {| hdr := (m, a, h); ents := ents f |}).
Proof. intros H1 H2 H3. unfold _hdr_set. rewrite H1, H2, H3. reflexivity. Qed.

Lemma hdr_set_inv (m a h : Z) (f f' : sfile) :
  _hdr_set m a h f = (Ok tt, f') ->
  f' = {| hdr := (m, a, h); ents := ents f |}
  /\ fits_i32 m = true /\ fits_i32 a = true /\ fits_i32 h = true.
Proof.
  unfold _hdr_set. destruct (fits_i32 m), (fits_i32 a), (fits_i32 h);
    cbn [andb]; intros H; inversion H; auto.
Qed.

Lemma fits_i32_range (z : Z) :
  fits_i32 z = true <-> -2147483648 <= z <= 2147483647.
Proof. unfold fits_i32. rewrite andb_true_iff, !Z.leb_le. reflexivity. Qed.

Lemma storable_packable (e : SFEntry) (n : Z) :
  storable e -> fits_i32 n = true -> packable (set_next e n) = true.
Proof.
  intros (Hk & Hp & Hs) Hn. unfold packable. cbn [set_next key rid next_ptr].
  rewrite Hk, Hp, Hs, Hn. reflexivity.
Qed.

Lemma packable_storable (e : SFEntry) : packable e = true -> storable e.
Proof.
  unfold packable, storable. rewrite !andb_true_iff. tauto.
Qed.

Lemma length_relink (newm : Z) (out : list SFEntry) :
  forall i, length (relink newm i out) = length out.
Proof. induction out as [|e out IH]; intros i; cbn [relink length]; [|rewrite IH]; reflexivity. Qed.

(** The writing loop of [reorganize] lays the relinked entries down in D. *)
Lemma dump_spec (newm : Z) (out : list SFEntry) :
  forall i f,
    1 <= i ->
    (forall e, e ∈ out -> storable e) ->
    fits_i32 newm = true ->
    i - 1 + Z.of_nat (length out) <= newm ->
    (Z.to_nat (i - 1) + length out <= length (ents f))%nat ->
    dump i newm out f
    = (Ok tt, {| hdr := hdr f;
                 ents := take (Z.to_nat (i - 1)) (ents f) ++ relink newm i out
                         ++ drop (Z.to_nat (i - 1) + length out) (ents f) |}).
Proof.
  induction out as [|e out IH]; intros i f Hi Hst Hfit Hn Hlen.
  - cbn [dump relink length app]. rewrite Nat.add_0_r, take_drop.
    destruct f; reflexivity.
  - cbn [dump relink]. cbn [length] in Hn, Hlen.
    apply fits_i32_range in Hfit.
    set (nxt := if i <? newm then i + 1 else 0).
    assert (Hnxt : fits_i32 nxt = true).
    { apply fits_i32_range. unfold nxt. destruct (Z.ltb_spec i newm); lia. }
    rewrite (bind_eq _ _ f f nxt).
    2:{ unfold peek, nxt, dptr. destruct (Z.ltb_spec i newm); [|reflexivity].
        rewrite (proj2 (Z.ltb_ge _ _)) by lia. reflexivity. }
    set (pos := Z.to_nat (i - 1)).
    set (f1 := {| hdr := hdr f; ents := <[pos := set_next e nxt]> (ents f) |}).
    rewrite (bind_eq _ _ f f1 tt).
    2:{ unfold _write. rewrite entry_off_D by assumption. fold pos.
        rewrite write_at_pos.
        rewrite storable_packable by (auto; apply Hst; left).
        rewrite (proj2 (Nat.ltb_lt _ _)) by lia. reflexivity. }
    rewrite IH; try lia.
    + f_equal. unfold f1. cbn [hdr ents]. f_equal.
      replace (Z.to_nat (i + 1 - 1)) with (S pos) by lia.
      rewrite (take_S_r _ _ (set_next e nxt))
        by (apply list_lookup_insert_eq; lia).
      rewrite take_insert_ge by lia.
      rewrite drop_insert_lt by lia.
      rewrite <- app_assoc. cbn [app].
      replace (S pos + length out)%nat with (pos + S (length out))%nat by lia.
      reflexivity.
    + intros e' He'. apply Hst. right. exact He'.
    + apply fits_i32_range. exact Hfit.
    + unfold f1. cbn [ents]. rewrite length_insert. lia.
Qed.

Lemma lookup_relink (newm : Z) (out : list SFEntry) :
  forall i j,
    relink newm i out !! j
    = (fun e => set_next e (if i + Z.of_nat j <? newm then i + Z.of_nat j + 1 else 0))
        <$> out !! j.
Proof.
  induction out as [|e out IH]; intros i j; [reflexivity|].
  destruct j as [|j]; cbn [relink lookup list_lookup fmap option_fmap option_map].
  - rewrite Z.add_0_r. reflexivity.
  - change (relink newm (i + 1) out !! j = (fun e0 : SFEntry =>
              set_next e0 (if i + Z.of_nat (S j) <? newm then i + Z.of_nat (S j) + 1 else 0))
              <$> out !! j).
    rewrite IH. replace (i + 1 + Z.of_nat j) with (i + Z.of_nat (S j)) by lia.
    reflexivity.
Qed.

Lemma elem_of_dptrs (n : nat) :
  forall i x, x ∈ dptrs i n <-> i <= x < i + Z.of_nat n.
Proof.
  induction n as [|n IH]; intros i x; cbn [dptrs].
  - split; [intros H; inversion H | lia].
  - rewrite elem_of_cons, IH. lia.
Qed.

Lemma NoDup_dptrs (n : nat) : forall i, NoDup (dptrs i n).
Proof.
  induction n as [|n IH]; intros i; cbn [dptrs]; [constructor|].
  apply NoDup_cons. split; [|apply IH]. rewrite elem_of_dptrs. lia.
Qed.

Lemma length_dptrs (n : nat) : forall i, length (dptrs i n) = n.
Proof. induction n as [|n IH]; intros i; cbn [dptrs length]; [|rewrite IH]; reflexivity. Qed.

(** D laid down by [reorganize] is one stretch from its first entry to the end. *)
Lemma seg_dptrs (n : Z) (es : list SFEntry) (k : nat) :
  forall i,
    1 <= i -> i + Z.of_nat k = n ->
    (forall j, i <= j <= n -> exists e,
        es !! Z.to_nat (j - 1) = Some e /\ next_ptr e = if j <? n then j + 1 else 0) ->
    seg n 0 es i (dptrs i (S k)) 0.
Proof.
  induction k as [|k IH]; intros i Hi Hn Hent.
  - destruct (Hent i ltac:(lia)) as (e & He & Hnx).
    rewrite (proj2 (Z.ltb_ge _ _)) in Hnx by lia.
    cbn [dptrs]. econstructor.
    + left. lia.
    + rewrite ptr_pos_D by lia. exact He.
    + rewrite Hnx. unfold DELETED. lia.
    + rewrite Hnx. constructor.
  - destruct (Hent i ltac:(lia)) as (e & He & Hnx).
    rewrite (proj2 (Z.ltb_lt _ _)) in Hnx by lia.
    change (dptrs i (S (S k))) with (i :: dptrs (i + 1) (S k)). econstructor.
    + left. lia.
    + rewrite ptr_pos_D by lia. exact He.
    + rewrite Hnx. unfold DELETED. lia.
    + rewrite Hnx. apply IH; [lia | lia |].
      intros j Hj. apply Hent. lia.
Qed.

Lemma sorted_lookup (K : list Z) :
  StronglySorted Z.le K ->
  forall i j x y, (i <= j)%nat -> K !! i = Some x -> K !! j = Some y -> x <= y.
Proof.
  induction 1 as [|k K HS IH Hall]; intros i j x y Hij Hi Hj.
  - rewrite lookup_nil in Hi. discriminate.
  - destruct i as [|i], j as [|j]; cbn [lookup list_lookup] in Hi, Hj; try lia.
    + assert (x = y) by congruence. lia.
    + inversion Hi; subst. rewrite Forall_forall in Hall.
      apply Hall. eapply list_elem_of_lookup_2. exact Hj.
    + eapply IH; [|exact Hi | exact Hj]. lia.
Qed.

(** [reorganize], run on a file whose logical list is [l]. *)
Lemma reorganize_run (f : sfile) (l : list Z) :
  let m := main_count f in
  let a := aux_count f in
  let es := ents f in
  0 <= m -> 0 <= a -> m + a <= Z.of_nat (length es) ->
  (forall i e, Z.of_nat i < m + a -> es !! i = Some e -> storable e) ->
  seg m a es (head_ptr f) l 0 -> NoDup l ->
  fits_i32 (Z.of_nat (length l)) = true ->
  reorganize f = (Ok tt, compacted f (map (entry_at m es) l)).
Proof.
  unfold main_count, aux_count, head_ptr. destruct f as [[[m a] h] es].
  cbn [hdr ents fst snd]. intros Hm Ha Hlen Hstor Hseg Hnd Hfit.
  unfold reorganize.
  rewrite (bind_eq _ _ _ _ _ (hdr_get_run _)). cbn [hdr].
  destruct (Z.eqb_spec h 0) as [->|Hh].
  - apply seg_zero_nil in Hseg; [|exact Ha]. subst l.
    rewrite hdr_set_run by reflexivity. reflexivity.
  - pose proof (chain_length m a es h l Hm Ha Hseg Hnd) as Hcl.
    set (out := map (entry_at m es) l).
    assert (Hlo : length out = length l) by (unfold out; apply length_map).
    set (f := {| hdr := (m, a, h); ents := es |}).
    rewrite (bind_eq _ _ f f out).
    2:{ rewrite (collect_spec m a es l h Hseg) by (auto; lia). reflexivity. }
    rewrite Hlo.
    assert (Hsto : forall e, e ∈ out -> storable e).
    { intros e He. unfold out in He. apply list_elem_of_fmap in He as (x & -> & Hx).
      destruct (seg_valid _ _ _ _ _ _ Hseg x Hx) as [Hvx (ex & Hex & _)].
      unfold entry_at. rewrite Hex. cbn [default].
      eapply Hstor; [|exact Hex]. apply ptr_pos_bound; assumption. }
    assert (Hd := dump_spec (Z.of_nat (length l)) out 1 f).
    specialize (Hd ltac:(lia) Hsto Hfit ltac:(lia) ltac:(unfold f; cbn [ents]; lia)).
    rewrite (bind_eq _ _ _ _ _ Hd).
    unfold f. cbn [hdr ents]. change (Z.to_nat (1 - 1)) with 0%nat. cbn [take app Nat.add].
    rewrite (bind_peek _ _ _ (if 1 <=? Z.of_nat (length l) then 1 else 0))
      by (destruct (1 <=? Z.of_nat (length l)); reflexivity).
    rewrite hdr_set_run; [| exact Hfit | reflexivity |
                          destruct (1 <=? Z.of_nat (length l)); reflexivity].
    unfold compacted. rewrite Hlo. reflexivity.
Qed.

Lemma key_entry_at (m : Z) (es : list SFEntry) (x : Z) :
  key (entry_at m es x) = key_at m es x.
Proof. unfold entry_at, key_at. destruct (es !! ptr_pos m x); reflexivity. Qed.

Lemma map_key_dptrs (n m : Z) (es es' : list SFEntry) (l : list Z) :
  forall i,
    (forall j x, l !! j = Some x ->
                 key_at n es' (i + Z.of_nat j) = key_at m es x) ->
    map (key_at n es') (dptrs i (length l)) = map (key_at m es) l.
Proof.
  induction l as [|x l IH]; intros i H; [reflexivity|].
  cbn [length dptrs map]. f_equal.
  - rewrite <- (H 0%nat x eq_refl). f_equal. lia.
  - apply IH. intros j y Hj. rewrite <- (H (S j) y Hj). f_equal. lia.
Qed.

(** What [reorganize] leaves satisfies the invariant, with D itself as the
    logical list. *)
Lemma compacted_inv (f : sfile) (l : list Z) :
  let m := main_count f in
  let a := aux_count f in
  let es := ents f in
  let out := map (entry_at m es) l in
  let n := Z.of_nat (length l) in
  0 <= m -> 0 <= a -> m + a <= Z.of_nat (length es) ->
  (forall i e, Z.of_nat i < m + a -> es !! i = Some e -> storable e) ->
  chain_ok m a (head_ptr f) es l ->
  (forall i e, out !! i = Some e ->
     ents (compacted f out) !! i
     = Some (set_next e (if Z.of_nat i + 1 <? n then Z.of_nat i + 2 else 0))) /\
  inv n 0 (if 1 <=? n then 1 else 0) (ents (compacted f out)) /\
  chain_ok n 0 (if 1 <=? n then 1 else 0) (ents (compacted f out))
           (dptrs 1 (length l)).
Proof.
  intros m a es out n Hm Ha Hlen Hstor (Hseg & Hnd & Hcov & Hsort).
  pose proof (chain_length m a es _ l Hm Ha Hseg Hnd) as Hcl.
  assert (Hlo : length out = length l) by (unfold out; apply length_map).
  unfold compacted. cbn [ents]. rewrite Hlo. fold n.
  set (es' := relink n 1 out ++ drop (length l) es).
  assert (Hlook : forall j, (j < length l)%nat ->
            es' !! j = (fun e => set_next e (if 1 + Z.of_nat j <? n
                                             then 1 + Z.of_nat j + 1 else 0))
                         <$> out !! j).
  { intros j Hj. unfold es'.
    rewrite lookup_app_l by (rewrite length_relink; lia).
    apply lookup_relink. }
  assert (Hout : forall j x, l !! j = Some x ->
            out !! j = Some (entry_at m es x)).
  { intros j x Hj. unfold out.
    change (map (entry_at m es) l) with (entry_at m es <$> l).
    rewrite list_lookup_fmap, Hj. reflexivity. }
  assert (Hkey : forall j x, l !! j = Some x -> key_at n es' (1 + Z.of_nat j) = key_at m es x).
  { intros j x Hj. unfold key_at at 1. rewrite ptr_pos_D by lia.
    replace (Z.to_nat (1 + Z.of_nat j - 1)) with j by lia.
    rewrite Hlook by (eapply lookup_lt_Some; eauto).
    rewrite (Hout j x Hj). cbn. apply key_entry_at. }
  assert (Hlen' : n <= Z.of_nat (length es')).
  { unfold es'. rewrite length_app, length_relink, length_drop. lia. }
  assert (Hchain : chain_ok n 0 (if 1 <=? n then 1 else 0) es' (dptrs 1 (length l))).
  { split; [|split; [apply NoDup_dptrs | split]].
    - destruct (Z.leb_spec 1 n) as [Hn1|Hn0].
      + replace (length l) with (S (length l - 1)) by (unfold n in Hn1; lia).
        apply seg_dptrs; [lia | unfold n in *; lia |].
        intros j Hj.
        assert (Hjl : (Z.to_nat (j - 1) < length l)%nat) by (unfold n in *; lia).
        destruct (lookup_lt_is_Some_2 l _ Hjl) as [x Hx].
        rewrite Hlook by lia. rewrite (Hout _ x Hx).
        eexists. split; [reflexivity|]. cbn [set_next next_ptr].
        rewrite Z2Nat.id by lia.
        replace (1 + (j - 1)) with j by lia. reflexivity.
      + replace (length l) with 0%nat by (unfold n in Hn0; lia). constructor.
    - intros p [[Hv|Hv] _]; [|lia]. apply elem_of_dptrs. lia.
    - rewrite (map_key_dptrs n m es es' l 1 Hkey). exact Hsort. }
  change (relink n 1 out ++ drop (length l) (ents f)) with es'.
  split; [|split; [|exact Hchain]].
  - intros i e He. rewrite Hlook by (rewrite <- Hlo; eapply lookup_lt_Some; eauto).
    rewrite He. cbn. do 2 f_equal.
    replace (1 + Z.of_nat i) with (Z.of_nat i + 1) by lia.
    replace (Z.of_nat i + 1 + 1) with (Z.of_nat i + 2) by lia. reflexivity.
  - assert (Hn0 : 0 <= n) by (unfold n; lia).
    unfold inv. split; [lia|]. split; [lia|]. split; [lia|].
    split; [|split; [|eexists; exact Hchain]].
    + intros i j e1 e2 Hij Hj He1 He2.
      assert (Hjl : (j < length l)%nat) by (unfold n in Hj; lia).
      assert (Hil : (i < length l)%nat) by lia.
      destruct (lookup_lt_is_Some_2 l _ Hil) as [xi Hxi].
      destruct (lookup_lt_is_Some_2 l _ Hjl) as [xj Hxj].
      rewrite Hlook, (Hout _ _ Hxi) in He1 by lia.
      rewrite Hlook, (Hout _ _ Hxj) in He2 by lia.
      cbn in He1, He2. inversion He1; subst e1. inversion He2; subst e2.
      cbn [set_next key]. rewrite !key_entry_at.
      apply (sorted_lookup _ Hsort i j); [exact Hij | |].
      * change (map (key_at m es) l) with (key_at m es <$> l).
        rewrite list_lookup_fmap, Hxi. reflexivity.
      * change (map (key_at m es) l) with (key_at m es <$> l).
        rewrite list_lookup_fmap, Hxj. reflexivity.
    + intros i e Hi He.
      assert (Hil : (i < length l)%nat) by (unfold n in Hi; lia).
      destruct (lookup_lt_is_Some_2 l _ Hil) as [xi Hxi].
      rewrite Hlook, (Hout _ _ Hxi) in He by lia.
      cbn in He. inversion He; subst e.
      assert (Hx : xi ∈ l) by (eapply list_elem_of_lookup_2; eauto).
      destruct (seg_valid _ _ _ _ _ _ Hseg xi Hx) as [Hvx (ex & Hex & _)].
      unfold entry_at. rewrite Hex. cbn [default].
      pose proof (Hstor _ _ (ptr_pos_bound m a xi Hm Ha Hvx) Hex) as Hs.
      exact Hs.
Qed.

(** When [reorganize] returns, the file is the compacted one. *)
Lemma reorganize_inv (f f' : sfile) (l : list Z) :
  WF f -> chain_ok (main_count f) (aux_count f) (head_ptr f) (ents f) l ->
  reorganize f = (Ok tt, f') ->
  fits_i32 (Z.of_nat (length l)) = true /\
  f' = compacted f (map (entry_at (main_count f) (ents f)) l).
Proof.
  intros (Hm & Ha & Hlen & Hds & Hst & _) Hch H.
  pose proof Hch as (Hseg & Hnd & _ & _).
  assert (Hfit : fits_i32 (Z.of_nat (length l)) = true).
  { revert H. unfold main_count, aux_count, head_ptr in *.
    destruct f as [[[m a] h] es]. cbn [hdr ents fst snd] in *.
    unfold reorganize. rewrite (bind_eq _ _ _ _ _ (hdr_get_run _)). cbn [hdr].
    destruct (Z.eqb_spec h 0) as [->|Hh].
    - intros _. apply seg_zero_nil in Hseg; [|exact Ha]. subst l. reflexivity.
    - pose proof (chain_length m a es h l Hm Ha Hseg Hnd) as Hcl.
      set (f := {| hdr := (m, a, h); ents := es |}).
      rewrite (bind_eq _ _ f f (map (entry_at m es) l)).
      2:{ rewrite (collect_spec m a es l h Hseg) by (auto; lia). reflexivity. }
      rewrite length_map. intros H.
      apply bind_ok_inv in H as (u & f1 & _ & H).
      apply bind_ok_inv in H as (hd & f2 & _ & H).
      apply hdr_set_inv in H as (_ & Hfit & _). exact Hfit. }
  split; [exact Hfit|].
  rewrite (reorganize_run f l Hm Ha Hlen Hst Hseg Hnd Hfit) in H.
  inversion H. reflexivity.
Qed.

Lemma reorganize_WF (f f' : sfile) :
  WF f -> reorganize f = (Ok tt, f') -> WF f'.
Proof.
  intros Hwf H. pose proof Hwf as (Hm & Ha & Hlen & Hds & Hst & l & Hch).
  destruct (reorganize_inv f f' l Hwf Hch H) as [_ ->].
  destruct (compacted_inv f l Hm Ha Hlen Hst Hch) as (_ & Hinv & _).
  unfold compacted in Hinv. cbn [ents] in Hinv. rewrite length_map in Hinv.
  unfold WF, main_count, aux_count, head_ptr, compacted. cbn [hdr ents fst snd].
  rewrite length_map. exact Hinv.
Qed.

Lemma maybe_reorg_WF (f f' : sfile) :
  WF f -> _maybe_reorg f = (Ok tt, f') -> WF f'.
Proof.
  intros Hwf H. unfold _maybe_reorg in H.
  rewrite (bind_eq _ _ _ _ _ (hdr_get_run _)) in H.
  destruct (hdr f) as [[m a] h].
  destruct (Z.log2 (Z.max 1 (m + 1)) <? a).
  - eapply reorganize_WF; eauto.
  - inversion H; subst. exact Hwf.
Qed.

(** The logical list, read the way the traversals of the source do. *)
Lemma logical_from_seg (f : sfile) (L : list Z) :
  let m := main_count f in
  let a := aux_count f in
  forall cur, seg m a (ents f) cur L 0 ->
  forall fuel, 0 <= m -> 0 <= a -> (length L <= fuel)%nat ->
  logical_from fuel f cur = Ok (map (fun p => (p, entry_at m (ents f) p)) L).
Proof.
  cbv zeta. set (m := main_count f). set (a := aux_count f).
  intros cur Hseg. remember 0 as q eqn:Hq in Hseg.
  induction Hseg as [q|p e l q Hv He Hn Hseg IH]; intros fuel Hm Ha Hlen; subst q.
  - destruct fuel; reflexivity.
  - destruct (valid_ptr_shape m a p Ha Hv) as (Hshape & Hp0 & Hp1).
    destruct fuel as [|fuel]; [cbn [length] in Hlen; lia|].
    cbn [logical_from]. unfold is_end. rewrite (proj2 (Z.eqb_neq _ _) Hp0).
    rewrite loc_ok by assumption. cbn [res_bind].
    fold m. rewrite entry_off_ptr by assumption.
    rewrite read_at_pos. rewrite He. cbn [res_bind].
    rewrite (IH eq_refl fuel Hm Ha) by (cbn [length] in Hlen; lia).
    cbn [res_bind]. unfold deleted. rewrite (proj2 (Z.eqb_neq _ _) Hn).
    cbn [map].
    replace (entry_at m (ents f) p) with e
      by (unfold entry_at; rewrite He; reflexivity).
    reflexivity.
Qed.

(** [reorganize] and [_maybe_reorg] return on a well-formed index whose
    counted entries a 32-bit header field can count. *)
Lemma reorganize_total (f : sfile) :
  WF f -> main_count f + aux_count f <= 2147483647 ->
  exists f', reorganize f = (Ok tt, f').
Proof.
  intros (Hm & Ha & Hlen & Hds & Hst & l & Hseg & Hnd & _) Hsize.
  eexists. apply (reorganize_run f l); auto.
  pose proof (chain_length _ _ _ _ l Hm Ha Hseg Hnd) as Hcl.
  apply fits_i32_range. lia.
Qed.

Lemma maybe_reorg_total (f : sfile) :
  WF f -> main_count f + aux_count f <= 2147483647 ->
  exists f', _maybe_reorg f = (Ok tt, f').
Proof.
  intros Hwf Hsize. unfold _maybe_reorg.
  rewrite (bind_eq _ _ _ _ _ (hdr_get_run _)).
  destruct (reorganize_total f Hwf Hsize) as [f' Hr].
  destruct (hdr f) as [[m a] h].
  destruct (Z.log2 (Z.max 1 (m + 1)) <? a); [eauto | eexists; reflexivity].
Qed.

End ReorgFacts.

(** ** Sequential index: [insert] keeps the invariant *)

Module InsertFacts.
Import SeqFile SeqFileSpec SeqFileFacts SegFacts LoopFacts LinkFacts ReorgFacts.

(** Entries beyond the counted regions do not matter. *)
Lemma inv_parts_frame (m a h : Z) (es es' : list SFEntry) (l : list Z) :
  0 <= m -> 0 <= a -> m + a <= Z.of_nat (length es) ->
  (forall i, Z.of_nat i < m + a -> es' !! i = es !! i) ->
  (forall i j e1 e2, (i <= j)%nat -> Z.of_nat j < m ->
                     es !! i = Some e1 -> es !! j = Some e2 -> key e1 <= key e2) ->
  (forall i e, Z.of_nat i < m + a -> es !! i = Some e -> storable e) ->
  chain_ok m a h es l ->
  m + a <= Z.of_nat (length es') /\
  (forall i j e1 e2, (i <= j)%nat -> Z.of_nat j < m ->
                     es' !! i = Some e1 -> es' !! j = Some e2 -> key e1 <= key e2) /\
  (forall i e, Z.of_nat i < m + a -> es' !! i = Some e -> storable e) /\
  chain_ok m a h es' l.
Proof.
  intros Hm Ha Hlen Hsame Hds Hst (Hseg & Hnd & Hcov & Hsort).
  split; [|split; [|split]].
  - destruct (Z.eq_dec (m + a) 0) as [E|NE]; [lia|].
    assert (Hlast : Z.of_nat (Z.to_nat (m + a - 1)) < m + a) by lia.
    pose proof (Hsame _ Hlast) as Hs.
    destruct (lookup_lt_is_Some_2 es (Z.to_nat (m + a - 1)) ltac:(lia)) as [e He].
    rewrite He in Hs. apply lookup_lt_Some in Hs. lia.
  - intros i j e1 e2 Hij Hj He1 He2.
    rewrite Hsame in He1, He2 by lia. eauto.
  - intros i e Hi He. rewrite Hsame in He by lia. eauto.
  - assert (Hpos : forall x, x ∈ l -> Z.of_nat (ptr_pos m x) < m + a).
    { intros x Hx. apply ptr_pos_bound; auto.
      apply (seg_valid _ _ _ _ _ _ Hseg x Hx). }
    split; [|split; [exact Hnd | split]].
    + eapply seg_frame; [exact Hseg | lia |]. intros x Hx. apply Hsame, Hpos, Hx.
    + intros p [Hv (e & He & Hn)]. apply Hcov. split; [exact Hv|].
      exists e. split; [|exact Hn].
      rewrite <- Hsame by (apply ptr_pos_bound; auto). exact He.
    + rewrite (key_at_frame m es es' l); [exact Hsort|].
      intros x Hx. unfold key_at. rewrite Hsame by (apply Hpos, Hx). reflexivity.
Qed.

Lemma last_or_snoc (d x : Z) (l : list Z) : last_or d (l ++ [x]) = x.
Proof. unfold last_or. apply last_last. Qed.

(** A stretch of valid pointers is empty exactly when its last pointer,
    with 0 for none, is 0. *)
Lemma last_or_zero (m a : Z) (L : list Z) :
  0 <= a -> (forall x, x ∈ L -> valid_ptr m a x) ->
  (last_or 0 L = 0 -> L = []) /\
  (last_or 0 L <> 0 -> exists L', L = L' ++ [last_or 0 L]).
Proof.
  intros Ha Hv. revert Hv. induction L as [|x L' _] using rev_ind; intros Hv.
  - split; [reflexivity|]. intros H. exfalso. apply H. reflexivity.
  - rewrite last_or_snoc. split.
    + intros ->. exfalso.
      assert (Hx : valid_ptr m a 0) by (apply Hv, elem_of_app; right; left).
      unfold valid_ptr in Hx. lia.
    + intros _. exists L'. reflexivity.
Qed.

Section Splice.
Variables (m a h : Z) (es : list SFEntry) (l : list Z) (hd : Z * Z * Z).
Hypothesis Hm : 0 <= m.
Hypothesis Ha : 0 <= a.
Hypothesis Hlen : m + a <= Z.of_nat (length es).
Hypothesis Hdsort :
  forall i j e1 e2, (i <= j)%nat -> Z.of_nat j < m ->
                    es !! i = Some e1 -> es !! j = Some e2 -> key e1 <= key e2.
Hypothesis Hstor :
  forall i e, Z.of_nat i < m + a -> es !! i = Some e -> storable e.
Hypothesis Hchain : chain_ok m a h es l.

Variables (e : SFEntry) (L1 L2 : list Z).
Hypothesis Hsplit : l = L1 ++ L2.
Hypothesis Hsmall : forall x, x ∈ L1 -> key_at m es x < key e.
Hypothesis Hbig : forall x L2', L2 = x :: L2' -> key e <= key_at m es x.

Lemma splice_WF (f' : sfile) :
  splice m (a + 1) h (a + 1) (- (a + 1 + 1)) e (last_or 0 L1) (head_or L2 0)
         {| hdr := hd; ents := es |} = (Ok tt, f') ->
  WF f'.
Proof.
  destruct Hchain as (Hseg & Hnd & Hcov & Hsort).
  intros H. unfold splice in H.
  set (cur := head_or L2 0) in *.
  unfold bind at 1 in H. rewrite write_A_run in H by lia.
  destruct (packable (set_next e cur)) eqn:Hpk; [|discriminate].
  assert (Hestor : storable e) by (apply packable_storable in Hpk; exact Hpk).
  replace (Z.to_nat (m + (a + 1) - 1)) with (Z.to_nat (m + a)) in H by lia.
  replace (- (a + 1 + 1)) with (- (a + 2)) in H by lia.
  cbn [ents hdr] in H.
  set (es2 := put (Z.to_nat (m + a)) (set_next e cur) es) in *.
  assert (HvL1 : forall x, x ∈ L1 -> valid_ptr m a x).
  { intros x Hx. apply (seg_valid _ _ _ _ _ _ Hseg x).
    rewrite Hsplit. apply elem_of_app. left. exact Hx. }
  destruct (last_or_zero m a L1 Ha HvL1) as [Hz Hnz].
  destruct (Z.eqb_spec (last_or 0 L1) 0) as [E0|NE0].
  - (* the new entry is the new head *)
    rewrite (bind_eq _ _ _ _ (- (a + 2)) (eq_refl : ret (- (a + 2)) _ = _)) in H.
    apply bind_ok_inv in H as (u & f2 & Hset & H). destruct u.
    apply hdr_set_inv in Hset as (-> & _).
    eapply maybe_reorg_WF; [|exact H].
    unfold WF, main_count, aux_count, head_ptr. cbn [hdr ents fst snd].
    apply (link_front m a h es l Hm Ha Hlen Hdsort Hstor Hseg Hnd Hcov Hsort
             e L1 L2 Hsplit Hsmall Hbig Hestor (Hz E0)).
  - (* the last smaller entry is redirected to the new one *)
    destruct (Hnz NE0) as (L1' & HL1).
    set (prev := last_or 0 L1) in *.
    assert (Hpl : prev ∈ l).
    { rewrite Hsplit, HL1. apply elem_of_app. left. apply elem_of_app. right. left. }
    destruct (seg_valid _ _ _ _ _ _ Hseg prev Hpl) as [Hvp (ep & Hep & _)].
    destruct (valid_ptr_shape m a prev Ha Hvp) as (Hshape & Hp0 & Hp1).
    pose proof (ptr_pos_bound m a prev Hm Ha Hvp) as Hpb.
    assert (Hep2 : es2 !! ptr_pos m prev = Some ep).
    { unfold es2. rewrite lookup_put_ne by lia. exact Hep. }
    unfold bind at 1 in H. unfold bind at 1 in H.
    unfold peek at 1 in H. rewrite loc_ok in H by assumption.
    unfold bind at 1 in H. unfold _read at 1, peek at 1 in H.
    rewrite entry_off_ptr in H by assumption.
    rewrite read_at_pos in H. cbn [ents] in H. rewrite Hep2 in H.
    unfold bind at 1 in H. rewrite write_ptr_run in H by assumption.
    destruct (packable (set_next ep (- (a + 2)))) eqn:Hpk2; [|discriminate].
    cbn [ents hdr ret] in H.
    apply bind_ok_inv in H as (u & f2 & Hset & H). destruct u.
    apply hdr_set_inv in Hset as (-> & _).
    eapply maybe_reorg_WF; [|exact H].
    unfold WF, main_count, aux_count, head_ptr. cbn [hdr ents fst snd].
    apply (link_after m a h es l Hm Ha Hlen Hdsort Hstor Hseg Hnd Hcov Hsort
             e L1 L2 Hsplit Hsmall Hbig Hestor L1' prev ep HL1 Hep2).
Qed.

Hypothesis Hestor : storable e.
Hypothesis Hsize : m + a + 2 <= 2147483647.

(** Step 6 returns when [struct.pack] accepts the new entry and the
    pointers fit 32 bits. *)
Lemma splice_total :
  exists f',
    splice m (a + 1) h (a + 1) (- (a + 1 + 1)) e (last_or 0 L1) (head_or L2 0)
           {| hdr := hd; ents := es |} = (Ok tt, f').
Proof.
  destruct Hchain as (Hseg & Hnd & Hcov & Hsort).
  assert (Hval : forall x, x ∈ l -> valid_ptr m a x).
  { intros x Hx. apply (seg_valid _ _ _ _ _ _ Hseg x Hx). }
  assert (Hfitv : forall x, valid_ptr m a x -> fits_i32 x = true).
  { intros x Hx. apply fits_i32_range. unfold valid_ptr in Hx. lia. }
  assert (Hfith : fits_i32 h = true).
  { rewrite (seg_start _ _ _ _ _ _ Hseg). destruct l as [|x l']; [reflexivity|].
    apply Hfitv, Hval. left. }
  unfold splice. set (cur := head_or L2 0).
  assert (Hcur : fits_i32 cur = true).
  { unfold cur. destruct L2 as [|x L2']; [reflexivity|]. cbn [head_or].
    apply Hfitv, Hval. rewrite Hsplit. apply elem_of_app. right. left. }
  unfold bind at 1. rewrite write_A_run by lia.
  rewrite (storable_packable e cur Hestor Hcur).
  replace (Z.to_nat (m + (a + 1) - 1)) with (Z.to_nat (m + a)) by lia.
  replace (- (a + 1 + 1)) with (- (a + 2)) by lia.
  cbn [ents hdr].
  set (es2 := put (Z.to_nat (m + a)) (set_next e cur) es).
  assert (HvL1 : forall x, x ∈ L1 -> valid_ptr m a x).
  { intros x Hx. apply Hval. rewrite Hsplit. apply elem_of_app. left. exact Hx. }
  destruct (last_or_zero m a L1 Ha HvL1) as [Hz Hnz].
  assert (Hfm : fits_i32 m = true) by (apply fits_i32_range; lia).
  assert (Hfa : fits_i32 (a + 1) = true) by (apply fits_i32_range; lia).
  assert (Hfn : fits_i32 (- (a + 2)) = true) by (apply fits_i32_range; lia).
  destruct (Z.eqb_spec (last_or 0 L1) 0) as [E0|NE0].
  - rewrite (bind_eq _ _ _ _ (- (a + 2)) (eq_refl : ret (- (a + 2)) _ = _)).
    rewrite (bind_eq _ _ _ _ tt (hdr_set_run m (a + 1) (- (a + 2)) _ Hfm Hfa Hfn)).
    apply maybe_reorg_total.
    + unfold WF, main_count, aux_count, head_ptr. cbn [hdr ents fst snd].
      apply (link_front m a h es l Hm Ha Hlen Hdsort Hstor Hseg Hnd Hcov Hsort
               e L1 L2 Hsplit Hsmall Hbig Hestor (Hz E0)).
    + unfold main_count, aux_count. cbn [hdr fst snd]. lia.
  - destruct (Hnz NE0) as (L1' & HL1).
    set (prev := last_or 0 L1) in *.
    assert (Hpl : prev ∈ l).
    { rewrite Hsplit, HL1. apply elem_of_app. left. apply elem_of_app. right. left. }
    destruct (seg_valid _ _ _ _ _ _ Hseg prev Hpl) as [Hvp (ep & Hep & _)].
    destruct (valid_ptr_shape m a prev Ha Hvp) as (Hshape & Hp0 & Hp1).
    pose proof (ptr_pos_bound m a prev Hm Ha Hvp) as Hpb.
    assert (Hep2 : es2 !! ptr_pos m prev = Some ep).
    { unfold es2. rewrite lookup_put_ne by lia. exact Hep. }
    assert (Hepst : storable ep) by (eapply Hstor; [|exact Hep]; exact Hpb).
    unfold bind at 1. unfold bind at 1.
    unfold peek at 1. rewrite loc_ok by assumption.
    unfold bind at 1. unfold _read at 1, peek at 1.
    rewrite entry_off_ptr by assumption.
    rewrite read_at_pos. cbn [ents]. rewrite Hep2.
    unfold bind at 1. rewrite write_ptr_run by assumption.
    rewrite (storable_packable ep (- (a + 2)) Hepst Hfn).
    cbn [ents hdr ret].
    rewrite (bind_eq _ _ _ _ tt (hdr_set_run m (a + 1) h _ Hfm Hfa Hfith)).
    apply maybe_reorg_total.
    + unfold WF, main_count, aux_count, head_ptr. cbn [hdr ents fst snd].
      apply (link_after m a h es l Hm Ha Hlen Hdsort Hstor Hseg Hnd Hcov Hsort
               e L1 L2 Hsplit Hsmall Hbig Hestor L1' prev ep HL1 Hep2).
    + unfold main_count, aux_count. cbn [hdr fst snd]. lia.
Qed.

End Splice.

(** The early return of step 4 is step 6 with no predecessor. *)
Lemma splice_front_eq (m a h idx newp : Z) (e : SFEntry) (f : sfile) :
  splice_front m a h idx newp e f = splice m a h idx newp e 0 h f.
Proof. reflexivity. Qed.

Lemma last_or_app_cons (d j : Z) (l1 La : list Z) :
  last_or d (l1 ++ j :: La) = last_or j La.
Proof.
  revert d. induction l1 as [|x l1 IH]; intros d; cbn [app].
  - apply last_cons_default.
  - rewrite last_cons_default. apply IH.
Qed.

(** [insert] keeps the invariant. *)
Lemma insert_WF (fuel : nat) (e : SFEntry) (f f' : sfile) :
  WF f -> insert fuel e f = (Ok tt, f') -> WF f'.
Proof.
  intros HWF H. destruct f as [[[m a] h] es].
  unfold WF, main_count, aux_count, head_ptr in HWF. cbn [hdr ents fst snd] in HWF.
  destruct HWF as (Hm & Ha & Hlen & Hds & Hst & l & Hchain).
  unfold insert in H. rewrite (bind_eq _ _ _ _ _ (hdr_get_run _)) in H.
  cbn [hdr] in H.
  unfold bind at 1 in H. rewrite write_A_run in H by lia.
  destruct (packable (set_next e 0)) eqn:Hpk; [|discriminate].
  cbn [ents hdr] in H.
  replace (Z.to_nat (m + (a + 1) - 1)) with (Z.to_nat (m + a)) in H by lia.
  set (es1 := put (Z.to_nat (m + a)) (set_next e 0) es) in *.
  rewrite (bind_peek _ _ _ (- (a + 1 + 1))) in H
    by (unfold aptr; destruct (Z.ltb_spec (a + 1) 1); [lia | reflexivity]).
  assert (Hsame : forall i, Z.of_nat i < m + a -> es1 !! i = es !! i).
  { intros i Hi. unfold es1. apply lookup_put_ne; lia. }
  destruct (inv_parts_frame m a h es es1 l Hm Ha Hlen Hsame Hds Hst Hchain)
    as (Hlen1 & Hds1 & Hst1 & Hchain1).
  pose proof Hchain1 as (Hseg1 & Hnd1 & Hcov1 & Hsort1).
  destruct (Z.eqb_spec h 0) as [Hh0|Hh0].
  - (* empty list *)
    subst h. assert (l = []) by (eapply seg_zero_nil; eauto). subst l.
    apply bind_ok_inv in H as (u & f2 & Hset & H). destruct u.
    apply hdr_set_inv in Hset as (-> & _).
    eapply maybe_reorg_WF; [|exact H].
    unfold WF, main_count, aux_count, head_ptr. cbn [hdr ents fst snd].
    replace (- (a + 1 + 1)) with (- (a + 2)) by lia.
    destruct Hchain as (Hseg & Hnd & Hcov & Hsort).
    apply (link_front m a 0 es [] Hm Ha Hlen Hds Hst Hseg Hnd Hcov Hsort
             e [] [] eq_refl).
    + intros x Hx. inversion Hx.
    + intros x L2' E. discriminate.
    + apply packable_storable in Hpk. exact Hpk.
    + reflexivity.
  - (* MAIN *)
    apply bind_ok_inv in H as (lb & f1 & Hlb & H).
    apply lb_spec in Hlb as (-> & Hlbr & Hlo & Hhi); [|cbn; lia].
    unfold main_count in Hlbr, Hlo, Hhi. cbn [hdr ents fst snd key set_next] in Hlbr, Hlo, Hhi.
    apply bind_ok_inv in H as ([j dj] & f1 & Hback & H).
    unfold live_pred in Hback.
    apply back_loop_spec in Hback as (-> & Hjle & Hj).
    cbn [fst snd ents] in H, Hj.
    set (f1 := {| hdr := (m, a, h); ents := es1 |}) in *.
    change (key (set_next e 0)) with (key e) in H.
    destruct Hj as [(Hj1 & ej & -> & Hej & Hejn) | (Hj0 & ->)].
    + (* a live predecessor in D *)
      destruct (Z.leb_spec 1 j) as [_|]; [|lia].
      rewrite (bind_eq _ _ f1 f1 (Some (j, next_ptr ej))) in H.
      2:{ rewrite (bind_peek _ _ f1 j)
            by (unfold dptr; destruct (Z.ltb_spec j 1); [lia | reflexivity]).
          unfold bind. rewrite read_D by lia. unfold f1. cbn [ents].
          rewrite Hej. reflexivity. }
      apply bind_ok_inv in H as (pc & f2 & Hwalk & H).
      assert (Hkj : key_at m es1 j = key ej).
      { unfold key_at. rewrite ptr_pos_D by lia. rewrite Hej. reflexivity. }
      assert (Hjl : j ∈ l).
      { apply Hcov1. split; [left; lia|]. exists ej.
        rewrite ptr_pos_D by lia. auto. }
      apply list_elem_of_split in Hjl as (l1 & l2 & El).
      rewrite El in Hseg1. apply seg_app in Hseg1 as (r & Hs1 & Hs2).
      inversion Hs2 as [|p e' l' q Hv He' Hn' Hs2' E1 E2 E3]; subst.
      rewrite ptr_pos_D in He' by lia.
      assert (e' = ej) by congruence. subst e'.
      destruct (insert_walk_spec m a (key e) es1 l2 (next_ptr ej) Hs2'
                  fuel j f1 pc f2 Hwalk eq_refl Hm Ha)
        as (-> & La & Lb & -> & Hsmall & Hprev & Hcur & Hbig).
      rewrite Hprev, Hcur in H.
      rewrite <- (last_or_app_cons 0 j l1 La) in H.
      assert (Hjk : key ej < key e).
      { destruct Hlo as [Hlo|(e1 & He1 & Hk1)]; [lia|].
        assert (key ej <= key e1); [|lia].
        apply (Hds1 (Z.to_nat (j - 1)) (Z.to_nat (lb - 2)) ej e1); auto; lia. }
      refine (splice_WF m a h es1 (l1 ++ j :: La ++ Lb) (m, a, h)
                Hm Ha Hlen1 Hds1 Hst1 Hchain1 (set_next e 0)
                (l1 ++ j :: La) Lb _ _ _ f' H).
      * rewrite <- app_assoc. reflexivity.
      * intros x Hx. change (key (set_next e 0)) with (key e).
        apply elem_of_app in Hx as [Hx|Hx].
        -- rewrite map_app in Hsort1.
           apply StronglySorted_app in Hsort1 as (Hcross & _ & _).
           assert (key_at m es1 x <= key_at m es1 j); [|lia].
           apply Hcross.
           ++ apply list_elem_of_fmap. exists x. auto.
           ++ apply list_elem_of_fmap. exists j. split; [reflexivity | left].
        -- apply elem_of_cons in Hx as [->|Hx]; [lia | auto].
      * exact Hbig.
    + (* no live predecessor in D: start from the head *)
      destruct (Z.leb_spec 1 j) as [|_]; [lia|].
      inversion Hseg1 as [|p eh l' q Hv Heh Hn Hs' E1 E2 E3]; [congruence|]. subst.
      destruct (valid_ptr_shape m a h Ha Hv) as (Hshape & Hp0 & Hp1).
      assert (Hkh : key_at m es1 h = key eh)
        by (unfold key_at; rewrite Heh; reflexivity).
      rewrite (bind_eq _ _ f1 f1 (if key e <=? key eh then None else Some (0, h))) in H.
      2:{ rewrite (bind_peek _ _ f1 (if 0 <? h then (false, h) else (true, - h - 1)))
            by (apply loc_ok; assumption).
          unfold bind, _read, peek. rewrite entry_off_ptr by assumption.
          rewrite read_at_pos. unfold f1. cbn [ents]. rewrite Heh.
          destruct (key e <=? key eh); reflexivity. }
      destruct (Z.leb_spec (key e) (key eh)) as [Hle|Hgt].
      * (* the new entry goes in front of the head *)
        rewrite splice_front_eq in H.
        refine (splice_WF m a h es1 (h :: l') (m, a, h)
                  Hm Ha Hlen1 Hds1 Hst1 Hchain1 (set_next e 0)
                  [] (h :: l') eq_refl _ _ f' H).
        -- intros x Hx. inversion Hx.
        -- intros x L2' E. inversion E; subst. cbn [key set_next]. lia.
      * apply bind_ok_inv in H as (pc & f2 & Hwalk & H).
        destruct (insert_walk_spec m a (key e) es1 (h :: l') h Hseg1
                    fuel 0 f1 pc f2 Hwalk eq_refl Hm Ha)
          as (-> & La & Lb & El & Hsmall & Hprev & Hcur & Hbig).
        rewrite Hprev, Hcur in H.
        exact (splice_WF m a h es1 (h :: l') (m, a, h)
                 Hm Ha Hlen1 Hds1 Hst1 Hchain1 (set_next e 0)
                 La Lb El Hsmall Hbig f' H).
Qed.

(** [insert] returns: on a well-formed index, for an entry [struct.pack]
    accepts, while the pointers fit 32 bits, with a unit of fuel for every
    counted entry. *)
Lemma insert_returns (fuel : nat) (e : SFEntry) (f : sfile) :
  WF f -> storable e ->
  main_count f + aux_count f + 2 <= 2147483647 ->
  (Z.to_nat (main_count f + aux_count f) <= fuel)%nat ->
  exists f', insert fuel e f = (Ok tt, f').
Proof.
  intros HWF Hest Hsize Hfuel. destruct f as [[[m a] h] es].
  unfold WF, main_count, aux_count, head_ptr in *. cbn [hdr ents fst snd] in *.
  destruct HWF as (Hm & Ha & Hlen & Hds & Hst & l & Hchain).
  assert (Hest0 : storable (set_next e 0)) by exact Hest.
  unfold insert. rewrite (bind_eq _ _ _ _ _ (hdr_get_run _)). cbn [hdr].
  unfold bind at 1. rewrite write_A_run by lia.
  rewrite (storable_packable e 0 Hest eq_refl). cbn [ents hdr].
  replace (Z.to_nat (m + (a + 1) - 1)) with (Z.to_nat (m + a)) by lia.
  set (es1 := put (Z.to_nat (m + a)) (set_next e 0) es).
  rewrite (bind_peek _ _ _ (- (a + 1 + 1)))
    by (unfold aptr; destruct (Z.ltb_spec (a + 1) 1); [lia | reflexivity]).
  assert (Hsame : forall i, Z.of_nat i < m + a -> es1 !! i = es !! i).
  { intros i Hi. unfold es1. apply lookup_put_ne; lia. }
  destruct (inv_parts_frame m a h es es1 l Hm Ha Hlen Hsame Hds Hst Hchain)
    as (Hlen1 & Hds1 & Hst1 & Hchain1).
  pose proof Hchain1 as (Hseg1 & Hnd1 & Hcov1 & Hsort1).
  pose proof (chain_length m a es1 h l Hm Ha Hseg1 Hnd1) as Hcl.
  set (f1 := {| hdr := (m, a, h); ents := es1 |}).
  destruct (Z.eqb_spec h 0) as [Hh0|Hh0].
  - subst h. assert (l = []) by (eapply seg_zero_nil; eauto). subst l.
    rewrite (bind_eq _ _ _ _ tt (hdr_set_run m (a + 1) (- (a + 1 + 1)) f1
               ltac:(apply fits_i32_range; lia) ltac:(apply fits_i32_range; lia)
               ltac:(apply fits_i32_range; lia))).
    apply maybe_reorg_total.
    + unfold WF, main_count, aux_count, head_ptr. cbn [hdr ents fst snd].
      replace (- (a + 1 + 1)) with (- (a + 2)) by lia.
      destruct Hchain as (Hseg & Hnd & Hcov & Hsort).
      apply (link_front m a 0 es [] Hm Ha Hlen Hds Hst Hseg Hnd Hcov Hsort
               e [] [] eq_refl).
      * intros x Hx. inversion Hx.
      * intros x L2' E. discriminate.
      * exact Hest.
      * reflexivity.
    + unfold main_count, aux_count. cbn [hdr fst snd]. lia.
  - destruct (lb_total (key (set_next e 0)) f1) as [lb Hlb];
      [unfold main_count, f1; cbn [hdr fst]; lia
      |unfold main_count, f1; cbn [hdr ents fst]; lia |].
    rewrite (bind_eq _ _ _ _ _ Hlb).
    apply lb_spec in Hlb as (_ & Hlbr & Hlo & Hhi);
      [|unfold main_count, f1; cbn [hdr fst]; lia].
    unfold main_count, f1 in Hlbr, Hlo, Hhi.
    cbn [hdr ents fst snd key set_next] in Hlbr, Hlo, Hhi.
    destruct (live_pred_total lb m f1) as [[j dj] Hback];
      [unfold f1; cbn [ents]; lia|].
    rewrite (bind_eq _ _ _ _ _ Hback).
    unfold live_pred in Hback.
    apply back_loop_spec in Hback as (_ & Hjle & Hj).
    cbn [fst snd]. change (ents f1) with es1 in Hj.
    change (key (set_next e 0)) with (key e).
    destruct Hj as [(Hj1 & ej & -> & Hej & Hejn) | (Hj0 & ->)].
    + destruct (Z.leb_spec 1 j) as [_|]; [|lia].
      rewrite (bind_eq _ _ f1 f1 (Some (j, next_ptr ej))).
      2:{ rewrite (bind_peek _ _ f1 j)
            by (unfold dptr; destruct (Z.ltb_spec j 1); [lia | reflexivity]).
          unfold bind. rewrite read_D by lia. change (ents f1) with es1.
          rewrite Hej. reflexivity. }
      assert (Hkj : key_at m es1 j = key ej).
      { unfold key_at. rewrite ptr_pos_D by lia. rewrite Hej. reflexivity. }
      assert (Hjl : j ∈ l).
      { apply Hcov1. split; [left; lia|]. exists ej.
        rewrite ptr_pos_D by lia. auto. }
      apply list_elem_of_split in Hjl as (l1 & l2 & El).
      pose proof Hseg1 as Hseg0.
      rewrite El in Hseg0. apply seg_app in Hseg0 as (r & Hs1 & Hs2).
      inversion Hs2 as [|p e' l' q Hv He' Hn' Hs2' E1 E2 E3]; subst p l' q r.
      rewrite ptr_pos_D in He' by lia.
      assert (e' = ej) by congruence. subst e'.
      assert (Hf2 : (length l2 <= fuel)%nat).
      { rewrite El, length_app in Hcl. cbn [length] in Hcl. lia. }
      destruct (insert_walk_total m a (key e) es1 l2 (next_ptr ej) Hs2'
                  fuel j f1 eq_refl Hm Ha Hf2) as [pc Hwalk].
      rewrite (bind_eq _ _ _ _ _ Hwalk).
      destruct (insert_walk_spec m a (key e) es1 l2 (next_ptr ej) Hs2'
                  fuel j f1 pc f1 Hwalk eq_refl Hm Ha)
        as (_ & La & Lb & EL & Hsmall & Hprev & Hcur & Hbig).
      rewrite Hprev, Hcur.
      rewrite <- (last_or_app_cons 0 j l1 La).
      assert (Hjk : key ej < key e).
      { destruct Hlo as [Hlo|(e1 & He1 & Hk1)]; [lia|].
        assert (key ej <= key e1); [|lia].
        apply (Hds1 (Z.to_nat (j - 1)) (Z.to_nat (lb - 2)) ej e1); auto; lia. }
      refine (splice_total m a h es1 l (m, a, h) Hm Ha Hlen1 Hds1 Hst1 Hchain1
                (set_next e 0) (l1 ++ j :: La) Lb _ _ _ Hest0 Hsize).
      * rewrite El, EL, <- app_assoc. reflexivity.
      * intros x Hx. change (key (set_next e 0)) with (key e).
        apply elem_of_app in Hx as [Hx|Hx].
        -- rewrite El, map_app in Hsort1.
           apply StronglySorted_app in Hsort1 as (Hcross & _ & _).
           assert (key_at m es1 x <= key_at m es1 j); [|lia].
           apply Hcross.
           ++ apply list_elem_of_fmap. exists x. auto.
           ++ apply list_elem_of_fmap. exists j. split; [reflexivity | left].
        -- apply elem_of_cons in Hx as [->|Hx]; [lia | auto].
      * exact Hbig.
    + destruct (Z.leb_spec 1 j) as [|_]; [lia|].
      inversion Hseg1 as [|p eh l' q Hv Heh Hn Hs' E1 E2 E3]; [congruence|].
      subst p q l.
      destruct (valid_ptr_shape m a h Ha Hv) as (Hshape & Hp0 & Hp1).
      assert (Hkh : key_at m es1 h = key eh)
        by (unfold key_at; rewrite Heh; reflexivity).
      rewrite (bind_eq _ _ f1 f1 (if key e <=? key eh then None else Some (0, h))).
      2:{ rewrite (bind_peek _ _ f1 (if 0 <? h then (false, h) else (true, - h - 1)))
            by (apply loc_ok; assumption).
          unfold bind, _read, peek. rewrite entry_off_ptr by assumption.
          rewrite read_at_pos. change (ents f1) with es1. rewrite Heh.
          destruct (key e <=? key eh); reflexivity. }
      destruct (Z.leb_spec (key e) (key eh)) as [Hle|Hgt].
      * rewrite splice_front_eq.
        refine (splice_total m a h es1 (h :: l') (m, a, h) Hm Ha Hlen1 Hds1 Hst1
                  Hchain1 (set_next e 0) [] (h :: l') eq_refl _ _ Hest0 Hsize).
        -- intros x Hx. inversion Hx.
        -- intros x L2' E. inversion E; subst. cbn [key set_next]. lia.
      * assert (Hf2 : (length (h :: l') <= fuel)%nat) by lia.
        destruct (insert_walk_total m a (key e) es1 (h :: l') h Hseg1
                    fuel 0 f1 eq_refl Hm Ha Hf2) as [pc Hwalk].
        rewrite (bind_eq _ _ _ _ _ Hwalk).
        destruct (insert_walk_spec m a (key e) es1 (h :: l') h Hseg1
                    fuel 0 f1 pc f1 Hwalk eq_refl Hm Ha)
          as (_ & La & Lb & El & Hsmall & Hprev & Hcur & Hbig).
        rewrite Hprev, Hcur.
        exact (splice_total m a h es1 (h :: l') (m, a, h) Hm Ha Hlen1 Hds1 Hst1
                 Hchain1 (set_next e 0) La Lb El Hsmall Hbig Hest0 Hsize).
Qed.

End InsertFacts.

(** ** Sequential index: [delete_key] keeps the invariant *)

Module DeleteFacts.
Import SeqFile SeqFileSpec SeqFileFacts SegFacts LoopFacts LinkFacts ReorgFacts
       InsertFacts.

(** Taking [x] out of the list: the entries keep their keys and RIDs, [x]
    becomes a tombstone, no other entry becomes one or stops being one, and
    the pointers lead around [x]. *)
Lemma unlink_inv (m a h h' : Z) (es es' : list SFEntry) (L1 L2 : list Z)
    (x : Z) (ex : SFEntry) :
  0 <= m -> 0 <= a -> m + a <= Z.of_nat (length es) ->
  (forall i j e1 e2, (i <= j)%nat -> Z.of_nat j < m ->
                     es !! i = Some e1 -> es !! j = Some e2 -> key e1 <= key e2) ->
  (forall i e, Z.of_nat i < m + a -> es !! i = Some e -> storable e) ->
  chain_ok m a h es (L1 ++ x :: L2) ->
  length es' = length es ->
  es' !! ptr_pos m x = Some (set_next ex DELETED) ->
  (forall i e', es' !! i = Some e' ->
     exists e0, es !! i = Some e0 /\ key e' = key e0 /\ rid e' = rid e0
                /\ (next_ptr e' <> DELETED -> next_ptr e0 <> DELETED)) ->
  seg m a es' h' (L1 ++ L2) 0 ->
  m + a <= Z.of_nat (length es') /\
  (forall i j e1 e2, (i <= j)%nat -> Z.of_nat j < m ->
                     es' !! i = Some e1 -> es' !! j = Some e2 -> key e1 <= key e2) /\
  (forall i e, Z.of_nat i < m + a -> es' !! i = Some e -> storable e) /\
  chain_ok m a h' es' (L1 ++ L2).
Proof.
  intros Hm Ha Hlen Hds Hst (Hseg & Hnd & Hcov & Hsort) Hlen' Hx Hkeep Hseg'.
  split; [lia|]. split; [|split].
  - intros i j e1 e2 Hij Hj He1 He2.
    destruct (Hkeep i e1 He1) as (e1' & He1' & Hk1 & _).
    destruct (Hkeep j e2 He2) as (e2' & He2' & Hk2 & _).
    rewrite Hk1, Hk2. eauto.
  - intros i e0 Hi He0.
    destruct (Hkeep i e0 He0) as (e0' & He0' & Hk & Hr & _).
    pose proof (Hst i e0' Hi He0') as Hs.
    unfold storable in *. rewrite Hk, Hr. exact Hs.
  - split; [exact Hseg'|]. split; [|split].
    + apply NoDup_app in Hnd as (Hn1 & Hd & Hn2).
      apply NoDup_cons in Hn2 as (_ & Hn2).
      apply NoDup_app. split; [exact Hn1|]. split; [|exact Hn2].
      intros y Hy Hin. apply (Hd y Hy). right. exact Hin.
    + intros p [Hv (e0 & He0 & Hn0)].
      destruct (Hkeep _ _ He0) as (e0' & He0' & _ & _ & Hlive).
      assert (Hpl : p ∈ L1 ++ x :: L2).
      { apply Hcov. split; [exact Hv|]. exists e0'. auto. }
      apply elem_of_app in Hpl as [Hpl|Hpl]; [apply elem_of_app; left; exact Hpl|].
      apply elem_of_cons in Hpl as [->|Hpl]; [|apply elem_of_app; right; exact Hpl].
      rewrite Hx in He0. inversion He0; subst. cbn [set_next next_ptr] in Hn0.
      contradiction.
    + assert (Hkeys : forall y, y ∈ L1 ++ x :: L2 -> key_at m es' y = key_at m es y).
      { intros y Hy.
        destruct (seg_valid _ _ _ _ _ _ Hseg y Hy) as [Hvy (ey & Hey & _)].
        unfold key_at. destruct (es' !! ptr_pos m y) as [e'|] eqn:E'.
        - destruct (Hkeep _ _ E') as (e0 & -> & Hk & _). exact Hk.
        - exfalso. apply lookup_ge_None in E'. apply lookup_lt_Some in Hey. lia. }
      rewrite map_app in *. cbn [map] in Hsort.
      rewrite (key_at_frame m es es' L1)
        by (intros y Hy; apply Hkeys; apply elem_of_app; left; exact Hy).
      rewrite (key_at_frame m es es' L2)
        by (intros y Hy; apply Hkeys; apply elem_of_app; right; right; exact Hy).
      eapply sorted_remove_mid. exact Hsort.
Qed.

(** What [unlink] does to a file that satisfies the invariant. *)
Lemma unlink_spec (m a hv h' : Z) (es : list SFEntry) (L1 L2 : list Z)
    (x : Z) (ex : SFEntry) (hd : Z * Z * Z) (f2 : sfile) :
  0 <= m -> 0 <= a -> m + a <= Z.of_nat (length es) ->
  (forall i j e1 e2, (i <= j)%nat -> Z.of_nat j < m ->
                     es !! i = Some e1 -> es !! j = Some e2 -> key e1 <= key e2) ->
  (forall i e, Z.of_nat i < m + a -> es !! i = Some e -> storable e) ->
  chain_ok m a hv es (L1 ++ x :: L2) ->
  es !! ptr_pos m x = Some ex ->
  unlink m hv (last_or 0 L1) (if 0 <? x then (false, x) else (true, - x - 1)) ex
         {| hdr := hd; ents := es |} = (Ok h', f2) ->
  hdr f2 = hd /\
  m + a <= Z.of_nat (length (ents f2)) /\
  (forall i j e1 e2, (i <= j)%nat -> Z.of_nat j < m ->
                     ents f2 !! i = Some e1 -> ents f2 !! j = Some e2 -> key e1 <= key e2) /\
  (forall i e, Z.of_nat i < m + a -> ents f2 !! i = Some e -> storable e) /\
  chain_ok m a h' (ents f2) (L1 ++ L2).
Proof.
  intros Hm Ha Hlen Hds Hst Hchain Hex H.
  pose proof Hchain as (Hseg & Hnd & Hcov & Hsort).
  assert (Hval : forall y, y ∈ L1 ++ x :: L2 -> valid_ptr m a y).
  { intros y Hy. apply (seg_valid _ _ _ _ _ _ Hseg y Hy). }
  assert (Hpos : forall y, y ∈ L1 ++ x :: L2 -> (ptr_pos m y < length es)%nat).
  { intros y Hy. pose proof (ptr_pos_bound m a y Hm Ha (Hval y Hy)). lia. }
  assert (Hxin : x ∈ L1 ++ x :: L2) by (apply elem_of_app; right; left).
  pose proof (Hval x Hxin) as Hvx. pose proof (Hpos x Hxin) as Hpx.
  destruct (valid_ptr_shape m a x Ha Hvx) as (Hshx & _ & _).
  pose proof Hseg as Hseg0. apply seg_app in Hseg0 as (r & Hs1 & Hs2).
  inversion Hs2 as [|p0 ex' l' q Hv0 Hex' Hnx Hs2' E1 E2 E3]; subst.
  assert (ex' = ex) by congruence. subst ex'.
  pose proof Hnd as Hnd0. apply NoDup_app in Hnd0 as (Hnd1 & Hdisj & Hnd2).
  apply NoDup_cons in Hnd2 as (Hx2 & Hnd2).
  assert (Hx1 : x ∉ L1) by (intros Hin; apply (Hdisj x Hin); left).
  assert (Hne : forall y, y ∈ L1 ++ x :: L2 -> y <> x -> ptr_pos m y <> ptr_pos m x).
  { intros y Hy Hyx E. apply Hyx. apply (ptr_pos_inj m a y x); auto. }
  unfold unlink in H.
  assert (HvL1 : forall y, y ∈ L1 -> valid_ptr m a y)
    by (intros y Hy; apply Hval, elem_of_app; left; exact Hy).
  destruct (last_or_zero m a L1 Ha HvL1) as [Hz Hnz].
  destruct (Z.eqb_spec (last_or 0 L1) 0) as [E0|NE0].
  - (* [x] was the head *)
    specialize (Hz E0). subst L1. cbn [app] in *.
    rewrite (bind_eq _ _ _ _ (next_ptr ex) (eq_refl : ret (next_ptr ex) _ = _)) in H.
    unfold bind in H. rewrite write_ptr_run in H by assumption.
    destruct (packable (set_next ex DELETED)); [|discriminate].
    inversion H; subst. cbn [hdr ents]. split; [reflexivity|].
    apply (unlink_inv m a hv (next_ptr ex) es _ [] L2 x ex); auto.
    + rewrite length_put. lia.
    + apply lookup_put_eq.
    + intros i e' He'. destruct (Nat.eq_dec i (ptr_pos m x)) as [->|NE].
      * rewrite lookup_put_eq in He'. inversion He'; subst. exists ex.
        cbn [set_next key rid next_ptr]. repeat split; auto.
      * assert (Hi : (i < length es)%nat).
        { apply lookup_lt_Some in He'. rewrite length_put in He'. lia. }
        rewrite lookup_put_ne in He' by (auto; lia).
        exists e'. repeat split; auto.
    + eapply seg_frame; [exact Hs2' | lia |].
      intros y Hy. apply lookup_put_ne.
      * intros E. symmetry in E. revert E. apply Hne; [right; exact Hy|].
        intros ->. contradiction.
      * apply Hpos. right. exact Hy.
  - (* the entry before [x] is redirected *)
    destruct (Hnz NE0) as (L1' & HL1). remember (last_or 0 L1) as p eqn:Ep.
    assert (Hpin : p ∈ L1 ++ x :: L2).
    { rewrite HL1. apply elem_of_app. left. apply elem_of_app. right. left. }
    pose proof (Hval p Hpin) as Hvp. pose proof (Hpos p Hpin) as Hpp.
    destruct (valid_ptr_shape m a p Ha Hvp) as (Hshp & Hp0 & Hp1).
    destruct (seg_valid _ _ _ _ _ _ Hseg p Hpin) as [_ (ep & Hep & Hepn)].
    assert (Hpx' : p <> x).
    { intros ->. apply Hx1. rewrite HL1. apply elem_of_app. right. left. }
    assert (Hp1' : p ∉ L1').
    { rewrite HL1 in Hnd1. apply NoDup_app in Hnd1 as (_ & Hd & _).
      intros Hin. apply (Hd p Hin). left. }
    unfold bind at 1 in H. unfold bind at 1 in H.
    unfold peek at 1 in H. rewrite loc_ok in H by assumption.
    unfold bind at 1 in H. unfold _read at 1, peek at 1 in H.
    rewrite entry_off_ptr in H by assumption.
    rewrite read_at_pos in H. cbn [ents] in H. rewrite Hep in H.
    unfold bind at 1 in H. rewrite write_ptr_run in H by assumption.
    destruct (packable (set_next ep (next_ptr ex))); [|discriminate].
    cbn [ents hdr ret] in H.
    unfold bind in H. rewrite write_ptr_run in H by assumption.
    destruct (packable (set_next ex DELETED)); [|discriminate].
    inversion H; subst h' f2. cbn [hdr ents]. split; [reflexivity|].
    set (es1 := put (ptr_pos m p) (set_next ep (next_ptr ex)) es).
    assert (Hl1 : length es1 = length es) by (unfold es1; rewrite length_put; lia).
    apply (unlink_inv m a hv hv es _ L1 L2 x ex); auto.
    + rewrite length_put. lia.
    + apply lookup_put_eq.
    + intros i e' He'. destruct (Nat.eq_dec i (ptr_pos m x)) as [->|NE].
      * rewrite lookup_put_eq in He'. inversion He'; subst. exists ex.
        cbn [set_next key rid next_ptr]. repeat split; auto.
      * assert (Hi : (i < length es)%nat).
        { apply lookup_lt_Some in He'. rewrite length_put in He'. lia. }
        rewrite lookup_put_ne in He' by (auto; lia).
        destruct (Nat.eq_dec i (ptr_pos m p)) as [->|NE'].
        -- unfold es1 in He'. rewrite lookup_put_eq in He'. inversion He'; subst.
           exists ep. cbn [set_next key rid next_ptr]. repeat split; auto.
        -- unfold es1 in He'. rewrite lookup_put_ne in He' by (auto; lia).
           exists e'. repeat split; auto.
    + rewrite HL1. apply seg_app. exists (next_ptr ex). split.
      * eapply seg_frame; [| apply Z.le_refl |].
        -- rewrite HL1 in Hs1.
           apply (seg_set_last m a es L1' p x (next_ptr ex) ep hv); auto.
        -- intros y Hy. apply lookup_put_ne.
           ++ intros E. symmetry in E. revert E. apply Hne.
              ** rewrite HL1. apply elem_of_app. left. exact Hy.
              ** intros ->. apply Hx1. rewrite HL1. exact Hy.
           ++ fold es1. rewrite Hl1. apply Hpos. rewrite HL1. apply elem_of_app. left. exact Hy.
      * eapply seg_frame; [exact Hs2' | lia |].
        intros y Hy.
        assert (Hyin : y ∈ L1 ++ x :: L2) by (apply elem_of_app; right; right; exact Hy).
        rewrite lookup_put_ne.
        -- apply lookup_put_ne; [|apply Hpos; exact Hyin].
           intros E. assert (p = y) by (apply (ptr_pos_inj m a p y); auto).
           subst y. apply (Hdisj p); [|right; exact Hy].
           rewrite HL1. apply elem_of_app. right. left.
        -- intros E. symmetry in E. revert E. apply Hne; [exact Hyin|].
           intros ->. contradiction.
        -- fold es1. rewrite Hl1. apply Hpos. exact Hyin.
Qed.

(** The unlinking walk keeps the invariant, for the head it returns; it
    leaves the header of the file alone. *)
Lemma delete_walk_spec (m a k : Z) (r : option RID) (fuel : nat) :
  forall hv prev cur removed f res f' L1 L2,
    delete_walk fuel k r m hv prev cur removed f = (Ok res, f') ->
    0 <= m -> 0 <= a -> m + a <= Z.of_nat (length (ents f)) ->
    (forall i j e1 e2, (i <= j)%nat -> Z.of_nat j < m ->
                       ents f !! i = Some e1 -> ents f !! j = Some e2 -> key e1 <= key e2) ->
    (forall i e, Z.of_nat i < m + a -> ents f !! i = Some e -> storable e) ->
    chain_ok m a hv (ents f) (L1 ++ L2) ->
    prev = last_or 0 L1 -> cur = head_or L2 0 ->
    hdr f' = hdr f /\ inv m a (fst res) (ents f').
Proof.
  induction fuel as [|fuel IH];
    intros hv prev cur removed f res f' L1 L2 H Hm Ha Hlen Hds Hst Hchain Hprev Hcur.
  - cbn [delete_walk] in H. destruct (is_end cur); [|discriminate].
    inversion H; subst. split; [reflexivity|]. unfold inv. cbn [fst]. eauto 10.
  - cbn [delete_walk] in H. unfold is_end in H.
    destruct (Z.eqb_spec cur 0) as [Hc0|Hc0].
    { inversion H; subst res f'. split; [reflexivity|]. unfold inv. cbn [fst]. eauto 10. }
    destruct L2 as [|x L2']; [cbn [head_or] in Hcur; congruence|].
    cbn [head_or] in Hcur. subst cur.
    pose proof Hchain as (Hseg & Hnd & Hcov & Hsort).
    assert (Hxin : x ∈ L1 ++ x :: L2') by (apply elem_of_app; right; left).
    destruct (seg_valid _ _ _ _ _ _ Hseg x Hxin) as [Hvx (ex & Hex & Hexn)].
    destruct (valid_ptr_shape m a x Ha Hvx) as (Hshx & Hx0 & Hx1).
    assert (Hnext : next_ptr ex = head_or L2' 0).
    { pose proof Hseg as Hseg0. apply seg_app in Hseg0 as (q & _ & Hs2).
      inversion Hs2 as [|p0 ex' l' q' Hv0 Hex' Hnx Hs2' E1 E2 E3]; subst.
      assert (ex' = ex) by congruence. subst ex'.
      apply (seg_start _ _ _ _ _ _ Hs2'). }
    rewrite (bind_peek _ _ f (if 0 <? x then (false, x) else (true, - x - 1))) in H
      by (apply loc_ok; assumption).
    rewrite (bind_eq _ _ f f ex) in H.
    2:{ unfold _read, peek. rewrite entry_off_ptr by assumption.
        rewrite read_at_pos, Hex. reflexivity. }
    destruct (Z.ltb_spec k (key ex)) as [Hlt|Hge].
    { inversion H; subst res f'. split; [reflexivity|]. unfold inv. cbn [fst]. eauto 10. }
    destruct ((key ex =? k) && rid_matches r ex).
    + apply bind_ok_inv in H as (h' & f2 & Hun & H).
      destruct f as [hd es]. cbn [ents hdr] in *. subst prev.
      apply (unlink_spec m a hv h' es L1 L2' x ex hd f2 Hm Ha Hlen Hds Hst Hchain Hex)
        in Hun as (Hhd & Hlen2 & Hds2 & Hst2 & Hchain2).
      destruct r as [r0|].
      * inversion H; subst res f'. split; [exact Hhd|]. unfold inv. cbn [fst]. eauto 10.
      * apply (IH _ _ _ _ _ _ _ L1 L2') in H; auto.
        destruct H as (Hh & Hinv). split; [congruence | exact Hinv].
    + apply (IH _ _ _ _ _ _ _ (L1 ++ [x]) L2') in H; auto.
      * rewrite <- app_assoc. exact Hchain.
      * symmetry. apply last_or_snoc.
Qed.

(** [delete_key] keeps the invariant. *)
Lemma delete_WF (fuel : nat) (k : Z) (r : option RID) (f f' : sfile) (n : Z) :
  WF f -> delete_key fuel k r f = (Ok n, f') -> WF f'.
Proof.
  intros HWF H. pose proof HWF as HWF0. destruct f as [[[m a] h] es].
  unfold WF, main_count, aux_count, head_ptr in HWF. cbn [hdr ents fst snd] in HWF.
  destruct HWF as (Hm & Ha & Hlen & Hds & Hst & l & Hchain).
  pose proof Hchain as (Hseg & Hnd & Hcov & Hsort).
  unfold delete_key in H. rewrite (bind_eq _ _ _ _ _ (hdr_get_run _)) in H.
  cbn [hdr] in H.
  destruct (Z.eqb_spec h 0) as [Hh0|Hh0].
  { inversion H; subst. exact HWF0. }
  set (f := {| hdr := (m, a, h); ents := es |}) in *.
  apply bind_ok_inv in H as (lb & f1 & Hlb & H).
  apply lb_spec in Hlb as (-> & Hlbr & Hlo & Hhi); [|cbn; lia].
  apply bind_ok_inv in H as ([j dj] & f1 & Hback & H).
  unfold live_pred in Hback.
  apply back_loop_spec in Hback as (-> & Hjle & Hj).
  cbn [fst snd] in H. change (ents f) with es in Hj.
  assert (Hwalk : exists hr f3 L1 L2,
             l = L1 ++ L2 /\
             delete_walk fuel k r m h (last_or 0 L1) (head_or L2 0) 0 f = (Ok hr, f3) /\
             (let '(h', removed) := hr in _hdr_set m a h' ;;; ret removed)%M f3 = (Ok n, f')).
  { destruct Hj as [(Hj1 & ej & -> & Hej & Hejn) | (Hj0 & ->)].
    - destruct (Z.leb_spec 1 j) as [_|]; [|lia].
      rewrite (bind_peek _ _ f j) in H
        by (unfold dptr; destruct (Z.ltb_spec j 1); [lia | reflexivity]).
      rewrite (bind_eq _ _ f f (next_ptr ej)) in H.
      2:{ unfold bind. rewrite read_D by lia. change (ents f) with es.
          rewrite Hej. reflexivity. }
      apply bind_ok_inv in H as (hr & f3 & Hw & H).
      assert (Hjl : j ∈ l).
      { apply Hcov. split; [left; unfold main_count in *; cbn in *; lia|]. exists ej.
        rewrite ptr_pos_D by lia. auto. }
      apply list_elem_of_split in Hjl as (l1 & l2 & El).
      exists hr, f3, (l1 ++ [j]), l2.
      split; [rewrite <- app_assoc; exact El|].
      rewrite last_or_snoc. split; [|exact H].
      rewrite El in Hseg. apply seg_app in Hseg as (q & _ & Hs2).
      inversion Hs2 as [|p0 ex' l' q' Hv0 Hex' Hnx Hs2' E1 E2 E3]; subst.
      rewrite ptr_pos_D in Hex' by lia.
      assert (ex' = ej) by congruence. subst ex'.
      rewrite <- (seg_start _ _ _ _ _ _ Hs2'). exact Hw.
    - destruct (Z.leb_spec 1 j) as [|_]; [lia|].
      rewrite (bind_eq _ _ f f 0 (eq_refl : ret 0 _ = _)) in H.
      rewrite (bind_eq _ _ f f h (eq_refl : ret h _ = _)) in H.
      apply bind_ok_inv in H as (hr & f3 & Hw & H).
      exists hr, f3, [], l. split; [reflexivity|].
      rewrite <- (seg_start _ _ _ _ _ _ Hseg). split; [exact Hw | exact H]. }
  destruct Hwalk as ([h' removed] & f3 & L1 & L2 & El & Hw & Hset).
  rewrite El in Hchain.
  apply (delete_walk_spec m a k r fuel h _ _ 0 f _ f3 L1 L2) in Hw; auto.
  destruct Hw as (Hhd & Hinv). cbn [fst] in Hinv.
  apply bind_ok_inv in Hset as (u & f4 & Hset & Hret). destruct u.
  apply hdr_set_inv in Hset as (-> & _). inversion Hret; subst.
  unfold WF, main_count, aux_count, head_ptr. cbn [hdr ents fst snd]. exact Hinv.
Qed.

(** Every state the operations reach satisfies the invariant. *)
Lemma empty_WF : WF empty.
Proof.
  unfold WF, inv, empty, main_count, aux_count, head_ptr. cbn [hdr ents fst snd length].
  split; [lia|]. split; [lia|]. split; [cbn; lia|]. split; [|split].
  - intros i j e1 e2 _ Hj. lia.
  - intros i e Hi. lia.
  - exists []. split; [constructor|]. split; [constructor|]. split; [|constructor].
    intros p [Hv _]. unfold valid_ptr in Hv. lia.
Qed.

Lemma reachable_WF (f : sfile) : reachable f -> WF f.
Proof.
  induction 1 as [|f f' fuel e _ IH H|f f' fuel k r n _ IH H|f f' _ IH H].
  - apply empty_WF.
  - eapply insert_WF; eauto.
  - eapply delete_WF; eauto.
  - eapply reorganize_WF; eauto.
Qed.

(** *** [delete_key] returns *)

Lemma fits_valid_ptr (m a x : Z) :
  m + a + 2 <= 2147483647 -> 0 <= m -> 0 <= a ->
  valid_ptr m a x -> fits_i32 x = true.
Proof. intros Hs Hm Ha Hx. apply fits_i32_range. unfold valid_ptr in Hx. lia. Qed.

Lemma fits_head (m a h : Z) (es : list SFEntry) (l : list Z) :
  m + a + 2 <= 2147483647 -> 0 <= m -> 0 <= a ->
  seg m a es h l 0 -> fits_i32 h = true.
Proof.
  intros Hs Hm Ha Hseg. inversion Hseg as [q|p e l' q Hv _ _ _]; subst.
  - reflexivity.
  - eapply fits_valid_ptr; eauto.
Qed.

Lemma unlink_total (m a hv : Z) (es : list SFEntry) (L1 L2 : list Z)
    (x : Z) (ex : SFEntry) (hd : Z * Z * Z) :
  0 <= m -> 0 <= a -> m + a <= Z.of_nat (length es) ->
  (forall i e, Z.of_nat i < m + a -> es !! i = Some e -> storable e) ->
  chain_ok m a hv es (L1 ++ x :: L2) ->
  es !! ptr_pos m x = Some ex ->
  m + a + 2 <= 2147483647 ->
  exists h' f2,
    unlink m hv (last_or 0 L1) (if 0 <? x then (false, x) else (true, - x - 1)) ex
           {| hdr := hd; ents := es |} = (Ok h', f2).
Proof.
  intros Hm Ha Hlen Hst (Hseg & Hnd & Hcov & Hsort) Hex Hsize.
  assert (Hval : forall y, y ∈ L1 ++ x :: L2 -> valid_ptr m a y).
  { intros y Hy. apply (seg_valid _ _ _ _ _ _ Hseg y Hy). }
  assert (Hxin : x ∈ L1 ++ x :: L2) by (apply elem_of_app; right; left).
  pose proof (Hval x Hxin) as Hvx.
  pose proof (ptr_pos_bound m a x Hm Ha Hvx) as Hpx.
  destruct (valid_ptr_shape m a x Ha Hvx) as (Hshx & _ & _).
  pose proof Hseg as Hseg0. apply seg_app in Hseg0 as (r & Hs1 & Hs2).
  inversion Hs2 as [|p0 ex' l' q Hv0 Hex' Hnx Hs2' E1 E2 E3]; subst.
  assert (ex' = ex) by congruence. subst ex'.
  assert (Hfn : fits_i32 (next_ptr ex) = true) by (eapply fits_head; eauto).
  assert (Hexst : storable ex) by (eapply Hst; [|exact Hex]; exact Hpx).
  assert (Hpd : packable (set_next ex DELETED) = true)
    by (apply storable_packable; [exact Hexst | reflexivity]).
  unfold unlink.
  assert (HvL1 : forall y, y ∈ L1 -> valid_ptr m a y)
    by (intros y Hy; apply Hval, elem_of_app; left; exact Hy).
  destruct (last_or_zero m a L1 Ha HvL1) as [Hz Hnz].
  destruct (Z.eqb_spec (last_or 0 L1) 0) as [E0|NE0].
  - rewrite (bind_eq _ _ _ _ (next_ptr ex) (eq_refl : ret (next_ptr ex) _ = _)).
    unfold bind. rewrite write_ptr_run by assumption. rewrite Hpd.
    eexists _, _. reflexivity.
  - destruct (Hnz NE0) as (L1' & HL1). remember (last_or 0 L1) as p eqn:Ep.
    assert (Hpin : p ∈ L1 ++ x :: L2).
    { rewrite HL1. apply elem_of_app. left. apply elem_of_app. right. left. }
    pose proof (Hval p Hpin) as Hvp.
    pose proof (ptr_pos_bound m a p Hm Ha Hvp) as Hpp.
    destruct (valid_ptr_shape m a p Ha Hvp) as (Hshp & Hp0 & Hp1).
    destruct (seg_valid _ _ _ _ _ _ Hseg p Hpin) as [_ (ep & Hep & Hepn)].
    assert (Hepst : storable ep) by (eapply Hst; [|exact Hep]; exact Hpp).
    unfold bind at 1. unfold bind at 1.
    unfold peek at 1. rewrite loc_ok by assumption.
    unfold bind at 1. unfold _read at 1, peek at 1.
    rewrite entry_off_ptr by assumption.
    rewrite read_at_pos. cbn [ents]. rewrite Hep.
    unfold bind at 1. rewrite write_ptr_run by assumption.
    rewrite (storable_packable ep (next_ptr ex) Hepst Hfn).
    cbn [ents hdr ret].
    unfold bind. rewrite write_ptr_run by assumption. rewrite Hpd.
    eexists _, _. reflexivity.
Qed.

(** One unit of fuel for every entry still ahead is enough for the walk. *)
Lemma delete_walk_total (m a k : Z) (r : option RID) (fuel : nat) :
  forall hv prev cur removed f L1 L2,
    0 <= m -> 0 <= a -> m + a <= Z.of_nat (length (ents f)) ->
    (forall i j e1 e2, (i <= j)%nat -> Z.of_nat j < m ->
                       ents f !! i = Some e1 -> ents f !! j = Some e2 -> key e1 <= key e2) ->
    (forall i e, Z.of_nat i < m + a -> ents f !! i = Some e -> storable e) ->
    chain_ok m a hv (ents f) (L1 ++ L2) ->
    prev = last_or 0 L1 -> cur = head_or L2 0 ->
    m + a + 2 <= 2147483647 ->
    (length L2 <= fuel)%nat ->
    exists res f', delete_walk fuel k r m hv prev cur removed f = (Ok res, f').
Proof.
  induction fuel as [|fuel IH];
    intros hv prev cur removed f L1 L2 Hm Ha Hlen Hds Hst Hchain Hprev Hcur Hsize Hfuel.
  - destruct L2 as [|x L2']; [|cbn [length] in Hfuel; lia].
    cbn [head_or] in Hcur. subst cur. eexists _, _. reflexivity.
  - cbn [delete_walk]. unfold is_end.
    destruct (Z.eqb_spec cur 0) as [Hc0|Hc0]; [eexists _, _; reflexivity|].
    destruct L2 as [|x L2']; [cbn [head_or] in Hcur; congruence|].
    cbn [head_or] in Hcur. subst cur. cbn [length] in Hfuel.
    pose proof Hchain as (Hseg & Hnd & Hcov & Hsort).
    assert (Hxin : x ∈ L1 ++ x :: L2') by (apply elem_of_app; right; left).
    destruct (seg_valid _ _ _ _ _ _ Hseg x Hxin) as [Hvx (ex & Hex & Hexn)].
    destruct (valid_ptr_shape m a x Ha Hvx) as (Hshx & Hx0 & Hx1).
    assert (Hnext : next_ptr ex = head_or L2' 0).
    { pose proof Hseg as Hseg0. apply seg_app in Hseg0 as (q & _ & Hs2).
      inversion Hs2 as [|p0 ex' l' q' Hv0 Hex' Hnx Hs2' E1 E2 E3]; subst.
      assert (ex' = ex) by congruence. subst ex'.
      apply (seg_start _ _ _ _ _ _ Hs2'). }
    rewrite (bind_peek _ _ f (if 0 <? x then (false, x) else (true, - x - 1)))
      by (apply loc_ok; assumption).
    rewrite (bind_eq _ _ f f ex).
    2:{ unfold _read, peek. rewrite entry_off_ptr by assumption.
        rewrite read_at_pos, Hex. reflexivity. }
    destruct (k <? key ex); [eexists _, _; reflexivity|].
    destruct ((key ex =? k) && rid_matches r ex).
    + destruct f as [hd es]. cbn [ents hdr] in *. subst prev.
      destruct (unlink_total m a hv es L1 L2' x ex hd Hm Ha Hlen Hst Hchain Hex Hsize)
        as (h' & f2 & Hun).
      rewrite (bind_eq _ _ _ _ _ Hun).
      apply (unlink_spec m a hv h' es L1 L2' x ex hd f2 Hm Ha Hlen Hds Hst Hchain Hex)
        in Hun as (Hhd & Hlen2 & Hds2 & Hst2 & Hchain2).
      destruct r as [r0|]; [eexists _, _; reflexivity|].
      apply (IH _ _ _ _ _ L1 L2'); auto. lia.
    + apply (IH _ _ _ _ _ (L1 ++ [x]) L2'); auto.
      * rewrite <- app_assoc. exact Hchain.
      * symmetry. apply last_or_snoc.
      * lia.
Qed.

(** [delete_key] returns on a well-formed index, while the pointers fit
    32 bits, with a unit of fuel for every counted entry. *)
Lemma delete_key_returns (fuel : nat) (k : Z) (r : option RID) (f : sfile) :
  WF f ->
  main_count f + aux_count f + 2 <= 2147483647 ->
  (Z.to_nat (main_count f + aux_count f) <= fuel)%nat ->
  exists n f', delete_key fuel k r f = (Ok n, f').
Proof.
  intros HWF Hsize Hfuel. destruct f as [[[m a] h] es].
  unfold WF, main_count, aux_count, head_ptr in *. cbn [hdr ents fst snd] in *.
  destruct HWF as (Hm & Ha & Hlen & Hds & Hst & l & Hchain).
  pose proof Hchain as (Hseg & Hnd & Hcov & Hsort).
  pose proof (chain_length m a es h l Hm Ha Hseg Hnd) as Hcl.
  unfold delete_key. rewrite (bind_eq _ _ _ _ _ (hdr_get_run _)). cbn [hdr].
  destruct (Z.eqb_spec h 0) as [Hh0|Hh0]; [eexists _, _; reflexivity|].
  set (f := {| hdr := (m, a, h); ents := es |}).
  destruct (lb_total k f) as [lb Hlb];
    [unfold main_count, f; cbn [hdr fst]; lia
    |unfold main_count, f; cbn [hdr ents fst]; lia |].
  rewrite (bind_eq _ _ _ _ _ Hlb).
  destruct (live_pred_total lb m f) as [[j dj] Hback]; [unfold f; cbn [ents]; lia|].
  rewrite (bind_eq _ _ _ _ _ Hback).
  unfold live_pred in Hback.
  apply back_loop_spec in Hback as (_ & Hjle & Hj).
  cbn [fst snd]. change (ents f) with es in Hj.
  assert (Hwalk : exists prev cur L1 L2,
             l = L1 ++ L2 /\ prev = last_or 0 L1 /\ cur = head_or L2 0 /\
             (if 1 <=? j then peek (fun _ => dptr j) else ret 0) f = (Ok prev, f) /\
             (if 1 <=? j then (dj <~ _read false j m ;; ret (next_ptr dj))%M else ret h) f
             = (Ok cur, f)).
  { destruct Hj as [(Hj1 & ej & -> & Hej & Hejn) | (Hj0 & ->)].
    - destruct (Z.leb_spec 1 j) as [_|]; [|lia].
      assert (Hjl : j ∈ l).
      { apply Hcov. split; [left; lia|]. exists ej. rewrite ptr_pos_D by lia. auto. }
      apply list_elem_of_split in Hjl as (l1 & l2 & El).
      exists j, (next_ptr ej), (l1 ++ [j]), l2.
      split; [rewrite <- app_assoc; exact El|].
      split; [symmetry; apply last_or_snoc|].
      split; [|split].
      + rewrite El in Hseg. apply seg_app in Hseg as (q & _ & Hs2).
        inversion Hs2 as [|p0 ex' l' q' Hv0 Hex' Hnx Hs2' E1 E2 E3]; subst.
        rewrite ptr_pos_D in Hex' by lia.
        assert (ex' = ej) by congruence. subst ex'.
        apply (seg_start _ _ _ _ _ _ Hs2').
      + unfold peek, dptr. destruct (Z.ltb_spec j 1); [lia | reflexivity].
      + unfold bind. rewrite read_D by lia. change (ents f) with es.
        rewrite Hej. reflexivity.
    - destruct (Z.leb_spec 1 j) as [|_]; [lia|].
      exists 0, h, [], l. split; [reflexivity|]. split; [reflexivity|].
      split; [apply (seg_start _ _ _ _ _ _ Hseg)|]. split; reflexivity. }
  destruct Hwalk as (prev & cur & L1 & L2 & El & Hprev & Hcur & Hp & Hc).
  rewrite (bind_eq _ _ _ _ _ Hp), (bind_eq _ _ _ _ _ Hc).
  rewrite El in Hchain.
  assert (Hf2 : (length L2 <= fuel)%nat).
  { rewrite El, length_app in Hcl. lia. }
  destruct (delete_walk_total m a k r fuel h prev cur 0 f L1 L2
              Hm Ha Hlen Hds Hst Hchain Hprev Hcur Hsize Hf2) as ([h' n] & f3 & Hw).
  rewrite (bind_eq _ _ _ _ _ Hw).
  apply (delete_walk_spec m a k r fuel h _ _ 0 f _ f3 L1 L2) in Hw; auto.
  destruct Hw as (Hhd & (_ & _ & _ & _ & _ & l3 & Hseg3 & _)). cbn [fst] in Hseg3.
  rewrite (bind_eq _ _ _ _ tt (hdr_set_run m a h' f3
             ltac:(apply fits_i32_range; lia) ltac:(apply fits_i32_range; lia)
             (fits_head m a h' _ l3 Hsize Hm Ha Hseg3))).
  eexists _, _. reflexivity.
Qed.

End DeleteFacts.

(** ** Sequential index: the logical list, [reorganize] and [search] *)

Module IndexFacts.
Import SeqFile SeqFileSpec SeqFileFacts SegFacts LoopFacts LinkFacts ReorgFacts
       InsertFacts DeleteFacts.

(** Under the invariant the traversal returns the list of the invariant. *)
Lemma logical_list_chain (f : sfile) (l0 : list Z) :
  let m := main_count f in
  let l := map (fun p => (p, entry_at m (ents f) p)) l0 in
  WF f -> chain_ok m (aux_count f) (head_ptr f) (ents f) l0 ->
  logical_list f = Ok l /\
  NoDup (map fst l) /\
  (forall p e, (p, e) ∈ l <-> live_entry f p e) /\
  StronglySorted Z.le (map (fun pe => key (snd pe)) l).
Proof.
  intros m l (Hm & Ha & Hlen & Hds & Hst & _) (Hseg & Hnd & Hcov & Hsort).
  fold m in Hm, Hlen, Hseg, Hcov, Hsort.
  pose proof (chain_length m _ _ _ l0 Hm Ha Hseg Hnd) as Hcl.
  assert (Hfst : map fst l = l0).
  { unfold l. rewrite map_map. cbn [fst]. apply map_id. }
  split; [|split; [|split]].
  - unfold logical_list. apply (logical_from_seg f l0 _ Hseg); auto. lia.
  - rewrite Hfst. exact Hnd.
  - intros p e. unfold l. split.
    + intros Hin. apply list_elem_of_fmap in Hin as (x & E & Hx).
      inversion E; subst p e.
      destruct (seg_valid _ _ _ _ _ _ Hseg x Hx) as [Hv (ex & Hex & Hn)].
      unfold live_entry. fold m. unfold entry_at. rewrite Hex. cbn [default]. auto.
    + intros (Hv & He & Hn). apply list_elem_of_fmap. exists p. split.
      * unfold entry_at. fold m in He. rewrite He. reflexivity.
      * apply Hcov. split; [exact Hv|]. exists e. auto.
  - unfold l. rewrite map_map. cbn [snd].
    erewrite map_ext; [exact Hsort|]. intros x. apply key_entry_at.
Qed.

Lemma WF_logical_ok (f : sfile) : WF f -> logical_ok f.
Proof.
  intros Hwf. pose proof Hwf as (_ & _ & _ & _ & _ & l0 & Hch).
  destruct (logical_list_chain f l0 Hwf Hch) as (H1 & H2 & H3 & H4).
  eexists. eauto.
Qed.

Lemma demo5_reachable : reachable demo5.
Proof.
  apply (reach_delete demo4 demo5 8 12 None 1); [|vm_compute; reflexivity].
  apply (reach_insert demo3 demo4 8 demo_e15'); [|vm_compute; reflexivity].
  apply (reach_insert demo2 demo3 8 demo_e12); [|vm_compute; reflexivity].
  apply (reach_insert demo1 demo2 8 demo_e15); [|vm_compute; reflexivity].
  apply (reach_insert empty demo1 8 demo_e10); [|vm_compute; reflexivity].
  apply reach_empty.
Defined.

(** C3. In every state of the index that insert, delete_key and reorganize
    reach from the empty index, following [next_ptr] from [head_ptr] (and
    skipping entries marked deleted) returns every live entry, each exactly
    once, in non-decreasing key order; and each of the three operations,
    run on such a state, leads to a state where this holds again. The
    operations do return there: for an entry [struct.pack] accepts, while
    the pointers fit 32 bits, with a unit of fuel for every counted entry. *)
Theorem logical_list_invariant (f : sfile) :
  reachable f ->
  logical_ok f /\
  (forall fuel e f', insert fuel e f = (Ok tt, f') -> logical_ok f') /\
  (forall fuel k r n f', delete_key fuel k r f = (Ok n, f') -> logical_ok f') /\
  (forall f', reorganize f = (Ok tt, f') -> logical_ok f') /\
  (main_count f + aux_count f + 2 <= 2147483647 ->
   forall fuel, (Z.to_nat (main_count f + aux_count f) <= fuel)%nat ->
     (forall e, storable e -> exists f', insert fuel e f = (Ok tt, f')) /\
     (forall k r, exists n f', delete_key fuel k r f = (Ok n, f')) /\
     (exists f', reorganize f = (Ok tt, f'))).
Proof.
  intros Hr. pose proof (reachable_WF f Hr) as Hwf.
  split; [apply WF_logical_ok; exact Hwf|]. split; [|split; [|split]].
  - intros fuel e f' H. apply WF_logical_ok. eapply insert_WF; eauto.
  - intros fuel k r n f' H. apply WF_logical_ok. eapply delete_WF; eauto.
  - intros f' H. apply WF_logical_ok. eapply reorganize_WF; eauto.
  - intros Hsize fuel Hfuel. split; [|split].
    + intros e He. apply insert_returns; assumption.
    + intros k r. apply delete_key_returns; assumption.
    + apply reorganize_total; [exact Hwf | lia].
Qed.

Lemma logical_list_invariant_witness :
  reachable demo5 /\
  logical_ok demo5 /\
  (forall fuel e f', insert fuel e demo5 = (Ok tt, f') -> logical_ok f') /\
  (forall fuel k r n f', delete_key fuel k r demo5 = (Ok n, f') -> logical_ok f') /\
  (forall f', reorganize demo5 = (Ok tt, f') -> logical_ok f') /\
  (main_count demo5 + aux_count demo5 + 2 <= 2147483647 ->
   forall fuel, (Z.to_nat (main_count demo5 + aux_count demo5) <= fuel)%nat ->
     (forall e, storable e -> exists f', insert fuel e demo5 = (Ok tt, f')) /\
     (forall k r, exists n f', delete_key fuel k r demo5 = (Ok n, f')) /\
     (exists f', reorganize demo5 = (Ok tt, f'))).
Proof.
  split; [exact demo5_reachable|].
  apply (logical_list_invariant demo5). exact demo5_reachable.
Defined.

Lemma demo5_WF : WF demo5.
Proof. apply reachable_WF. exact demo5_reachable. Qed.

(** C6. On a well-formed index, when [reorganize] returns: [aux_count] is
    0; D holds the live entries, in the order of the logical list, which is
    non-decreasing in the key; the entry at index i points to index i + 1 and
    the last one to the end; [head_ptr] is 1 when there is a live entry and
    0 otherwise. And [reorganize] does return when the counted entries are
    no more than a 32-bit header field can count. *)
Theorem reorganize_compacts (f : sfile) :
  WF f ->
  (main_count f + aux_count f <= 2147483647 ->
   exists f', reorganize f = (Ok tt, f')) /\
  forall f', reorganize f = (Ok tt, f') ->
    exists l,
      logical_list f = Ok l /\
      (forall p e, (p, e) ∈ l <-> live_entry f p e) /\
      NoDup (map fst l) /\
      StronglySorted Z.le (map (fun pe => key (snd pe)) l) /\
      aux_count f' = 0 /\
      main_count f' = Z.of_nat (length l) /\
      (forall i p e, l !! i = Some (p, e) ->
         ents f' !! i
         = Some (set_next e (if Z.of_nat i + 1 <? Z.of_nat (length l)
                             then Z.of_nat i + 2 else 0))) /\
      head_ptr f' = (if 1 <=? Z.of_nat (length l) then 1 else 0) /\
      (head_ptr f' = 0 <-> forall p e, ~ live_entry f p e).
Proof.
  intros Hwf. pose proof Hwf as (Hm & Ha & Hlen & Hds & Hst & l0 & Hch).
  pose proof Hch as (Hseg & Hnd & Hcov & Hsort).
  split.
  - intros Hsize. eexists. apply (reorganize_run f l0); auto.
    pose proof (chain_length _ _ _ _ l0 Hm Ha Hseg Hnd) as Hcl.
    unfold fits_i32. apply andb_true_intro. split; apply Z.leb_le; lia.
  - intros f' H.
    destruct (reorganize_inv f f' l0 Hwf Hch H) as [_ ->].
    destruct (logical_list_chain f l0 Hwf Hch) as (Hll & Hnd' & Hlive & Hsort').
    destruct (compacted_inv f l0 Hm Ha Hlen Hst Hch) as (Hent & _ & _).
    set (l := map (fun p => (p, entry_at (main_count f) (ents f) p)) l0) in *.
    assert (Hl : length l = length l0) by (unfold l; apply length_map).
    exists l. rewrite Hl.
    split; [exact Hll|]. split; [exact Hlive|]. split; [exact Hnd'|].
    split; [exact Hsort'|].
    unfold compacted at 1 2 4 5, aux_count, main_count, head_ptr.
    cbn [hdr fst snd]. rewrite length_map.
    split; [reflexivity|]. split; [reflexivity|]. split; [|split; [reflexivity|]].
    + intros i p e Hi. apply Hent. unfold l in Hi.
      change (map ?g l0) with (g <$> l0) in Hi.
      rewrite list_lookup_fmap in Hi.
      change (map ?g l0) with (g <$> l0). rewrite list_lookup_fmap.
      destruct (l0 !! i) as [x|]; [|discriminate].
      cbn in Hi |- *. inversion Hi; subst. reflexivity.
    + destruct l0 as [|x l0'].
      * cbn [length]. split; [|reflexivity].
        intros _ p e (Hv & He & Hn).
        assert (Hin : p ∈ []) by (apply Hcov; split; [exact Hv | eauto]).
        inversion Hin.
      * cbn [length]. destruct (Z.leb_spec 1 (Z.of_nat (S (length l0')))); [|lia].
        split; [lia|]. intros Hno. exfalso.
        destruct (seg_valid _ _ _ _ _ _ Hseg x ltac:(left)) as [Hv (ex & Hex & Hn)].
        apply (Hno x ex). split; auto.
Qed.

Lemma reorganize_compacts_witness :
  WF demo5 /\
  (main_count demo5 + aux_count demo5 <= 2147483647 ->
   exists f', reorganize demo5 = (Ok tt, f')) /\
  forall f', reorganize demo5 = (Ok tt, f') ->
    exists l,
      logical_list demo5 = Ok l /\
      (forall p e, (p, e) ∈ l <-> live_entry demo5 p e) /\
      NoDup (map fst l) /\
      StronglySorted Z.le (map (fun pe => key (snd pe)) l) /\
      aux_count f' = 0 /\
      main_count f' = Z.of_nat (length l) /\
      (forall i p e, l !! i = Some (p, e) ->
         ents f' !! i
         = Some (set_next e (if Z.of_nat i + 1 <? Z.of_nat (length l)
                             then Z.of_nat i + 2 else 0))) /\
      head_ptr f' = (if 1 <=? Z.of_nat (length l) then 1 else 0) /\
      (head_ptr f' = 0 <-> forall p e, ~ live_entry demo5 p e).
Proof.
  split; [exact demo5_WF|]. apply (reorganize_compacts demo5). exact demo5_WF.
Defined.

(** Entries already linked the way [reorganize] links them stay as they are. *)
Lemma relink_idem (n : Z) (out : list SFEntry) :
  forall i, relink n i (relink n i out) = relink n i out.
Proof.
  induction out as [|e out IH]; intros i; [reflexivity|].
  cbn [relink]. f_equal. apply IH.
Qed.

(** The entries the pointers to D name are the entries of D. *)
Lemma entry_at_dptrs (n : Z) (es : list SFEntry) (k : nat) :
  forall i : nat,
    (i + k <= length es)%nat ->
    map (entry_at n es) (dptrs (1 + Z.of_nat i) k) = take k (drop i es).
Proof.
  induction k as [|k IH]; intros i Hik; [reflexivity|].
  cbn [dptrs map].
  destruct (lookup_lt_is_Some_2 es i ltac:(lia)) as [e He].
  rewrite (drop_S es e i He). cbn [take]. f_equal.
  - unfold entry_at. rewrite ptr_pos_D by lia.
    replace (Z.to_nat (1 + Z.of_nat i - 1)) with i by lia.
    rewrite He. reflexivity.
  - replace (1 + Z.of_nat i + 1) with (1 + Z.of_nat (S i)) by lia.
    apply IH. lia.
Qed.

(** A second run of [reorganize] changes nothing. *)
Lemma reorganize_again (f f1 : sfile) :
  WF f -> reorganize f = (Ok tt, f1) -> reorganize f1 = (Ok tt, f1).
Proof.
  intros Hwf H. pose proof Hwf as (Hm & Ha & Hlen & Hds & Hst & l0 & Hch).
  pose proof Hch as (Hseg & Hnd & _ & _).
  destruct (reorganize_inv f f1 l0 Hwf Hch H) as [Hfit ->].
  destruct (compacted_inv f l0 Hm Ha Hlen Hst Hch) as (_ & Hinv & Hch1).
  pose proof (chain_length _ _ _ _ l0 Hm Ha Hseg Hnd) as Hcl.
  set (m := main_count f) in *. set (es := ents f) in *.
  set (out := map (entry_at m es) l0) in *.
  assert (Hlo : length out = length l0) by (unfold out; apply length_map).
  set (n := Z.of_nat (length l0)) in *.
  set (f1 := compacted f out) in *.
  assert (Hhdr : hdr f1 = (n, 0, if 1 <=? n then 1 else 0)).
  { unfold f1, compacted. cbn [hdr]. rewrite Hlo. reflexivity. }
  assert (Hents : ents f1 = relink n 1 out ++ drop (length l0) es).
  { unfold f1, compacted. cbn [ents]. rewrite Hlo. reflexivity. }
  destruct Hinv as (Hn0 & _ & Hlen1 & _ & Hst1 & _).
  destruct Hch1 as (Hseg1 & Hnd1 & _ & _).
  assert (Hrun := reorganize_run f1 (dptrs 1 (length l0))).
  unfold main_count, aux_count, head_ptr in Hrun. rewrite Hhdr in Hrun.
  cbn [fst snd] in Hrun. rewrite length_dptrs in Hrun.
  specialize (Hrun Hn0 ltac:(lia) Hlen1 Hst1 Hseg1 Hnd1 Hfit).
  rewrite Hrun. f_equal.
  assert (Htake : map (entry_at n (ents f1)) (dptrs 1 (length l0)) = relink n 1 out).
  { change 1 with (1 + Z.of_nat 0) at 1.
    rewrite entry_at_dptrs by (cbn [Nat.add]; lia).
    rewrite drop_0, Hents.
    rewrite take_app_length' by (rewrite length_relink; symmetry; exact Hlo). reflexivity. }
  rewrite Htake. unfold compacted. rewrite length_relink, Hlo. fold n.
  rewrite relink_idem. rewrite Hents at 1.
  rewrite drop_app_length' by (rewrite length_relink; symmetry; exact Hlo).
  rewrite <- Hents, <- Hhdr. destruct f1; reflexivity.
Qed.

(** C9. [reorganize] is idempotent: on a well-formed index, when a first
    run returns, a second run returns as well and leaves the file, header
    and entries, exactly as the first run left it; and both runs do return
    when the counted entries are no more than a 32-bit header field can
    count. *)
Theorem reorganize_idempotent (f : sfile) :
  WF f ->
  (forall f1, reorganize f = (Ok tt, f1) -> reorganize f1 = (Ok tt, f1)) /\
  (main_count f + aux_count f <= 2147483647 ->
   exists f1, reorganize f = (Ok tt, f1) /\ reorganize f1 = (Ok tt, f1)).
Proof.
  intros Hwf. split.
  - intros f1 H. exact (reorganize_again f f1 Hwf H).
  - intros Hsize. destruct (reorganize_total f Hwf Hsize) as [f1 H].
    exists f1. split; [exact H|]. exact (reorganize_again f f1 Hwf H).
Qed.

Lemma reorganize_idempotent_witness :
  WF demo5 /\
  (forall f1, reorganize demo5 = (Ok tt, f1) -> reorganize f1 = (Ok tt, f1)) /\
  (main_count demo5 + aux_count demo5 <= 2147483647 ->
   exists f1, reorganize demo5 = (Ok tt, f1) /\ reorganize f1 = (Ok tt, f1)).
Proof.
  split; [exact demo5_WF|]. apply (reorganize_idempotent demo5). exact demo5_WF.
Defined.

(** C1. Two entries with the same key are inserted into an empty index, one
    after the other. Both are live and in the logical list, the newer one
    first, as [range_search] shows; [search] of the key returns the RID of
    the older one alone, the one it finds in D by binary search. *)
Theorem search_returns_one_duplicate :
  insert 8 dup_old empty = (Ok tt, dup1) /\
  insert 8 dup_new dup1 = (Ok tt, dup2) /\
  fst (range_search 8 5 5 dup2)
  = Ok [set_next dup_new 1; set_next dup_old 0] /\
  fst (search 8 5 dup2) = Ok [rid dup_old].
Proof. vm_compute. repeat split; reflexivity. Qed.

End IndexFacts.

(** ** Sequential index: what the operations do to the list of keys and RIDs *)

Module IndexViewFacts.
Import SeqFile SeqFileSpec IndexView SeqFileFacts SegFacts LoopFacts LinkFacts
       ReorgFacts InsertFacts DeleteFacts IndexFacts.

(** *** [_lb] *)

(** X16. On a well-formed index [_lb k] returns the least index of D whose
    key is not below [k] ([main_count + 1] when there is none): the entries
    before it have smaller keys, the entries from it on have not; and it is
    monotone in [k]. *)
Theorem lb_least (f : sfile) (k : Z) :
  WF f ->
  exists i,
    _lb k f = (Ok i, f) /\
    1 <= i <= main_count f + 1 /\
    (forall j e, 1 <= j < i -> d_at f j = Some e -> key e < k) /\
    (forall j e, i <= j <= main_count f -> d_at f j = Some e -> k <= key e) /\
    (forall k' i', k <= k' -> _lb k' f = (Ok i', f) -> i <= i').
Proof.
  intros (Hm & Ha & Hlen & Hds & _).
  destruct (lb_total k f Hm ltac:(lia)) as [i Hrun].
  exists i. split; [exact Hrun|].
  destruct (lb_spec k f f i Hrun Hm) as (_ & Hr & Hlo & Hhi).
  assert (Hbelow : forall j e, 1 <= j < i -> d_at f j = Some e -> key e < k).
  { intros j e Hj He. unfold d_at in He. rewrite (proj2 (Z.leb_le 1 j)) in He by lia.
    destruct Hlo as [?|(e0 & He0 & Hk0)]; [lia|].
    assert (key e <= key e0); [|lia].
    apply (Hds (Z.to_nat (j - 1)) (Z.to_nat (i - 2)) e e0); auto; lia. }
  assert (Habove : forall j e, i <= j <= main_count f -> d_at f j = Some e -> k <= key e).
  { intros j e Hj He. unfold d_at in He. rewrite (proj2 (Z.leb_le 1 j)) in He by lia.
    destruct Hhi as [?|(e0 & He0 & Hk0)]; [lia|].
    assert (key e0 <= key e); [|lia].
    apply (Hds (Z.to_nat (i - 1)) (Z.to_nat (j - 1)) e0 e); auto; lia. }
  split; [exact Hr|]. split; [exact Hbelow|]. split; [exact Habove|].
  intros k' i' Hk Hrun'.
  destruct (lb_spec k' f f i' Hrun' Hm) as (_ & Hr' & Hlo' & Hhi').
  destruct (Z.le_gt_cases i i') as [|Hgt]; [assumption|]. exfalso.
  destruct Hhi' as [?|(e1 & He1 & Hk1)]; [lia|].
  assert (key e1 < k); [|lia].
  apply (Hbelow i' e1); [lia|]. unfold d_at.
  rewrite (proj2 (Z.leb_le 1 i')) by lia. exact He1.
Qed.

Lemma lb_least_witness :
  exists i,
    _lb 12 demo5 = (Ok i, demo5) /\
    1 <= i <= main_count demo5 + 1 /\
    (forall j e, 1 <= j < i -> d_at demo5 j = Some e -> key e < 12) /\
    (forall j e, i <= j <= main_count demo5 -> d_at demo5 j = Some e -> 12 <= key e) /\
    (forall k' i', 12 <= k' -> _lb k' demo5 = (Ok i', demo5) -> i <= i').
Proof. apply (lb_least demo5 12 demo5_WF). Defined.

(** *** The list of a well-formed index *)

Lemma live_entries_chain (f : sfile) (l0 : list Z) :
  WF f -> chain_ok (main_count f) (aux_count f) (head_ptr f) (ents f) l0 ->
  live_entries f = Ok (map (entry_at (main_count f) (ents f)) l0).
Proof.
  intros Hwf Hch. unfold live_entries.
  destruct (logical_list_chain f l0 Hwf Hch) as (-> & _). cbn [res_bind].
  rewrite map_map. reflexivity.
Qed.

Lemma view_chain (f : sfile) (l0 : list Z) :
  WF f -> chain_ok (main_count f) (aux_count f) (head_ptr f) (ents f) l0 ->
  view f = Ok (map (fun p => kr (entry_at (main_count f) (ents f) p)) l0).
Proof.
  intros Hwf Hch. unfold view.
  destruct (logical_list_chain f l0 Hwf Hch) as (-> & _). cbn [res_bind].
  rewrite map_map. reflexivity.
Qed.

Lemma view_live_entries (f : sfile) (es : list SFEntry) :
  live_entries f = Ok es -> view f = Ok (map kr es).
Proof.
  unfold live_entries, view. destruct (logical_list f) as [l| |]; cbn [res_bind];
    intros H; inversion H. rewrite map_map. reflexivity.
Qed.

Lemma sorted_entries (m : Z) (es : list SFEntry) (l : list Z) :
  StronglySorted Z.le (map (key_at m es) l) ->
  StronglySorted Z.le (map key (map (entry_at m es) l)).
Proof.
  intros H. rewrite map_map. erewrite map_ext; [exact H|].
  intros x. apply key_entry_at.
Qed.

(** *** The collecting walks *)

Lemma filter_above (P : SFEntry -> bool) (hi : Z) (l : list SFEntry) :
  (forall e, P e = true -> key e <= hi) ->
  Forall (fun e => hi < key e) l -> List.filter P l = [].
Proof.
  intros HP. induction 1 as [|e l He _ IH]; [reflexivity|].
  cbn [List.filter]. destruct (P e) eqn:E; [|exact IH].
  apply HP in E. lia.
Qed.

Lemma sorted_tail_above (x hi : Z) (l : list SFEntry) :
  StronglySorted Z.le (x :: map key l) -> hi < x ->
  Forall (fun e => hi < key e) l.
Proof.
  intros Hs Hx. apply StronglySorted_inv in Hs as [_ Hall].
  apply List.Forall_forall. intros e He.
  rewrite List.Forall_forall in Hall.
  assert (x <= key e); [|lia]. apply Hall. apply in_map. exact He.
Qed.

Lemma range_walk_run (m a lo hi : Z) (es : list SFEntry) (L : list Z) :
  forall cur, seg m a es cur L 0 ->
  StronglySorted Z.le (map (key_at m es) L) ->
  forall fuel out f,
    ents f = es -> 0 <= m -> 0 <= a -> (length L <= fuel)%nat ->
    range_walk fuel lo hi m cur out f
    = (Ok (out ++ List.filter (in_range lo hi) (map (entry_at m es) L)), f).
Proof.
  intros cur Hseg. remember 0 as q eqn:Hq.
  induction Hseg as [q|p e l q Hv He Hn Hseg IH];
    intros Hsort fuel out f Hes Hm Ha Hlen; subst q.
  - destruct fuel; cbn [range_walk map List.filter]; change (is_end 0) with true; cbv iota;
      rewrite app_nil_r; reflexivity.
  - destruct (valid_ptr_shape m a p Ha Hv) as (Hshape & Hp0 & Hp1).
    destruct fuel as [|fuel]; [cbn [length] in Hlen; lia|].
    cbn [range_walk]. unfold is_end. rewrite (proj2 (Z.eqb_neq _ _) Hp0).
    rewrite (bind_eq _ _ f f (if 0 <? p then (false, p) else (true, - p - 1)))
      by (unfold peek; rewrite loc_ok by assumption; reflexivity).
    rewrite (bind_eq _ _ f f e).
    2:{ unfold _read, peek. rewrite entry_off_ptr by assumption.
        rewrite read_at_pos, Hes, He. reflexivity. }
    unfold deleted. rewrite (proj2 (Z.eqb_neq _ _) Hn).
    assert (Ee : entry_at m es p = e) by (unfold entry_at; rewrite He; reflexivity).
    assert (Ek : key_at m es p = key e) by (unfold key_at; rewrite He; reflexivity).
    cbn [map] in *. rewrite Ee. cbn [List.filter]. unfold in_range at 1.
    destruct (Z.ltb_spec hi (key e)) as [Hhi|Hhi].
    + rewrite (proj2 (Z.leb_gt (key e) hi)) by lia. rewrite andb_false_r.
      rewrite (filter_above (in_range lo hi) hi).
      * rewrite app_nil_r. reflexivity.
      * intros e0. unfold in_range. rewrite andb_true_iff, !Z.leb_le. lia.
      * apply (sorted_tail_above (key e)); [|exact Hhi].
        rewrite map_map. erewrite map_ext; [rewrite <- Ek; exact Hsort|].
        intros x. apply key_entry_at.
    + rewrite (proj2 (Z.leb_le (key e) hi)) by lia. rewrite andb_true_r.
      apply StronglySorted_inv in Hsort as [Hsort _].
      rewrite (IH eq_refl Hsort fuel _ f Hes Hm Ha) by (cbn [length] in Hlen; lia).
      destruct (lo <=? key e); [rewrite <- app_assoc|]; reflexivity.
Qed.

Lemma search_walk_run (m a k : Z) (es : list SFEntry) (L : list Z) :
  forall cur, seg m a es cur L 0 ->
  StronglySorted Z.le (map (key_at m es) L) ->
  forall fuel out f,
    ents f = es -> 0 <= m -> 0 <= a -> (length L <= fuel)%nat ->
    search_walk fuel k m cur out f
    = (Ok (out ++ map rid (List.filter (fun e => key e =? k) (map (entry_at m es) L))), f).
Proof.
  intros cur Hseg. remember 0 as q eqn:Hq.
  induction Hseg as [q|p e l q Hv He Hn Hseg IH];
    intros Hsort fuel out f Hes Hm Ha Hlen; subst q.
  - destruct fuel; cbn [search_walk map List.filter]; change (is_end 0) with true; cbv iota;
      rewrite app_nil_r; reflexivity.
  - destruct (valid_ptr_shape m a p Ha Hv) as (Hshape & Hp0 & Hp1).
    destruct fuel as [|fuel]; [cbn [length] in Hlen; lia|].
    cbn [search_walk]. unfold is_end. rewrite (proj2 (Z.eqb_neq _ _) Hp0).
    rewrite (bind_eq _ _ f f (if 0 <? p then (false, p) else (true, - p - 1)))
      by (unfold peek; rewrite loc_ok by assumption; reflexivity).
    rewrite (bind_eq _ _ f f e).
    2:{ unfold _read, peek. rewrite entry_off_ptr by assumption.
        rewrite read_at_pos, Hes, He. reflexivity. }
    unfold deleted. rewrite (proj2 (Z.eqb_neq _ _) Hn).
    assert (Ee : entry_at m es p = e) by (unfold entry_at; rewrite He; reflexivity).
    assert (Ek : key_at m es p = key e) by (unfold key_at; rewrite He; reflexivity).
    cbn [map] in *. rewrite Ee. cbn [List.filter].
    destruct (Z.ltb_spec k (key e)) as [Hhi|Hhi].
    + rewrite (proj2 (Z.eqb_neq (key e) k)) by lia.
      rewrite (filter_above (fun e => key e =? k) k).
      * cbn [map]. rewrite app_nil_r. reflexivity.
      * intros e0 E0. apply Z.eqb_eq in E0. lia.
      * apply (sorted_tail_above (key e)); [|exact Hhi].
        rewrite map_map. erewrite map_ext; [rewrite <- Ek; exact Hsort|].
        intros x. apply key_entry_at.
    + apply StronglySorted_inv in Hsort as [Hsort _].
      rewrite (IH eq_refl Hsort fuel _ f Hes Hm Ha) by (cbn [length] in Hlen; lia).
      destruct (key e =? k); [cbn [map]; rewrite <- app_assoc|]; reflexivity.
Qed.

(** *** Where the walks start *)

(** [_lb] and the step back over tombstones cut the logical list in two:
    what lies before the start of the walk has keys below [k]. *)
Lemma start_split (m a h k : Z) (es : list SFEntry) (l : list Z) :
  let f := {| hdr := (m, a, h); ents := es |} in
  0 <= m -> 0 <= a -> m + a <= Z.of_nat (length es) ->
  (forall i j e1 e2, (i <= j)%nat -> Z.of_nat j < m ->
                     es !! i = Some e1 -> es !! j = Some e2 -> key e1 <= key e2) ->
  chain_ok m a h es l ->
  exists lb j dj L1 L2,
    _lb k f = (Ok lb, f) /\
    live_pred lb m f = (Ok (j, dj), f) /\
    1 <= lb <= m + 1 /\
    (lb = m + 1 \/ exists e, es !! Z.to_nat (lb - 1) = Some e /\ k <= key e) /\
    l = L1 ++ L2 /\
    (forall x, x ∈ L1 -> key_at m es x < k) /\
    match dj with Some e => next_ptr e | None => h end = head_or L2 0 /\
    ((1 <= j /\ exists ej, dj = Some ej /\ es !! Z.to_nat (j - 1) = Some ej
                           /\ last_or 0 L1 = j)
     \/ (j < 1 /\ dj = None /\ L1 = [])).
Proof.
  intros f Hm Ha Hlen Hds (Hseg & Hnd & Hcov & Hsort).
  destruct (lb_total k f) as [lb Hlb]; [cbn; lia | cbn; lia |].
  destruct (live_pred_total lb m f) as [[j dj] Hlp]; [cbn; lia|].
  exists lb, j, dj.
  destruct (lb_spec k f f lb Hlb) as (_ & Hlbr & Hlo & Hhi); [cbn; lia|].
  unfold main_count in Hlbr, Hhi. cbn [hdr ents fst snd f] in Hlbr, Hlo, Hhi.
  pose proof Hlp as Hback. unfold live_pred in Hback.
  apply back_loop_spec in Hback as (_ & Hjle & Hj). cbn [ents f] in Hj.
  destruct Hj as [(Hj1 & ej & -> & Hej & Hejn) | (Hj0 & ->)].
  - assert (Hjl : j ∈ l).
    { apply Hcov. split; [left; lia|]. exists ej. rewrite ptr_pos_D by lia. auto. }
    apply list_elem_of_split in Hjl as (l1 & l2 & El).
    exists (l1 ++ [j]), l2.
    split; [exact Hlb|]. split; [exact Hlp|]. split; [exact Hlbr|]. split; [exact Hhi|].
    split; [rewrite <- app_assoc; exact El|].
    assert (Hkj : key_at m es j < k).
    { unfold key_at. rewrite ptr_pos_D by lia. rewrite Hej.
      destruct Hlo as [?|(e0 & He0 & Hk0)]; [lia|].
      assert (key ej <= key e0); [|lia].
      apply (Hds (Z.to_nat (j - 1)) (Z.to_nat (lb - 2)) ej e0); auto; lia. }
    split; [|split].
    + intros x Hx. apply elem_of_app in Hx as [Hx|Hx].
      * assert (key_at m es x <= key_at m es j); [|lia].
        rewrite El, map_app in Hsort. cbn [map] in Hsort.
        apply (StronglySorted_app_1_elem_of _ _ _ _ _ Hsort).
        -- apply list_elem_of_fmap. exists x. auto.
        -- left.
      * apply list_elem_of_singleton in Hx. subst x. exact Hkj.
    + rewrite El in Hseg. apply seg_app in Hseg as (q & _ & Hs2).
      inversion Hs2 as [|p0 ex' l' q' Hv0 Hex' Hnx Hs2' E1 E2 E3]; subst.
      rewrite ptr_pos_D in Hex' by lia.
      assert (ex' = ej) by congruence. subst ex'.
      apply (seg_start _ _ _ _ _ _ Hs2').
    + left. split; [exact Hj1|]. exists ej. rewrite last_or_snoc. auto.
  - exists [], l.
    split; [exact Hlb|]. split; [exact Hlp|]. split; [exact Hlbr|]. split; [exact Hhi|].
    split; [reflexivity|]. split; [|split].
    + intros x Hx. inversion Hx.
    + apply (seg_start _ _ _ _ _ _ Hseg).
    + right. auto.
Qed.

Lemma filter_below (P : SFEntry -> bool) (m k : Z) (es : list SFEntry) (L : list Z) :
  (forall e, P e = true -> k <= key e) ->
  (forall x, x ∈ L -> key_at m es x < k) ->
  List.filter P (map (entry_at m es) L) = [].
Proof.
  intros HP. induction L as [|x L IH]; intros HL; [reflexivity|].
  cbn [map List.filter]. destruct (P (entry_at m es x)) eqn:E.
  - apply HP in E. rewrite key_entry_at in E.
    assert (key_at m es x < k) by (apply HL; left). lia.
  - apply IH. intros y Hy. apply HL. right. exact Hy.
Qed.

(** *** [range_search] *)

Lemma range_search_run (fuel : nat) (lo hi : Z) (f : sfile) :
  WF f ->
  (Z.to_nat (main_count f + aux_count f) <= fuel)%nat ->
  exists es,
    live_entries f = Ok es /\
    StronglySorted Z.le (map key es) /\
    range_search fuel lo hi f
    = (Ok (List.filter (in_range (Z.min lo hi) (Z.max lo hi)) es), f).
Proof.
  intros HWF Hfuel. pose proof HWF as (Hm & Ha & Hlen & Hds & Hst & l & Hchain).
  exists (map (entry_at (main_count f) (ents f)) l).
  split; [apply live_entries_chain; assumption|].
  pose proof Hchain as (Hseg & Hnd & Hcov & Hsort).
  split; [apply sorted_entries; exact Hsort|].
  pose proof (chain_length _ _ _ _ l Hm Ha Hseg Hnd) as Hcl.
  destruct f as [[[m a] h] es].
  unfold main_count, aux_count, head_ptr in *. cbn [hdr ents fst snd] in *.
  unfold range_search.
  assert (E : (if hi <? lo then (hi, lo) else (lo, hi)) = (Z.min lo hi, Z.max lo hi)).
  { destruct (Z.ltb_spec hi lo); f_equal; lia. }
  rewrite E. clear E. set (lo' := Z.min lo hi). set (hi' := Z.max lo hi).
  rewrite (bind_eq _ _ _ _ _ (hdr_get_run _)). cbn [hdr].
  destruct (Z.eqb_spec h 0) as [Hh0|Hh0].
  { subst h. apply seg_zero_nil in Hseg; [|exact Ha]. subst l. reflexivity. }
  destruct (start_split m a h lo' es l Hm Ha Hlen Hds Hchain)
    as (lb & j & dj & L1 & L2 & Hlb & Hlp & _ & _ & El & Hsmall & Hstart & _).
  rewrite (bind_eq _ _ _ _ _ Hlb). rewrite (bind_eq _ _ _ _ _ Hlp). cbn [snd].
  rewrite Hstart. subst l.
  apply seg_app in Hseg as (q & Hs1 & Hs2).
  rewrite <- (seg_start _ _ _ _ _ _ Hs2).
  rewrite map_app in Hsort. apply StronglySorted_app_1_r in Hsort.
  rewrite (range_walk_run m a lo' hi' es L2 q Hs2 Hsort); auto.
  2:{ rewrite length_app in Hcl. lia. }
  rewrite map_app, List.filter_app.
  rewrite (filter_below (in_range lo' hi') m lo' es L1); [reflexivity| |exact Hsmall].
  intros e. unfold in_range. rewrite andb_true_iff, !Z.leb_le. lia.
Qed.

(** X17. On a well-formed index [range_search lo hi] returns, in the order
    of the logical list, exactly the live entries whose key lies between the
    smaller and the larger of the two bounds (so the bounds may come in
    either order), and leaves the file as it is. *)
Theorem range_search_exact (fuel : nat) (lo hi : Z) (f : sfile) :
  WF f ->
  (Z.to_nat (main_count f + aux_count f) <= fuel)%nat ->
  exists es,
    live_entries f = Ok es /\
    StronglySorted Z.le (map key es) /\
    range_search fuel lo hi f
    = (Ok (List.filter (in_range (Z.min lo hi) (Z.max lo hi)) es), f).
Proof. apply range_search_run. Qed.

Lemma range_search_exact_witness :
  exists es,
    live_entries demo5 = Ok es /\
    StronglySorted Z.le (map key es) /\
    range_search 8 20 10 demo5
    = (Ok (List.filter (in_range (Z.min 20 10) (Z.max 20 10)) es), demo5).
Proof. apply (range_search_exact 8 20 10 demo5 demo5_WF). vm_compute. lia. Defined.

(** *** [search] *)

Lemma elem_of_filter_entries (P : SFEntry -> bool) (l : list SFEntry) (e : SFEntry) :
  e ∈ l -> P e = true -> e ∈ List.filter P l.
Proof.
  intros He HP. apply list_elem_of_In. apply List.filter_In.
  split; [apply list_elem_of_In; exact He | exact HP].
Qed.

Lemma search_run (fuel : nat) (k : Z) (f : sfile) :
  WF f ->
  (Z.to_nat (main_count f + aux_count f) <= fuel)%nat ->
  exists es out,
    live_entries f = Ok es /\
    search fuel k f = (Ok out, f) /\
    let all := map rid (List.filter (fun e => key e =? k) es) in
    (forall r, r ∈ out -> r ∈ all) /\
    (out = [] <-> all = []) /\
    (out = all \/
     exists i e, _lb k f = (Ok i, f) /\ d_at f i = Some e /\
                 deleted e = false /\ key e = k /\ out = [rid e]).
Proof.
  intros HWF Hfuel. pose proof HWF as (Hm & Ha & Hlen & Hds & Hst & l & Hchain).
  exists (map (entry_at (main_count f) (ents f)) l).
  pose proof (live_entries_chain f l HWF Hchain) as Hle.
  pose proof Hchain as (Hseg & Hnd & Hcov & Hsort).
  pose proof (chain_length _ _ _ _ l Hm Ha Hseg Hnd) as Hcl.
  destruct f as [[[m a] h] es].
  unfold main_count, aux_count, head_ptr in *. cbn [hdr ents fst snd] in *.
  set (f := {| hdr := (m, a, h); ents := es |}) in *.
  set (all := map rid (List.filter (fun e => key e =? k) (map (entry_at m es) l))).
  assert (Hrun : exists out,
            search fuel k f = (Ok out, f) /\
            (out = all \/
             exists i e, _lb k f = (Ok i, f) /\ d_at f i = Some e /\
                         deleted e = false /\ key e = k /\ out = [rid e] /\
                         rid e ∈ all)).
  { unfold search. rewrite (bind_eq _ _ _ _ _ (hdr_get_run _)).
    change (hdr f) with (m, a, h). cbv iota beta.
    destruct (Z.eqb_spec h 0) as [Hh0|Hh0].
    { exists []. split; [reflexivity|]. left.
      subst h. apply seg_zero_nil in Hseg; [|exact Ha]. unfold all. subst l. reflexivity. }
    destruct (start_split m a h k es l Hm Ha Hlen Hds Hchain)
      as (lb & j & dj & L1 & L2 & Hlb & Hlp & Hlbr & Hhi & El & Hsmall & Hstart & _).
    fold f in Hlb, Hlp.
    assert (Hslow :
      (jr <~ live_pred lb m ;;
       search_walk fuel k m
         match snd jr with Some dj0 => next_ptr dj0 | None => h end [])%M f
      = (Ok all, f)).
    { rewrite (bind_eq _ _ _ _ _ Hlp). cbn [snd]. rewrite Hstart.
      pose proof Hseg as Hseg0. rewrite El in Hseg0.
      apply seg_app in Hseg0 as (q & Hs1 & Hs2).
      rewrite <- (seg_start _ _ _ _ _ _ Hs2).
      pose proof Hsort as Hsort0. rewrite El, map_app in Hsort0.
      apply StronglySorted_app_1_r in Hsort0.
      rewrite (search_walk_run m a k es L2 q Hs2 Hsort0); auto.
      2:{ rewrite El, length_app in Hcl. lia. }
      unfold all. rewrite El, map_app, List.filter_app.
      rewrite (filter_below (fun e => key e =? k) m k es L1); [reflexivity| |exact Hsmall].
      intros e E. apply Z.eqb_eq in E. lia. }
    rewrite (bind_eq _ _ _ _ _ Hlb).
    destruct ((1 <=? lb) && (lb <=? m)) eqn:Hin.
    2:{ rewrite (bind_eq _ _ f f None (eq_refl : ret None _ = _)). rewrite Hslow.
        exists all. split; [reflexivity | left; reflexivity]. }
    apply andb_true_iff in Hin as [H1 H2]. apply Z.leb_le in H1, H2.
    destruct (es !! Z.to_nat (lb - 1)) as [e|] eqn:He.
    2:{ apply lookup_ge_None in He. lia. }
    assert (Hrd : _read false lb m f = (Ok e, f)).
    { rewrite read_D by lia. change (ents f) with es. rewrite He. reflexivity. }
    destruct (negb (deleted e) && (key e =? k)) eqn:Hhit.
    2:{ rewrite (bind_eq _ _ f f None).
        2:{ unfold bind. rewrite Hrd, Hhit. reflexivity. }
        rewrite Hslow. exists all. split; [reflexivity | left; reflexivity]. }
    rewrite (bind_eq _ _ f f (Some [rid e])).
    2:{ unfold bind. rewrite Hrd, Hhit. reflexivity. }
    apply andb_true_iff in Hhit as [Hlive Hk]. apply negb_true_iff in Hlive.
    apply Z.eqb_eq in Hk.
    exists [rid e]. split; [reflexivity|]. right. exists lb, e.
    split; [exact Hlb|]. split.
    { unfold d_at. rewrite (proj2 (Z.leb_le 1 lb) H1). exact He. }
    split; [exact Hlive|]. split; [exact Hk|]. split; [reflexivity|].
    unfold all. apply list_elem_of_fmap. exists e. split; [reflexivity|].
    apply elem_of_filter_entries; [|apply Z.eqb_eq; exact Hk].
    apply list_elem_of_fmap. exists lb. split.
    - unfold entry_at. rewrite ptr_pos_D by lia. rewrite He. reflexivity.
    - apply Hcov. split; [left; lia|]. exists e. rewrite ptr_pos_D by lia.
      split; [exact He|]. unfold deleted in Hlive. apply Z.eqb_neq. exact Hlive. }
  destruct Hrun as (out & Hs & Hcase). exists out.
  split; [exact Hle|]. split; [exact Hs|]. fold all.
  destruct Hcase as [->|(i & e & Hlb & Hd & Hlive & Hk & -> & Hein)].
  - split; [auto|]. split; [tauto|]. left. reflexivity.
  - split; [|split].
    + intros r Hr. apply list_elem_of_singleton in Hr. subst r. exact Hein.
    + split; [discriminate|]. intros E. rewrite E in Hein. inversion Hein.
    + right. exists i, e. auto.
Qed.

(** X18. On a well-formed index [search k] leaves the file as it is and
    returns RIDs of live entries with key [k] only; it returns the empty
    list exactly when there is no such entry; and what it returns is either
    the RIDs of all of them, in the order of the logical list, or the RID of
    the single entry of D that [_lb k] names, when that entry is live and
    has key [k]. *)
Theorem search_sound (fuel : nat) (k : Z) (f : sfile) :
  WF f ->
  (Z.to_nat (main_count f + aux_count f) <= fuel)%nat ->
  exists es out,
    live_entries f = Ok es /\
    search fuel k f = (Ok out, f) /\
    let all := map rid (List.filter (fun e => key e =? k) es) in
    (forall r, r ∈ out -> r ∈ all) /\
    (out = [] <-> all = []) /\
    (out = all \/
     exists i e, _lb k f = (Ok i, f) /\ d_at f i = Some e /\
                 deleted e = false /\ key e = k /\ out = [rid e]).
Proof. apply search_run. Qed.

Lemma search_sound_witness :
  exists es out,
    live_entries dup2 = Ok es /\
    search 8 5 dup2 = (Ok out, dup2) /\
    let all := map rid (List.filter (fun e => key e =? 5) es) in
    (forall r, r ∈ out -> r ∈ all) /\
    (out = [] <-> all = []) /\
    (out = all \/
     exists i e, _lb 5 dup2 = (Ok i, dup2) /\ d_at dup2 i = Some e /\
                 deleted e = false /\ key e = 5 /\ out = [rid e]).
Proof.
  apply (search_sound 8 5 dup2).
  - apply (insert_WF 8 dup_new dup1); [|vm_compute; reflexivity].
    apply (insert_WF 8 dup_old empty); [apply empty_WF | vm_compute; reflexivity].
  - vm_compute. lia.
Defined.

(** *** [reorganize] *)

Lemma map_kr_relink (n : Z) (out : list SFEntry) :
  forall i, map kr (relink n i out) = map kr out.
Proof.
  induction out as [|e out IH]; intros i; [reflexivity|].
  cbn [relink map]. rewrite IH. reflexivity.
Qed.

Lemma reorganize_view (f f' : sfile) :
  WF f -> reorganize f = (Ok tt, f') -> view f' = view f.
Proof.
  intros Hwf H. pose proof Hwf as (Hm & Ha & Hlen & Hds & Hst & l0 & Hch).
  pose proof Hch as (Hseg & Hnd & _ & _).
  pose proof (reorganize_WF f f' Hwf H) as Hwf'.
  destruct (reorganize_inv f f' l0 Hwf Hch H) as [Hfit ->].
  destruct (compacted_inv f l0 Hm Ha Hlen Hst Hch) as (_ & Hinv & Hch1).
  pose proof (chain_length _ _ _ _ l0 Hm Ha Hseg Hnd) as Hcl.
  rewrite (view_chain f l0 Hwf Hch).
  set (m := main_count f) in *. set (es := ents f) in *.
  set (out := map (entry_at m es) l0) in *.
  assert (Hlo : length out = length l0) by (unfold out; apply length_map).
  set (n := Z.of_nat (length l0)) in *.
  set (f1 := compacted f out) in *.
  assert (Hhdr : hdr f1 = (n, 0, if 1 <=? n then 1 else 0)).
  { unfold f1, compacted. cbn [hdr]. rewrite Hlo. reflexivity. }
  assert (Hents : ents f1 = relink n 1 out ++ drop (length l0) es).
  { unfold f1, compacted. cbn [ents]. rewrite Hlo. reflexivity. }
  assert (Hch1' : chain_ok (main_count f1) (aux_count f1) (head_ptr f1) (ents f1)
                           (dptrs 1 (length l0))).
  { unfold main_count, aux_count, head_ptr. rewrite Hhdr. exact Hch1. }
  rewrite (view_chain f1 _ Hwf' Hch1').
  unfold main_count at 1. rewrite Hhdr. cbn [fst]. f_equal.
  rewrite <- (map_map (entry_at n (ents f1)) kr).
  change 1 with (1 + Z.of_nat 0) at 1.
  destruct Hinv as (_ & _ & Hlen1 & _).
  rewrite entry_at_dptrs by (cbn [Nat.add]; lia).
  rewrite drop_0, Hents.
  rewrite take_app_length' by (rewrite length_relink; symmetry; exact Hlo).
  rewrite map_kr_relink. unfold out. rewrite map_map. reflexivity.
Qed.

Lemma maybe_reorg_view (f f' : sfile) :
  WF f -> _maybe_reorg f = (Ok tt, f') -> view f' = view f.
Proof.
  intros Hwf H. unfold _maybe_reorg in H.
  rewrite (bind_eq _ _ _ _ _ (hdr_get_run _)) in H.
  destruct (hdr f) as [[m a] h].
  destruct (Z.log2 (Z.max 1 (m + 1)) <? a).
  - eapply reorganize_view; eauto.
  - inversion H; subst. reflexivity.
Qed.

(** After [_maybe_reorg] the auxiliary area holds no more entries than the
    integer logarithm of the size of D allows. *)
Lemma maybe_reorg_aux (f f' : sfile) :
  WF f -> _maybe_reorg f = (Ok tt, f') ->
  aux_count f' <= Z.log2 (Z.max 1 (main_count f' + 1)).
Proof.
  intros Hwf H. unfold _maybe_reorg in H.
  rewrite (bind_eq _ _ _ _ _ (hdr_get_run _)) in H.
  destruct (hdr f) as [[m a] h] eqn:Eh.
  destruct (Z.ltb_spec (Z.log2 (Z.max 1 (m + 1))) a) as [Hlt|Hge].
  - pose proof Hwf as (_ & _ & _ & _ & _ & l0 & Hch).
    destruct (reorganize_inv f f' l0 Hwf Hch H) as [_ ->].
    unfold aux_count, main_count, compacted. cbn [hdr fst snd].
    apply Z.log2_nonneg.
  - inversion H; subst f'. unfold aux_count, main_count. rewrite Eh. exact Hge.
Qed.

(** [_maybe_reorg] never makes the counted part of the file longer. *)
Lemma maybe_reorg_count (f f' : sfile) :
  WF f -> _maybe_reorg f = (Ok tt, f') ->
  main_count f' + aux_count f' <= main_count f + aux_count f.
Proof.
  intros Hwf H. unfold _maybe_reorg in H.
  rewrite (bind_eq _ _ _ _ _ (hdr_get_run _)) in H.
  destruct (hdr f) as [[m a] h] eqn:Eh.
  destruct (Z.ltb_spec (Z.log2 (Z.max 1 (m + 1))) a) as [Hlt|Hge].
  - pose proof Hwf as (Hm & Ha & _ & _ & _ & l0 & Hch).
    pose proof Hch as (Hseg & Hnd & _ & _).
    pose proof (chain_length _ _ _ _ l0 Hm Ha Hseg Hnd) as Hcl.
    destruct (reorganize_inv f f' l0 Hwf Hch H) as [_ ->].
    unfold aux_count, main_count, compacted in *. cbn [hdr fst snd].
    rewrite length_map. lia.
  - inversion H; subst f'. lia.
Qed.

Lemma rids_of_key (k : Z) (es : list SFEntry) :
  map rid (List.filter (fun e => key e =? k) es)
  = map snd (List.filter (fun p : Z * RID => fst p =? k) (map kr es)).
Proof.
  induction es as [|e es IH]; [reflexivity|].
  cbn [List.filter map kr fst]. destruct (key e =? k); cbn [map snd kr]; rewrite IH; reflexivity.
Qed.

Lemma rid_of_key_in (k : Z) (r : RID) (v : list (Z * RID)) :
  r ∈ map snd (List.filter (fun p : Z * RID => fst p =? k) v) -> (k, r) ∈ v.
Proof.
  intros H. apply list_elem_of_fmap in H as ([k' r'] & E & Hin). cbn [snd] in E. subst r'.
  apply list_elem_of_In, List.filter_In in Hin as [Hin Hk]. cbn [fst] in Hk.
  apply Z.eqb_eq in Hk. subst k'. apply list_elem_of_In. exact Hin.
Qed.

(** X22. Compacting keeps the logical list: [reorganize] returns (while the
    counted entries fit a 32-bit header field) and leaves the keys and RIDs
    of the logical list, and their order, as they are. So [range_search]
    finds entries with the same keys and RIDs, in the same order, before and
    after; and [search] of a key, before and after, returns only RIDs the
    list holds under that key and is empty after exactly when it was empty
    before. What [search] returns need not be the same list: its direct hit
    in D can name another entry of the key once D is rewritten. *)
Theorem reorganize_keeps_entries (f : sfile) :
  WF f ->
  (main_count f + aux_count f <= 2147483647 ->
   exists f', reorganize f = (Ok tt, f')) /\
  forall f', reorganize f = (Ok tt, f') ->
    exists v,
      view f = Ok v /\ view f' = Ok v /\
      forall fuel,
        (Z.to_nat (main_count f + aux_count f) <= fuel)%nat ->
        (forall lo hi, exists out out',
           range_search fuel lo hi f = (Ok out, f) /\
           range_search fuel lo hi f' = (Ok out', f') /\
           map kr out' = map kr out) /\
        (forall k, exists out out',
           search fuel k f = (Ok out, f) /\
           search fuel k f' = (Ok out', f') /\
           (out = [] <-> out' = []) /\
           (forall r, r ∈ out -> (k, r) ∈ v) /\
           (forall r, r ∈ out' -> (k, r) ∈ v)).
Proof.
  intros Hwf. split; [apply reorganize_total; exact Hwf|].
  intros f' H. pose proof (reorganize_WF f f' Hwf H) as Hwf'.
  pose proof (reorganize_view f f' Hwf H) as Hv.
  pose proof Hwf as (Hm & Ha & _ & _ & _ & l0 & Hch).
  eexists. split; [apply (view_chain f l0 Hwf Hch)|].
  split; [rewrite Hv; apply (view_chain f l0 Hwf Hch)|].
  intros fuel Hfuel.
  assert (Hfuel' : (Z.to_nat (main_count f' + aux_count f') <= fuel)%nat).
  { pose proof Hch as (Hseg & Hnd & _ & _).
    pose proof (chain_length _ _ _ _ l0 Hm Ha Hseg Hnd) as Hcl.
    destruct (reorganize_inv f f' l0 Hwf Hch H) as [_ ->].
    unfold main_count, aux_count, compacted. cbn [hdr fst snd].
    rewrite length_map. unfold main_count, aux_count in *. lia. }
  split.
  - intros lo hi.
    destruct (range_search_run fuel lo hi f Hwf Hfuel) as (es & Hes & _ & Hr).
    destruct (range_search_run fuel lo hi f' Hwf' Hfuel') as (es' & Hes' & _ & Hr').
    eexists. eexists. split; [exact Hr|]. split; [exact Hr'|].
    apply view_live_entries in Hes, Hes'. rewrite Hv, Hes in Hes'.
    inversion Hes' as [E].
    assert (Hfk : forall l,
              map kr (List.filter (in_range (Z.min lo hi) (Z.max lo hi)) l)
              = List.filter (fun p : Z * RID =>
                               (Z.min lo hi <=? fst p) && (fst p <=? Z.max lo hi))
                            (map kr l)).
    { intros l. symmetry.
      exact (filter_map_swap (fun p : Z * RID =>
               (Z.min lo hi <=? fst p) && (fst p <=? Z.max lo hi)) kr l). }
    rewrite (Hfk es), (Hfk es'), E. reflexivity.
  - intros k.
    destruct (search_run fuel k f Hwf Hfuel) as (es & out & Hes & Hs & Hsub & Hemp & _).
    destruct (search_run fuel k f' Hwf' Hfuel') as (es' & out' & Hes' & Hs' & Hsub' & Hemp' & _).
    cbv zeta in Hsub, Hemp, Hsub', Hemp'.
    apply view_live_entries in Hes, Hes'.
    rewrite (view_chain f l0 Hwf Hch) in Hes. inversion Hes as [Ev].
    rewrite Hv, (view_chain f l0 Hwf Hch) in Hes'. inversion Hes' as [Ev'].
    rewrite rids_of_key in Hsub, Hemp, Hsub', Hemp'.
    rewrite <- Ev in Hsub, Hemp. rewrite <- Ev' in Hsub', Hemp'.
    exists out, out'. split; [exact Hs|]. split; [exact Hs'|].
    split; [rewrite Hemp, Hemp'; reflexivity|].
    split; intros r Hr; apply rid_of_key_in; auto.
Qed.

Lemma dup2_WF : WF dup2.
Proof.
  apply (insert_WF 8 dup_new dup1); [|vm_compute; reflexivity].
  apply (insert_WF 8 dup_old empty); [apply empty_WF | vm_compute; reflexivity].
Qed.

Lemma reorganize_keeps_entries_witness :
  reorganize dup2 = (Ok tt, dup3) /\
  exists v,
    view dup2 = Ok v /\ view dup3 = Ok v /\
    (exists out out',
       range_search 8 5 5 dup2 = (Ok out, dup2) /\
       range_search 8 5 5 dup3 = (Ok out', dup3) /\
       map kr out' = map kr out) /\
    (exists out out',
       search 8 5 dup2 = (Ok out, dup2) /\
       search 8 5 dup3 = (Ok out', dup3) /\
       (out = [] <-> out' = []) /\
       (forall r, r ∈ out -> (5, r) ∈ v) /\
       (forall r, r ∈ out' -> (5, r) ∈ v)) /\
    fst (search 8 5 dup2) = Ok [mkRID 0 0] /\
    fst (search 8 5 dup3) = Ok [mkRID 0 1].
Proof.
  split; [vm_compute; reflexivity|].
  destruct (proj2 (reorganize_keeps_entries dup2 dup2_WF) dup3 ltac:(vm_compute; reflexivity))
    as (v & Hv & Hv' & Hall).
  exists v. split; [exact Hv|]. split; [exact Hv'|].
  destruct (Hall 8%nat ltac:(vm_compute; lia)) as [Hrange Hsearch].
  split; [exact (Hrange 5 5)|]. split; [exact (Hsearch 5)|].
  split; vm_compute; reflexivity.
Defined.

(** *** [insert] *)

Lemma view_of_seg (f : sfile) (L : list Z) :
  WF f -> seg (main_count f) (aux_count f) (ents f) (head_ptr f) L 0 ->
  view f = Ok (map (fun p => kr (entry_at (main_count f) (ents f) p)) L).
Proof.
  intros Hwf HL. pose proof Hwf as (_ & Ha & _ & _ & _ & l0 & Hch).
  pose proof Hch as (Hseg & _).
  rewrite (seg_unique _ _ _ _ l0 Ha Hseg L HL). apply view_chain; assumption.
Qed.

Lemma entry_at_put_ne (m : Z) (es : list SFEntry) (i : nat) (e : SFEntry) (x : Z) :
  ptr_pos m x <> i -> (ptr_pos m x < length es)%nat ->
  entry_at m (put i e es) x = entry_at m es x.
Proof. intros Hne Hlt. unfold entry_at. rewrite lookup_put_ne by auto. reflexivity. Qed.

Lemma kr_put_next (m : Z) (es : list SFEntry) (y x n : Z) (ey : SFEntry) :
  es !! ptr_pos m y = Some ey ->
  (ptr_pos m x < length es)%nat ->
  kr (entry_at m (put (ptr_pos m y) (set_next ey n) es) x) = kr (entry_at m es x).
Proof.
  intros Hey Hx. destruct (Nat.eq_dec (ptr_pos m x) (ptr_pos m y)) as [E|NE].
  - unfold entry_at. rewrite E, lookup_put_eq, Hey. reflexivity.
  - rewrite entry_at_put_ne by auto. reflexivity.
Qed.

Lemma put_sorted_split (k : Z) (r : RID) (A B : list (Z * RID)) :
  (forall x, x ∈ A -> fst x < k) ->
  (forall y B', B = y :: B' -> k <= fst y) ->
  put_sorted k r (A ++ B) = A ++ (k, r) :: B.
Proof.
  intros HA HB. induction A as [|[k' r'] A IH]; cbn [app put_sorted].
  - destruct B as [|[k' r'] B']; [reflexivity|]. cbn [put_sorted].
    specialize (HB (k', r') B' eq_refl). cbn [fst] in HB.
    rewrite (proj2 (Z.ltb_ge k' k)) by lia. reflexivity.
  - assert (k' < k) by (apply (HA (k', r')); left).
    rewrite (proj2 (Z.ltb_lt k' k)) by lia. rewrite IH; [reflexivity|].
    intros x Hx. apply HA. right. exact Hx.
Qed.

Section SpliceView.
Variables (m a h : Z) (es : list SFEntry) (l : list Z) (hd : Z * Z * Z).
Hypothesis Hm : 0 <= m.
Hypothesis Ha : 0 <= a.
Hypothesis Hlen : m + a <= Z.of_nat (length es).
Hypothesis Hdsort :
  forall i j e1 e2, (i <= j)%nat -> Z.of_nat j < m ->
                    es !! i = Some e1 -> es !! j = Some e2 -> key e1 <= key e2.
Hypothesis Hstor :
  forall i e, Z.of_nat i < m + a -> es !! i = Some e -> storable e.
Hypothesis Hchain : chain_ok m a h es l.

Variables (e : SFEntry) (L1 L2 : list Z).
Hypothesis Hsplit : l = L1 ++ L2.
Hypothesis Hsmall : forall x, x ∈ L1 -> key_at m es x < key e.
Hypothesis Hbig : forall x L2', L2 = x :: L2' -> key e <= key_at m es x.

Let newp : Z := - (a + 2).
Let cur : Z := head_or L2 0.
Let es2 : list SFEntry := put (Z.to_nat (m + a)) (set_next e cur) es.

Lemma sv_valid (x : Z) : x ∈ l -> valid_ptr m a x.
Proof. destruct Hchain as (Hseg & _). intros Hx. apply (seg_valid _ _ _ _ _ _ Hseg x Hx). Qed.

Lemma sv_pos (x : Z) : x ∈ l -> Z.of_nat (ptr_pos m x) < m + a.
Proof. intros Hx. apply ptr_pos_bound; auto. apply sv_valid, Hx. Qed.

Lemma sv_es2_old (i : nat) : Z.of_nat i < m + a -> es2 !! i = es !! i.
Proof. intros Hi. unfold es2. apply lookup_put_ne; lia. Qed.

Lemma sv_es2_new : es2 !! ptr_pos m newp = Some (set_next e cur).
Proof. unfold newp. rewrite newp_pos by assumption. apply lookup_put_eq. Qed.

Lemma sv_cur_ok : cur <> DELETED.
Proof.
  unfold cur. destruct L2 as [|x L2'] eqn:E; cbn [head_or]; [discriminate|].
  assert (Hx : valid_ptr m a x).
  { apply sv_valid. rewrite Hsplit. apply elem_of_app. right. left. }
  unfold valid_ptr, DELETED in *. lia.
Qed.

Lemma sv_segs : seg m a es h L1 cur /\ seg m a es cur L2 0.
Proof.
  destruct Hchain as (Hseg & _). rewrite Hsplit in Hseg.
  apply seg_app in Hseg as (q & H1 & H2).
  rewrite (seg_start _ _ _ _ _ _ H2) in H1. fold cur in H1.
  split; [exact H1|]. rewrite (seg_start _ _ _ _ _ _ H2) in H2. exact H2.
Qed.

(** The list after the new entry became the head. *)
Lemma link_front_seg : L1 = [] -> seg m (a + 1) es2 newp (newp :: L2) 0.
Proof.
  intros HL1. destruct sv_segs as [H1 H2].
  econstructor.
  - apply valid_succ; [exact Ha | right; reflexivity].
  - apply sv_es2_new.
  - cbn [set_next next_ptr]. apply sv_cur_ok.
  - cbn [set_next next_ptr]. eapply seg_frame; [exact H2 | lia |].
    intros x Hx. apply sv_es2_old. apply sv_pos.
    rewrite Hsplit. apply elem_of_app. right. exact Hx.
Qed.

(** The list after the new entry went behind [x]. *)
Lemma link_after_seg (L1' : list Z) (x : Z) (ex : SFEntry) :
  L1 = L1' ++ [x] ->
  es2 !! ptr_pos m x = Some ex ->
  seg m (a + 1) (put (ptr_pos m x) (set_next ex newp) es2) h (L1 ++ newp :: L2) 0.
Proof.
  intros HL1 Hex. set (es3 := put (ptr_pos m x) (set_next ex newp) es2).
  destruct sv_segs as [H1 H2]. destruct Hchain as (Hseg & Hnd & _ & _).
  assert (Hxl : x ∈ l).
  { rewrite Hsplit, HL1. apply elem_of_app. left. apply elem_of_app. right. left. }
  pose proof (sv_valid x Hxl) as Hvx. pose proof (sv_pos x Hxl) as Hpx.
  assert (Hlen2 : m + (a + 1) <= Z.of_nat (length es2)).
  { unfold es2. rewrite length_put. lia. }
  assert (Hes3_other : forall i, i <> ptr_pos m x -> Z.of_nat i < m + (a + 1) ->
                                 es3 !! i = es2 !! i).
  { intros i Hi Hb. unfold es3. apply lookup_put_ne; [congruence | lia]. }
  assert (Hes3_old : forall y, y ∈ l -> y <> x -> es3 !! ptr_pos m y = es !! ptr_pos m y).
  { intros y Hy Hne. pose proof (sv_valid y Hy) as Hvy. pose proof (sv_pos y Hy).
    rewrite Hes3_other, sv_es2_old; [reflexivity | lia | | lia].
    intros E. apply Hne. apply (ptr_pos_inj m a y x); assumption. }
  assert (Hpn : ptr_pos m newp <> ptr_pos m x).
  { unfold newp. rewrite newp_pos by assumption. lia. }
  assert (Hes3_new : es3 !! ptr_pos m newp = Some (set_next e cur)).
  { rewrite Hes3_other; [apply sv_es2_new | exact Hpn |].
    unfold newp. rewrite newp_pos by assumption. lia. }
  pose proof Hnd as Hnd'. rewrite Hsplit, HL1 in Hnd'.
  assert (Hx1 : x ∉ L1').
  { pose proof Hnd' as Hnd0. apply NoDup_app in Hnd0 as (Hnd1 & _ & _).
    apply NoDup_app in Hnd1 as (_ & Hd & _).
    intros Hin. apply (Hd x Hin). left. }
  assert (Hx2 : x ∉ L2).
  { pose proof Hnd' as Hnd0. apply NoDup_app in Hnd0 as (_ & Hd & _). apply Hd.
    apply elem_of_app. right. left. }
  rewrite HL1. apply seg_app. exists newp. split.
  - rewrite HL1 in H1.
    assert (H1' : seg m (a + 1) es2 h (L1' ++ [x]) cur).
    { eapply seg_frame; [exact H1 | lia |].
      intros y Hy. apply sv_es2_old. apply sv_pos.
      rewrite Hsplit, HL1. apply elem_of_app. left. exact Hy. }
    apply (seg_set_last m (a + 1) es2 L1' x cur newp ex h);
      try assumption; try lia.
    unfold newp, DELETED. lia.
  - econstructor.
    + apply valid_succ; [exact Ha | right; reflexivity].
    + exact Hes3_new.
    + cbn [set_next next_ptr]. apply sv_cur_ok.
    + cbn [set_next next_ptr]. eapply seg_frame; [exact H2 | lia |].
      intros y Hy. apply Hes3_old.
      * rewrite Hsplit. apply elem_of_app. right. exact Hy.
      * intros ->. contradiction.
Qed.

(** What step 6 of [insert] leaves: the new entry between the two
    stretches of the list, and an auxiliary area within its bound. *)
Lemma splice_view (f' : sfile) :
  splice m (a + 1) h (a + 1) (- (a + 1 + 1)) e (last_or 0 L1) (head_or L2 0)
         {| hdr := hd; ents := es |} = (Ok tt, f') ->
  view f' = Ok (map (fun p => kr (entry_at m es p)) L1
                ++ kr e :: map (fun p => kr (entry_at m es p)) L2) /\
  aux_count f' <= Z.log2 (Z.max 1 (main_count f' + 1)) /\
  main_count f' + aux_count f' <= m + a + 1.
Proof.
  pose proof Hchain as (Hseg & Hnd & Hcov & Hsort).
  intros H. unfold splice in H. fold cur in H.
  unfold bind at 1 in H. rewrite write_A_run in H by lia.
  destruct (packable (set_next e cur)) eqn:Hpk; [|discriminate].
  assert (Hestor : storable e) by (apply packable_storable in Hpk; exact Hpk).
  replace (Z.to_nat (m + (a + 1) - 1)) with (Z.to_nat (m + a)) in H by lia.
  replace (- (a + 1 + 1)) with (- (a + 2)) in H by lia.
  cbn [ents hdr] in H. fold es2 in H.
  assert (HvL1 : forall x, x ∈ L1 -> valid_ptr m a x).
  { intros x Hx. apply sv_valid. rewrite Hsplit. apply elem_of_app. left. exact Hx. }
  assert (Hlt : forall x, x ∈ l -> (ptr_pos m x < length es)%nat).
  { intros x Hx. pose proof (sv_pos x Hx). lia. }
  assert (Hnew : forall es3, es3 !! ptr_pos m newp = Some (set_next e cur) ->
                             kr (entry_at m es3 newp) = kr e).
  { intros es3 E. unfold entry_at. rewrite E. reflexivity. }
  assert (Hold2 : forall x, x ∈ l -> entry_at m es2 x = entry_at m es x).
  { intros x Hx. unfold entry_at. rewrite sv_es2_old by (apply sv_pos, Hx). reflexivity. }
  destruct (last_or_zero m a L1 Ha HvL1) as [Hz Hnz].
  destruct (Z.eqb_spec (last_or 0 L1) 0) as [E0|NE0].
  - rewrite (bind_eq _ _ _ _ (- (a + 2)) (eq_refl : ret (- (a + 2)) _ = _)) in H.
    apply bind_ok_inv in H as (u & f2 & Hset & H). destruct u.
    apply hdr_set_inv in Hset as (-> & _).
    cbn [ents] in H.
    assert (HWF2 : WF {| hdr := (m, a + 1, - (a + 2)); ents := es2 |}).
    { unfold WF, main_count, aux_count, head_ptr. cbn [hdr ents fst snd].
      apply (link_front m a h es l Hm Ha Hlen Hdsort Hstor Hseg Hnd Hcov Hsort
               e L1 L2 Hsplit Hsmall Hbig Hestor (Hz E0)). }
    split; [|split; [apply (maybe_reorg_aux _ _ HWF2 H)|]].
    2:{ pose proof (maybe_reorg_count _ _ HWF2 H) as Hc.
        unfold main_count, aux_count in Hc. cbn [hdr fst snd] in Hc.
        unfold main_count, aux_count. lia. }
    rewrite (maybe_reorg_view _ _ HWF2 H).
    rewrite (view_of_seg _ (newp :: L2) HWF2).
    2:{ unfold main_count, aux_count, head_ptr. cbn [hdr ents fst snd].
        apply link_front_seg. apply Hz, E0. }
    unfold main_count. cbn [hdr ents fst snd map].
    rewrite (Hz E0). cbn [map app]. rewrite (Hnew es2 sv_es2_new). f_equal. f_equal.
    apply map_ext_in. intros x Hx. rewrite Hold2; [reflexivity|].
    rewrite Hsplit. apply elem_of_app. right. apply list_elem_of_In. exact Hx.
  - destruct (Hnz NE0) as (L1' & HL1).
    set (prev := last_or 0 L1) in *.
    assert (Hpl : prev ∈ l).
    { rewrite Hsplit, HL1. apply elem_of_app. left. apply elem_of_app. right. left. }
    destruct (seg_valid _ _ _ _ _ _ Hseg prev Hpl) as [Hvp (ep & Hep & _)].
    destruct (valid_ptr_shape m a prev Ha Hvp) as (Hshape & Hp0 & Hp1).
    pose proof (ptr_pos_bound m a prev Hm Ha Hvp) as Hpb.
    assert (Hep2 : es2 !! ptr_pos m prev = Some ep).
    { unfold es2. rewrite lookup_put_ne by lia. exact Hep. }
    unfold bind at 1 in H. unfold bind at 1 in H.
    unfold peek at 1 in H. rewrite loc_ok in H by assumption.
    unfold bind at 1 in H. unfold _read at 1, peek at 1 in H.
    rewrite entry_off_ptr in H by assumption.
    rewrite read_at_pos in H. cbn [ents] in H. rewrite Hep2 in H.
    unfold bind at 1 in H. rewrite write_ptr_run in H by assumption.
    destruct (packable (set_next ep (- (a + 2)))) eqn:Hpk2; [|discriminate].
    cbn [ents hdr ret] in H.
    apply bind_ok_inv in H as (u & f2 & Hset & H). destruct u.
    apply hdr_set_inv in Hset as (-> & _).
    cbn [ents] in H.
    set (es3 := put (ptr_pos m prev) (set_next ep (- (a + 2))) es2) in *.
    assert (HWF2 : WF {| hdr := (m, a + 1, h); ents := es3 |}).
    { unfold WF, main_count, aux_count, head_ptr. cbn [hdr ents fst snd].
      apply (link_after m a h es l Hm Ha Hlen Hdsort Hstor Hseg Hnd Hcov Hsort
               e L1 L2 Hsplit Hsmall Hbig Hestor L1' prev ep HL1 Hep2). }
    split; [|split; [apply (maybe_reorg_aux _ _ HWF2 H)|]].
    2:{ pose proof (maybe_reorg_count _ _ HWF2 H) as Hc.
        unfold main_count, aux_count in Hc. cbn [hdr fst snd] in Hc.
        unfold main_count, aux_count. lia. }
    rewrite (maybe_reorg_view _ _ HWF2 H).
    rewrite (view_of_seg _ (L1 ++ newp :: L2) HWF2).
    2:{ unfold main_count, aux_count, head_ptr. cbn [hdr ents fst snd].
        apply (link_after_seg L1' prev ep HL1 Hep2). }
    unfold main_count. cbn [hdr ents fst snd].
    assert (Hlen2 : (length es2 >= length es)%nat).
    { unfold es2. rewrite length_put. lia. }
    assert (Hold3 : forall x, x ∈ l -> kr (entry_at m es3 x) = kr (entry_at m es x)).
    { intros x Hx. unfold es3. rewrite (kr_put_next m es2 prev x _ ep Hep2).
      - rewrite Hold2 by exact Hx. reflexivity.
      - pose proof (Hlt x Hx). lia. }
    assert (Hpn : ptr_pos m newp <> ptr_pos m prev).
    { unfold newp. rewrite newp_pos by assumption. lia. }
    assert (Hes3_new : es3 !! ptr_pos m newp = Some (set_next e cur)).
    { unfold es3. rewrite lookup_put_ne; [apply sv_es2_new | congruence |].
      unfold newp. rewrite newp_pos by assumption. unfold es2. rewrite length_put. lia. }
    rewrite map_app. cbn [map]. rewrite (Hnew es3 Hes3_new).
    assert (HA : map (fun p => kr (entry_at m es3 p)) L1
                 = map (fun p => kr (entry_at m es p)) L1).
    { apply map_ext_in. intros x Hx. apply Hold3.
      rewrite Hsplit. apply elem_of_app. left. apply list_elem_of_In. exact Hx. }
    assert (HB : map (fun p => kr (entry_at m es3 p)) L2
                 = map (fun p => kr (entry_at m es p)) L2).
    { apply map_ext_in. intros x Hx. apply Hold3.
      rewrite Hsplit. apply elem_of_app. right. apply list_elem_of_In. exact Hx. }
    rewrite HA, HB. reflexivity.
Qed.

End SpliceView.

(** [insert] stores the entry in A and then runs step 6 between two
    stretches of the logical list: keys below the new key before it, the
    first key not below it right after it. *)
Lemma insert_as_splice (fuel : nat) (e : SFEntry) (m a h : Z) (es : list SFEntry)
    (f' : sfile) :
  inv m a h es ->
  insert fuel e {| hdr := (m, a, h); ents := es |} = (Ok tt, f') ->
  let es1 := put (Z.to_nat (m + a)) (set_next e 0) es in
  exists l L1 L2,
    chain_ok m a h es l /\
    m + a <= Z.of_nat (length es1) /\
    (forall i j e1 e2, (i <= j)%nat -> Z.of_nat j < m ->
                       es1 !! i = Some e1 -> es1 !! j = Some e2 -> key e1 <= key e2) /\
    (forall i e0, Z.of_nat i < m + a -> es1 !! i = Some e0 -> storable e0) /\
    chain_ok m a h es1 l /\
    l = L1 ++ L2 /\
    (forall x, x ∈ L1 -> key_at m es1 x < key e) /\
    (forall x L2', L2 = x :: L2' -> key e <= key_at m es1 x) /\
    splice m (a + 1) h (a + 1) (- (a + 1 + 1)) (set_next e 0)
           (last_or 0 L1) (head_or L2 0)
           {| hdr := (m, a, h); ents := es1 |} = (Ok tt, f').
Proof.
  intros HWF H es1.
  destruct HWF as (Hm & Ha & Hlen & Hds & Hst & l & Hchain).
  unfold insert in H. rewrite (bind_eq _ _ _ _ _ (hdr_get_run _)) in H.
  cbn [hdr] in H.
  unfold bind at 1 in H. rewrite write_A_run in H by lia.
  destruct (packable (set_next e 0)) eqn:Hpk; [|discriminate].
  cbn [ents hdr] in H.
  replace (Z.to_nat (m + (a + 1) - 1)) with (Z.to_nat (m + a)) in H by lia.
  fold es1 in H.
  rewrite (bind_peek _ _ _ (- (a + 1 + 1))) in H
    by (unfold aptr; destruct (Z.ltb_spec (a + 1) 1); [lia | reflexivity]).
  assert (Hsame : forall i, Z.of_nat i < m + a -> es1 !! i = es !! i).
  { intros i Hi. unfold es1. apply lookup_put_ne; lia. }
  destruct (inv_parts_frame m a h es es1 l Hm Ha Hlen Hsame Hds Hst Hchain)
    as (Hlen1 & Hds1 & Hst1 & Hchain1).
  pose proof Hchain1 as (Hseg1 & Hnd1 & Hcov1 & Hsort1).
  exists l.
  destruct (Z.eqb_spec h 0) as [Hh0|Hh0].
  - (* empty list *)
    subst h. assert (l = []) by (eapply seg_zero_nil; eauto). subst l.
    exists [], [].
    split; [exact Hchain|]. split; [exact Hlen1|]. split; [exact Hds1|].
    split; [exact Hst1|]. split; [exact Hchain1|]. split; [reflexivity|].
    split; [intros x Hx; inversion Hx|]. split; [intros x L2' E; discriminate|].
    unfold splice. cbn [head_or last_or List.last].
    unfold bind at 1. rewrite write_A_run by lia.
    change (set_next (set_next e 0) 0) with (set_next e 0). rewrite Hpk.
    cbn [ents hdr].
    replace (Z.to_nat (m + (a + 1) - 1)) with (Z.to_nat (m + a)) by lia.
    rewrite (put_id _ _ es1) by (unfold es1; apply lookup_put_eq).
    exact H.
  - (* MAIN *)
    apply bind_ok_inv in H as (lb & f1 & Hlb & H).
    apply lb_spec in Hlb as (-> & Hlbr & Hlo & Hhi); [|cbn; lia].
    unfold main_count in Hlbr, Hlo, Hhi. cbn [hdr ents fst snd key set_next] in Hlbr, Hlo, Hhi.
    apply bind_ok_inv in H as ([j dj] & f1 & Hback & H).
    unfold live_pred in Hback.
    apply back_loop_spec in Hback as (-> & Hjle & Hj).
    cbn [fst snd ents] in H, Hj.
    set (f1 := {| hdr := (m, a, h); ents := es1 |}) in *.
    change (key (set_next e 0)) with (key e) in H.
    destruct Hj as [(Hj1 & ej & -> & Hej & Hejn) | (Hj0 & ->)].
    + (* a live predecessor in D *)
      destruct (Z.leb_spec 1 j) as [_|]; [|lia].
      rewrite (bind_eq _ _ f1 f1 (Some (j, next_ptr ej))) in H.
      2:{ rewrite (bind_peek _ _ f1 j)
            by (unfold dptr; destruct (Z.ltb_spec j 1); [lia | reflexivity]).
          unfold bind. rewrite read_D by lia. unfold f1. cbn [ents].
          rewrite Hej. reflexivity. }
      apply bind_ok_inv in H as (pc & f2 & Hwalk & H).
      assert (Hkj : key_at m es1 j = key ej).
      { unfold key_at. rewrite ptr_pos_D by lia. rewrite Hej. reflexivity. }
      assert (Hjl : j ∈ l).
      { apply Hcov1. split; [left; lia|]. exists ej.
        rewrite ptr_pos_D by lia. auto. }
      apply list_elem_of_split in Hjl as (l1 & l2 & El).
      rewrite El in Hseg1. apply seg_app in Hseg1 as (r & Hs1 & Hs2).
      inversion Hs2 as [|p e' l' q Hv He' Hn' Hs2' E1 E2 E3]; subst.
      rewrite ptr_pos_D in He' by lia.
      assert (e' = ej) by congruence. subst e'.
      destruct (insert_walk_spec m a (key e) es1 l2 (next_ptr ej) Hs2'
                  fuel j f1 pc f2 Hwalk eq_refl Hm Ha)
        as (-> & La & Lb & -> & Hsmall & Hprev & Hcur & Hbig).
      rewrite Hprev, Hcur in H.
      rewrite <- (last_or_app_cons 0 j l1 La) in H.
      assert (Hjk : key ej < key e).
      { destruct Hlo as [Hlo|(e1 & He1 & Hk1)]; [lia|].
        assert (key ej <= key e1); [|lia].
        apply (Hds1 (Z.to_nat (j - 1)) (Z.to_nat (lb - 2)) ej e1); auto; lia. }
      exists (l1 ++ j :: La), Lb.
      split; [exact Hchain|]. split; [exact Hlen1|]. split; [exact Hds1|].
      split; [exact Hst1|]. split; [exact Hchain1|].
      split; [rewrite <- app_assoc; reflexivity|].
      split; [|split; [exact Hbig | exact H]].
      intros x Hx. apply elem_of_app in Hx as [Hx|Hx].
      * rewrite map_app in Hsort1.
        apply StronglySorted_app in Hsort1 as (Hcross & _ & _).
        assert (key_at m es1 x <= key_at m es1 j); [|lia].
        apply Hcross.
        -- apply list_elem_of_fmap. exists x. auto.
        -- apply list_elem_of_fmap. exists j. split; [reflexivity | left].
      * apply elem_of_cons in Hx as [->|Hx]; [lia | auto].
    + (* no live predecessor in D: start from the head *)
      destruct (Z.leb_spec 1 j) as [|_]; [lia|].
      inversion Hseg1 as [|p eh l' q Hv Heh Hn Hs' E1 E2 E3]; [congruence|]. subst.
      destruct (valid_ptr_shape m a h Ha Hv) as (Hshape & Hp0 & Hp1).
      assert (Hkh : key_at m es1 h = key eh)
        by (unfold key_at; rewrite Heh; reflexivity).
      rewrite (bind_eq _ _ f1 f1 (if key e <=? key eh then None else Some (0, h))) in H.
      2:{ rewrite (bind_peek _ _ f1 (if 0 <? h then (false, h) else (true, - h - 1)))
            by (apply loc_ok; assumption).
          unfold bind, _read, peek. rewrite entry_off_ptr by assumption.
          rewrite read_at_pos. unfold f1. cbn [ents]. rewrite Heh.
          destruct (key e <=? key eh); reflexivity. }
      destruct (Z.leb_spec (key e) (key eh)) as [Hle|Hgt].
      * (* the new entry goes in front of the head *)
        rewrite splice_front_eq in H.
        exists [], (h :: l').
        split; [exact Hchain|]. split; [exact Hlen1|]. split; [exact Hds1|].
        split; [exact Hst1|]. split; [exact Hchain1|]. split; [reflexivity|].
        split; [intros x Hx; inversion Hx|]. split; [|exact H].
        intros x L2' E. inversion E; subst. lia.
      * apply bind_ok_inv in H as (pc & f2 & Hwalk & H).
        destruct (insert_walk_spec m a (key e) es1 (h :: l') h Hseg1
                    fuel 0 f1 pc f2 Hwalk eq_refl Hm Ha)
          as (-> & La & Lb & El & Hsmall & Hprev & Hcur & Hbig).
        rewrite Hprev, Hcur in H.
        exists La, Lb.
        split; [exact Hchain|]. split; [exact Hlen1|]. split; [exact Hds1|].
        split; [exact Hst1|]. split; [exact Hchain1|]. split; [exact El|].
        split; [exact Hsmall|]. split; [exact Hbig | exact H].
Qed.

Lemma insert_view (fuel : nat) (e : SFEntry) (f f' : sfile) :
  WF f -> insert fuel e f = (Ok tt, f') ->
  (exists v, view f = Ok v /\ view f' = Ok (put_sorted (key e) (rid e) v)) /\
  aux_count f' <= Z.log2 (Z.max 1 (main_count f' + 1)) /\
  main_count f' + aux_count f' <= main_count f + aux_count f + 1.
Proof.
  intros HWF H. pose proof HWF as HWF0. destruct f as [[[m a] h] es].
  unfold WF, main_count, aux_count, head_ptr in HWF. cbn [hdr ents fst snd] in HWF.
  pose proof HWF as (Hm & Ha & Hlen & _).
  destruct (insert_as_splice fuel e m a h es f' HWF H)
    as (l & L1 & L2 & Hch & Hlen1 & Hds1 & Hst1 & Hch1 & El & Hsmall & Hbig & Hsp).
  destruct (splice_view m a h _ l (m, a, h) Hm Ha Hlen1 Hds1 Hst1 Hch1
              (set_next e 0) L1 L2 El Hsmall Hbig f' Hsp) as (Hv & Haux & Hcnt).
  split; [|split; [exact Haux | exact Hcnt]].
  exists (map (fun p => kr (entry_at m es p)) l).
  split; [apply (view_chain _ l HWF0 Hch)|].
  rewrite Hv. f_equal.
  set (es1 := put (Z.to_nat (m + a)) (set_next e 0) es) in *.
  assert (Hold : forall x, x ∈ l -> entry_at m es1 x = entry_at m es x).
  { intros x Hx. destruct Hch as (Hseg & _).
    pose proof (ptr_pos_bound m a x Hm Ha (proj1 (seg_valid _ _ _ _ _ _ Hseg x Hx))).
    apply entry_at_put_ne; lia. }
  assert (HA : map (fun p => kr (entry_at m es1 p)) L1
               = map (fun p => kr (entry_at m es p)) L1).
  { apply map_ext_in. intros x Hx. rewrite Hold; [reflexivity|].
    rewrite El. apply elem_of_app. left. apply list_elem_of_In. exact Hx. }
  assert (HB : map (fun p => kr (entry_at m es1 p)) L2
               = map (fun p => kr (entry_at m es p)) L2).
  { apply map_ext_in. intros x Hx. rewrite Hold; [reflexivity|].
    rewrite El. apply elem_of_app. right. apply list_elem_of_In. exact Hx. }
  rewrite HA, HB, El, map_app. symmetry.
  change (kr (set_next e 0)) with (key e, rid e).
  apply put_sorted_split.
  - intros x Hx. apply list_elem_of_fmap in Hx as (y & -> & Hy).
    cbn [kr fst].
    assert (Hy' : y ∈ l) by (rewrite El; apply elem_of_app; left; exact Hy).
    rewrite <- (Hold y Hy'), key_entry_at. exact (Hsmall y Hy).
  - intros y B' E. destruct L2 as [|z L2']; [discriminate|].
    cbn [map] in E. inversion E; subst y B'. cbn [kr fst].
    assert (Hz' : z ∈ l) by (rewrite El; apply elem_of_app; right; left).
    rewrite <- (Hold z Hz'), key_entry_at. exact (Hbig z L2' eq_refl).
Qed.

(** X19. On a well-formed index, for an entry [struct.pack] accepts,
    [insert] returns and the logical list afterwards is the list before with
    the new key and RID put in front of the first entry whose key is not
    below the new key: in key order, and before the entries that already had
    that key. *)
Theorem insert_puts_in_order (fuel : nat) (e : SFEntry) (f : sfile) :
  WF f -> storable e ->
  main_count f + aux_count f + 2 <= 2147483647 ->
  (Z.to_nat (main_count f + aux_count f) <= fuel)%nat ->
  exists v f',
    view f = Ok v /\
    insert fuel e f = (Ok tt, f') /\
    view f' = Ok (put_sorted (key e) (rid e) v).
Proof.
  intros HWF Hst Hsize Hfuel.
  destruct (insert_returns fuel e f HWF Hst Hsize Hfuel) as [f' H].
  destruct (insert_view fuel e f f' HWF H) as ((v & Hv & Hv') & _).
  exists v, f'. auto.
Qed.

Lemma insert_puts_in_order_witness :
  exists v f',
    view demo3 = Ok v /\
    insert 8 demo_e15' demo3 = (Ok tt, f') /\
    view f' = Ok (put_sorted (key demo_e15') (rid demo_e15') v).
Proof.
  apply (insert_puts_in_order 8 demo_e15' demo3).
  - apply (insert_WF 8 demo_e12 demo2); [|vm_compute; reflexivity].
    apply (insert_WF 8 demo_e15 demo1); [|vm_compute; reflexivity].
    apply (insert_WF 8 demo_e10 empty); [apply empty_WF | vm_compute; reflexivity].
  - vm_compute. auto.
  - vm_compute. discriminate.
  - vm_compute. lia.
Defined.

(** *** [delete_key] *)

(** [unlink] rewrites pointers only: every entry keeps its key and RID. *)
Lemma unlink_keeps (m a hv h' : Z) (es : list SFEntry) (L1 L2 : list Z)
    (x : Z) (ex : SFEntry) (hd : Z * Z * Z) (f2 : sfile) :
  0 <= m -> 0 <= a -> m + a <= Z.of_nat (length es) ->
  chain_ok m a hv es (L1 ++ x :: L2) ->
  es !! ptr_pos m x = Some ex ->
  unlink m hv (last_or 0 L1) (if 0 <? x then (false, x) else (true, - x - 1)) ex
         {| hdr := hd; ents := es |} = (Ok h', f2) ->
  forall y, (ptr_pos m y < length es)%nat ->
            kr (entry_at m (ents f2) y) = kr (entry_at m es y).
Proof.
  intros Hm Ha Hlen Hchain Hex H.
  pose proof Hchain as (Hseg & Hnd & Hcov & Hsort).
  assert (Hval : forall y, y ∈ L1 ++ x :: L2 -> valid_ptr m a y).
  { intros y Hy. apply (seg_valid _ _ _ _ _ _ Hseg y Hy). }
  assert (Hpos : forall y, y ∈ L1 ++ x :: L2 -> (ptr_pos m y < length es)%nat).
  { intros y Hy. pose proof (ptr_pos_bound m a y Hm Ha (Hval y Hy)). lia. }
  assert (Hxin : x ∈ L1 ++ x :: L2) by (apply elem_of_app; right; left).
  pose proof (Hval x Hxin) as Hvx. pose proof (Hpos x Hxin) as Hpx.
  destruct (valid_ptr_shape m a x Ha Hvx) as (Hshx & _ & _).
  unfold unlink in H.
  assert (HvL1 : forall y, y ∈ L1 -> valid_ptr m a y)
    by (intros y Hy; apply Hval, elem_of_app; left; exact Hy).
  destruct (last_or_zero m a L1 Ha HvL1) as [Hz Hnz].
  destruct (Z.eqb_spec (last_or 0 L1) 0) as [E0|NE0].
  - rewrite (bind_eq _ _ _ _ (next_ptr ex) (eq_refl : ret (next_ptr ex) _ = _)) in H.
    unfold bind in H. rewrite write_ptr_run in H by assumption.
    destruct (packable (set_next ex DELETED)); [|discriminate].
    inversion H; subst. cbn [hdr ents]. intros y Hy.
    apply kr_put_next; assumption.
  - destruct (Hnz NE0) as (L1' & HL1). remember (last_or 0 L1) as p eqn:Ep.
    assert (Hpin : p ∈ L1 ++ x :: L2).
    { rewrite HL1. apply elem_of_app. left. apply elem_of_app. right. left. }
    pose proof (Hval p Hpin) as Hvp. pose proof (Hpos p Hpin) as Hpp.
    destruct (valid_ptr_shape m a p Ha Hvp) as (Hshp & Hp0 & Hp1).
    destruct (seg_valid _ _ _ _ _ _ Hseg p Hpin) as [_ (ep & Hep & Hepn)].
    assert (Hpx' : p <> x).
    { intros ->. apply NoDup_app in Hnd as (_ & Hd & _).
      apply (Hd x); [rewrite HL1; apply elem_of_app; right; left | left]. }
    unfold bind at 1 in H. unfold bind at 1 in H.
    unfold peek at 1 in H. rewrite loc_ok in H by assumption.
    unfold bind at 1 in H. unfold _read at 1, peek at 1 in H.
    rewrite entry_off_ptr in H by assumption.
    rewrite read_at_pos in H. cbn [ents] in H. rewrite Hep in H.
    unfold bind at 1 in H. rewrite write_ptr_run in H by assumption.
    destruct (packable (set_next ep (next_ptr ex))); [|discriminate].
    cbn [ents hdr ret] in H.
    unfold bind in H. rewrite write_ptr_run in H by assumption.
    destruct (packable (set_next ex DELETED)); [|discriminate].
    inversion H; subst h' f2. cbn [hdr ents]. intros y Hy.
    set (es1 := put (ptr_pos m p) (set_next ep (next_ptr ex)) es).
    assert (Hl1 : length es1 = length es) by (unfold es1; rewrite length_put; lia).
    assert (Hex1 : es1 !! ptr_pos m x = Some ex).
    { unfold es1. rewrite lookup_put_ne; [exact Hex | | exact Hpx].
      intros E. apply Hpx'. apply (ptr_pos_inj m a p x); auto. }
    rewrite (kr_put_next m es1 x y DELETED ex Hex1) by lia.
    unfold es1. apply kr_put_next; assumption.
Qed.

Lemma rid_is_matches (r : option RID) (e : SFEntry) :
  rid_matches r e = rid_is r (rid e).
Proof. destruct r; reflexivity. Qed.

(** The unlinking walk, on the keys and RIDs of the list. *)
Lemma delete_walk_view (m a k : Z) (r : option RID) (fuel : nat) :
  forall hv prev cur removed f res f' L1 L2,
    delete_walk fuel k r m hv prev cur removed f = (Ok res, f') ->
    0 <= m -> 0 <= a -> m + a <= Z.of_nat (length (ents f)) ->
    (forall i j e1 e2, (i <= j)%nat -> Z.of_nat j < m ->
                       ents f !! i = Some e1 -> ents f !! j = Some e2 -> key e1 <= key e2) ->
    (forall i e, Z.of_nat i < m + a -> ents f !! i = Some e -> storable e) ->
    chain_ok m a hv (ents f) (L1 ++ L2) ->
    prev = last_or 0 L1 -> cur = head_or L2 0 ->
    hdr f' = hdr f /\
    exists L2',
      seg m a (ents f') (fst res) (L1 ++ L2') 0 /\
      map (fun p => kr (entry_at m (ents f') p)) (L1 ++ L2')
      = map (fun p => kr (entry_at m (ents f) p)) L1
        ++ drop_key k r (map (fun p => kr (entry_at m (ents f) p)) L2) /\
      snd res = removed + Z.of_nat (length L2) - Z.of_nat (length L2').
Proof.
  induction fuel as [|fuel IH];
    intros hv prev cur removed f res f' L1 L2 H Hm Ha Hlen Hds Hst Hchain Hprev Hcur.
  - cbn [delete_walk] in H. unfold is_end in H.
    destruct (Z.eqb_spec cur 0) as [Hc0|Hc0]; [|discriminate].
    inversion H; subst res f'. split; [reflexivity|].
    pose proof Hchain as (Hseg & _).
    destruct L2 as [|x L2'].
    + exists []. cbn [fst snd]. split; [exact Hseg|]. split; [|lia].
      rewrite map_app. reflexivity.
    + exfalso. cbn [head_or] in Hcur. subst cur. subst x.
      assert (Hin : 0 ∈ L1 ++ 0 :: L2') by (apply elem_of_app; right; left).
      destruct (seg_valid _ _ _ _ _ _ Hseg 0 Hin) as [Hv _].
      unfold valid_ptr in Hv. lia.
  - cbn [delete_walk] in H. unfold is_end in H.
    pose proof Hchain as (Hseg & Hnd & Hcov & Hsort).
    destruct (Z.eqb_spec cur 0) as [Hc0|Hc0].
    { inversion H; subst res f'. split; [reflexivity|].
      destruct L2 as [|x L2'].
      + exists []. cbn [fst snd]. split; [exact Hseg|]. split; [|lia].
        rewrite map_app. reflexivity.
      + exfalso. cbn [head_or] in Hcur. subst cur. subst x.
        assert (Hin : 0 ∈ L1 ++ 0 :: L2') by (apply elem_of_app; right; left).
        destruct (seg_valid _ _ _ _ _ _ Hseg 0 Hin) as [Hv _].
        unfold valid_ptr in Hv. lia. }
    destruct L2 as [|x L2']; [cbn [head_or] in Hcur; congruence|].
    cbn [head_or] in Hcur. subst cur.
    assert (Hxin : x ∈ L1 ++ x :: L2') by (apply elem_of_app; right; left).
    destruct (seg_valid _ _ _ _ _ _ Hseg x Hxin) as [Hvx (ex & Hex & Hexn)].
    destruct (valid_ptr_shape m a x Ha Hvx) as (Hshx & Hx0 & Hx1).
    assert (Hnext : next_ptr ex = head_or L2' 0).
    { pose proof Hseg as Hseg0. apply seg_app in Hseg0 as (q & _ & Hs2).
      inversion Hs2 as [|p0 ex' l' q' Hv0 Hex' Hnx Hs2' E1 E2 E3]; subst.
      assert (ex' = ex) by congruence. subst ex'.
      apply (seg_start _ _ _ _ _ _ Hs2'). }
    rewrite (bind_peek _ _ f (if 0 <? x then (false, x) else (true, - x - 1))) in H
      by (apply loc_ok; assumption).
    rewrite (bind_eq _ _ f f ex) in H.
    2:{ unfold _read, peek. rewrite entry_off_ptr by assumption.
        rewrite read_at_pos, Hex. reflexivity. }
    assert (Ekr : kr (entry_at m (ents f) x) = (key ex, rid ex)).
    { unfold entry_at. rewrite Hex. reflexivity. }
    cbn [map drop_key]. rewrite Ekr.
    destruct (Z.ltb_spec k (key ex)) as [Hlt|Hge].
    { inversion H; subst res f'. split; [reflexivity|].
      exists (x :: L2'). cbn [fst snd]. split; [exact Hseg|]. split; [|lia].
      rewrite map_app. cbn [map]. rewrite Ekr. reflexivity. }
    rewrite <- rid_is_matches.
    destruct ((key ex =? k) && rid_matches r ex).
    + apply bind_ok_inv in H as (h' & f2 & Hun & H).
      destruct f as [hd es]. cbn [ents hdr] in *. subst prev.
      pose proof (unlink_keeps m a hv h' es L1 L2' x ex hd f2 Hm Ha Hlen Hchain Hex Hun)
        as Hkeep.
      apply (unlink_spec m a hv h' es L1 L2' x ex hd f2 Hm Ha Hlen Hds Hst Hchain Hex)
        in Hun as (Hhd & Hlen2 & Hds2 & Hst2 & Hchain2).
      assert (Hpos : forall y, y ∈ L1 ++ x :: L2' -> (ptr_pos m y < length es)%nat).
      { intros y Hy.
        pose proof (ptr_pos_bound m a y Hm Ha (proj1 (seg_valid _ _ _ _ _ _ Hseg y Hy))).
        lia. }
      assert (HK1 : map (fun p => kr (entry_at m (ents f2) p)) L1
                    = map (fun p => kr (entry_at m es p)) L1).
      { apply map_ext_in. intros y Hy. apply Hkeep, Hpos.
        apply elem_of_app. left. apply list_elem_of_In. exact Hy. }
      assert (HK2 : map (fun p => kr (entry_at m (ents f2) p)) L2'
                    = map (fun p => kr (entry_at m es p)) L2').
      { apply map_ext_in. intros y Hy. apply Hkeep, Hpos.
        apply elem_of_app. right. right. apply list_elem_of_In. exact Hy. }
      destruct r as [r0|].
      * inversion H; subst res f'. split; [exact Hhd|].
        exists L2'. cbn [fst snd]. destruct Hchain2 as (Hseg2 & _).
        split; [exact Hseg2|]. split; [|cbn [length]; lia].
        rewrite map_app, HK1, HK2. reflexivity.
      * apply (IH _ _ _ _ _ _ _ L1 L2') in H; auto.
        destruct H as (Hh & L2'' & Hs'' & Hmap & Hcnt).
        split; [congruence|]. exists L2''. split; [exact Hs''|].
        split; [|cbn [length]; lia].
        rewrite Hmap, HK1, HK2. reflexivity.
    + apply (IH _ _ _ _ _ _ _ (L1 ++ [x]) L2') in H; auto.
      * destruct H as (Hh & L2'' & Hs'' & Hmap & Hcnt).
        split; [exact Hh|]. exists (x :: L2'').
        rewrite <- app_assoc in Hs'', Hmap. cbn [app] in Hs'', Hmap.
        split; [exact Hs''|]. split; [|cbn [length]; lia].
        rewrite Hmap, map_app. cbn [map]. rewrite Ekr, <- app_assoc. reflexivity.
      * rewrite <- app_assoc. exact Hchain.
      * symmetry. apply last_or_snoc.
Qed.

Lemma drop_key_skip (k : Z) (r : option RID) (A B : list (Z * RID)) :
  (forall x, x ∈ A -> fst x < k) ->
  drop_key k r (A ++ B) = A ++ drop_key k r B.
Proof.
  intros HA. induction A as [|[k' r'] A IH]; [reflexivity|].
  cbn [app drop_key].
  assert (k' < k) by (apply (HA (k', r')); left).
  rewrite (proj2 (Z.ltb_ge k k')) by lia.
  rewrite (proj2 (Z.eqb_neq k' k)) by lia. cbn [andb].
  rewrite IH; [reflexivity|]. intros x Hx. apply HA. right. exact Hx.
Qed.

Lemma delete_key_view (fuel : nat) (k : Z) (r : option RID) (f f' : sfile) (n : Z) :
  WF f -> delete_key fuel k r f = (Ok n, f') ->
  main_count f' = main_count f /\ aux_count f' = aux_count f /\
  exists v,
    view f = Ok v /\ view f' = Ok (drop_key k r v) /\
    n = Z.of_nat (length v) - Z.of_nat (length (drop_key k r v)).
Proof.
  intros HWF H. pose proof HWF as HWF0.
  pose proof (delete_WF fuel k r f f' n HWF H) as HWF'.
  destruct f as [[[m a] h] es].
  unfold WF, main_count, aux_count, head_ptr in HWF. cbn [hdr ents fst snd] in HWF.
  destruct HWF as (Hm & Ha & Hlen & Hds & Hst & l & Hchain).
  pose proof Hchain as (Hseg & Hnd & Hcov & Hsort).
  rewrite (view_chain _ l HWF0 Hchain).
  unfold main_count at 2, aux_count at 2. cbn [hdr ents fst snd].
  unfold delete_key in H. rewrite (bind_eq _ _ _ _ _ (hdr_get_run _)) in H.
  cbn [hdr] in H.
  destruct (Z.eqb_spec h 0) as [Hh0|Hh0].
  { inversion H; subst. split; [reflexivity|]. split; [reflexivity|].
    apply seg_zero_nil in Hseg; [|exact Ha]. subst l.
    exists []. split; [reflexivity|]. split; [|reflexivity].
    apply (view_chain _ [] HWF0 Hchain). }
  set (f := {| hdr := (m, a, h); ents := es |}) in *.
  destruct (start_split m a h k es l Hm Ha Hlen Hds Hchain)
    as (lb & j & dj & L1 & L2 & Hlb & Hlp & _ & _ & El & Hsmall & Hstart & Hj).
  fold f in Hlb, Hlp.
  rewrite (bind_eq _ _ _ _ _ Hlb) in H. rewrite (bind_eq _ _ _ _ _ Hlp) in H.
  cbn [fst snd] in H.
  assert (Hwalk : exists hr f3,
             delete_walk fuel k r m h (last_or 0 L1) (head_or L2 0) 0 f = (Ok hr, f3) /\
             (let '(h', removed) := hr in _hdr_set m a h' ;;; ret removed)%M f3 = (Ok n, f')).
  { destruct Hj as [(Hj1 & ej & -> & Hej & Hlast) | (Hj0 & -> & ->)].
    - destruct (Z.leb_spec 1 j) as [_|]; [|lia].
      rewrite (bind_peek _ _ f j) in H
        by (unfold dptr; destruct (Z.ltb_spec j 1); [lia | reflexivity]).
      rewrite (bind_eq _ _ f f (next_ptr ej)) in H.
      2:{ unfold bind. rewrite read_D by lia. change (ents f) with es.
          rewrite Hej. reflexivity. }
      apply bind_ok_inv in H as (hr & f3 & Hw & H).
      exists hr, f3. rewrite Hlast, <- Hstart. auto.
    - destruct (Z.leb_spec 1 j) as [|_]; [lia|].
      rewrite (bind_eq _ _ f f 0 (eq_refl : ret 0 _ = _)) in H.
      rewrite (bind_eq _ _ f f h (eq_refl : ret h _ = _)) in H.
      apply bind_ok_inv in H as (hr & f3 & Hw & H).
      exists hr, f3. cbn [last_or List.last]. rewrite <- Hstart. auto. }
  destruct Hwalk as ([h' removed] & f3 & Hw & Hset).
  rewrite El in Hchain.
  apply (delete_walk_view m a k r fuel h _ _ 0 f _ f3 L1 L2) in Hw; auto.
  destruct Hw as (Hhd & L2' & Hs' & Hmap & Hcnt). cbn [fst snd] in Hs', Hcnt.
  apply bind_ok_inv in Hset as (u & f4 & Hset & Hret). destruct u.
  apply hdr_set_inv in Hset as (-> & _). inversion Hret; subst n f'.
  unfold main_count, aux_count. cbn [hdr fst snd].
  split; [reflexivity|]. split; [reflexivity|].
  exists (map (fun p => kr (entry_at m es p)) l).
  split; [reflexivity|].
  assert (Hdk : drop_key k r (map (fun p => kr (entry_at m es p)) l)
                = map (fun p => kr (entry_at m (ents f3) p)) (L1 ++ L2')).
  { rewrite Hmap, El, map_app. apply drop_key_skip.
    intros x Hx. apply list_elem_of_fmap in Hx as (y & -> & Hy).
    cbn [kr fst]. rewrite key_entry_at. apply Hsmall, Hy. }
  split.
  - rewrite Hdk. apply (view_of_seg _ (L1 ++ L2') HWF').
    unfold main_count, aux_count, head_ptr. cbn [hdr ents fst snd]. exact Hs'.
  - rewrite Hdk, !length_map, El, !length_app. lia.
Qed.

Lemma view_sorted (f : sfile) :
  WF f -> exists v, view f = Ok v /\ StronglySorted Z.le (map fst v).
Proof.
  intros HWF. pose proof HWF as (_ & _ & _ & _ & _ & l & Hch).
  exists (map (fun p => kr (entry_at (main_count f) (ents f) p)) l).
  split; [apply view_chain; assumption|].
  destruct Hch as (_ & _ & _ & Hsort). rewrite map_map. cbn [kr fst].
  erewrite map_ext; [exact Hsort|]. intros x. apply key_entry_at.
Qed.

Lemma filter_keeps_above (k k' : Z) (v : list (Z * RID)) :
  StronglySorted Z.le (k' :: map fst v) -> k < k' ->
  List.filter (fun p => negb (fst p =? k)) v = v.
Proof.
  intros Hs Hk. apply StronglySorted_inv in Hs as [_ Hall].
  rewrite List.Forall_forall in Hall.
  induction v as [|[k1 r1] v IH]; [reflexivity|].
  cbn [List.filter fst].
  assert (k' <= k1) by (apply Hall; left; reflexivity).
  rewrite (proj2 (Z.eqb_neq k1 k)) by lia. cbn [negb]. f_equal.
  apply IH. intros x Hx. apply Hall. right. exact Hx.
Qed.

Lemma drop_key_none (k : Z) (v : list (Z * RID)) :
  StronglySorted Z.le (map fst v) ->
  drop_key k None v = List.filter (fun p => negb (fst p =? k)) v.
Proof.
  induction v as [|[k' r'] v IH]; intros Hs; [reflexivity|].
  cbn [drop_key List.filter fst rid_is]. cbn [map fst] in Hs.
  destruct (Z.ltb_spec k k') as [Hlt|Hge].
  - rewrite (proj2 (Z.eqb_neq k' k)) by lia. cbn [negb]. f_equal.
    symmetry. apply (filter_keeps_above k k'); assumption.
  - apply StronglySorted_inv in Hs as [Hs _].
    destruct (Z.eqb_spec k' k); cbn [andb negb]; rewrite IH by exact Hs; reflexivity.
Qed.

Lemma rid_is_some (r0 r' : RID) : rid_is (Some r0) r' = true <-> r' = r0.
Proof.
  cbn [rid_is]. rewrite andb_true_iff, !Z.eqb_eq. destruct r0, r'; cbn [page slot].
  split; [intros [-> ->]; reflexivity | intros E; inversion E; auto].
Qed.

Lemma drop_key_some (k : Z) (r0 : RID) (v : list (Z * RID)) :
  StronglySorted Z.le (map fst v) ->
  (((k, r0) ∉ v) /\ drop_key k (Some r0) v = v) \/
  exists v1 v2, v = v1 ++ (k, r0) :: v2 /\ ((k, r0) ∉ v1) /\
                drop_key k (Some r0) v = v1 ++ v2.
Proof.
  induction v as [|[k' r'] v IH]; intros Hs.
  - left. split; [intros H; inversion H | reflexivity].
  - cbn [drop_key]. cbn [map fst] in Hs.
    destruct (Z.ltb_spec k k') as [Hlt|Hge].
    + left. split; [|reflexivity].
      apply StronglySorted_inv in Hs as [_ Hall]. rewrite List.Forall_forall in Hall.
      intros Hin. apply elem_of_cons in Hin as [E|Hin]; [inversion E; lia|].
      assert (k' <= k); [|lia].
      apply Hall. apply list_elem_of_In. apply list_elem_of_fmap.
      exists (k, r0). auto.
    + apply StronglySorted_inv in Hs as [Hs _].
      destruct ((k' =? k) && rid_is (Some r0) r') eqn:Hm.
      * apply andb_true_iff in Hm as [Hk Hr]. apply Z.eqb_eq in Hk.
        apply rid_is_some in Hr. subst k' r'.
        right. exists [], v. split; [reflexivity|]. split; [|reflexivity].
        intros H; inversion H.
      * assert (Hne : (k', r') <> (k, r0)).
        { intros E. inversion E; subst.
          rewrite Z.eqb_refl in Hm. cbn [andb] in Hm.
          assert (rid_is (Some r0) r0 = true) by (apply rid_is_some; reflexivity).
          congruence. }
        destruct (IH Hs) as [(Hnot & Hd)|(v1 & v2 & Ev & Hnot & Hd)].
        -- left. split; [|rewrite Hd; reflexivity].
           intros Hin. apply elem_of_cons in Hin as [E|Hin]; [congruence | auto].
        -- right. exists ((k', r') :: v1), v2.
           split; [rewrite Ev; reflexivity|]. split; [|rewrite Hd; reflexivity].
           intros Hin. apply elem_of_cons in Hin as [E|Hin]; [congruence | auto].
Qed.

(** X20. On a well-formed index [delete_key k] without a RID returns, takes
    every entry with key [k] out of the logical list and nothing else, keeps
    the order of the rest, and returns how many it took out. The counters of
    the file stay as they were: the entries become tombstones and keep their
    place until [reorganize]. *)
Theorem delete_key_removes_all (fuel : nat) (k : Z) (f : sfile) :
  WF f ->
  main_count f + aux_count f + 2 <= 2147483647 ->
  (Z.to_nat (main_count f + aux_count f) <= fuel)%nat ->
  exists v n f',
    view f = Ok v /\
    delete_key fuel k None f = (Ok n, f') /\
    view f' = Ok (List.filter (fun p => negb (fst p =? k)) v) /\
    n = Z.of_nat (length (List.filter (fun p => fst p =? k) v)) /\
    main_count f' = main_count f /\ aux_count f' = aux_count f.
Proof.
  intros HWF Hsize Hfuel.
  destruct (delete_key_returns fuel k None f HWF Hsize Hfuel) as (n & f' & H).
  destruct (delete_key_view fuel k None f f' n HWF H) as (Hmc & Hac & v & Hv & Hv' & Hn).
  destruct (view_sorted f HWF) as (v0 & Hv0 & Hs).
  assert (v0 = v) by congruence. subst v0.
  rewrite (drop_key_none k v Hs) in Hv', Hn.
  exists v, n, f'. split; [exact Hv|]. split; [exact H|]. split; [exact Hv'|].
  split; [|auto].
  pose proof (List.filter_length (fun p : Z * RID => fst p =? k) v). lia.
Qed.

Lemma delete_key_removes_all_witness :
  exists v n f',
    view demo4 = Ok v /\
    delete_key 8 15 None demo4 = (Ok n, f') /\
    view f' = Ok (List.filter (fun p => negb (fst p =? 15)) v) /\
    n = Z.of_nat (length (List.filter (fun p => fst p =? 15) v)) /\
    main_count f' = main_count demo4 /\ aux_count f' = aux_count demo4.
Proof.
  apply (delete_key_removes_all 8 15 demo4).
  - apply (insert_WF 8 demo_e15' demo3); [|vm_compute; reflexivity].
    apply (insert_WF 8 demo_e12 demo2); [|vm_compute; reflexivity].
    apply (insert_WF 8 demo_e15 demo1); [|vm_compute; reflexivity].
    apply (insert_WF 8 demo_e10 empty); [apply empty_WF | vm_compute; reflexivity].
  - vm_compute. discriminate.
  - vm_compute. lia.
Defined.

(** X21. On a well-formed index [delete_key k rid] with a RID returns and
    takes out at most one entry: the first entry of the logical list with
    that key and that RID. It returns 1 then, and 0, leaving the list as it
    is, when there is no such entry. *)
Theorem delete_key_removes_one (fuel : nat) (k : Z) (r0 : RID) (f : sfile) :
  WF f ->
  main_count f + aux_count f + 2 <= 2147483647 ->
  (Z.to_nat (main_count f + aux_count f) <= fuel)%nat ->
  exists v n f',
    view f = Ok v /\
    delete_key fuel k (Some r0) f = (Ok n, f') /\
    ((n = 0 /\ ((k, r0) ∉ v) /\ view f' = Ok v) \/
     (n = 1 /\ exists v1 v2, v = v1 ++ (k, r0) :: v2 /\ ((k, r0) ∉ v1) /\
                             view f' = Ok (v1 ++ v2))).
Proof.
  intros HWF Hsize Hfuel.
  destruct (delete_key_returns fuel k (Some r0) f HWF Hsize Hfuel) as (n & f' & H).
  destruct (delete_key_view fuel k (Some r0) f f' n HWF H)
    as (Hmc & Hac & v & Hv & Hv' & Hn).
  destruct (view_sorted f HWF) as (v0 & Hv0 & Hs).
  assert (v0 = v) by congruence. subst v0.
  exists v, n, f'. split; [exact Hv|]. split; [exact H|].
  destruct (drop_key_some k r0 v Hs) as [(Hnot & Hd)|(v1 & v2 & Ev & Hnot & Hd)].
  - left. rewrite Hd in Hv', Hn. split; [lia|]. auto.
  - right. rewrite Hd in Hv', Hn. split.
    + rewrite Ev in Hn. rewrite !length_app in Hn. cbn [length] in Hn. lia.
    + exists v1, v2. auto.
Qed.

Lemma delete_key_removes_one_witness :
  exists v n f',
    view dup2 = Ok v /\
    delete_key 8 5 (Some (mkRID 0 0)) dup2 = (Ok n, f') /\
    ((n = 0 /\ ((5, mkRID 0 0) ∉ v) /\ view f' = Ok v) \/
     (n = 1 /\ exists v1 v2, v = v1 ++ (5, mkRID 0 0) :: v2 /\ ((5, mkRID 0 0) ∉ v1) /\
                             view f' = Ok (v1 ++ v2))).
Proof.
  apply (delete_key_removes_one 8 5 (mkRID 0 0) dup2).
  - apply (insert_WF 8 dup_new dup1); [|vm_compute; reflexivity].
    apply (insert_WF 8 dup_old empty); [apply empty_WF | vm_compute; reflexivity].
  - vm_compute. discriminate.
  - vm_compute. lia.
Defined.

(** *** The operations together *)

Lemma filter_none {A : Type} (P : A -> bool) (l : list A) :
  (forall x, x ∈ l -> P x = false) -> List.filter P l = [].
Proof.
  induction l as [|x l IH]; intros H; [reflexivity|].
  cbn [List.filter]. rewrite (H x) by left. apply IH.
  intros y Hy. apply H. right. exact Hy.
Qed.

(** X24. After [delete_key k] no entry with key [k] is left to find: [search
    k] and [range_search k k] both return the empty list. *)
Theorem delete_then_search_empty (fuel : nat) (k : Z) (f : sfile) :
  WF f ->
  main_count f + aux_count f + 2 <= 2147483647 ->
  (Z.to_nat (main_count f + aux_count f) <= fuel)%nat ->
  exists n f',
    delete_key fuel k None f = (Ok n, f') /\
    search fuel k f' = (Ok [], f') /\
    range_search fuel k k f' = (Ok [], f').
Proof.
  intros HWF Hsize Hfuel.
  destruct (delete_key_returns fuel k None f HWF Hsize Hfuel) as (n & f' & H).
  destruct (delete_key_view fuel k None f f' n HWF H) as (Hmc & Hac & v & Hv & Hv' & Hn).
  destruct (view_sorted f HWF) as (v0 & Hv0 & Hs).
  assert (v0 = v) by congruence. subst v0.
  rewrite (drop_key_none k v Hs) in Hv'.
  pose proof (delete_WF fuel k None f f' n HWF H) as HWF'.
  assert (Hfuel' : (Z.to_nat (main_count f' + aux_count f') <= fuel)%nat)
    by (rewrite Hmc, Hac; exact Hfuel).
  exists n, f'. split; [exact H|].
  assert (Hnok : forall es', live_entries f' = Ok es' ->
                             forall e, e ∈ es' -> key e <> k).
  { intros es' Hes' e He. apply view_live_entries in Hes'.
    rewrite Hv' in Hes'. inversion Hes' as [E].
    assert (Hin : kr e ∈ map kr es') by (apply list_elem_of_fmap; eauto).
    rewrite <- E in Hin. apply list_elem_of_In, List.filter_In in Hin as [_ Hin].
    cbn [kr fst] in Hin. apply negb_true_iff, Z.eqb_neq in Hin. exact Hin. }
  split.
  - destruct (search_run fuel k f' HWF' Hfuel') as (es' & out & Hes' & Hs' & _ & Hemp & _).
    rewrite Hs'. f_equal. f_equal. apply Hemp.
    rewrite (filter_none (fun e => key e =? k)); [reflexivity|].
    intros e He. apply Z.eqb_neq. apply (Hnok es' Hes' e He).
  - destruct (range_search_run fuel k k f' HWF' Hfuel') as (es' & Hes' & _ & Hr).
    rewrite Hr. f_equal. f_equal. apply filter_none.
    intros e He. pose proof (Hnok es' Hes' e He).
    unfold in_range. rewrite Z.min_id, Z.max_id.
    destruct (Z.leb_spec k (key e)), (Z.leb_spec (key e) k); cbn [andb]; try reflexivity.
    lia.
Qed.

Lemma delete_then_search_empty_witness :
  exists n f',
    delete_key 8 15 None demo4 = (Ok n, f') /\
    search 8 15 f' = (Ok [], f') /\
    range_search 8 15 15 f' = (Ok [], f').
Proof.
  apply (delete_then_search_empty 8 15 demo4).
  - apply (insert_WF 8 demo_e15' demo3); [|vm_compute; reflexivity].
    apply (insert_WF 8 demo_e12 demo2); [|vm_compute; reflexivity].
    apply (insert_WF 8 demo_e15 demo1); [|vm_compute; reflexivity].
    apply (insert_WF 8 demo_e10 empty); [apply empty_WF | vm_compute; reflexivity].
  - vm_compute. discriminate.
  - vm_compute. lia.
Defined.

Lemma put_sorted_shape (k : Z) (r : RID) (v : list (Z * RID)) :
  exists A B, put_sorted k r v = A ++ (k, r) :: B /\ forall x, x ∈ A -> fst x < k.
Proof.
  induction v as [|[k' r'] v IH]; cbn [put_sorted].
  - exists [], []. split; [reflexivity|]. intros x Hx. inversion Hx.
  - destruct (Z.ltb_spec k' k) as [Hlt|Hge].
    + destruct IH as (A & B & E & HA). exists ((k', r') :: A), B.
      split; [rewrite E; reflexivity|].
      intros x Hx. apply elem_of_cons in Hx as [->|Hx]; [exact Hlt | auto].
    + exists [], ((k', r') :: v). split; [reflexivity|]. intros x Hx. inversion Hx.
Qed.

(** X23. An entry just inserted is found: [range_search] on its key lists it
    first, before the older entries with that key, and [search] on its key
    does not come back empty. *)
Theorem insert_then_found (fuel : nat) (e : SFEntry) (f : sfile) :
  WF f -> storable e ->
  main_count f + aux_count f + 2 <= 2147483647 ->
  (Z.to_nat (main_count f + aux_count f) + 1 <= fuel)%nat ->
  exists f' e' rest r out,
    insert fuel e f = (Ok tt, f') /\
    range_search fuel (key e) (key e) f' = (Ok (e' :: rest), f') /\
    key e' = key e /\ rid e' = rid e /\
    search fuel (key e) f' = (Ok (r :: out), f').
Proof.
  intros HWF Hst Hsize Hfuel.
  destruct (insert_returns fuel e f HWF Hst Hsize ltac:(lia)) as [f' H].
  destruct (insert_view fuel e f f' HWF H) as ((v & Hv & Hv') & _ & Hcnt).
  pose proof (insert_WF fuel e f f' HWF H) as HWF'.
  assert (Hfuel' : (Z.to_nat (main_count f' + aux_count f') <= fuel)%nat) by lia.
  destruct (put_sorted_shape (key e) (rid e) v) as (A & B & Eput & HA).
  destruct (range_search_run fuel (key e) (key e) f' HWF' Hfuel') as (es' & Hes' & _ & Hr).
  pose proof (view_live_entries f' es' Hes') as Hvv.
  rewrite Hv', Eput in Hvv. inversion Hvv as [E]. symmetry in E.
  apply map_eq_app in E as (EA & EB & -> & HEA & HEB).
  apply map_eq_cons in HEB as (e' & EB' & -> & He' & _).
  assert (Hk : key e' = key e) by (exact (f_equal fst He')).
  assert (Hrid : rid e' = rid e) by (exact (f_equal snd He')).
  assert (HfA : forall P, (forall x, P x = true -> key e <= key x) ->
                          List.filter P EA = []).
  { intros P HP. apply filter_none. intros x Hx.
    destruct (P x) eqn:EP; [|reflexivity]. apply HP in EP.
    assert (Hin : kr x ∈ map kr EA) by (apply list_elem_of_fmap; eauto).
    rewrite HEA in Hin. apply HA in Hin. cbn [kr fst] in Hin. lia. }
  destruct (search_run fuel (key e) f' HWF' Hfuel')
    as (es2 & out & Hes2 & Hs & _ & Hemp & _).
  assert (es2 = EA ++ e' :: EB') by congruence. subst es2.
  destruct out as [|r out].
  { exfalso. destruct Hemp as [Hemp _]. specialize (Hemp eq_refl).
    rewrite List.filter_app in Hemp. cbn [List.filter] in Hemp.
    rewrite Hk, Z.eqb_refl in Hemp.
    rewrite map_app in Hemp. apply app_eq_nil in Hemp as [_ Hemp]. discriminate. }
  exists f', e', (List.filter (in_range (key e) (key e)) EB'), r, out.
  split; [exact H|]. split; [|auto].
  rewrite Hr, Z.min_id, Z.max_id, List.filter_app.
  rewrite (HfA (in_range (key e) (key e))).
  2:{ intros x. unfold in_range. rewrite andb_true_iff, !Z.leb_le. lia. }
  cbn [app List.filter]. unfold in_range at 1. rewrite Hk, Z.leb_refl. reflexivity.
Qed.

Lemma insert_then_found_witness :
  exists f' e' rest r out,
    insert 8 dup_new dup1 = (Ok tt, f') /\
    range_search 8 (key dup_new) (key dup_new) f' = (Ok (e' :: rest), f') /\
    key e' = key dup_new /\ rid e' = rid dup_new /\
    search 8 (key dup_new) f' = (Ok (r :: out), f').
Proof.
  apply (insert_then_found 8 dup_new dup1).
  - apply (insert_WF 8 dup_old empty); [apply empty_WF | vm_compute; reflexivity].
  - vm_compute. auto.
  - vm_compute. discriminate.
  - vm_compute. lia.
Defined.

(** X25. In every state the operations reach from the empty index the
    auxiliary area holds at most [log2 (main_count + 1)] entries (none while
    D is empty): an insert that would exceed the bound compacts the file
    before it returns. *)
Theorem aux_area_bounded (f : sfile) :
  reachable f -> aux_count f <= Z.log2 (Z.max 1 (main_count f + 1)).
Proof.
  induction 1 as [|f f' fuel e Hr IH H|f f' fuel k r n Hr IH H|f f' Hr IH H].
  - vm_compute. discriminate.
  - apply (insert_view fuel e f f' (reachable_WF f Hr) H).
  - destruct (delete_key_view fuel k r f f' n (reachable_WF f Hr) H) as (-> & -> & _).
    exact IH.
  - pose proof (reachable_WF f Hr) as HWF.
    pose proof HWF as (_ & _ & _ & _ & _ & l0 & Hch).
    destruct (reorganize_inv f f' l0 HWF Hch H) as [_ ->].
    unfold aux_count, main_count, compacted. cbn [hdr fst snd].
    apply Z.log2_nonneg.
Qed.

Lemma aux_area_bounded_witness :
  aux_count demo5 <= Z.log2 (Z.max 1 (main_count demo5 + 1)).
Proof. apply (aux_area_bounded demo5 demo5_reachable). Defined.

End IndexViewFacts.

(** ** Row codec: sizes, types and foreign schemas *)

Module RowFmtMoreFacts.
Import RowFmt RowFmtSpec RowFmtMore RowFmtFacts.

(** *** The size of an encoded row *)

Lemma pack_field_size (typ : pystr) (val : value) (b : bytes) :
  pack_field typ val = Ok b -> Z.of_nat (length b) <= max_field_size typ.
Proof.
  unfold pack_field, max_field_size.
  destruct (typ_is typ "INT").
  { intros H. apply res_bind_ok in H as (z & _ & H).
    apply pack_i_inv in H as [_ ->]. rewrite length_le_bytes. lia. }
  destruct (typ_is typ "FLOAT").
  { intros H. apply res_bind_ok in H as (z & _ & H).
    apply pack_d_inv in H as [_ ->]. rewrite length_le_bytes. lia. }
  destruct (typ_starts typ "VARCHAR").
  { intros H. apply res_bind_ok in H as (s & _ & H).
    apply res_bind_ok in H as (enc & _ & H).
    apply res_bind_ok in H as (h & Hh & H). inversion H; subst b; clear H.
    apply pack_H_inv in Hh as [_ ->].
    rewrite length_app, length_le_bytes.
    pose proof (varchar_max_range typ).
    destruct (Z.ltb_spec (_varchar_max typ) (Z.of_nat (length enc))).
    - rewrite length_take. lia.
    - lia. }
  destruct (typ_is typ "DATE"); [|discriminate].
  intros H. apply res_bind_ok in H as (s & _ & H).
  apply res_bind_ok in H as (enc & _ & H).
  destruct (Z.ltb_spec 255 (Z.of_nat (length enc))); [discriminate|].
  apply res_bind_ok in H as (h & Hh & H). inversion H; subst b; clear H.
  apply pack_H_inv in Hh as [_ ->].
  rewrite length_app, length_le_bytes. lia.
Qed.

Lemma max_field_size_nonneg (typ : pystr) : 0 <= max_field_size typ.
Proof.
  unfold max_field_size. pose proof (varchar_max_range typ).
  destruct (typ_is typ "INT"); [lia|].
  destruct (typ_is typ "FLOAT"); [lia|].
  destruct (typ_starts typ "VARCHAR"); [lia|].
  destruct (typ_is typ "DATE"); lia.
Qed.

Lemma pack_cols_size (r : row) (cols : schema) :
  forall (i : nat) (nm : bytes) (parts : list bytes) nm' parts',
    pack_cols r cols i nm parts = Ok (nm', parts') ->
    length nm' = length nm /\
    Z.of_nat (length (concat parts'))
    <= Z.of_nat (length (concat parts))
       + fold_right (fun c acc => max_field_size (snd c) + acc) 0 cols.
Proof.
  induction cols as [|[name typ] rest IH]; intros i nm parts nm' parts' H.
  - inversion H; subst. cbn [fold_right]. split; [reflexivity | lia].
  - cbn [pack_cols] in H. cbn [fold_right snd].
    pose proof (max_field_size_nonneg typ) as Hnn.
    destruct (default VNone (r !! name)) eqn:Ev.
    + apply res_bind_ok in H as (bm & Hbm & H).
      apply is_null_set_null in Hbm as [Hl _].
      apply IH in H as [H1 H2]. split; [congruence | lia].
    + apply res_bind_ok in H as (b & Hb & H). apply pack_field_size in Hb.
      apply IH in H as [H1 H2]. split; [exact H1|].
      rewrite concat_app, length_app in H2. cbn [concat] in H2.
      rewrite app_nil_r in H2. lia.
    + apply res_bind_ok in H as (b & Hb & H). apply pack_field_size in Hb.
      apply IH in H as [H1 H2]. split; [exact H1|].
      rewrite concat_app, length_app in H2. cbn [concat] in H2.
      rewrite app_nil_r in H2. lia.
    + apply res_bind_ok in H as (b & Hb & H). apply pack_field_size in Hb.
      apply IH in H as [H1 H2]. split; [exact H1|].
      rewrite concat_app, length_app in H2. cbn [concat] in H2.
      rewrite app_nil_r in H2. lia.
    + apply res_bind_ok in H as (b & Hb & H). apply pack_field_size in Hb.
      apply IH in H as [H1 H2]. split; [exact H1|].
      rewrite concat_app, length_app in H2. cbn [concat] in H2.
      rewrite app_nil_r in H2. lia.
Qed.

Lemma pack_row_bound (r : row) (sch : schema) (blob : bytes) :
  pack_row r sch = Ok blob ->
  2 + _nullmap_size (Z.of_nat (length sch)) <= Z.of_nat (length blob)
  /\ Z.of_nat (length blob) <= max_row_size sch.
Proof.
  unfold pack_row. intros H.
  apply res_bind_ok in H as (header & Hh & H).
  apply res_bind_ok in H as ([nm parts] & Hc & H).
  inversion H; subst blob; clear H.
  apply pack_H_inv in Hh as [_ ->].
  apply pack_cols_size in Hc as [Hl Hs].
  rewrite length_replicate in Hl. cbn [concat length] in Hs.
  rewrite !length_app, length_le_bytes, Hl. unfold max_row_size.
  assert (0 <= _nullmap_size (Z.of_nat (length sch))).
  { unfold _nullmap_size. apply Z.div_pos; lia. }
  lia.
Qed.

(** X1. An encoding [pack_row] returns is never longer than the schema
    allows: two bytes of column count, the null bitmap, and for every column
    4 bytes (INT), 8 (FLOAT), 2 + N (VARCHAR, N as [_varchar_max] reads it,
    at most 65535) or 2 + 255 (DATE); and it always holds the count and the
    bitmap. *)
Theorem pack_row_size (r : row) (sch : schema) (blob : bytes) :
  pack_row r sch = Ok blob ->
  2 + _nullmap_size (Z.of_nat (length sch)) <= Z.of_nat (length blob)
  /\ Z.of_nat (length blob) <= max_row_size sch.
Proof. exact (pack_row_bound r sch blob). Qed.

Lemma pack_row_size_witness :
  2 + _nullmap_size (Z.of_nat (length demo_schema)) <= Z.of_nat (length demo_blob)
  /\ Z.of_nat (length demo_blob) <= max_row_size demo_schema.
Proof. apply (pack_row_size demo_row demo_schema demo_blob). vm_compute. reflexivity. Defined.

(** *** Decoding with a schema of another length *)

(** X2. What [pack_row] encoded for a schema is refused by [unpack_row]
    under any schema with another number of columns. *)
Theorem unpack_other_arity (r : row) (sch sch' : schema) (blob : bytes) :
  pack_row r sch = Ok blob ->
  length sch' <> length sch ->
  unpack_row blob sch' = Raise (ValueError "Schema mismatch").
Proof.
  intros Hpack Hne. unfold pack_row in Hpack.
  apply res_bind_ok in Hpack as (header & Hh & Hpack).
  apply res_bind_ok in Hpack as ([nm' parts'] & Hcols & Hpack).
  inversion Hpack; subst blob; clear Hpack.
  apply pack_H_inv in Hh as [Hn ->].
  unfold unpack_row, unpack_from_H.
  rewrite unpack_from_head by (rewrite length_le_bytes; reflexivity).
  cbn [res_bind].
  rewrite le_val_le_bytes by (change (256 ^ Z.of_nat 2) with 65536; lia).
  rewrite (proj2 (Z.eqb_neq _ _)) by lia. reflexivity.
Qed.

Lemma unpack_other_arity_witness :
  unpack_row demo_blob wide_schema = Raise (ValueError "Schema mismatch").
Proof.
  apply (unpack_other_arity demo_row demo_schema wide_schema demo_blob).
  - vm_compute. reflexivity.
  - vm_compute. discriminate.
Defined.

(** *** What [unpack_row] can return *)

Lemma length_slice_exact (buf : bytes) (a n : nat) :
  (a + n <= length buf)%nat -> length (slice buf a (a + n)) = n.
Proof. intros H. unfold slice. rewrite length_take, length_drop. lia. Qed.

Lemma unpack_from_length (n : nat) (buf : bytes) (off : nat) (bs : bytes) :
  unpack_from n buf off = Ok bs -> length bs = n.
Proof.
  unfold unpack_from. destruct (Nat.leb_spec (off + n) (length buf)) as [Hle|Hgt];
    [|discriminate].
  intros E. inversion E. apply length_slice_exact. exact Hle.
Qed.

Lemma unpack_field_typed (typ : pystr) (buf : bytes) (off off' : nat) (v : value) :
  unpack_field typ buf off = Ok (v, off') -> value_has_type typ v = true.
Proof.
  unfold unpack_field.
  destruct (typ_is typ "INT") eqn:Ei.
  { intros H. apply res_bind_ok in H as (z & Hz & H). inversion H; subst.
    unfold unpack_from_i in Hz. apply res_bind_ok in Hz as (bs & Hbs & Hz).
    inversion Hz; subst z. apply unpack_from_length in Hbs.
    pose proof (le_val_range bs) as Hr. rewrite Hbs in Hr.
    change (256 ^ Z.of_nat 4) with 4294967296 in Hr.
    cbn [value_has_type]. rewrite Ei. cbn [andb]. unfold signed32.
    destruct (Z.ltb_spec (le_val bs) 2147483648);
      apply andb_true_iff; split; apply Z.leb_le; lia. }
  destruct (typ_is typ "FLOAT") eqn:Ef.
  { intros H. apply res_bind_ok in H as (z & Hz & H). inversion H; subst.
    unfold unpack_from_d in Hz. apply res_bind_ok in Hz as (bs & Hbs & Hz).
    inversion Hz; subst z. apply unpack_from_length in Hbs.
    pose proof (le_val_range bs) as Hr. rewrite Hbs in Hr.
    change (256 ^ Z.of_nat 8) with 18446744073709551616 in Hr.
    cbn [value_has_type]. rewrite Ef. cbn [andb].
    apply andb_true_iff; split; [apply Z.leb_le | apply Z.ltb_lt]; lia. }
  destruct (typ_starts typ "VARCHAR" || typ_is typ "DATE") eqn:Es; [|discriminate].
  intros H. apply res_bind_ok in H as (ln & _ & H).
  apply res_bind_ok in H as (s & _ & H). inversion H; subst.
  cbn [value_has_type]. exact Es.
Qed.

Lemma unpack_cols_typed (buf bm : bytes) (cols : schema) :
  forall (i off : nat) (out res : row),
    unpack_cols buf bm cols i off out = Ok res ->
    (forall name, name ∉ cols.*1 -> res !! name = out !! name) /\
    (forall name, name ∈ cols.*1 -> is_Some (res !! name)) /\
    (NoDup cols.*1 ->
     forall name typ, (name, typ) ∈ cols ->
       exists v, res !! name = Some v /\ value_has_type typ v = true).
Proof.
  induction cols as [|[name0 typ0] rest IH]; intros i off out res H.
  - inversion H; subst. split; [auto|]. split.
    + intros name Hin. inversion Hin.
    + intros _ name typ Hin. inversion Hin.
  - cbn [unpack_cols] in H. apply res_bind_ok in H as (nul & _ & H).
    assert (Hstep : exists v0 off0,
               value_has_type typ0 v0 = true /\
               unpack_cols buf bm rest (S i) off0 (<[name0 := v0]> out) = Ok res).
    { destruct nul.
      - exists VNone, off. auto.
      - apply res_bind_ok in H as ([v off'] & Hf & H).
        exists v, off'. split; [eapply unpack_field_typed; eauto | exact H]. }
    destruct Hstep as (v0 & off0 & Hty & Hrest).
    destruct (IH _ _ _ _ Hrest) as (Hframe & Hdom & Htyped).
    cbn [fmap list_fmap fst].
    assert (Hhead : name0 ∉ rest.*1 -> res !! name0 = Some v0).
    { intros Hn. rewrite (Hframe name0 Hn). apply lookup_insert_eq. }
    split; [|split].
    + intros name Hn. apply not_elem_of_cons in Hn as [Hne Hn].
      rewrite (Hframe name Hn). apply lookup_insert_ne. congruence.
    + intros name Hin. destruct (decide (name ∈ rest.*1)) as [Hr|Hr]; [auto|].
      apply elem_of_cons in Hin as [->|Hin]; [|contradiction].
      rewrite (Hhead Hr). eauto.
    + intros Hnd name typ Hin. apply NoDup_cons in Hnd as [Hn0 Hnd].
      apply elem_of_cons in Hin as [E|Hin].
      * inversion E; subst. exists v0. auto.
      * apply (Htyped Hnd name typ Hin).
Qed.

(** X3. Whatever bytes it is given, a row [unpack_row] returns has exactly
    the columns of the schema, and (the column names being distinct) every
    column holds [None] or a value of the type of the column: a 32-bit
    integer for INT, a binary64 for FLOAT, a text for VARCHAR and DATE. *)
Theorem unpack_row_typed (buf : bytes) (sch : schema) (out : row) :
  unpack_row buf sch = Ok out ->
  (forall name, is_Some (out !! name) <-> name ∈ sch.*1) /\
  (NoDup sch.*1 ->
   forall name typ, (name, typ) ∈ sch ->
     exists v, out !! name = Some v /\ value_has_type typ v = true).
Proof.
  unfold unpack_row. intros H. apply res_bind_ok in H as (n & _ & H).
  destruct (negb (n =? Z.of_nat (length sch))); [discriminate|].
  apply unpack_cols_typed in H as (Hframe & Hdom & Htyped).
  split; [|exact Htyped].
  intros name. split; [|apply Hdom].
  intros Hs. destruct (decide (name ∈ sch.*1)) as [Hin|Hn]; [exact Hin|].
  rewrite (Hframe name Hn), lookup_empty in Hs. destruct Hs as [x Hx]. discriminate.
Qed.

Lemma unpack_row_typed_witness :
  exists out,
    unpack_row (take 7 abc_blob) wide_schema = Ok out /\
    (forall name, is_Some (out !! name) <-> name ∈ wide_schema.*1) /\
    (NoDup wide_schema.*1 ->
     forall name typ, (name, typ) ∈ wide_schema ->
       exists v, out !! name = Some v /\ value_has_type typ v = true).
Proof.
  eexists. split; [vm_compute; reflexivity|].
  apply (unpack_row_typed (take 7 abc_blob) wide_schema). vm_compute. reflexivity.
Defined.

End RowFmtMoreFacts.

(** ** Heap file: the rows an operation leaves alone *)

Module HeapRowsFacts.
Import Heap HeapSpec HeapRows HeapFacts.

Lemma is_live_spec (f : heap) (rd : RID) :
  is_live f rd = true <->
  0 <= page rd < num_pages f /\
  exists ns de off ln,
    hdr_at f (page rd) = Ok (ns, de) /\ 0 <= slot rd < ns /\
    slot_at f (page rd) (slot rd) = Ok (off, ln) /\ ln <> 0.
Proof.
  unfold is_live. split.
  - intros H. apply andb_true_iff in H as [H Hh].
    apply andb_true_iff in H as [H1 H2]. apply Z.leb_le in H1. apply Z.ltb_lt in H2.
    destruct (hdr_at f (page rd)) as [[ns de]| |]; try discriminate.
    apply andb_true_iff in Hh as [H Hs].
    apply andb_true_iff in H as [H3 H4]. apply Z.leb_le in H3. apply Z.ltb_lt in H4.
    destruct (slot_at f (page rd) (slot rd)) as [[off ln]| |]; try discriminate.
    apply negb_true_iff, Z.eqb_neq in Hs.
    split; [lia|]. exists ns, de, off, ln. auto.
  - intros ([H1 H2] & ns & de & off & ln & -> & [H3 H4] & -> & Hln).
    rewrite (proj2 (Z.leb_le _ _) H1), (proj2 (Z.ltb_lt _ _) H2).
    rewrite (proj2 (Z.leb_le _ _) H3), (proj2 (Z.ltb_lt _ _) H4).
    rewrite (proj2 (Z.eqb_neq _ _) Hln). reflexivity.
Qed.

Lemma page_sound_spec (f : heap) (q : Z) :
  page_sound f q = true <->
  exists ns de,
    hdr_at f q = Ok (ns, de) /\ 4 + ns * 4 <= de <= 4096 /\
    forall s, 0 <= s < ns ->
      exists off ln, slot_at f q s = Ok (off, ln)
                     /\ (ln = 0 \/ de <= off /\ off + ln <= 4096).
Proof.
  unfold page_sound, slot_ok, HDR_SIZE, SLOT_SIZE, PAGE_SIZE. split.
  - destruct (hdr_at f q) as [[ns de]| |]; try discriminate.
    intros H. apply andb_true_iff in H as [H Hs].
    apply andb_true_iff in H as [H1 H2]. apply Z.leb_le in H1, H2.
    exists ns, de. split; [reflexivity|]. split; [lia|].
    intros s Hrange. rewrite forallb_forall in Hs.
    specialize (Hs (Z.to_nat s)). rewrite Z2Nat.id in Hs by lia.
    specialize (Hs ltac:(apply in_seq; lia)).
    destruct (slot_at f q s) as [[off ln]| |]; try discriminate.
    exists off, ln. split; [reflexivity|].
    apply orb_true_iff in Hs as [Hs|Hs]; [left; apply Z.eqb_eq; exact Hs|].
    apply andb_true_iff in Hs as [Ha Hb]. apply Z.leb_le in Ha, Hb. right. lia.
  - intros (ns & de & -> & [H1 H2] & Hs).
    rewrite (proj2 (Z.leb_le _ _) H1), (proj2 (Z.leb_le _ _) H2). cbn [andb].
    apply forallb_forall. intros i Hi. apply in_seq in Hi.
    destruct (Hs (Z.of_nat i) ltac:(lia)) as (off & ln & -> & Hcase).
    apply orb_true_iff. destruct Hcase as [->|[Ha Hb]]; [left; reflexivity|].
    right. apply andb_true_iff. split; apply Z.leb_le; lia.
Qed.

Lemma heap_sound_spec (f : heap) :
  heap_sound f = true <->
  flen f mod 4096 = 0 /\
  forall q, 0 <= q < num_pages f -> page_sound f q = true.
Proof.
  unfold heap_sound, PAGE_SIZE. rewrite andb_true_iff, Z.eqb_eq, forallb_forall.
  split; intros [Ha Hp]; (split; [exact Ha|]).
  - intros q Hq. specialize (Hp (Z.to_nat q)).
    rewrite Z2Nat.id in Hp by lia. apply Hp. apply in_seq. lia.
  - intros i Hi. apply in_seq in Hi. apply Hp. lia.
Qed.

Lemma heap_sound_wf (f : heap) : heap_sound f = true -> heap_wf f = true.
Proof.
  intros H. apply heap_sound_spec in H as [Hal Hp].
  apply heap_wf_spec. split; [exact Hal|].
  intros q Hq. apply page_ok_spec.
  destruct (proj1 (page_sound_spec f q) (Hp q Hq)) as (ns & de & Hh & Hi & _).
  eauto.
Qed.

Lemma num_pages_nonneg (f : heap) : 0 <= num_pages f.
Proof. unfold num_pages, PAGE_SIZE. apply Z.div_pos; [apply flen_nonneg | lia]. Qed.

(** *** What a placement writes *)

(** A placement writes the page header, one slot and the blob, and nothing
    else. *)
Lemma try_place_frame (p ns de : Z) (blob : bytes) (f : heap) (sfree : option Z) :
  0 <= p -> (p + 1) * 4096 <= flen f ->
  hdr_at f p = Ok (ns, de) ->
  4 + ns * 4 <= de <= 4096 ->
  1 <= flen blob ->
  _find_free_slot p ns f = (Ok sfree, f) ->
  (forall s, sfree = Some s -> 0 <= s < ns) ->
  flen blob <= _free_bytes ns de match sfree with Some _ => true | None => false end ->
  exists f',
    try_place p blob f
    = (Ok (Some (mkRID p match sfree with Some s => s | None => ns end)), f') /\
    forall a n, 0 <= a -> 0 <= n ->
      (a + n <= p * 4096 \/ p * 4096 + 4 <= a) ->
      (a + n <= p * 4096 + 4 + match sfree with Some s => s | None => ns end * 4
       \/ p * 4096 + 4 + match sfree with Some s => s | None => ns end * 4 + 4 <= a) ->
      (a + n <= p * 4096 + (de - flen blob) \/ p * 4096 + de <= a) ->
      rdz f' a n = rdz f a n.
Proof.
  intros Hp Hlen Hhdr Hinv Hblob Hfind Hfree' Hfit.
  destruct (hdr_at_range _ _ _ _ Hp Hhdr) as [Hns Hde].
  assert (Hrd : _read_hdr p f = (Ok (ns, de), f)) by (apply read_hdr_run; assumption).
  unfold try_place. rewrite (bind_eq _ _ _ _ _ Hrd).
  rewrite (bind_eq _ _ _ _ _ Hfind). fold (flen blob).
  set (len := flen blob) in *.
  rewrite (proj2 (Z.leb_le _ _) Hfit).
  unfold _free_bytes, HDR_SIZE, SLOT_SIZE in Hfit.
  destruct sfree as [s|].
  - specialize (Hfree' s eq_refl).
    rewrite (bind_eq _ _ f f ns) by reflexivity.
    set (B := p * 4096 + (de - len)).
    set (f2 := wrz B blob f).
    assert (Hl2 : flen f2 = flen f) by (apply flen_wrz; unfold B; fold len; lia).
    rewrite (bind_eq _ _ f f2 tt).
    2:{ apply update_ok. unfold _base, PAGE_SIZE. fold B.
        apply file_write_wrz; unfold B; lia. }
    set (S := p * 4096 + 4 + s * 4).
    set (sb := le_bytes 2 (de - len) ++ le_bytes 2 len).
    set (f3 := wrz S sb f2).
    assert (Hl3 : flen f3 = flen f2)
      by (apply flen_wrz; unfold S, sb; rewrite ?flen_HH; lia).
    rewrite (bind_eq _ _ f2 f3 tt) by (apply write_slot_eq; lia).
    set (hb := le_bytes 2 ns ++ le_bytes 2 (de - len)).
    set (f4 := wrz (p * 4096) hb f3).
    rewrite (bind_eq _ _ f3 f4 tt) by (apply write_hdr_eq; lia).
    exists f4. split; [reflexivity|].
    intros a n Ha Hn Hd1 Hd2 Hd3. unfold f4.
    rewrite rdz_wrz_disj by (unfold hb; rewrite ?flen_HH; lia).
    unfold f3.
    rewrite rdz_wrz_disj by (unfold sb, S; rewrite ?flen_HH; lia).
    unfold f2. apply rdz_wrz_disj; unfold B; fold len; lia.
  - set (hb1 := le_bytes 2 (ns + 1) ++ le_bytes 2 de).
    set (f1 := wrz (p * 4096) hb1 f).
    assert (Hl1 : flen f1 = flen f)
      by (apply flen_wrz; unfold hb1; rewrite ?flen_HH; lia).
    rewrite (bind_eq _ _ f f1 (ns + 1)).
    2:{ rewrite (bind_eq _ _ f f1 tt) by (apply write_hdr_eq; lia). reflexivity. }
    set (B := p * 4096 + (de - len)).
    set (f2 := wrz B blob f1).
    assert (Hl2 : flen f2 = flen f1) by (apply flen_wrz; unfold B; fold len; lia).
    rewrite (bind_eq _ _ f1 f2 tt).
    2:{ apply update_ok. unfold _base, PAGE_SIZE. fold B.
        apply file_write_wrz; unfold B; lia. }
    set (S := p * 4096 + 4 + ns * 4).
    set (sb := le_bytes 2 (de - len) ++ le_bytes 2 len).
    set (f3 := wrz S sb f2).
    assert (Hl3 : flen f3 = flen f2)
      by (apply flen_wrz; unfold S, sb; rewrite ?flen_HH; lia).
    rewrite (bind_eq _ _ f2 f3 tt) by (apply write_slot_eq; lia).
    set (hb := le_bytes 2 (ns + 1) ++ le_bytes 2 (de - len)).
    set (f4 := wrz (p * 4096) hb f3).
    rewrite (bind_eq _ _ f3 f4 tt) by (apply write_hdr_eq; lia).
    exists f4. split; [reflexivity|].
    intros a n Ha Hn Hd1 Hd2 Hd3. unfold f4.
    rewrite rdz_wrz_disj by (unfold hb; rewrite ?flen_HH; lia).
    unfold f3.
    rewrite rdz_wrz_disj by (unfold sb, S; rewrite ?flen_HH; lia).
    unfold f2.
    rewrite rdz_wrz_disj by (unfold B; fold len; lia).
    unfold f1. apply rdz_wrz_disj; unfold hb1; rewrite ?flen_HH; lia.
Qed.

(** A page added at the end leaves the pages before it as they were. *)
Lemma ensure_new_page_frame (f f1 : heap) :
  heap_wf f = true ->
  _ensure_page (num_pages f) f = (Ok tt, f1) ->
  forall a n, 0 <= a -> 0 <= n -> a + n <= flen f -> rdz f1 a n = rdz f a n.
Proof.
  intros Hwf Hrun a n Ha Hn Hb.
  apply heap_wf_spec in Hwf as [Hal _].
  pose proof (aligned_len f Hal) as Hlen.
  pose proof (num_pages_nonneg f) as Hnp.
  set (np := num_pages f) in *.
  set (f0 := f ++ replicate 4096 x00).
  assert (Hl0 : flen f0 = flen f + 4096).
  { unfold f0. rewrite flen_app. unfold flen at 2. rewrite length_replicate. lia. }
  set (hb := le_bytes 2 0 ++ le_bytes 2 4096).
  assert (Hrun' : _ensure_page np f = (Ok tt, wrz (np * 4096) hb f0)).
  { unfold _ensure_page. rewrite (bind_eq _ _ _ _ _ (num_pages_run f)). fold np.
    rewrite Z.ltb_irrefl.
    rewrite (bind_eq _ _ _ _ _ (num_pages_run f)). fold np.
    rewrite (bind_eq _ _ f f0 tt).
    2:{ unfold append_pages, poke. replace (np - np + 1) with 1 by lia.
        reflexivity. }
    unfold PAGE_SIZE. apply write_hdr_eq; lia. }
  rewrite Hrun' in Hrun. inversion Hrun; subst f1.
  rewrite rdz_wrz_disj by (unfold hb; rewrite ?flen_HH; lia).
  unfold f0. apply rdz_app_l; lia.
Qed.

(** *** [insert], byte by byte *)

(** Where the row went and what the insert wrote: the header of the page of
    the RID, the slot of the RID and the blob below the old [data_end] (or,
    in a page added at the end, below [PAGE_SIZE]); every other byte of the
    old file is as it was. *)
Lemma insert_blob_frame (blob : bytes) (f : heap) :
  heap_wf f = true -> 1 <= flen blob -> flen blob + 8 <= 4096 ->
  exists rid f' ns' de',
    insert_blob blob f = (Ok rid, f') /\
    0 <= page rid <= num_pages f /\
    num_pages f' = Z.max (num_pages f) (page rid + 1) /\
    flen f' mod 4096 = 0 /\
    hdr_at f' (page rid) = Ok (ns', de') /\
    4 + ns' * 4 <= de' /\ de' + flen blob <= 4096 /\
    0 <= slot rid < ns' /\
    slot_at f' (page rid) (slot rid) = Ok (de', flen blob) /\
    rdz f' (page rid * 4096 + de') (flen blob) = blob /\
    (forall a n, 0 <= a -> 0 <= n -> a + n <= flen f ->
       (a + n <= page rid * 4096 \/ page rid * 4096 + 4 <= a) ->
       (a + n <= page rid * 4096 + 4 + slot rid * 4
        \/ page rid * 4096 + 4 + slot rid * 4 + 4 <= a) ->
       (a + n <= page rid * 4096 + de'
        \/ page rid * 4096 + de' + flen blob <= a) ->
       rdz f' a n = rdz f a n) /\
    (page rid < num_pages f ->
     page rid = num_pages f - 1 /\
     exists ns de sfree,
       hdr_at f (page rid) = Ok (ns, de) /\ de' = de - flen blob /\
       _find_free_slot (page rid) ns f = (Ok sfree, f) /\
       flen blob <= _free_bytes ns de match sfree with Some _ => true | None => false end /\
       ((sfree = None /\ slot rid = ns /\ ns' = ns + 1) \/
        (sfree = Some (slot rid) /\ ns' = ns /\
         exists off, slot_at f (page rid) (slot rid) = Ok (off, 0)))) /\
    (num_pages f <= page rid ->
     slot rid = 0 /\ ns' = 1 /\
     (1 <= num_pages f ->
      exists ns de sfree,
        hdr_at f (num_pages f - 1) = Ok (ns, de) /\
        _find_free_slot (num_pages f - 1) ns f = (Ok sfree, f) /\
        _free_bytes ns de match sfree with Some _ => true | None => false end
        < flen blob)).
Proof.
  intros Hwf Hb1 Hb2.
  pose proof Hwf as Hwf0. apply heap_wf_spec in Hwf0 as [Hal Hpages].
  pose proof (aligned_len f Hal) as Hlen.
  pose proof (num_pages_nonneg f) as Hnp.
  assert (Hfresh : forall f1,
    _ensure_page (num_pages f) f = (Ok tt, f1) ->
    heap_wf f1 = true -> flen f1 = flen f + 4096 ->
    num_pages f1 = num_pages f + 1 ->
    hdr_at f1 (num_pages f) = Ok (0, 4096) ->
    exists f',
      try_place (num_pages f) blob f1 = (Ok (Some (mkRID (num_pages f) 0)), f') /\
      num_pages f' = num_pages f + 1 /\ flen f' mod 4096 = 0 /\
      hdr_at f' (num_pages f) = Ok (1, 4096 - flen blob) /\
      slot_at f' (num_pages f) 0 = Ok (4096 - flen blob, flen blob) /\
      rdz f' (num_pages f * 4096 + (4096 - flen blob)) (flen blob) = blob /\
      forall a n, 0 <= a -> 0 <= n -> a + n <= flen f -> rdz f' a n = rdz f a n).
  { intros f1 Hens Hwf1 Hl1 Hnp1 Hh1. set (np := num_pages f) in *.
    destruct (place_fresh np blob f1) as (f' & Hplace & Hpl); try assumption; try lia.
    destruct (try_place_frame np 0 4096 blob f1 None) as (f'' & Hplace' & Hfr);
      try assumption; try lia; try reflexivity.
    { intros s Hs. discriminate. }
    { unfold _free_bytes, HDR_SIZE, SLOT_SIZE. lia. }
    assert (f'' = f') by congruence. subst f''.
    destruct Hpl as (Hl' & Hh' & Hs' & Hr' & _ & _ & _).
    exists f'. split; [exact Hplace|].
    split; [unfold num_pages in *; rewrite Hl'; exact Hnp1|].
    split.
    { rewrite Hl', Hl1, Hlen.
      replace (np * 4096 + 4096) with ((np + 1) * 4096) by lia. apply Z.mod_mul. lia. }
    split; [exact Hh'|]. split; [exact Hs'|]. split; [exact Hr'|].
    intros a n Ha Hn Hb. rewrite Hfr by lia.
    apply (ensure_new_page_frame f f1 Hwf Hens); assumption. }
  unfold insert_blob. fold (flen blob). unfold PAGE_SIZE at 1, HDR_SIZE, SLOT_SIZE.
  rewrite (proj2 (Z.ltb_ge _ _)) by lia.
  rewrite (bind_eq _ _ _ _ _ (num_pages_run f)).
  destruct (Z.eqb_spec (num_pages f) 0) as [Hz|Hnz].
  - destruct (ensure_new_page f Hwf) as (f1 & Hens & Hwf1 & Hl1 & Hnp1 & Hh1).
    destruct (Hfresh f1 Hens Hwf1 Hl1 Hnp1 Hh1)
      as (f' & Hplace & Hnp' & Hal' & Hh' & Hs' & Hr' & Hfr).
    rewrite Hz in Hens, Hnp1, Hplace, Hh', Hs', Hr', Hnp'.
    rewrite (bind_eq _ _ _ _ _ Hens).
    rewrite (bind_eq _ _ _ _ _ (num_pages_run f1)). rewrite Hnp1.
    cbn [Z.add Z.sub Z.opp Z.pos_sub].
    rewrite (bind_eq _ _ _ _ _ Hplace).
    exists (mkRID 0 0), f', 1, (4096 - flen blob). cbn [page slot].
    split; [reflexivity|]. split; [lia|]. split; [lia|]. split; [exact Hal'|].
    split; [exact Hh'|]. split; [lia|]. split; [lia|]. split; [lia|].
    split; [exact Hs'|]. split; [exact Hr'|].
    split; [intros; apply Hfr; assumption|]. split; [intros; lia|].
    intros _. split; [reflexivity|]. split; [reflexivity | intros; lia].
  - rewrite (bind_eq _ _ f f tt) by reflexivity.
    rewrite (bind_eq _ _ _ _ _ (num_pages_run f)).
    set (np := num_pages f) in *.
    pose proof (Hpages (np - 1) ltac:(lia)) as Hok.
    apply page_ok_spec in Hok as (ns & de & Hh & Hinv).
    destruct (hdr_at_range f (np - 1) ns de ltac:(lia) Hh) as [Hns Hde].
    destruct (find_free_from_spec (np - 1) f (Z.to_nat ns) 0) as (sfree & Hfind & Hfree);
      [lia | lia | lia |].
    assert (Hfree' : forall s, sfree = Some s -> 0 <= s < ns).
    { intros s Hs. destruct (Hfree s Hs) as [? _]. lia. }
    destruct (try_place_spec (np - 1) ns de blob f ltac:(lia) ltac:(lia) Hh Hinv Hb1)
      as (sfree0 & Hfind0 & _ & Hres).
    assert (sfree0 = sfree) by (unfold _find_free_slot in Hfind0; congruence).
    subst sfree0. cbv zeta in Hres.
    destruct (Z.leb_spec (flen blob)
                (_free_bytes ns de match sfree with Some _ => true | None => false end))
      as [Hfit|Hnofit].
    + destruct Hres as (f' & Hplace & Hpl).
      destruct (try_place_frame (np - 1) ns de blob f sfree) as (f'' & Hplace' & Hfr);
        try assumption; try lia.
      assert (f'' = f') by congruence. subst f''.
      rewrite (bind_eq _ _ _ _ _ Hplace).
      destruct Hpl as (Hl' & Hh' & Hs' & Hr' & Hinv' & Hsl' & _).
      exists (mkRID (np - 1) match sfree with Some s => s | None => ns end), f',
        (if match sfree with Some _ => true | None => false end then ns else ns + 1),
        (de - flen blob).
      cbn [page slot].
      split; [reflexivity|]. split; [lia|].
      split; [unfold np, num_pages in *; rewrite Hl'; fold (num_pages f); lia|].
      split; [rewrite Hl'; exact Hal|].
      split; [exact Hh'|]. split; [lia|]. split; [lia|]. split; [exact Hsl'|].
      split; [exact Hs'|]. split; [exact Hr'|].
      split.
      { intros a n Ha Hn Hb Hd1 Hd2 Hd3. apply Hfr; try assumption.
        replace (np - 1) with (np - 1) in * by reflexivity. lia. }
      split; [|intros; lia].
      intros _. split; [reflexivity|]. exists ns, de, sfree.
      split; [exact Hh|]. split; [reflexivity|].
      split; [exact Hfind|]. split; [exact Hfit|].
      destruct sfree as [s|].
      * right. split; [reflexivity|]. split; [reflexivity|].
        destruct (Hfree s eq_refl) as [_ Hoff]. exact Hoff.
      * left. repeat split; reflexivity.
    + rewrite (bind_eq _ _ _ _ _ Hres).
      rewrite (bind_eq _ _ _ _ _ (num_pages_run f)). fold np.
      destruct (ensure_new_page f Hwf) as (f1 & Hens & Hwf1 & Hl1 & Hnp1 & Hh1).
      destruct (Hfresh f1 Hens Hwf1 Hl1 Hnp1 Hh1)
        as (f' & Hplace & Hnp' & Hal' & Hh' & Hs' & Hr' & Hfr).
      fold np in Hens, Hnp1, Hh1, Hplace, Hnp', Hh', Hs', Hr'.
      rewrite (bind_eq _ _ _ _ _ Hens).
      rewrite (bind_eq _ _ _ _ _ Hplace).
      exists (mkRID np 0), f', 1, (4096 - flen blob). cbn [page slot].
      split; [reflexivity|]. split; [lia|]. split; [lia|]. split; [exact Hal'|].
      split; [exact Hh'|]. split; [lia|]. split; [lia|]. split; [lia|].
      split; [exact Hs'|]. split; [exact Hr'|].
      split; [intros; apply Hfr; assumption|]. split; [intros; lia|].
      intros _. split; [reflexivity|]. split; [reflexivity|].
      intros _. exists ns, de, sfree. split; [exact Hh|]. split; [exact Hfind|]. lia.
Qed.

Lemma same_hdr (f f' : heap) (q : Z) :
  0 <= q -> rdz f' (q * 4096) 4 = rdz f (q * 4096) 4 -> hdr_at f' q = hdr_at f q.
Proof. intros Hq H. rewrite !hdr_at_eq by assumption. rewrite H. reflexivity. Qed.

Lemma same_slot (f f' : heap) (q s : Z) :
  0 <= q * 4096 + 4 + s * 4 ->
  rdz f' (q * 4096 + 4 + s * 4) 4 = rdz f (q * 4096 + 4 + s * 4) 4 ->
  slot_at f' q s = slot_at f q s.
Proof. intros Hq H. rewrite !slot_at_eq by assumption. rewrite H. reflexivity. Qed.

Lemma rid_eqb_eq (a b : RID) : rid_eqb a b = true <-> a = b.
Proof.
  unfold rid_eqb. rewrite andb_true_iff, !Z.eqb_eq. destruct a, b; cbn [page slot].
  split; [intros [-> ->]; reflexivity | intros H; inversion H; auto].
Qed.

Lemma rid_eqb_neq (a b : RID) :
  rid_eqb a b = false <-> (page a <> page b \/ slot a <> slot b).
Proof.
  unfold rid_eqb. rewrite andb_false_iff, !Z.eqb_neq. reflexivity.
Qed.

(** Two files that agree on every byte of a page agree on what the page
    holds. *)
Lemma same_page_sound (f f' : heap) (q : Z) :
  0 <= q ->
  (forall a n, q * 4096 <= a -> 0 <= n -> a + n <= (q + 1) * 4096 ->
               rdz f' a n = rdz f a n) ->
  page_sound f q = true -> page_sound f' q = true.
Proof.
  intros Hq Hsame H. apply page_sound_spec in H as (ns & de & Hh & Hi & Hs).
  destruct (hdr_at_range _ _ _ _ Hq Hh) as [Hns _].
  apply page_sound_spec. exists ns, de.
  split; [rewrite (same_hdr f f' q Hq) by (apply Hsame; lia); exact Hh|].
  split; [exact Hi|]. intros s Hrange.
  destruct (Hs s Hrange) as (off & ln & Hsl & Hc). exists off, ln.
  split; [|exact Hc].
  rewrite (same_slot f f' q s) by (try apply Hsame; lia). exact Hsl.
Qed.

Lemma same_page_live (f f' : heap) (rd : RID) :
  0 <= page rd < num_pages f -> num_pages f <= num_pages f' ->
  page_sound f (page rd) = true ->
  (forall a n, page rd * 4096 <= a -> 0 <= n -> a + n <= (page rd + 1) * 4096 ->
               rdz f' a n = rdz f a n) ->
  is_live f' rd = is_live f rd /\
  (is_live f rd = true -> payload_at f' rd = payload_at f rd).
Proof.
  intros Hq Hnp Hsound Hsame. destruct rd as [q s]. cbn [page slot] in *.
  apply page_sound_spec in Hsound as (ns & de & Hh & Hi & Hs).
  destruct (hdr_at_range f q ns de ltac:(lia) Hh) as [Hns _].
  assert (Hh' : hdr_at f' q = Ok (ns, de))
    by (rewrite (same_hdr f f' q) by (try apply Hsame; lia); exact Hh).
  unfold is_live, payload_at. cbn [page slot]. rewrite Hh, Hh'.
  rewrite !(proj2 (Z.leb_le 0 q)) by lia.
  rewrite !(proj2 (Z.ltb_lt q _)) by lia. cbn [andb].
  destruct (Z.leb_spec 0 s) as [Hs0|]; [|split; [reflexivity | discriminate]].
  destruct (Z.ltb_spec s ns) as [Hs1|]; [|split; [reflexivity | discriminate]].
  cbn [andb].
  destruct (Hs s ltac:(lia)) as (off & ln & Hsl & Hc).
  rewrite (same_slot f f' q s) by (try apply Hsame; lia). rewrite Hsl.
  split; [reflexivity|]. intros Hlive.
  apply negb_true_iff, Z.eqb_neq in Hlive.
  destruct Hc as [?|[Hc1 Hc2]]; [contradiction|].
  destruct (hdr_at_range f q ns de ltac:(lia) Hh) as [_ Hde].
  f_equal. unfold _base, PAGE_SIZE. apply Hsame; [lia | | lia].
  rewrite slot_at_eq in Hsl by lia.
  destruct (unpack_HH_rdz f (q * 4096 + 4 + s * 4)) as (x & y & Hxy & _ & Hy);
    [lia | |].
  { unfold num_pages, PAGE_SIZE in Hq.
    pose proof (Z.mul_div_le (flen f) 4096 ltac:(lia)). lia. }
  rewrite Hxy in Hsl. inversion Hsl; subst. lia.
Qed.

Lemma insert_rows_frame (sch : RowFmt.schema) (r : RowFmt.row) (blob : bytes)
    (f : heap) :
  heap_sound f = true ->
  RowFmt.pack_row r sch = Ok blob ->
  flen blob + HDR_SIZE + SLOT_SIZE <= PAGE_SIZE ->
  exists rid f',
    insert sch r f = (Ok rid, f') /\
    heap_sound f' = true /\
    is_live f rid = false /\
    is_live f' rid = true /\
    payload_at f' rid = Ok blob /\
    forall rd, rid_eqb rd rid = false ->
      is_live f' rd = is_live f rd /\
      (is_live f rd = true -> payload_at f' rd = payload_at f rd).
Proof.
  intros Hsnd Hpack Hsize. unfold HDR_SIZE, SLOT_SIZE, PAGE_SIZE in Hsize.
  pose proof (RowFmtFacts.pack_row_length _ _ _ Hpack) as Hplen.
  assert (Hb1 : 1 <= flen blob) by (unfold flen; lia).
  pose proof (heap_sound_wf f Hsnd) as Hwf.
  apply heap_sound_spec in Hsnd as [Hal Hsound].
  pose proof (aligned_len f Hal) as Hlen.
  pose proof (num_pages_nonneg f) as Hnp.
  rewrite (insert_run sch r blob f Hpack).
  destruct (insert_blob_frame blob f Hwf Hb1 ltac:(lia))
    as (rid & f' & ns' & de' & Hrun & Hp0 & Hnp' & Hal' & Hh' & Hi1 & Hi2 & Hsl
        & Hs' & Hr' & Hfr & Hold & Hnew).
  destruct rid as [p s]. cbn [page slot] in *.
  set (np := num_pages f) in *. set (len := flen blob) in *.
  exists (mkRID p s), f'. split; [exact Hrun|].
  (* the pages the insert did not touch *)
  assert (Hother : forall q, 0 <= q < np -> q <> p ->
            forall a n, q * 4096 <= a -> 0 <= n -> a + n <= (q + 1) * 4096 ->
                        rdz f' a n = rdz f a n).
  { intros q Hq Hne a n Ha Hn Hb. apply Hfr; lia. }
  (* the bytes of the page of the row the insert left alone *)
  assert (Hdir : forall s0, p < np -> 0 <= s0 -> s0 <> s -> s0 < ns' ->
            slot_at f' p s0 = slot_at f p s0).
  { intros s0 Hp Hs0 Hne Hlt. apply same_slot; [lia|]. apply Hfr; lia. }
  assert (Hlive' : is_live f' (mkRID p s) = true).
  { apply is_live_spec. cbn [page slot]. split; [lia|].
    exists ns', de', de', len. repeat split; try assumption; lia. }
  assert (Hpay' : payload_at f' (mkRID p s) = Ok blob).
  { unfold payload_at. cbn [page slot]. rewrite Hs'. unfold _base, PAGE_SIZE.
    rewrite Hr'. reflexivity. }
  assert (Hdead : is_live f (mkRID p s) = false).
  { destruct (is_live f (mkRID p s)) eqn:E; [|reflexivity]. exfalso.
    apply is_live_spec in E as (Hpr & ns & de & off & ln & Hh & Hsr & Hsl0 & Hln).
    cbn [page slot] in *. fold np in Hpr.
    destruct (Hold ltac:(lia)) as (_ & ns0 & de0 & sf & Hh0 & _ & _ & _ & Hcase).
    assert (ns0 = ns) by congruence. subst ns0.
    destruct Hcase as [(_ & Hc & _)|(_ & _ & off0 & Hc)]; [lia|].
    rewrite Hc in Hsl0. inversion Hsl0. congruence. }
  split; [|split; [exact Hdead | split; [exact Hlive' | split; [exact Hpay'|]]]].
  - (* soundness *)
    apply heap_sound_spec. split; [exact Hal'|].
    rewrite Hnp'. intros q Hq.
    destruct (Z.eq_dec q p) as [->|Hne].
    + apply page_sound_spec. exists ns', de'. split; [exact Hh'|]. split; [lia|].
      intros s0 Hs0. destruct (Z.eq_dec s0 s) as [->|Hnes].
      * exists de', len. split; [exact Hs'|]. right. lia.
      * destruct (Z.lt_ge_cases p np) as [Hlt|Hge].
        -- destruct (Hold Hlt) as (_ & ns & de & sf & Hh & Hde & _ & _ & Hcase).
           assert (Hs0' : 0 <= s0 < ns)
             by (destruct Hcase as [(_ & ? & ?)|(_ & ? & _)]; lia).
           pose proof (Hsound p ltac:(lia)) as Hps.
           apply page_sound_spec in Hps as (ns1 & de1 & Hh1 & Hiv & Hslots).
           assert (ns1 = ns /\ de1 = de) as [-> ->] by (split; congruence).
           destruct (Hslots s0 Hs0') as (off & ln & Hsl0 & Hc).
           exists off, ln. rewrite Hdir by lia. split; [exact Hsl0|].
           destruct Hc as [?|[? ?]]; [left; assumption | right; unfold len in *; lia].
        -- destruct (Hnew Hge) as (-> & -> & _). lia.
    + apply (same_page_sound f f' q); [lia | | apply Hsound; lia].
      apply Hother; lia.
  - (* the other rows *)
    intros rd Hrd. apply rid_eqb_neq in Hrd. cbn [page slot] in Hrd.
    destruct rd as [q s0]. cbn [page slot] in Hrd.
    destruct (Z.leb_spec 0 q) as [Hq0|Hq0].
    2:{ unfold is_live. cbn [page slot].
        rewrite !(proj2 (Z.leb_gt 0 q)) by lia. split; [reflexivity | discriminate]. }
    destruct (Z.ltb_spec q np) as [Hq1|Hq1].
    2:{ assert (Hf : is_live f (mkRID q s0) = false).
        { unfold is_live. cbn [page slot]. fold np.
          rewrite (proj2 (Z.ltb_ge q np)) by lia. rewrite andb_false_r. reflexivity. }
        rewrite Hf. split; [|discriminate].
        destruct (is_live f' (mkRID q s0)) eqn:E; [|reflexivity]. exfalso.
        apply is_live_spec in E as (Hpr & ns & de & off & ln & Hh & Hsr & _).
        cbn [page slot] in *. rewrite Hnp' in Hpr.
        assert (q = p) by lia. subst q.
        destruct (Hnew ltac:(lia)) as (-> & -> & _).
        assert (ns = 1) by congruence. lia. }
    destruct (Z.eq_dec q p) as [->|Hne].
    2:{ apply same_page_live; cbn [page slot]; try (fold np; lia).
        - apply Hsound. lia.
        - apply Hother; lia. }
    (* a row of the page the new row went to *)
    destruct Hrd as [Hrd|Hrd]; [contradiction|].
    destruct (Hold Hq1) as (_ & ns & de & sf & Hh & Hde & _ & _ & Hcase0).
    assert (Hcase : (s = ns /\ ns' = ns + 1) \/ ns' = ns)
      by (destruct Hcase0 as [(_ & ? & ?)|(_ & ? & _)]; [left; split; assumption | right; assumption]).
    pose proof (Hsound p ltac:(lia)) as Hps.
    apply page_sound_spec in Hps as (ns1 & de1 & Hh1 & Hiv & Hslots).
    assert (ns1 = ns /\ de1 = de) as [-> ->] by (split; congruence).
    unfold is_live, payload_at. cbn [page slot]. fold np. rewrite Hh, Hh', Hnp'.
    rewrite !(proj2 (Z.leb_le 0 p)) by lia.
    rewrite (proj2 (Z.ltb_lt p np)) by lia.
    rewrite (proj2 (Z.ltb_lt p (Z.max np (p + 1)))) by lia. cbn [andb].
    destruct (Z.leb_spec 0 s0) as [Hs0|]; [|split; [reflexivity | discriminate]].
    cbn [andb].
    destruct (Z.ltb_spec s0 ns) as [Hs1|Hs1].
    + rewrite (proj2 (Z.ltb_lt s0 ns')) by (destruct Hcase as [[? ?]|?]; lia).
      rewrite Hdir by (try assumption; destruct Hcase as [[? ?]|?]; lia).
      destruct (Hslots s0 ltac:(lia)) as (off & ln & Hsl0 & Hc).
      rewrite Hsl0. split; [reflexivity|]. intros Hlive.
      apply negb_true_iff, Z.eqb_neq in Hlive.
      destruct Hc as [?|[Hc1 Hc2]]; [contradiction|].
      assert (Hln : 0 <= ln).
      { rewrite slot_at_eq in Hsl0 by lia.
        destruct (unpack_HH_rdz f (p * 4096 + 4 + s0 * 4)) as (x & y & Hxy & _ & Hy);
          [lia | lia |].
        rewrite Hxy in Hsl0. inversion Hsl0 as [[Ex Ey]]. lia. }
      f_equal. unfold _base, PAGE_SIZE. apply Hfr; unfold len in *; lia.
    + rewrite (proj2 (Z.ltb_ge s0 ns')) by (destruct Hcase as [[? ?]|?]; lia).
      split; [reflexivity | discriminate].
Qed.

(** X4. [insert] on a sound heap: the RID it returns was not live and is
    live afterwards, with the blob as its payload; every other RID is live
    exactly when it was, with the payload it had; the heap stays sound. *)
Theorem insert_keeps_rows (sch : RowFmt.schema) (r : RowFmt.row) (blob : bytes)
    (f : heap) :
  heap_sound f = true ->
  RowFmt.pack_row r sch = Ok blob ->
  flen blob + HDR_SIZE + SLOT_SIZE <= PAGE_SIZE ->
  exists rid f',
    insert sch r f = (Ok rid, f') /\
    heap_sound f' = true /\
    is_live f rid = false /\
    is_live f' rid = true /\
    payload_at f' rid = Ok blob /\
    forall rd, rid_eqb rd rid = false ->
      is_live f' rd = is_live f rd /\
      (is_live f rd = true -> payload_at f' rd = payload_at f rd).
Proof. exact (insert_rows_frame sch r blob f). Qed.

(** *** [delete] and [read] *)

(** [delete] of a live row rewrites its slot, with length 0, and nothing
    else. *)
Lemma delete_run (rd : RID) (f : heap) (ns de off ln : Z) :
  0 <= page rd < num_pages f -> flen f mod 4096 = 0 ->
  hdr_at f (page rd) = Ok (ns, de) -> 4 + ns * 4 <= de <= 4096 ->
  0 <= slot rd < ns ->
  slot_at f (page rd) (slot rd) = Ok (off, ln) -> ln <> 0 ->
  delete rd f
  = (Ok true, wrz (page rd * 4096 + 4 + slot rd * 4) (le_bytes 2 off ++ le_bytes 2 0) f).
Proof.
  intros Hp Hal Hh Hi Hs Hsl Hln. destruct rd as [p s]. cbn [page slot] in *.
  pose proof (aligned_len f Hal) as Hlen.
  unfold delete. cbn [page slot].
  rewrite (bind_eq _ _ _ _ _ (read_hdr_run f p ns de ltac:(lia) Hh)). cbn [fst].
  rewrite (proj2 (Z.ltb_ge _ _)) by lia.
  rewrite (proj2 (Z.leb_gt _ _)) by lia. cbn [orb].
  assert (Hrs : _read_slot p s f = (Ok (off, ln), f)).
  { rewrite read_slot_eq by lia. rewrite slot_at_eq in Hsl by lia.
    rewrite Hsl. reflexivity. }
  rewrite (bind_eq _ _ _ _ _ Hrs).
  rewrite (proj2 (Z.eqb_neq _ _) Hln).
  rewrite slot_at_eq in Hsl by lia.
  destruct (unpack_HH_rdz f (p * 4096 + 4 + s * 4)) as (x & y & Hxy & Hx & Hy);
    [lia | lia |].
  rewrite Hxy in Hsl. inversion Hsl as [[Ex Ey]]. subst x y.
  rewrite (bind_eq _ _ f _ tt (write_slot_eq p s off 0 f ltac:(lia) Hx ltac:(lia))).
  reflexivity.
Qed.

Lemma delete_live_frame (rd : RID) (f : heap) :
  heap_sound f = true -> is_live f rd = true ->
  exists f',
    delete rd f = (Ok true, f') /\
    heap_sound f' = true /\
    is_live f' rd = false /\
    (forall rd', rid_eqb rd' rd = false ->
       is_live f' rd' = is_live f rd' /\
       (is_live f rd' = true -> payload_at f' rd' = payload_at f rd')) /\
    delete rd f' = (Ok false, f') /\
    forall sch, read sch rd f' = (Raise (KeyError "slot borrado"), f').
Proof.
  intros Hsnd Hlive.
  apply heap_sound_spec in Hsnd as [Hal Hsound].
  pose proof (aligned_len f Hal) as Hlen.
  apply is_live_spec in Hlive as (Hp & ns & de & off & ln & Hh & Hs & Hsl & Hln).
  pose proof (proj1 (page_sound_spec f (page rd)) (Hsound _ Hp))
    as (ns1 & de1 & Hh1 & Hi & Hslots).
  assert (ns1 = ns /\ de1 = de) as [-> ->] by (split; congruence).
  rewrite (delete_run rd f ns de off ln Hp Hal Hh Hi Hs Hsl Hln).
  destruct rd as [p s]. cbn [page slot] in *.
  set (S := p * 4096 + 4 + s * 4).
  set (sb := le_bytes 2 off ++ le_bytes 2 0).
  set (f' := wrz S sb f).
  assert (Hoff : 0 <= off <= 65535).
  { rewrite slot_at_eq in Hsl by lia.
    destruct (unpack_HH_rdz f (p * 4096 + 4 + s * 4)) as (x & y & Hxy & Hx & Hy);
      [lia | lia |].
    rewrite Hxy in Hsl. inversion Hsl as [[Ex Ey]]. lia. }
  assert (Hl' : flen f' = flen f)
    by (apply flen_wrz; unfold S, sb; rewrite ?flen_HH; lia).
  assert (Hnp' : num_pages f' = num_pages f) by (unfold num_pages; rewrite Hl'; reflexivity).
  assert (Hfr : forall a n, 0 <= a -> 0 <= n -> a + n <= S \/ S + 4 <= a ->
                            rdz f' a n = rdz f a n).
  { intros a n Ha Hn Hd. unfold f'.
    apply rdz_wrz_disj; unfold S, sb in *; rewrite ?flen_HH; lia. }
  assert (Hsl' : slot_at f' p s = Ok (off, 0)).
  { rewrite slot_at_eq by lia. fold S. unfold f'.
    rewrite <- (flen_HH off 0). fold sb.
    rewrite rdz_wrz_same by (unfold sb, S; rewrite ?flen_HH; lia).
    apply unpack_HH_le; lia. }
  assert (Hh' : hdr_at f' p = Ok (ns, de)).
  { rewrite (same_hdr f f' p) by (try apply Hfr; unfold S; lia). exact Hh. }
  assert (Hdir : forall s0, 0 <= s0 -> s0 <> s -> slot_at f' p s0 = slot_at f p s0).
  { intros s0 Hs0 Hne. apply same_slot; [lia|]. apply Hfr; unfold S; lia. }
  assert (Hother : forall q, 0 <= q -> q <> p ->
            forall a n, q * 4096 <= a -> 0 <= n -> a + n <= (q + 1) * 4096 ->
                        rdz f' a n = rdz f a n).
  { intros q Hq Hne a n Ha Hn Hb. apply Hfr; unfold S; lia. }
  exists f'. split; [reflexivity|].
  assert (Hsnd' : heap_sound f' = true).
  { apply heap_sound_spec. split; [rewrite Hl'; exact Hal|].
    rewrite Hnp'. intros q Hq.
    destruct (Z.eq_dec q p) as [->|Hne].
    - apply page_sound_spec. exists ns, de. split; [exact Hh'|]. split; [exact Hi|].
      intros s0 Hs0. destruct (Z.eq_dec s0 s) as [->|Hnes].
      + exists off, 0. split; [exact Hsl' | left; reflexivity].
      + destruct (Hslots s0 Hs0) as (off0 & ln0 & Hsl0 & Hc).
        exists off0, ln0. rewrite Hdir by lia. split; assumption.
    - apply (same_page_sound f f' q); [lia | | apply Hsound; lia].
      apply Hother; lia. }
  split; [exact Hsnd'|].
  assert (Hdead : is_live f' (mkRID p s) = false).
  { unfold is_live. cbn [page slot]. rewrite Hh', Hsl'. cbn [negb Z.eqb].
    rewrite !andb_false_r. reflexivity. }
  split; [exact Hdead|]. split; [|split].
  - intros rd' Hrd. apply rid_eqb_neq in Hrd. destruct rd' as [q s0].
    cbn [page slot] in Hrd.
    destruct (Z.leb_spec 0 q) as [Hq0|Hq0].
    2:{ unfold is_live. cbn [page slot].
        rewrite !(proj2 (Z.leb_gt 0 q)) by lia. split; [reflexivity | discriminate]. }
    destruct (Z.ltb_spec q (num_pages f)) as [Hq1|Hq1].
    2:{ unfold is_live. cbn [page slot]. rewrite Hnp'.
        rewrite (proj2 (Z.ltb_ge q _)) by lia. rewrite !andb_false_r.
        split; [reflexivity | discriminate]. }
    destruct (Z.eq_dec q p) as [->|Hne].
    2:{ apply same_page_live; cbn [page slot]; try lia.
        - apply Hsound. lia.
        - apply Hother; lia. }
    destruct Hrd as [Hrd|Hrd]; [contradiction|].
    unfold is_live, payload_at. cbn [page slot]. rewrite Hh, Hh', Hnp'.
    rewrite !(proj2 (Z.leb_le 0 p)) by lia.
    rewrite (proj2 (Z.ltb_lt p _)) by lia. cbn [andb].
    destruct (Z.leb_spec 0 s0) as [Hs0|]; [|split; [reflexivity | discriminate]].
    destruct (Z.ltb_spec s0 ns) as [Hs1|]; [|split; [reflexivity | discriminate]].
    cbn [andb]. rewrite Hdir by lia.
    destruct (Hslots s0 ltac:(lia)) as (off0 & ln0 & Hsl0 & Hc).
    rewrite Hsl0. split; [reflexivity|]. intros Hlv.
    apply negb_true_iff, Z.eqb_neq in Hlv.
    destruct Hc as [?|[Hc1 Hc2]]; [contradiction|].
    assert (Hln0 : 0 <= ln0).
    { rewrite slot_at_eq in Hsl0 by lia.
      destruct (unpack_HH_rdz f (p * 4096 + 4 + s0 * 4)) as (x & y & Hxy & _ & Hy);
        [lia | lia |].
      rewrite Hxy in Hsl0. inversion Hsl0 as [[Ex Ey]]. lia. }
    f_equal. unfold _base, PAGE_SIZE. apply Hfr; unfold S; lia.
  - pose proof (heap_sound_wf f' Hsnd') as Hwf'.
    destruct (delete_in_file (mkRID p s) f' Hwf' ltac:(cbn [page]; lia))
      as (ns2 & de2 & Hh2 & _ & Hin).
    cbn [page slot] in *.
    assert (ns2 = ns) by congruence. subst ns2.
    destruct (Hin Hs) as (off2 & ln2 & Hsl2 & Hz & _).
    apply Hz. congruence.
  - intros sch. unfold read. cbn [page slot].
    rewrite (bind_eq _ _ _ _ _ (read_hdr_run f' p ns de ltac:(lia) Hh')). cbn [fst].
    rewrite (proj2 (Z.ltb_ge _ _)) by lia.
    rewrite (proj2 (Z.leb_gt _ _)) by lia. cbn [orb].
    assert (Hrs : _read_slot p s f' = (Ok (off, 0), f')).
    { rewrite read_slot_eq by lia. rewrite slot_at_eq in Hsl' by lia.
      rewrite Hsl'. reflexivity. }
    rewrite (bind_eq _ _ _ _ _ Hrs). reflexivity.
Qed.

(** X5. [delete] of a live row on a sound heap: it answers [True]; the row
    is no longer live; every other RID is live exactly when it was, with the
    payload it had; the heap stays sound; a second [delete] answers [False]
    and [read] of the row raises [KeyError]. *)
Theorem delete_live_row (rd : RID) (f : heap) :
  heap_sound f = true -> is_live f rd = true ->
  exists f',
    delete rd f = (Ok true, f') /\
    heap_sound f' = true /\
    is_live f' rd = false /\
    (forall rd', rid_eqb rd' rd = false ->
       is_live f' rd' = is_live f rd' /\
       (is_live f rd' = true -> payload_at f' rd' = payload_at f rd')) /\
    delete rd f' = (Ok false, f') /\
    forall sch, read sch rd f' = (Raise (KeyError "slot borrado"), f').
Proof. exact (delete_live_frame rd f). Qed.

Lemma delete_dead_noop (rd : RID) (f : heap) :
  heap_wf f = true -> 0 <= page rd < num_pages f -> is_live f rd = false ->
  delete rd f = (Ok false, f) /\
  forall sch, exists msg, read sch rd f = (Raise (KeyError msg), f).
Proof.
  intros Hwf Hp Hdead.
  pose proof Hwf as Hwf0. apply heap_wf_spec in Hwf0 as [Hal Hpages].
  pose proof (aligned_len f Hal) as Hlen.
  destruct (delete_in_file rd f Hwf Hp) as (ns & de & Hh & Hout & Hin).
  pose proof (proj1 (page_ok_spec f (page rd)) (Hpages _ Hp)) as (ns1 & de1 & Hh1 & Hi).
  assert (ns1 = ns /\ de1 = de) as [-> ->] by (split; congruence).
  destruct (hdr_at_range f (page rd) ns de ltac:(lia) Hh) as [Hns _].
  destruct (Z.lt_ge_cases (slot rd) 0) as [Hneg|Hs0].
  { split; [apply Hout; lia|]. intros sch. eexists. unfold read.
    rewrite (bind_eq _ _ _ _ _ (read_hdr_run f (page rd) ns de ltac:(lia) Hh)).
    cbn [fst]. rewrite (proj2 (Z.ltb_lt _ _)) by lia. reflexivity. }
  destruct (Z.lt_ge_cases (slot rd) ns) as [Hs1|Hs1].
  2:{ split; [apply Hout; lia|]. intros sch. eexists. unfold read.
      rewrite (bind_eq _ _ _ _ _ (read_hdr_run f (page rd) ns de ltac:(lia) Hh)).
      cbn [fst]. rewrite (proj2 (Z.leb_le ns _)) by lia. rewrite orb_true_r.
      reflexivity. }
  destruct (Hin ltac:(lia)) as (off & ln & Hsl & Hz & _).
  assert (ln = 0).
  { destruct (Z.eq_dec ln 0) as [E|NE]; [exact E|]. exfalso.
    assert (is_live f rd = true); [|congruence].
    apply is_live_spec. split; [exact Hp|]. exists ns, de, off, ln. auto. }
  subst ln. split; [apply Hz; reflexivity|].
  intros sch. eexists. unfold read.
  rewrite (bind_eq _ _ _ _ _ (read_hdr_run f (page rd) ns de ltac:(lia) Hh)). cbn [fst].
  rewrite (proj2 (Z.ltb_ge _ _)) by lia.
  rewrite (proj2 (Z.leb_gt _ _)) by lia. cbn [orb].
  assert (Hrs : _read_slot (page rd) (slot rd) f = (Ok (off, 0), f)).
  { rewrite read_slot_eq by lia. rewrite slot_at_eq in Hsl by lia.
    rewrite Hsl. reflexivity. }
  rewrite (bind_eq _ _ _ _ _ Hrs). reflexivity.
Qed.

(** X6. Inside the file, [delete] of a RID that is not live answers
    [False] and writes nothing, and [read] of it raises [KeyError] and
    writes nothing. *)
Theorem delete_dead_row (rd : RID) (f : heap) :
  heap_wf f = true -> 0 <= page rd < num_pages f -> is_live f rd = false ->
  delete rd f = (Ok false, f) /\
  forall sch, exists msg, read sch rd f = (Raise (KeyError msg), f).
Proof. exact (delete_dead_noop rd f). Qed.

(** *** [iter_rids] *)

Lemma live_slots_from_exact (p : Z) (f : heap) (n : nat) :
  forall s0,
    0 <= p -> 0 <= s0 ->
    p * 4096 + 4 + (s0 + Z.of_nat n) * 4 <= flen f ->
    exists l,
      live_slots_from p s0 n f = (Ok l, f) /\
      StronglySorted rid_lt l /\
      forall rd, rd ∈ l <->
        page rd = p /\ s0 <= slot rd < s0 + Z.of_nat n /\
        exists off ln, slot_at f p (slot rd) = Ok (off, ln) /\ ln <> 0.
Proof.
  induction n as [|n IH]; intros s0 Hp Hs Hl.
  - exists []. split; [reflexivity|]. split; [constructor|].
    intros rd. split; [intros H; inversion H | intros (_ & H & _); lia].
  - cbn [live_slots_from].
    destruct (unpack_HH_rdz f (p * 4096 + 4 + s0 * 4)) as (x & y & Hxy & _ & _);
      [lia | lia |].
    rewrite (bind_eq _ _ f f (x, y))
      by (rewrite read_slot_eq by lia; rewrite Hxy; reflexivity).
    destruct (IH (s0 + 1)) as (l & Hrun & Hsort & Hin); [lia | lia | lia |].
    rewrite (bind_eq _ _ _ _ _ Hrun). cbn [snd].
    assert (Hs0 : slot_at f p s0 = Ok (x, y)) by (rewrite slot_at_eq by lia; exact Hxy).
    eexists. split; [reflexivity|].
    destruct (Z.eqb_spec y 0) as [->|Hy].
    + split; [exact Hsort|]. intros rd. rewrite Hin. split.
      * intros (H1 & H2 & H3). split; [exact H1|]. split; [lia | exact H3].
      * intros (H1 & H2 & off & ln & H3 & H4). split; [exact H1|].
        split; [|eauto].
        destruct (Z.eq_dec (slot rd) s0) as [E|NE]; [|lia].
        rewrite E, Hs0 in H3. inversion H3. congruence.
    + split.
      * constructor; [exact Hsort|]. apply List.Forall_forall. intros rd Hrd.
        apply (proj2 (list_elem_of_In _ _)) in Hrd.
        apply Hin in Hrd as (H1 & H2 & _).
        right. cbn [page slot]. split; [symmetry; exact H1 | lia].
      * intros rd. rewrite elem_of_cons, Hin. split.
        -- intros [->|(H1 & H2 & H3)].
           ++ cbn [page slot]. split; [reflexivity|]. split; [lia|]. eauto.
           ++ split; [exact H1|]. split; [lia | exact H3].
        -- intros (H1 & H2 & H3).
           destruct (Z.eq_dec (slot rd) s0) as [E|NE].
           ++ left. destruct rd as [q s]. cbn [page slot] in *. subst. reflexivity.
           ++ right. split; [exact H1|]. split; [lia | exact H3].
Qed.

Lemma iter_pages_exact (f : heap) (n : nat) :
  forall p0,
    0 <= p0 -> (p0 + Z.of_nat n) * 4096 <= flen f ->
    (forall q, p0 <= q < p0 + Z.of_nat n -> page_ok f q = true) ->
    exists l,
      iter_pages p0 n f = (Ok l, f) /\
      StronglySorted rid_lt l /\
      forall rd, rd ∈ l <->
        p0 <= page rd < p0 + Z.of_nat n /\
        exists ns de off ln,
          hdr_at f (page rd) = Ok (ns, de) /\ 0 <= slot rd < ns /\
          slot_at f (page rd) (slot rd) = Ok (off, ln) /\ ln <> 0.
Proof.
  induction n as [|n IH]; intros p0 Hp Hl Hpages.
  - exists []. split; [reflexivity|]. split; [constructor|].
    intros rd. split; [intros H; inversion H | intros (H & _); lia].
  - cbn [iter_pages].
    pose proof (Hpages p0 ltac:(lia)) as Hok.
    apply page_ok_spec in Hok as (ns0 & de0 & Hh0 & Hinv0).
    destruct (hdr_at_range _ _ _ _ Hp Hh0) as [Hns0 _].
    rewrite (bind_eq _ _ _ _ _ (read_hdr_run f p0 ns0 de0 Hp Hh0)). cbn [fst].
    destruct (live_slots_from_exact p0 f (Z.to_nat ns0) 0)
      as (here & Hhere & Hsh & Hin0); [lia | lia | lia |].
    rewrite (bind_eq _ _ _ _ _ Hhere).
    destruct (IH (p0 + 1)) as (rest & Hrest & Hsr & Hin); [lia | lia | |].
    { intros q Hq. apply Hpages. lia. }
    rewrite (bind_eq _ _ _ _ _ Hrest).
    exists (here ++ rest). split; [reflexivity|]. split.
    + apply StronglySorted_app. split; [|split; assumption].
      intros a b Ha Hb. apply Hin0 in Ha as (Ha & _). apply Hin in Hb as (Hb & _).
      left. lia.
    + intros rd. rewrite elem_of_app, Hin0, Hin. split.
      * intros [(H1 & H2 & off & ln & H3 & H4)|(H1 & H2)].
        -- split; [lia|]. exists ns0, de0, off, ln. rewrite H1. repeat split; auto; lia.
        -- split; [lia | exact H2].
      * intros (H1 & ns & de & off & ln & Hh & Hs & Hsl & Hln).
        destruct (Z.eq_dec (page rd) p0) as [E|NE].
        -- left. split; [exact E|]. rewrite E in Hh, Hsl.
           assert (ns = ns0) by congruence. subst ns.
           split; [lia|]. eauto.
        -- right. split; [lia|]. exists ns, de, off, ln. auto.
Qed.

Lemma iter_rids_run (f : heap) :
  heap_wf f = true ->
  exists l,
    iter_rids f = (Ok l, f) /\
    StronglySorted rid_lt l /\
    NoDup l /\
    forall rd, rd ∈ l <-> is_live f rd = true.
Proof.
  intros Hwf. apply heap_wf_spec in Hwf as [Hal Hpages].
  pose proof (aligned_len f Hal) as Hlen.
  pose proof (num_pages_nonneg f) as Hnp.
  destruct (iter_pages_exact f (Z.to_nat (num_pages f)) 0) as (l & Hrun & Hsort & Hin);
    [lia | lia | |].
  { intros q Hq. apply Hpages. lia. }
  exists l. split.
  { unfold iter_rids. rewrite (bind_eq _ _ _ _ _ (num_pages_run f)). exact Hrun. }
  split; [exact Hsort|]. split.
  - clear Hin Hrun. induction Hsort as [|a l' Hs IH Hall]; [constructor|].
    apply NoDup_cons. split; [|exact IH].
    intros Hin. rewrite List.Forall_forall in Hall.
    specialize (Hall a (proj1 (list_elem_of_In _ _) Hin)).
    unfold rid_lt in Hall. lia.
  - intros rd. rewrite Hin, is_live_spec. split.
    + intros (H1 & H2). split; [lia | exact H2].
    + intros (H1 & H2). split; [lia | exact H2].
Qed.

(** X7. [iter_rids] yields the live RIDs, each once, in page order and,
    within a page, in slot order; it writes nothing. *)
Theorem iter_rids_exact (f : heap) :
  heap_wf f = true ->
  exists l,
    iter_rids f = (Ok l, f) /\
    StronglySorted rid_lt l /\
    NoDup l /\
    forall rd, rd ∈ l <-> is_live f rd = true.
Proof. exact (iter_rids_run f). Qed.

(** *** Histories *)

Lemma insert_ok_inv (sch : RowFmt.schema) (r : RowFmt.row) (f f' : heap) (rd : RID) :
  insert sch r f = (Ok rd, f') ->
  exists blob,
    RowFmt.pack_row r sch = Ok blob /\ flen blob + HDR_SIZE + SLOT_SIZE <= PAGE_SIZE.
Proof.
  unfold insert, bind, peek. destruct (RowFmt.pack_row r sch) as [blob| |];
    try discriminate.
  intros H. exists blob. split; [reflexivity|].
  unfold insert_blob in H. fold (flen blob) in H.
  destruct (Z.ltb_spec PAGE_SIZE (flen blob + HDR_SIZE + SLOT_SIZE)); [discriminate | lia].
Qed.

Lemma delete_ok_inv (rd : RID) (f f' : heap) (b : bool) :
  flen f mod 4096 = 0 -> delete rd f = (Ok b, f') -> 0 <= page rd < num_pages f.
Proof.
  intros Hal H. pose proof (aligned_len f Hal) as Hlen.
  destruct (Z.lt_ge_cases (page rd) 0) as [Hneg|Hp0].
  { exfalso. revert H. unfold delete, bind, _read_hdr, peek, file_read, file_seek,
      _base, PAGE_SIZE.
    rewrite (proj2 (Z.ltb_lt _ _)) by lia. discriminate. }
  destruct (Z.lt_ge_cases (page rd) (num_pages f)) as [Hlt|Hge]; [lia|].
  rewrite delete_beyond_file in H by lia. discriminate.
Qed.

Lemma elem_of_filter_rid (S : list RID) (rd x : RID) :
  x ∈ filter (fun y => negb (rid_eqb y rd)) S <-> rid_eqb x rd = false /\ x ∈ S.
Proof.
  rewrite list_elem_of_filter. rewrite Is_true_true, negb_true_iff. reflexivity.
Qed.

(** Along a history the heap is sound and its live RIDs are the recorded ones. *)
Lemma heap_run_inv (f : heap) (S : list RID) :
  heap_run f S ->
  heap_sound f = true /\ forall rd, rd ∈ S <-> is_live f rd = true.
Proof.
  induction 1 as [|f f' S sch r rd _ [Hsnd Hlive] Hins
                  |f f' S rd b _ [Hsnd Hlive] Hdel].
  - split; [reflexivity|]. intros rd. split; [intros H; inversion H|].
    intros H. apply is_live_spec in H as ([H1 H2] & _).
    change (num_pages []) with 0 in H2. lia.
  - destruct (insert_ok_inv _ _ _ _ _ Hins) as (blob & Hpack & Hsize).
    destruct (insert_rows_frame sch r blob f Hsnd Hpack Hsize)
      as (rid & f'' & Hrun & Hsnd' & Hdead & Hlive' & _ & Hrest).
    assert (rid = rd /\ f'' = f') as [-> ->] by (split; congruence).
    split; [exact Hsnd'|]. intros x. rewrite elem_of_cons, elem_of_filter_rid.
    destruct (rid_eqb x rd) eqn:E.
    + apply rid_eqb_eq in E. subst x. split; [intros; exact Hlive' | intros; left; reflexivity].
    + destruct (Hrest x E) as [Heq _]. rewrite Heq, <- Hlive. split.
      * intros [->|[_ H]]; [|exact H].
        exfalso. assert (rid_eqb rd rd = true) by (apply rid_eqb_eq; reflexivity).
        congruence.
      * intros H. right. split; [reflexivity | exact H].
  - pose proof Hsnd as Hsnd0. apply heap_sound_spec in Hsnd0 as [Hal _].
    pose proof (delete_ok_inv _ _ _ _ Hal Hdel) as Hp.
    destruct (is_live f rd) eqn:El.
    + destruct (delete_live_frame rd f Hsnd El) as (f'' & Hrun & Hsnd' & Hdead & Hrest & _).
      assert (f'' = f') by congruence. subst f''.
      split; [exact Hsnd'|]. intros x. rewrite elem_of_filter_rid.
      destruct (rid_eqb x rd) eqn:E.
      * apply rid_eqb_eq in E. subst x. rewrite Hdead.
        split; [intros [? _]; discriminate | discriminate].
      * destruct (Hrest x E) as [Heq _]. rewrite Heq, <- Hlive. tauto.
    + destruct (delete_dead_noop rd f (heap_sound_wf f Hsnd) Hp El) as [Hrun _].
      assert (f' = f) by congruence. subst f'.
      split; [exact Hsnd|]. intros x. rewrite elem_of_filter_rid, Hlive.
      destruct (rid_eqb x rd) eqn:E.
      * apply rid_eqb_eq in E. subst x. rewrite El.
        split; [intros [? _]; discriminate | discriminate].
      * tauto.
Qed.

(** X9. Whatever rows were inserted and whatever RIDs deleted, starting from
    the empty file: every page header and every live slot satisfies the page
    invariant. *)
Theorem heap_run_sound (f : heap) (S : list RID) :
  heap_run f S -> heap_sound f = true.
Proof. intros H. apply (heap_run_inv f S H). Qed.

(** X10. Along every history from the empty file, [iter_rids] yields
    exactly the RIDs that an insert returned and no later delete was
    given, each once. *)
Theorem iter_rids_of_run (f : heap) (S : list RID) :
  heap_run f S ->
  exists l,
    iter_rids f = (Ok l, f) /\ NoDup l /\ forall rd, rd ∈ l <-> rd ∈ S.
Proof.
  intros H. destruct (heap_run_inv f S H) as [Hsnd Hlive].
  destruct (iter_rids_run f (heap_sound_wf f Hsnd)) as (l & Hrun & _ & Hnd & Hin).
  exists l. split; [exact Hrun|]. split; [exact Hnd|].
  intros rd. rewrite Hin, Hlive. reflexivity.
Qed.

(** *** Reading a live row *)

Lemma live_stored (f : heap) (rd : RID) (blob : bytes) :
  heap_sound f = true -> is_live f rd = true -> payload_at f rd = Ok blob ->
  stored f rd blob /\ 1 <= flen blob.
Proof.
  intros Hsnd Hlive Hpay.
  apply heap_sound_spec in Hsnd as [Hal Hsound].
  pose proof (aligned_len f Hal) as Hlen.
  apply is_live_spec in Hlive as (Hp & ns & de & off & ln & Hh & Hs & Hsl & Hln).
  pose proof (proj1 (page_sound_spec f (page rd)) (Hsound _ Hp))
    as (ns1 & de1 & Hh1 & Hi & Hslots).
  assert (ns1 = ns /\ de1 = de) as [-> ->] by (split; congruence).
  destruct (Hslots _ Hs) as (off1 & ln1 & Hsl1 & Hc).
  assert (off1 = off /\ ln1 = ln) as [-> ->] by (split; congruence).
  destruct Hc as [?|[Hc1 Hc2]]; [contradiction|].
  assert (Hln0 : 0 <= ln).
  { rewrite slot_at_eq in Hsl by lia.
    destruct (unpack_HH_rdz f (page rd * 4096 + 4 + slot rd * 4))
      as (x & y & Hxy & _ & Hy); [lia | lia |].
    rewrite Hxy in Hsl. inversion Hsl as [[Ex Ey]]. lia. }
  unfold payload_at in Hpay. rewrite Hsl in Hpay. unfold _base, PAGE_SIZE in Hpay.
  inversion Hpay as [Hb].
  assert (Hfl : flen (rdz f (page rd * 4096 + off) ln) = ln)
    by (apply flen_rdz; lia).
  split; [|lia].
  split; [exact Hp|]. exists ns, de, off. rewrite Hfl.
  repeat split; try assumption; lia.
Qed.

(** [read] of a live row decodes its payload and adds the RID; it writes
    nothing. *)
Lemma read_of_payload (sch : RowFmt.schema) (rd : RID) (blob : bytes) (f : heap) :
  heap_sound f = true -> is_live f rd = true -> payload_at f rd = Ok blob ->
  read sch rd f
  = (match RowFmt.unpack_row blob sch with
     | Ok r => Ok (<["_rid"%string := RowFmt.VRid (page rd) (slot rd)]> r)
     | Raise e => Raise e
     | OutOfFuel => OutOfFuel
     end, f).
Proof.
  intros Hsnd Hlive Hpay.
  destruct (live_stored f rd blob Hsnd Hlive Hpay) as [Hst Hb].
  apply read_stored; assumption.
Qed.

Lemma read_same (sch : RowFmt.schema) (rd : RID) (f f' : heap) :
  heap_sound f = true -> heap_sound f' = true ->
  is_live f rd = true -> is_live f' rd = true ->
  payload_at f' rd = payload_at f rd ->
  fst (read sch rd f') = fst (read sch rd f).
Proof.
  intros Hs Hs' Hl Hl' Hp.
  destruct (payload_at f rd) as [blob| |] eqn:E.
  - rewrite (read_of_payload sch rd blob f Hs Hl E).
    rewrite (read_of_payload sch rd blob f' Hs' Hl' Hp). reflexivity.
  - exfalso. apply is_live_spec in Hl as (_ & ns & de & off & ln & _ & _ & Hsl & _).
    unfold payload_at in E. rewrite Hsl in E. discriminate.
  - exfalso. apply is_live_spec in Hl as (_ & ns & de & off & ln & _ & _ & Hsl & _).
    unfold payload_at in E. rewrite Hsl in E. discriminate.
Qed.

(** X11. What [read] returns for a live row is not changed by an insert, nor
    by the delete of another RID. *)
Theorem read_unchanged_by_others (sch : RowFmt.schema) (rd : RID) (f : heap) :
  heap_sound f = true -> is_live f rd = true ->
  (forall sch' r' rid' f',
     insert sch' r' f = (Ok rid', f') ->
     fst (read sch rd f') = fst (read sch rd f)) /\
  (forall rd' b f',
     rid_eqb rd rd' = false -> delete rd' f = (Ok b, f') ->
     fst (read sch rd f') = fst (read sch rd f)).
Proof.
  intros Hsnd Hlive. split.
  - intros sch' r' rid' f' Hins.
    destruct (insert_ok_inv _ _ _ _ _ Hins) as (blob & Hpack & Hsize).
    destruct (insert_rows_frame sch' r' blob f Hsnd Hpack Hsize)
      as (rid & f'' & Hrun & Hsnd' & Hdead & _ & _ & Hrest).
    assert (rid = rid' /\ f'' = f') as [-> ->] by (split; congruence).
    assert (Hne : rid_eqb rd rid' = false).
    { destruct (rid_eqb rd rid') eqn:E; [|reflexivity].
      apply rid_eqb_eq in E. subst. congruence. }
    destruct (Hrest rd Hne) as [Hl Hp].
    apply read_same; try assumption; [congruence | auto].
  - intros rd' b f' Hne Hdel.
    pose proof Hsnd as Hsnd0. apply heap_sound_spec in Hsnd0 as [Hal _].
    pose proof (delete_ok_inv _ _ _ _ Hal Hdel) as Hp.
    destruct (is_live f rd') eqn:El.
    + destruct (delete_live_frame rd' f Hsnd El) as (f'' & Hrun & Hsnd' & _ & Hrest & _).
      assert (f'' = f') by congruence. subst f''.
      destruct (Hrest rd Hne) as [Hl Hpay].
      apply read_same; try assumption; [congruence | auto].
    + destruct (delete_dead_noop rd' f (heap_sound_wf f Hsnd) Hp El) as [Hrun _].
      assert (f' = f) by congruence. subst f'. reflexivity.
Qed.

(** X12. A row that was inserted (values of the type of their column, no
    text longer than its column) is read back, with the columns of the
    schema, an absent column as [None], and its RID under the key
    ["_rid"]. *)
Theorem read_after_insert (sch : RowFmt.schema) (r : RowFmt.row) (blob : bytes)
    (f : heap) :
  heap_sound f = true ->
  RowFmt.pack_row r sch = Ok blob ->
  flen blob + HDR_SIZE + SLOT_SIZE <= PAGE_SIZE ->
  RowFmtSpec.typed r sch = true ->
  RowFmtSpec.varchar_fits r sch = true ->
  exists rid f',
    insert sch r f = (Ok rid, f') /\
    exists out,
      read sch rid f' = (Ok out, f') /\
      out !! "_rid"%string = Some (RowFmt.VRid (page rid) (slot rid)) /\
      forall name, name <> "_rid"%string ->
        out !! name = if decide (name ∈ sch.*1)
                      then Some (default RowFmt.VNone (r !! name)) else None.
Proof.
  intros Hsnd Hpack Hsize _ Hfit.
  destruct (insert_rows_frame sch r blob f Hsnd Hpack Hsize)
    as (rid & f' & Hrun & Hsnd' & _ & Hlive' & Hpay' & _).
  exists rid, f'. split; [exact Hrun|].
  rewrite (read_of_payload sch rid blob f' Hsnd' Hlive' Hpay').
  rewrite (RowFmtFacts.unpack_pack_normalized r sch blob Hpack Hfit).
  eexists. split; [reflexivity|]. split; [apply lookup_insert_eq|].
  intros name Hne. rewrite lookup_insert_ne by congruence.
  rewrite RowFmtFacts.normalized_lookup, lookup_empty. reflexivity.
Qed.

(** *** Rows along a history *)

Lemma elem_of_filter_hist (S : list (RID * (RowFmt.schema * RowFmt.row)))
    (rd : RID) (x : RID * (RowFmt.schema * RowFmt.row)) :
  x ∈ filter (fun y => negb (rid_eqb (fst y) rd)) S
  <-> rid_eqb (fst x) rd = false /\ x ∈ S.
Proof.
  rewrite list_elem_of_filter. rewrite Is_true_true, negb_true_iff. reflexivity.
Qed.

(** Along a history the heap is sound, the live RIDs are the recorded
    ones, and the payload of each is the encoding of its row. *)
Lemma heap_hist_inv (f : heap) (S : list (RID * (RowFmt.schema * RowFmt.row))) :
  heap_hist f S ->
  heap_sound f = true /\
  (forall rd, is_live f rd = true -> exists x, (rd, x) ∈ S) /\
  (forall rd sch r, (rd, (sch, r)) ∈ S ->
     is_live f rd = true /\
     exists blob, RowFmt.pack_row r sch = Ok blob /\ payload_at f rd = Ok blob).
Proof.
  induction 1 as [|f f' S sch r rd _ (Hsnd & Hdom & Hrows) Hins
                  |f f' S rd b _ (Hsnd & Hdom & Hrows) Hdel].
  - split; [reflexivity|]. split.
    + intros rd H. apply is_live_spec in H as ([H1 H2] & _).
      change (num_pages []) with 0 in H2. lia.
    + intros rd sch r H. inversion H.
  - destruct (insert_ok_inv _ _ _ _ _ Hins) as (blob & Hpack & Hsize).
    destruct (insert_rows_frame sch r blob f Hsnd Hpack Hsize)
      as (rid & f'' & Hrun & Hsnd' & Hdead & Hlive' & Hpay' & Hrest).
    assert (rid = rd /\ f'' = f') as [-> ->] by (split; congruence).
    split; [exact Hsnd'|]. split.
    + intros x Hx. destruct (rid_eqb x rd) eqn:E.
      * apply rid_eqb_eq in E. subst x. exists (sch, r). left.
      * destruct (Hrest x E) as [Heq _]. rewrite Heq in Hx.
        destruct (Hdom x Hx) as (y & Hy). exists y. right.
        apply elem_of_filter_hist. cbn [fst]. auto.
    + intros x sch0 r0 Hin. apply elem_of_cons in Hin as [E|Hin].
      * inversion E; subst. split; [exact Hlive'|]. exists blob. auto.
      * apply elem_of_filter_hist in Hin as [Hne Hin]. cbn [fst] in Hne.
        destruct (Hrows x sch0 r0 Hin) as (Hl & blob0 & Hp0 & Hpay0).
        destruct (Hrest x Hne) as [Heq Hsame].
        split; [congruence|]. exists blob0. split; [exact Hp0|].
        rewrite (Hsame Hl). exact Hpay0.
  - pose proof Hsnd as Hsnd0. apply heap_sound_spec in Hsnd0 as [Hal _].
    pose proof (delete_ok_inv _ _ _ _ Hal Hdel) as Hp.
    destruct (is_live f rd) eqn:El.
    + destruct (delete_live_frame rd f Hsnd El) as (f'' & Hrun & Hsnd' & Hdead & Hrest & _).
      assert (f'' = f') by congruence. subst f''.
      split; [exact Hsnd'|]. split.
      * intros x Hx. destruct (rid_eqb x rd) eqn:E.
        { apply rid_eqb_eq in E. subst x. congruence. }
        destruct (Hrest x E) as [Heq _]. rewrite Heq in Hx.
        destruct (Hdom x Hx) as (y & Hy). exists y.
        apply elem_of_filter_hist. cbn [fst]. auto.
      * intros x sch0 r0 Hin.
        apply elem_of_filter_hist in Hin as [Hne Hin]. cbn [fst] in Hne.
        destruct (Hrows x sch0 r0 Hin) as (Hl & blob0 & Hp0 & Hpay0).
        destruct (Hrest x Hne) as [Heq Hsame].
        split; [congruence|]. exists blob0. split; [exact Hp0|].
        rewrite (Hsame Hl). exact Hpay0.
    + destruct (delete_dead_noop rd f (heap_sound_wf f Hsnd) Hp El) as [Hrun _].
      assert (f' = f) by congruence. subst f'.
      split; [exact Hsnd|]. split.
      * intros x Hx. destruct (Hdom x Hx) as (y & Hy). exists y.
        apply elem_of_filter_hist. cbn [fst]. split; [|exact Hy].
        destruct (rid_eqb x rd) eqn:E; [|reflexivity].
        apply rid_eqb_eq in E. subst x. congruence.
      * intros x sch0 r0 Hin.
        apply elem_of_filter_hist in Hin as [Hne Hin]. apply (Hrows x sch0 r0 Hin).
Qed.

(** X13. Whatever else was inserted and deleted since, a row that was
    inserted (values of the type of their column, no text longer than its
    column) and not deleted is read back as it was given: the columns of
    its schema, an absent column as [None], and its RID under ["_rid"]. A
    RID inside the file that names no such row makes [read] raise
    [KeyError]. *)
Theorem read_after_history (f : heap) (S : list (RID * (RowFmt.schema * RowFmt.row))) :
  heap_hist f S ->
  (forall rd sch r,
     (rd, (sch, r)) ∈ S ->
     RowFmtSpec.typed r sch = true -> RowFmtSpec.varchar_fits r sch = true ->
     exists out,
       read sch rd f = (Ok out, f) /\
       out !! "_rid"%string = Some (RowFmt.VRid (page rd) (slot rd)) /\
       forall name, name <> "_rid"%string ->
         out !! name = if decide (name ∈ sch.*1)
                       then Some (default RowFmt.VNone (r !! name)) else None) /\
  (forall rd, 0 <= page rd < num_pages f -> (forall x, (rd, x) ∉ S) ->
     forall sch, exists msg, read sch rd f = (Raise (KeyError msg), f)).
Proof.
  intros H. destruct (heap_hist_inv f S H) as (Hsnd & Hdom & Hrows). split.
  - intros rd sch r Hin _ Hfit.
    destruct (Hrows rd sch r Hin) as (Hlive & blob & Hpack & Hpay).
    rewrite (read_of_payload sch rd blob f Hsnd Hlive Hpay).
    rewrite (RowFmtFacts.unpack_pack_normalized r sch blob Hpack Hfit).
    eexists. split; [reflexivity|]. split; [apply lookup_insert_eq|].
    intros name Hne. rewrite lookup_insert_ne by congruence.
    rewrite RowFmtFacts.normalized_lookup, lookup_empty. reflexivity.
  - intros rd Hp Hnot sch.
    destruct (is_live f rd) eqn:El.
    + exfalso. destruct (Hdom rd El) as (x & Hx). exact (Hnot x Hx).
    + apply (delete_dead_noop rd f (heap_sound_wf f Hsnd) Hp El).
Qed.

Lemma read_all_run (sch : RowFmt.schema) (f : heap)
    (P : RID -> RowFmt.row -> Prop) (l : list RID) :
  (forall rd, rd ∈ l -> exists row, read sch rd f = (Ok row, f) /\ P rd row) ->
  exists out, read_all sch l f = (Ok out, f) /\ Forall2 P l out.
Proof.
  induction l as [|rd l IH]; intros H.
  - exists []. split; [reflexivity | constructor].
  - destruct (H rd) as (row & Hr & HP); [left|].
    destruct IH as (out & Hout & HF); [intros x Hx; apply H; right; exact Hx|].
    exists (row :: out). split; [|constructor; assumption].
    cbn [read_all]. rewrite (bind_eq _ _ f f row Hr).
    rewrite (bind_eq _ _ f f out Hout). reflexivity.
Qed.

(** X14. A full scan of a table: when every row of the history went in under
    the schema of the table (values of the type of their column, no text
    longer than its column), [iter_rows]
    returns the rows that were inserted and not deleted, one for each such
    RID, in page and slot order, each as it was given and with its RID. *)
Theorem iter_rows_of_history (sch : RowFmt.schema) (f : heap)
    (S : list (RID * (RowFmt.schema * RowFmt.row))) :
  heap_hist f S ->
  (forall rd sch' r, (rd, (sch', r)) ∈ S ->
     sch' = sch /\ RowFmtSpec.typed r sch = true /\
     RowFmtSpec.varchar_fits r sch = true) ->
  exists l out,
    iter_rids f = (Ok l, f) /\
    iter_rows sch f = (Ok out, f) /\
    StronglySorted rid_lt l /\
    (forall rd, rd ∈ l <-> exists x, (rd, x) ∈ S) /\
    Forall2 (fun rd row =>
               exists r, (rd, (sch, r)) ∈ S /\
                 row = <["_rid"%string := RowFmt.VRid (page rd) (slot rd)]>
                         (RowFmtSpec.normalized r sch ∅)) l out.
Proof.
  intros H Hsch. destruct (heap_hist_inv f S H) as (Hsnd & Hdom & Hrows).
  destruct (iter_rids_run f (heap_sound_wf f Hsnd)) as (l & Hrun & Hsorted & Hnd & Hin).
  destruct (read_all_run sch f
              (fun rd row =>
                 exists r, (rd, (sch, r)) ∈ S /\
                   row = <["_rid"%string := RowFmt.VRid (page rd) (slot rd)]>
                           (RowFmtSpec.normalized r sch ∅)) l) as (out & Hout & HF).
  { intros rd Hrd. apply Hin in Hrd. destruct (Hdom rd Hrd) as ([sch' r] & Hx).
    destruct (Hsch rd sch' r Hx) as (-> & _ & Hfit).
    destruct (Hrows rd sch r Hx) as (Hlive & blob & Hpack & Hpay).
    rewrite (read_of_payload sch rd blob f Hsnd Hlive Hpay).
    rewrite (RowFmtFacts.unpack_pack_normalized r sch blob Hpack Hfit).
    eexists. split; [reflexivity|]. exists r. auto. }
  exists l, out. split; [exact Hrun|]. split.
  { unfold iter_rows. rewrite (bind_eq _ _ f f l Hrun). exact Hout. }
  split; [exact Hsorted|]. split; [|exact HF].
  intros rd. rewrite Hin. split; [apply Hdom|].
  intros ([sch' r] & Hx). apply (Hrows rd sch' r Hx).
Qed.

(** X15. With a schema whose widest row fits a page beside the page header
    and one slot, [insert] never refuses a row for its size: every row that
    [pack_row] encodes is stored. *)
Theorem insert_fits_by_schema (sch : RowFmt.schema) (r : RowFmt.row) (blob : bytes)
    (f : heap) :
  heap_sound f = true ->
  RowFmtMore.max_row_size sch + HDR_SIZE + SLOT_SIZE <= PAGE_SIZE ->
  RowFmt.pack_row r sch = Ok blob ->
  exists rid f',
    insert sch r f = (Ok rid, f') /\
    is_live f' rid = true /\ payload_at f' rid = Ok blob.
Proof.
  intros Hsnd Hmax Hpack.
  pose proof (RowFmtMoreFacts.pack_row_bound r sch blob Hpack) as [_ Hb].
  destruct (insert_rows_frame sch r blob f Hsnd Hpack) as
    (rid & f' & Hrun & _ & _ & Hlive & Hpay & _); [unfold flen; lia|].
  exists rid, f'. auto.
Qed.

(** *** Freed slots are taken again *)

Lemma find_free_from_first (p : Z) (f : heap) (n : nat) :
  forall s0 s1 off,
    0 <= p -> 0 <= s0 ->
    p * 4096 + 4 + (s0 + Z.of_nat n) * 4 <= flen f ->
    s0 <= s1 < s0 + Z.of_nat n ->
    slot_at f p s1 = Ok (off, 0) ->
    exists s, find_free_from p s0 n f = (Ok (Some s), f) /\ s0 <= s <= s1.
Proof.
  induction n as [|n IH]; intros s0 s1 off Hp Hs Hl Hrange Hfree; [lia|].
  cbn [find_free_from].
  destruct (unpack_HH_rdz f (p * 4096 + 4 + s0 * 4)) as (x & y & Hxy & _ & _);
    [lia | lia |].
  rewrite (bind_eq _ _ f f (x, y)) by (rewrite read_slot_eq by lia; rewrite Hxy; reflexivity).
  cbn [snd]. destruct (Z.eqb_spec y 0) as [->|Hy].
  - exists s0. split; [reflexivity | lia].
  - destruct (Z.eq_dec s1 s0) as [->|Hne].
    { rewrite slot_at_eq in Hfree by lia. rewrite Hxy in Hfree.
      inversion Hfree. congruence. }
    destruct (IH (s0 + 1) s1 off) as (s & Hr & Hle); try assumption; try lia.
    exists s. split; [exact Hr | lia].
Qed.

(** X8. When the last page has a freed slot and room for the blob, [insert]
    gives the row a RID of that page no higher than the freed one, and the
    slot directory does not grow: a RID that was deleted can come back as
    the RID of another row. *)
Theorem insert_reuses_freed_slot (sch : RowFmt.schema) (r : RowFmt.row)
    (blob : bytes) (f : heap) (rd : RID) (ns de off : Z) :
  heap_wf f = true ->
  page rd = num_pages f - 1 ->
  hdr_at f (page rd) = Ok (ns, de) ->
  0 <= slot rd < ns ->
  slot_at f (page rd) (slot rd) = Ok (off, 0) ->
  RowFmt.pack_row r sch = Ok blob ->
  flen blob <= de - (HDR_SIZE + ns * SLOT_SIZE) ->
  exists rid f',
    insert sch r f = (Ok rid, f') /\
    page rid = page rd /\ 0 <= slot rid <= slot rd /\
    hdr_at f' (page rd) = Ok (ns, de - flen blob) /\
    ((forall s, 0 <= s < slot rd ->
        exists o l, slot_at f (page rd) s = Ok (o, l) /\ l <> 0) ->
     rid = rd).
Proof.
  intros Hwf Hp Hh Hs Hfree Hpack Hfit. unfold HDR_SIZE, SLOT_SIZE in Hfit.
  pose proof (RowFmtFacts.pack_row_length _ _ _ Hpack) as Hplen.
  assert (Hb1 : 1 <= flen blob) by (unfold flen; lia).
  pose proof Hwf as Hwf0. apply heap_wf_spec in Hwf0 as [Hal Hpages].
  pose proof (aligned_len f Hal) as Hlen.
  pose proof (num_pages_nonneg f) as Hnp.
  assert (Hp0 : 0 <= page rd).
  { destruct (Z.lt_ge_cases (page rd) 0) as [Hneg|]; [|assumption].
    exfalso. unfold hdr_at, _read_hdr, peek, file_read, file_seek, _base, PAGE_SIZE in Hh.
    rewrite (proj2 (Z.ltb_lt _ _)) in Hh by lia. discriminate. }
  destruct (hdr_at_range f (page rd) ns de Hp0 Hh) as [Hns Hde].
  pose proof (proj1 (page_ok_spec f (page rd)) (Hpages (page rd) ltac:(lia)))
    as (ns1 & de1 & Hh1 & Hi).
  assert (ns1 = ns /\ de1 = de) as [-> ->] by (split; congruence).
  destruct (find_free_from_first (page rd) f (Z.to_nat ns) 0 (slot rd) off)
    as (s & Hfind & Hsle); try assumption; try lia.
  rewrite (insert_run sch r blob f Hpack).
  destruct (insert_blob_frame blob f Hwf Hb1 ltac:(lia))
    as (rid & f' & ns' & de' & Hrun & Hpr & Hnp' & Hal' & Hh' & _ & _ & Hsl
        & _ & _ & _ & Hold & Hnew).
  exists rid, f'. split; [exact Hrun|].
  destruct (Z.lt_ge_cases (page rid) (num_pages f)) as [Hlt|Hge].
  - destruct (Hold Hlt) as (Hpg & ns0 & de0 & sf & Hh0 & Hde' & Hfind0 & _ & Hcase).
    rewrite Hpg, <- Hp in Hh0, Hfind0, Hcase, Hh'.
    assert (ns0 = ns /\ de0 = de) as [-> ->] by (split; congruence).
    assert (sf = Some s) by (unfold _find_free_slot in Hfind0; congruence). subst sf.
    destruct Hcase as [(Hc & _)|(Hc & Hns' & _)]; [discriminate|].
    inversion Hc as [Hsr]. subst ns' de'.
    split; [lia|]. split; [lia|]. split; [exact Hh'|].
    intros Hbelow. destruct (Z.eq_dec (slot rid) (slot rd)) as [E|NE].
    + destruct rid, rd. cbn [page slot] in *. f_equal; lia.
    + exfalso. destruct (Hbelow (slot rid) ltac:(lia)) as (o & l & Hso & Hl).
      unfold _find_free_slot in Hfind.
      destruct (find_free_from_spec (page rd) f (Z.to_nat ns) 0) as (r0 & Hr0 & Hr0s);
        [lia | lia | lia |].
      assert (r0 = Some (slot rid)) by congruence. subst r0.
      destruct (Hr0s _ eq_refl) as [_ (o' & Ho')]. congruence.
  - exfalso. destruct (Hnew Hge) as (_ & _ & Hfull).
    destruct (Hfull ltac:(lia)) as (ns0 & de0 & sf & Hh0 & Hfind0 & Hlt).
    rewrite <- Hp in Hh0, Hfind0.
    assert (ns0 = ns /\ de0 = de) as [-> ->] by (split; congruence).
    assert (sf = Some s) by (unfold _find_free_slot in Hfind0; congruence). subst sf.
    unfold _free_bytes, HDR_SIZE, SLOT_SIZE in Hlt. lia.
Qed.

(** *** The theorems at work on the demo heap *)

Lemma insert_keeps_rows_witness :
  exists rid f',
    insert RowFmtSpec.demo_schema RowFmtSpec.demo_row one_row_heap = (Ok rid, f') /\
    heap_sound f' = true /\
    is_live one_row_heap rid = false /\
    is_live f' rid = true /\
    payload_at f' rid = Ok RowFmtSpec.demo_blob /\
    forall rd, rid_eqb rd rid = false ->
      is_live f' rd = is_live one_row_heap rd /\
      (is_live one_row_heap rd = true -> payload_at f' rd = payload_at one_row_heap rd).
Proof.
  apply (insert_keeps_rows RowFmtSpec.demo_schema RowFmtSpec.demo_row
           RowFmtSpec.demo_blob one_row_heap).
  - vm_compute. reflexivity.
  - vm_compute. reflexivity.
  - vm_compute. discriminate.
Defined.

Lemma delete_live_row_witness :
  exists f',
    delete (mkRID 0 0) one_row_heap = (Ok true, f') /\
    heap_sound f' = true /\
    is_live f' (mkRID 0 0) = false /\
    (forall rd', rid_eqb rd' (mkRID 0 0) = false ->
       is_live f' rd' = is_live one_row_heap rd' /\
       (is_live one_row_heap rd' = true ->
        payload_at f' rd' = payload_at one_row_heap rd')) /\
    delete (mkRID 0 0) f' = (Ok false, f') /\
    forall sch, read sch (mkRID 0 0) f' = (Raise (KeyError "slot borrado"), f').
Proof.
  apply (delete_live_row (mkRID 0 0) one_row_heap).
  - vm_compute. reflexivity.
  - vm_compute. reflexivity.
Defined.

Lemma delete_dead_row_witness :
  delete (mkRID 0 5) one_row_heap = (Ok false, one_row_heap) /\
  forall sch, exists msg,
    read sch (mkRID 0 5) one_row_heap = (Raise (KeyError msg), one_row_heap).
Proof.
  apply (delete_dead_row (mkRID 0 5) one_row_heap).
  - vm_compute. reflexivity.
  - vm_compute. split; [discriminate | reflexivity].
  - vm_compute. reflexivity.
Defined.

Lemma iter_rids_exact_witness :
  exists l,
    iter_rids one_row_heap = (Ok l, one_row_heap) /\
    StronglySorted rid_lt l /\
    NoDup l /\
    forall rd, rd ∈ l <-> is_live one_row_heap rd = true.
Proof. apply (iter_rids_exact one_row_heap). vm_compute. reflexivity. Defined.

Lemma one_row_run : heap_run one_row_heap [mkRID 0 0].
Proof.
  exact (run_insert [] one_row_heap [] RowFmtSpec.demo_schema RowFmtSpec.demo_row
           (mkRID 0 0) run_empty eq_refl).
Defined.

Lemma heap_run_sound_witness :
  heap_run one_row_heap [mkRID 0 0] /\ heap_sound one_row_heap = true.
Proof.
  split; [exact one_row_run|].
  apply (heap_run_sound one_row_heap [mkRID 0 0]). exact one_row_run.
Defined.

Lemma iter_rids_of_run_witness :
  exists l,
    iter_rids one_row_heap = (Ok l, one_row_heap) /\ NoDup l /\
    forall rd, rd ∈ l <-> rd ∈ [mkRID 0 0].
Proof. apply (iter_rids_of_run one_row_heap [mkRID 0 0]). exact one_row_run. Defined.

Lemma read_unchanged_by_others_witness :
  (forall sch' r' rid' f',
     insert sch' r' one_row_heap = (Ok rid', f') ->
     fst (read RowFmtSpec.demo_schema (mkRID 0 0) f')
     = fst (read RowFmtSpec.demo_schema (mkRID 0 0) one_row_heap)) /\
  (forall rd' b f',
     rid_eqb (mkRID 0 0) rd' = false -> delete rd' one_row_heap = (Ok b, f') ->
     fst (read RowFmtSpec.demo_schema (mkRID 0 0) f')
     = fst (read RowFmtSpec.demo_schema (mkRID 0 0) one_row_heap)).
Proof.
  apply (read_unchanged_by_others RowFmtSpec.demo_schema (mkRID 0 0) one_row_heap).
  - vm_compute. reflexivity.
  - vm_compute. reflexivity.
Defined.

Lemma read_after_insert_witness :
  exists rid f',
    insert RowFmtSpec.demo_schema RowFmtSpec.demo_row one_row_heap = (Ok rid, f') /\
    exists out,
      read RowFmtSpec.demo_schema rid f' = (Ok out, f') /\
      out !! "_rid"%string = Some (RowFmt.VRid (page rid) (slot rid)) /\
      forall name, name <> "_rid"%string ->
        out !! name = if decide (name ∈ RowFmtSpec.demo_schema.*1)
                      then Some (default RowFmt.VNone (RowFmtSpec.demo_row !! name))
                      else None.
Proof.
  apply (read_after_insert RowFmtSpec.demo_schema RowFmtSpec.demo_row
           RowFmtSpec.demo_blob one_row_heap).
  - vm_compute. reflexivity.
  - vm_compute. reflexivity.
  - vm_compute. discriminate.
  - vm_compute. reflexivity.
  - vm_compute. reflexivity.
Defined.

Lemma insert_reuses_freed_slot_witness :
  exists rid f',
    insert RowFmtSpec.demo_schema RowFmtSpec.demo_row emptied_heap = (Ok rid, f') /\
    page rid = 0 /\ 0 <= slot rid <= 0 /\
    hdr_at f' 0 = Ok (1, 4064 - flen RowFmtSpec.demo_blob) /\
    ((forall s, 0 <= s < 0 ->
        exists o l, slot_at emptied_heap 0 s = Ok (o, l) /\ l <> 0) ->
     rid = mkRID 0 0).
Proof.
  apply (insert_reuses_freed_slot RowFmtSpec.demo_schema RowFmtSpec.demo_row
           RowFmtSpec.demo_blob emptied_heap (mkRID 0 0) 1 4064 4064).
  - vm_compute. reflexivity.
  - vm_compute. reflexivity.
  - vm_compute. reflexivity.
  - vm_compute. split; [discriminate | reflexivity].
  - vm_compute. reflexivity.
  - vm_compute. reflexivity.
  - vm_compute. discriminate.
Defined.

Lemma one_row_hist :
  heap_hist one_row_heap [(mkRID 0 0, (RowFmtSpec.demo_schema, RowFmtSpec.demo_row))].
Proof.
  apply (hist_insert [] one_row_heap [] RowFmtSpec.demo_schema RowFmtSpec.demo_row
           (mkRID 0 0) hist_empty).
  vm_compute. reflexivity.
Defined.

Lemma read_after_history_witness :
  (exists out,
     read RowFmtSpec.demo_schema (mkRID 0 0) one_row_heap = (Ok out, one_row_heap) /\
     out !! "_rid"%string = Some (RowFmt.VRid 0 0) /\
     forall name, name <> "_rid"%string ->
       out !! name = if decide (name ∈ RowFmtSpec.demo_schema.*1)
                     then Some (default RowFmt.VNone (RowFmtSpec.demo_row !! name))
                     else None) /\
  (forall sch, exists msg,
     read sch (mkRID 0 1) one_row_heap = (Raise (KeyError msg), one_row_heap)).
Proof.
  split.
  - apply (proj1 (read_after_history one_row_heap _ one_row_hist)
             (mkRID 0 0) RowFmtSpec.demo_schema RowFmtSpec.demo_row).
    + apply list_elem_of_singleton. reflexivity.
    + vm_compute. reflexivity.
    + vm_compute. reflexivity.
  - apply (proj2 (read_after_history one_row_heap _ one_row_hist) (mkRID 0 1)).
    + vm_compute. split; [discriminate | reflexivity].
    + intros x Hx. apply list_elem_of_singleton in Hx. discriminate.
Defined.

Lemma iter_rows_of_history_witness :
  exists l out,
    iter_rids one_row_heap = (Ok l, one_row_heap) /\
    iter_rows RowFmtSpec.demo_schema one_row_heap = (Ok out, one_row_heap) /\
    StronglySorted rid_lt l /\
    (forall rd, rd ∈ l <->
       exists x, (rd, x) ∈ [(mkRID 0 0, (RowFmtSpec.demo_schema, RowFmtSpec.demo_row))]) /\
    Forall2 (fun rd row =>
               exists r,
                 (rd, (RowFmtSpec.demo_schema, r))
                   ∈ [(mkRID 0 0, (RowFmtSpec.demo_schema, RowFmtSpec.demo_row))] /\
                 row = <["_rid"%string := RowFmt.VRid (page rd) (slot rd)]>
                         (RowFmtSpec.normalized r RowFmtSpec.demo_schema ∅)) l out.
Proof.
  apply (iter_rows_of_history RowFmtSpec.demo_schema one_row_heap _ one_row_hist).
  intros rd sch' r Hin. apply list_elem_of_singleton in Hin. inversion Hin; subst.
  split; [reflexivity | split; vm_compute; reflexivity].
Defined.

Lemma insert_fits_by_schema_witness :
  exists rid f',
    insert RowFmtSpec.demo_schema RowFmtSpec.demo_row one_row_heap = (Ok rid, f') /\
    is_live f' rid = true /\ payload_at f' rid = Ok RowFmtSpec.demo_blob.
Proof.
  apply (insert_fits_by_schema RowFmtSpec.demo_schema RowFmtSpec.demo_row
           RowFmtSpec.demo_blob one_row_heap).
  - vm_compute. reflexivity.
  - vm_compute. discriminate.
  - vm_compute. reflexivity.
Defined.

End HeapRowsFacts.

(** ** Executor: an insert that reaches every index *)

Module ExecutorMoreFacts.
Import RowFmt RowFmtSpec Heap HeapSpec HeapRows SeqFile SeqFileSpec IndexView
       Executor ExecutorMore.
Import HeapFacts HeapRowsFacts InsertFacts IndexViewFacts.

Lemma insert_indexes_all (fuel : nat) (r : row) (rd : RID) (ixs : list index) :
  fits_u16 (page rd) = true -> fits_u16 (slot rd) = true ->
  Forall (index_ready fuel r) ixs ->
  exists ixs',
    insert_indexes fuel r rd ixs = (Ok tt, ixs') /\
    Forall2 (index_took r rd) ixs ixs'.
Proof.
  intros Hp Hs. induction 1 as [|ix rest (HWF & Hsize & Hfuel & kz & Hk & Hfit) _ IH].
  - exists []. split; [reflexivity | constructor].
  - destruct IH as (rest' & Hrest & HF).
    assert (Hst : storable (mkEntry kz rd 0)) by (unfold storable; cbn; auto).
    destruct (insert_returns fuel (mkEntry kz rd 0) (sf ix) HWF Hst Hsize Hfuel)
      as [f' Hins].
    destruct (insert_view fuel (mkEntry kz rd 0) (sf ix) f' HWF Hins)
      as ((v & Hv & Hv') & _).
    exists ({| key_col := key_col ix; sf := f' |} :: rest').
    split.
    + cbn [insert_indexes]. rewrite Hk. unfold index_insert. cbn [py_int].
      rewrite Hins. cbn [on_key_error]. rewrite Hrest. reflexivity.
    + constructor; [|exact HF]. split; [reflexivity|].
      exists kz, v. cbn [sf key_col]. auto.
Qed.

(** X26. When the heap is sound and has no more pages than a 16-bit page
    number can name, the row is encoded and fits a page, and every
    registered index is well formed and finds a 32-bit integer in its key
    column, [Executor.insert] returns the RID the heap gave the row, the row
    is stored under it, and every index holds the key of the row with that
    RID, in key order, in front of the older entries with that key. *)
Theorem insert_updates_all (fuel : nat) (sch : schema) (r : row) (blob : bytes)
    (d : db) :
  heap_sound (heap d) = true ->
  num_pages (heap d) <= 65535 ->
  pack_row r sch = Ok blob ->
  flen blob + Heap.HDR_SIZE + Heap.SLOT_SIZE <= Heap.PAGE_SIZE ->
  Forall (index_ready fuel r) (indexes d) ->
  exists rid d',
    Executor.insert fuel sch r d = (Ok rid, d') /\
    Heap.insert sch r (heap d) = (Ok rid, heap d') /\
    is_live (heap d') rid = true /\
    payload_at (heap d') rid = Ok blob /\
    Forall2 (index_took r rid) (indexes d) (indexes d').
Proof.
  intros Hsnd Hnp Hpack Hsize Hready.
  pose proof (heap_sound_wf _ Hsnd) as Hwf.
  pose proof (RowFmtFacts.pack_row_length r sch blob Hpack) as Hlen.
  destruct (insert_blob_frame blob (heap d) Hwf)
    as (rid & h' & ns' & de' & Hrun & Hpage & _ & _ & Hhdr & _ & _ & Hslot & _);
    [unfold flen; lia | unfold Heap.HDR_SIZE, Heap.SLOT_SIZE, Heap.PAGE_SIZE in Hsize; lia |].
  rewrite <- (insert_run sch r blob (heap d) Hpack) in Hrun.
  destruct (insert_rows_frame sch r blob (heap d) Hsnd Hpack Hsize)
    as (rid0 & h0 & Hrun0 & _ & _ & Hlive & Hpay & _).
  assert (rid0 = rid /\ h0 = h') as [-> ->] by (split; congruence).
  destruct (hdr_at_range h' (page rid) ns' de' ltac:(lia) Hhdr) as [Hns _].
  assert (Hfp : fits_u16 (page rid) = true).
  { unfold fits_u16. apply andb_true_iff. split; apply Z.leb_le; lia. }
  assert (Hfs : fits_u16 (slot rid) = true).
  { unfold fits_u16. apply andb_true_iff. split; apply Z.leb_le; lia. }
  destruct (insert_indexes_all fuel r rid (indexes d) Hfp Hfs Hready)
    as (ixs' & Hixs & HF).
  exists rid, {| heap := h'; indexes := ixs' |}.
  split.
  { unfold Executor.insert. rewrite Hrun, Hixs. reflexivity. }
  cbn [heap indexes]. auto.
Qed.

Lemma insert_updates_all_witness :
  exists rid d',
    Executor.insert 8 demo_schema demo_row demo_db_one = (Ok rid, d') /\
    Heap.insert demo_schema demo_row (heap demo_db_one) = (Ok rid, heap d') /\
    is_live (heap d') rid = true /\
    payload_at (heap d') rid = Ok demo_blob /\
    Forall2 (index_took demo_row rid) (indexes demo_db_one) (indexes d').
Proof.
  apply (insert_updates_all 8 demo_schema demo_row demo_blob demo_db_one).
  - vm_compute. reflexivity.
  - vm_compute. discriminate.
  - vm_compute. reflexivity.
  - vm_compute. discriminate.
  - constructor; [|constructor].
    split; [|split; [|split]].
    + apply (insert_WF 8 demo_e10 empty); [apply DeleteFacts.empty_WF | vm_compute; reflexivity].
    + vm_compute. discriminate.
    + vm_compute. lia.
    + exists 10. split; vm_compute; reflexivity.
Defined.

End ExecutorMoreFacts.

(** ** Executor: [select_eq] and [delete] by full scan *)

Module ExecScanFacts.
Import RowFmt RowFmtSpec Heap HeapSpec HeapRows HeapScan Executor ExecutorOps ExecScan.
Import HeapFacts HeapRowsFacts.

Lemma hist_fst_filter (S : hist) (rd : RID) :
  (filter (fun x => negb (rid_eqb (fst x) rd)) S).*1
  = filter (fun y => negb (rid_eqb y rd)) S.*1.
Proof.
  induction S as [|x S IH]; [reflexivity|].
  rewrite fmap_cons. destruct (rid_eqb (fst x) rd) eqn:E.
  - rewrite !filter_cons_False by (rewrite E; intros []). exact IH.
  - rewrite !filter_cons_True by (rewrite E; exact I).
    rewrite fmap_cons, IH. reflexivity.
Qed.

(** Along a history no RID is recorded twice. *)
Lemma heap_hist_nodup (f : Heap.heap) (S : hist) : heap_hist f S -> NoDup S.*1.
Proof.
  induction 1 as [|f f' S sch r rd _ IH _|f f' S rd b _ IH _].
  - constructor.
  - rewrite fmap_cons. cbn [fst]. rewrite hist_fst_filter. apply NoDup_cons. split.
    + intros Hin. apply elem_of_filter_rid in Hin as [Hne _].
      assert (rid_eqb rd rd = true) by (apply rid_eqb_eq; reflexivity). congruence.
    + apply NoDup_filter. exact IH.
  - rewrite hist_fst_filter. apply NoDup_filter. exact IH.
Qed.

Lemma hist_unique (S : hist) (rd : RID) (x y : schema * row) :
  NoDup S.*1 -> (rd, x) ∈ S -> (rd, y) ∈ S -> x = y.
Proof.
  induction S as [|[rd0 x0] S IH]; intros Hnd Hx Hy; [inversion Hx|].
  rewrite fmap_cons in Hnd. apply NoDup_cons in Hnd as [Hn0 Hnd]. cbn [fst] in Hn0.
  assert (Hin : forall z, (rd, z) ∈ S -> rd ∈ S.*1).
  { intros z Hz. apply list_elem_of_fmap. exists (rd, z). auto. }
  apply elem_of_cons in Hx as [Ex|Hx]; apply elem_of_cons in Hy as [Ey|Hy].
  - congruence.
  - inversion Ex; subst. exfalso. apply Hn0. eapply Hin; eauto.
  - inversion Ey; subst. exfalso. apply Hn0. eapply Hin; eauto.
  - auto.
Qed.

Lemma read_all_pairs (sch : schema) (f : Heap.heap) (P : RID -> row -> Prop) (l : list RID) :
  (forall rd, rd ∈ l -> exists r, read sch rd f = (Ok r, f) /\ P rd r) ->
  exists L : list (RID * row),
    L.*1 = l /\ read_all sch l f = (Ok L.*2, f) /\
    forall p, p ∈ L -> P (fst p) (snd p).
Proof.
  induction l as [|rd l IH]; intros H.
  - exists []. split; [reflexivity|]. split; [reflexivity|]. intros p Hp. inversion Hp.
  - destruct (H rd) as (r & Hr & HP); [left|].
    destruct IH as (L & HL & Hout & HF); [intros x Hx; apply H; right; exact Hx|].
    exists ((rd, r) :: L). split; [rewrite fmap_cons, HL; reflexivity|]. split.
    + cbn [read_all]. rewrite (bind_eq _ _ f f r Hr).
      rewrite (bind_eq _ _ f f _ Hout). reflexivity.
    + intros p Hp. apply elem_of_cons in Hp as [->|Hp]; [exact HP | auto].
Qed.

(** The rows of a table whose history used one schema: [iter_rows] reads,
    in RID order, one row for every recorded RID, the row as it was
    given. *)
Lemma hist_rows (sch : schema) (f : Heap.heap) (S : hist) :
  heap_hist f S ->
  (forall rd sch' r, (rd, (sch', r)) ∈ S ->
     sch' = sch /\ varchar_fits r sch = true) ->
  exists L : list (RID * row),
    iter_rids f = (Ok L.*1, f) /\
    iter_rows sch f = (Ok L.*2, f) /\
    StronglySorted rid_lt L.*1 /\
    NoDup L.*1 /\
    (forall rd r, (rd, r) ∈ L <-> exists x, (rd, x) ∈ S /\ r = stored_row (rd, x)).
Proof.
  intros H Hsch. destruct (heap_hist_inv f S H) as (Hsnd & Hdom & Hrows).
  pose proof (heap_hist_nodup f S H) as Hnd.
  destruct (iter_rids_run f (heap_sound_wf f Hsnd)) as (l & Hrun & Hsorted & Hndl & Hin).
  destruct (read_all_pairs sch f
              (fun rd r => exists x, (rd, x) ∈ S /\ r = stored_row (rd, x)) l)
    as (L & HL & Hout & HP).
  { intros rd Hrd. apply Hin in Hrd. destruct (Hdom rd Hrd) as ([sch' r] & Hx).
    destruct (Hsch rd sch' r Hx) as [-> Hfit].
    destruct (Hrows rd sch r Hx) as (Hlive & blob & Hpack & Hpay).
    rewrite (read_of_payload sch rd blob f Hsnd Hlive Hpay).
    rewrite (RowFmtFacts.unpack_pack_normalized r sch blob Hpack Hfit).
    eexists. split; [reflexivity|]. exists (sch, r). auto. }
  exists L. rewrite HL. split; [exact Hrun|]. split.
  { unfold iter_rows. rewrite (bind_eq _ _ f f l Hrun). exact Hout. }
  split; [exact Hsorted|]. split; [exact Hndl|].
  intros rd r. split.
  - intros Hp. apply (HP (rd, r) Hp).
  - intros (x & Hx & ->).
    assert (Hrd : rd ∈ L.*1).
    { rewrite HL. apply Hin. destruct x as [sch' r']. apply (Hrows rd sch' r' Hx). }
    apply list_elem_of_fmap in Hrd as ([rd' r'] & E & Hp). cbn [fst] in E. subst rd'.
    destruct (HP _ Hp) as (y & Hy & Er). cbn [fst snd] in Hy, Er.
    rewrite (hist_unique S rd x y Hnd Hx Hy). rewrite <- Er. exact Hp.
Qed.

Lemma find_idx_none_run (fuel : nat) (sch : schema) (col : string) (key : value) (d : db) :
  find_idx col (indexes d) 0 = None ->
  select_eq fuel sch col key d = on_heap (scan_eq sch col key) d.
Proof. intros H. unfold select_eq. rewrite H. reflexivity. Qed.

Lemma scan_eq_rows (sch : schema) (col : string) (key : value) (f : Heap.heap)
    (rows : list row) :
  iter_rows sch f = (Ok rows, f) ->
  scan_eq sch col key f = (Ok (List.filter (col_is col key) rows), f).
Proof. intros H. unfold scan_eq. rewrite (bind_eq _ _ f f rows H). reflexivity. Qed.

(** X27. Without an index on the column, [select_eq] on a table whose rows
    all went in under its schema (values of the type of their column, no
    text longer than its column) returns exactly the rows that were inserted
    and not deleted and whose column equals the key, each as it was given
    and with its RID, in page and slot order; the database is left as it is. *)
Theorem select_eq_scans (fuel : nat) (sch : schema) (col : string) (key : value)
    (d : db) (S : hist) :
  heap_hist (heap d) S ->
  (forall rd sch' r, (rd, (sch', r)) ∈ S ->
     sch' = sch /\ typed r sch = true /\ varchar_fits r sch = true) ->
  find_idx col (indexes d) 0 = None ->
  exists L : list (RID * row),
    StronglySorted rid_lt L.*1 /\
    (forall rd r, (rd, r) ∈ L <-> exists x, (rd, x) ∈ S /\ r = stored_row (rd, x)) /\
    select_eq fuel sch col key d = (Ok (List.filter (col_is col key) L.*2), d).
Proof.
  intros H Hsch0 Hidx.
  assert (Hsch : forall rd sch' r, (rd, (sch', r)) ∈ S ->
            sch' = sch /\ varchar_fits r sch = true).
  { intros rd sch' r Hin. destruct (Hsch0 rd sch' r Hin) as (E & _ & Hfit). auto. }
  destruct (hist_rows sch (heap d) S H Hsch) as (L & _ & Hrows & Hsorted & _ & HL).
  exists L. split; [exact Hsorted|]. split; [exact HL|].
  rewrite (find_idx_none_run fuel sch col key d Hidx). unfold on_heap.
  rewrite (scan_eq_rows sch col key (heap d) _ Hrows). destruct d; reflexivity.
Qed.

(** *** [delete] by full scan *)

Lemma in_rids_spec (l : list RID) (rd : RID) : in_rids l rd = true <-> rd ∈ l.
Proof.
  unfold in_rids. rewrite existsb_exists. split.
  - intros (y & Hy & E). apply rid_eqb_eq in E. subst y. apply list_elem_of_In. exact Hy.
  - intros H. exists rd. split; [apply list_elem_of_In; exact H|].
    apply rid_eqb_eq. reflexivity.
Qed.

Lemma filter_ext_elem {A : Type} (P Q : A -> bool) (l : list A) :
  (forall x, x ∈ l -> P x = Q x) ->
  filter (fun x => P x) l = filter (fun x => Q x) l.
Proof.
  induction l as [|x l IH]; intros H; [reflexivity|].
  assert (E : P x = Q x) by (apply H; left).
  assert (IH' : filter (fun x => P x) l = filter (fun x => Q x) l).
  { apply IH. intros y Hy. apply H. right. exact Hy. }
  destruct (Q x) eqn:EQ.
  - rewrite !filter_cons_True by (first [rewrite E | rewrite EQ]; exact I).
    rewrite IH'. reflexivity.
  - rewrite !filter_cons_False by (first [rewrite E | rewrite EQ]; intros []).
    exact IH'.
Qed.

Lemma filter_all {A : Type} (P : A -> bool) (l : list A) :
  (forall x, x ∈ l -> P x = true) -> filter (fun x => P x) l = l.
Proof.
  induction l as [|x l IH]; intros H; [reflexivity|].
  rewrite filter_cons_True by (rewrite (H x) by left; exact I).
  rewrite IH; [reflexivity|]. intros y Hy. apply H. right. exact Hy.
Qed.

Lemma in_rids_cons (rd y : RID) (l : list RID) :
  in_rids (rd :: l) y = rid_eqb y rd || in_rids l y.
Proof. reflexivity. Qed.

Lemma filter_twice (T : hist) (rd : RID) (l : list RID) :
  filter (fun x => negb (in_rids l (fst x))) (filter (fun x => negb (rid_eqb (fst x) rd)) T)
  = filter (fun x => negb (in_rids (rd :: l) (fst x))) T.
Proof.
  induction T as [|x T IH]; [reflexivity|].
  destruct (rid_eqb (fst x) rd) eqn:E.
  - rewrite (filter_cons_False (fun x => negb (rid_eqb (fst x) rd)) x T)
      by (rewrite E; intros []).
    rewrite (filter_cons_False (fun x => negb (in_rids (rd :: l) (fst x))) x T)
      by (rewrite in_rids_cons, E; intros []).
    exact IH.
  - rewrite (filter_cons_True (fun x => negb (rid_eqb (fst x) rd)) x T)
      by (rewrite E; exact I).
    destruct (in_rids l (fst x)) eqn:E2.
    + rewrite (filter_cons_False (fun x => negb (in_rids l (fst x))))
        by (rewrite E2; intros []).
      rewrite (filter_cons_False (fun x => negb (in_rids (rd :: l) (fst x))) x T)
        by (rewrite in_rids_cons, E, E2; intros []).
      exact IH.
    + rewrite (filter_cons_True (fun x => negb (in_rids l (fst x))))
        by (rewrite E2; exact I).
      rewrite (filter_cons_True (fun x => negb (in_rids (rd :: l) (fst x))) x T)
        by (rewrite in_rids_cons, E, E2; exact I).
      rewrite IH. reflexivity.
Qed.

(** The loop of [delete] over rows that name distinct recorded RIDs, with
    no index to update: every row is deleted and counted. *)
Lemma delete_loop_none (fuel : nat) (key : value) (ixs : list index) :
  forall (L : list (RID * row)) (cnt : Z) (g : Heap.heap) (T : hist),
    heap_hist g T ->
    NoDup L.*1 ->
    (forall p, p ∈ L -> rid_of_row (snd p) = Ok (fst p) /\ exists x, (fst p, x) ∈ T) ->
    exists g',
      delete_loop fuel key None L.*2 cnt {| heap := g; indexes := ixs |}
      = (Ok (cnt + Z.of_nat (length L)), {| heap := g'; indexes := ixs |}) /\
      heap_hist g' (filter (fun x => negb (in_rids L.*1 (fst x))) T).
Proof.
  induction L as [|[rd r] L IH]; intros cnt g T Hh Hnd HL.
  - exists g. split.
    + cbn. rewrite Z.add_0_r. reflexivity.
    + rewrite filter_all; [exact Hh | reflexivity].
  - rewrite !fmap_cons in *. cbn [fst snd] in *.
    apply NoDup_cons in Hnd as [Hn0 Hnd].
    destruct (HL (rd, r)) as (Hrid & x & Hx); [left|]. cbn [fst snd] in Hrid, Hx.
    destruct (heap_hist_inv g T Hh) as (Hsnd & _ & Hrows).
    destruct x as [sch0 r0]. destruct (Hrows rd sch0 r0 Hx) as (Hlive & _).
    destruct (delete_live_frame rd g Hsnd Hlive) as (g1 & Hdel & _).
    pose proof (hist_delete g g1 T rd true Hh Hdel) as Hh1.
    destruct (IH (cnt + 1) g1 _ Hh1 Hnd) as (g' & Hrun & Hh').
    { intros p Hp. destruct (HL p) as (Hr & y & Hy); [right; exact Hp|].
      split; [exact Hr|]. exists y. apply elem_of_filter_hist. cbn [fst].
      split; [|exact Hy].
      destruct (rid_eqb (fst p) rd) eqn:E; [|reflexivity].
      apply rid_eqb_eq in E. exfalso. apply Hn0. rewrite <- E.
      apply list_elem_of_fmap. exists p. auto. }
    exists g'. split.
    + cbn [delete_loop].
      rewrite (bind_peek (fun _ => rid_of_row r) _ {| heap := g; indexes := ixs |} rd Hrid).
      rewrite (bind_eq _ _ _ {| heap := g1; indexes := ixs |} true).
      2:{ unfold on_heap. cbn [heap indexes]. rewrite Hdel. reflexivity. }
      rewrite (bind_eq _ _ _ {| heap := g1; indexes := ixs |} tt eq_refl).
      rewrite Hrun. f_equal. f_equal. cbn [length]. lia.
    + rewrite <- filter_twice. exact Hh'.
Qed.

Lemma NoDup_fst_filter {B : Type} (Q : RID * B -> bool) (L : list (RID * B)) :
  NoDup L.*1 -> NoDup (List.filter Q L).*1.
Proof.
  induction L as [|p L IH]; intros Hnd; [constructor|].
  rewrite fmap_cons in Hnd. apply NoDup_cons in Hnd as [Hn0 Hnd].
  cbn [List.filter]. destruct (Q p); [|auto].
  rewrite fmap_cons. apply NoDup_cons. split; [|auto].
  intros Hin. apply Hn0. apply list_elem_of_fmap in Hin as (q & E & Hq).
  apply list_elem_of_In, List.filter_In in Hq as [Hq _].
  apply list_elem_of_fmap. exists q. split; [exact E | apply list_elem_of_In; exact Hq].
Qed.

Lemma rid_of_stored_row (x : RID * (schema * row)) :
  rid_of_row (stored_row x) = Ok (fst x).
Proof.
  unfold rid_of_row, stored_row. rewrite lookup_insert_eq.
  destruct x as [[p s] y]. reflexivity.
Qed.

(** X28. Without an index on the column, on a table whose rows all went in
    under its schema, [delete] returns the number of rows [select_eq] finds
    for the key; afterwards the table is as if exactly those rows had been
    deleted one by one (the others are still read as they were given), the
    indexes are untouched, and [select_eq] for the key finds nothing. *)
Theorem delete_by_scan (fuel : nat) (sch : schema) (col : string) (key : value)
    (d : db) (S : hist) :
  heap_hist (heap d) S ->
  (forall rd sch' r, (rd, (sch', r)) ∈ S ->
     sch' = sch /\ typed r sch = true /\ varchar_fits r sch = true) ->
  find_idx col (indexes d) 0 = None ->
  exists out n d',
    select_eq fuel sch col key d = (Ok out, d) /\
    ExecutorOps.delete fuel sch col key d = (Ok n, d') /\
    n = Z.of_nat (length out) /\
    indexes d' = indexes d /\
    heap_hist (heap d') (filter (fun x => negb (col_is col key (stored_row x))) S) /\
    select_eq fuel sch col key d' = (Ok [], d').
Proof.
  intros H Hsch0 Hidx.
  assert (Hsch : forall rd sch' r, (rd, (sch', r)) ∈ S ->
            sch' = sch /\ varchar_fits r sch = true).
  { intros rd sch' r Hin. destruct (Hsch0 rd sch' r Hin) as (E & _ & Hfit). auto. }
  destruct d as [h ixs]. cbn [heap indexes] in *.
  destruct (hist_rows sch h S H Hsch) as (L & _ & Hrows & _ & HndL & HL).
  pose proof (heap_hist_nodup h S H) as HndS.
  set (Q := fun p : RID * row => col_is col key (snd p)).
  set (L' := List.filter Q L).
  assert (Hout : L'.*2 = List.filter (col_is col key) L.*2).
  { unfold L', Q. symmetry. apply (filter_map_swap (col_is col key) snd L). }
  assert (HL' : forall p, p ∈ L' <-> p ∈ L /\ Q p = true).
  { intros p. unfold L'. rewrite !list_elem_of_In. apply List.filter_In. }
  destruct (delete_loop_none fuel key ixs L' 0 h S H (NoDup_fst_filter Q L HndL))
    as (g' & Hrun & Hh').
  { intros [rd r] Hp. apply HL' in Hp as [Hp _]. apply HL in Hp as (x & Hx & ->).
    cbn [fst snd]. split; [apply (rid_of_stored_row (rd, x)) | eauto]. }
  assert (HS' : filter (fun x => negb (in_rids L'.*1 (fst x))) S
                = filter (fun x => negb (col_is col key (stored_row x))) S).
  { apply (filter_ext_elem (fun x => negb (in_rids L'.*1 (fst x)))
                           (fun x => negb (col_is col key (stored_row x)))).
    intros [rd x] Hx. cbn [fst]. f_equal.
    apply eq_true_iff_eq. rewrite in_rids_spec. split.
    - intros Hin. apply list_elem_of_fmap in Hin as ([rd' r] & E & Hp).
      cbn [fst] in E. subst rd'. apply HL' in Hp as [Hp HQ].
      apply HL in Hp as (y & Hy & ->).
      rewrite (hist_unique S rd x y HndS Hx Hy). exact HQ.
    - intros Hc. apply list_elem_of_fmap. exists (rd, stored_row (rd, x)).
      split; [reflexivity|]. apply HL'. split; [|exact Hc].
      apply HL. eauto. }
  rewrite HS' in Hh'.
  exists (List.filter (col_is col key) L.*2), (Z.of_nat (length L')),
         {| heap := g'; indexes := ixs |}.
  assert (Hsel : select_eq fuel sch col key {| heap := h; indexes := ixs |}
                 = (Ok (List.filter (col_is col key) L.*2), {| heap := h; indexes := ixs |})).
  { rewrite (find_idx_none_run fuel sch col key {| heap := h; indexes := ixs |} Hidx).
    unfold on_heap. cbn [heap indexes].
    rewrite (scan_eq_rows sch col key h _ Hrows). reflexivity. }
  split; [exact Hsel|]. split.
  { pose proof Hsel as Hre. unfold select_eq in Hre. cbn [indexes] in Hre.
    rewrite Hidx in Hre.
    unfold ExecutorOps.delete. cbn [indexes]. rewrite Hidx.
    rewrite (bind_eq _ _ _ _ _ Hre). rewrite <- Hout. rewrite Hrun. reflexivity. }
  split; [rewrite <- Hout, !length_fmap; reflexivity|].
  split; [reflexivity|]. split; [exact Hh'|].
  cbn [heap] in Hh'.
  destruct (hist_rows sch g' _ Hh') as (L2 & _ & Hrows2 & _ & _ & HL2).
  { intros rd sch' r Hin. apply list_elem_of_filter in Hin as [_ Hin].
    apply (Hsch rd sch' r Hin). }
  rewrite (find_idx_none_run fuel sch col key {| heap := g'; indexes := ixs |} Hidx).
  unfold on_heap. cbn [heap indexes].
  rewrite (scan_eq_rows sch col key g' _ Hrows2).
  rewrite (IndexViewFacts.filter_none (col_is col key)); [reflexivity|].
  intros r Hr. apply list_elem_of_fmap in Hr as ([rd r'] & E & Hp). cbn [snd] in E. subst r'.
  apply HL2 in Hp as (x & Hx & ->).
  apply list_elem_of_filter in Hx as [Hx _].
  apply Is_true_true, negb_true_iff in Hx. exact Hx.
Qed.

Lemma demo_hist_schema (rd : RID) (sch' : schema) (r : row) :
  (rd, (sch', r)) ∈ [(mkRID 0 0, (demo_schema, demo_row))] ->
  sch' = demo_schema /\ typed r demo_schema = true /\
  varchar_fits r demo_schema = true.
Proof.
  intros Hin. apply list_elem_of_singleton in Hin. inversion Hin; subst.
  split; [reflexivity | split; vm_compute; reflexivity].
Qed.

Lemma select_eq_scans_witness :
  exists L : list (RID * row),
    StronglySorted rid_lt L.*1 /\
    (forall rd r, (rd, r) ∈ L <->
       exists x, (rd, x) ∈ [(mkRID 0 0, (demo_schema, demo_row))]
                 /\ r = stored_row (rd, x)) /\
    select_eq 8 demo_schema "id" (VInt 10) demo_db_plain
    = (Ok (List.filter (col_is "id" (VInt 10)) L.*2), demo_db_plain).
Proof.
  apply (select_eq_scans 8 demo_schema "id" (VInt 10) demo_db_plain
           [(mkRID 0 0, (demo_schema, demo_row))]).
  - exact one_row_hist.
  - exact demo_hist_schema.
  - reflexivity.
Defined.

Lemma delete_by_scan_witness :
  exists out n d',
    select_eq 8 demo_schema "id" (VInt 10) demo_db_plain = (Ok out, demo_db_plain) /\
    ExecutorOps.delete 8 demo_schema "id" (VInt 10) demo_db_plain = (Ok n, d') /\
    n = Z.of_nat (length out) /\
    indexes d' = indexes demo_db_plain /\
    heap_hist (heap d')
      (filter (fun x => negb (col_is "id" (VInt 10) (stored_row x)))
              [(mkRID 0 0, (demo_schema, demo_row))]) /\
    select_eq 8 demo_schema "id" (VInt 10) d' = (Ok [], d').
Proof.
  apply (delete_by_scan 8 demo_schema "id" (VInt 10) demo_db_plain
           [(mkRID 0 0, (demo_schema, demo_row))]).
  - exact one_row_hist.
  - exact demo_hist_schema.
  - reflexivity.
Defined.

End ExecScanFacts.
